(* ===== verification/_CoqProject ===== *)
-Q . S2P
Prelude.v
Float64.v
Bytes.v
SixDigits.v
PyJson.v
OpRecord.v
OpTransforms.v
Demo.v
OpStore.v
OpConcurrent.v
OpRunner.v
OpEngine.v
OpObserve.v
OpTheorems.v
Coordinator.v
Compat.v
Effects.v
FactReplace.v
MaintLock.v
RecordingGap.v
Facts.v
TextMatch.v
Oracle.v
OracleTheorems.v
Ann.v
OracleProjection.v
Delta.v
DeltaProjection.v
DeltaCheckpoint.v
DeltaSystem.v
DeltaTheorems.v
DeltaDemo.v
OracleDemo.v
Derived.v
Retention.v
Publish.v
PublishSafety.v
PublishRuns.v
PublishDemo.v
Build.v
BuildTheorems.v
BuildRuns.v
Staging.v
StagingSafety.v
StagingRuns.v
StagingFaults.v
BuildDemo.v
Recovery.v
RecoveryDemo.v
Evidence.v
EvidenceTheorems.v
EvidenceDemo.v
Adapter.v
Server.v
ServerTheorems.v
ServerDemo.v
Control.v
ControlTheorems.v
ControlDemo.v
