(* ===== verification/Prelude.v ===== *)
(** * The semantic memory of the rerank daemon: a verification library

    ** The program

    The input method records what its user selects as immutable facts, in one
    SQLite store that a C++ plugin writes ([src/src/fact_store.cc]).  The daemon
    ([src/daemon/], Python) derives from the facts what candidates are reranked
    with, and maintains facts and derived state while requests are being
    served.  This library models the parts of the daemon that decide what is
    durable, what is served and when, and proves them correct:

    - long operations (backup, restore, clear, ...) are records on disk that an
      executor drives through their phases and clients cancel ([operations.py]);
    - a coordinator takes requests, fact handles and builders out of the way of a
      maintenance operation and back ([coordinator.py]), at the word of clients of
      a control socket, each connection of which holds one lease ([control.py]);
    - maintenance replaces the fact store under an exclusive lock
      ([maintenance.py]);
    - a planner decides which derived state survives an identity change
      ([compat.py]);
    - a state machine follows the facts from an immutable generation and serves
      snapshots that are never older than a request ([delta.py]);
    - a ready staging is published as the new active generation, obsolete state
      is swept, and damage falls back to a rollback ([publish.py],
      [retention.py], the load path of [delta.py]);
    - the oracle ranks candidates by the evidence of the remembered events, in
      floating point ([oracle.py]), exactly or over the proposals of an approximate
      index ([ann.py]);
    - the evidence service answers a group of candidates through the delta machine
      or from the store itself, under one configuration identity ([evidence.py]);
    - the server attributes tokens to candidates, reduces their log probabilities,
      validates requests and answers connections under the coordinator's leases
      ([server.py]), and reports the adapter it serves with
      ([personal_lora_live.py]);
    - a generation is the vectors of a snapshot in one file, with rows, probes and
      checksums; it is built in one go ([generation.py]) or chunk by chunk by a
      worker beside the one that is served ([staging.py]), and every check is
      repeated when it is opened.

    ** The files and what they model

    Shared: [Prelude] (results, lists, reachability, the hint database [s2m]),
    [PyJson] (the Python values JSON carries and the canonical dump), [Effects]
    (computations whose system calls may each fail and which may be stopped
    anywhere, with a Hoare logic that has a crash condition, invariants of such
    computations, and faultless runs), [Float64] (binary64 arithmetic, with rounding
    and monotonicity facts), [Bytes] (slices of byte strings, binary32), [Demo],
    [DeltaDemo], [OracleDemo], [PublishDemo], [BuildDemo], [RecoveryDemo],
    [EvidenceDemo], [ServerDemo] and [ControlDemo] (concrete worlds for the
    witnesses).

    - [OpRecord]: [new_operation], the state and phase transitions and
      [validate_record] of [operations.py], on raw JSON with a typed view
      ([op_record], [to_json], [of_json]).  [OpTransforms]: every mutation of a
      record.  [OpStore]: [OperationStore] over a directory with types, owners and
      modes, and [_write_record] as a list of file-system calls whose prefixes are
      the crashes.  [OpConcurrent]: any number of processes in [mutate], as a
      step relation and as executable interleavings ([sys_run]).
      [OpRunner]: [try_run_pending_steps] as a transition system with cancels,
      crashes and arbitrary step results.  [OpEngine]: the executor as a function
      over the interface [RecordStore], with [create_operation] and
      [cancel_operation].  [OpObserve]: [wait_for_terminal], [public_record].
      [OpTheorems]: statements about the record layer.
    - [Coordinator]: [MaintenanceCoordinator], one function for each block under
      the condition and one rule of [coord_step] for each block of a thread.
      [Control]: the lines, calls and connections of the control socket, and its
      client; [ControlTheorems] drives a connection among the threads of
      [Coordinator] ([drives]).
    - [Compat]: the layered identity, [plan_actions] and its collapse loop.
    - [FactReplace]: [replace_fact_database] over a disk with unsynced directories
      and files.  [MaintLock]: leases, fact handles, [run_maintenance].
      [RecordingGap]: [read_recording_gap], each of its looks at another state.
    - [Facts]: the two transactions of the C++ writer as [facts_step], the
      invariant [wf_facts], and the Python readers.  [Delta]: the checkpoint, the
      projection, the batch, the gate, the publish switch, rebuild, block, retry
      and start of [DeltaStateMachine], and [_build_staging_delta].
      [DeltaProjection], [DeltaCheckpoint] and [DeltaSystem] carry the invariant
      through every step of [sys_step]; [DeltaTheorems] states the results.
    - [TextMatch]: the dictionary loader, [simplify], [canonicalize_segment_input]
      and the choice-problem key of [oracle.py].  [Oracle]: [compute_evidence] with
      both contribution paths, engines, masses and scores; [OracleTheorems] states
      the specification ([is_evidence], [follows_formula], [heaviest]) and proves
      it, [OracleProjection] shows what of an event it depends on.
    - [Derived]: the derived root ([droot]), the two pointer files with their
      validators, and the identity checks of [open_generation].  [Retention]: the
      rollback pointer, isolation and the sweep.  [Publish]: one publish attempt
      with its recovery, the seams of [staging.py] it calls, and the worker
      [GenerationPublisher]; [PublishSafety] and [PublishRuns] prove it.
      [Recovery]: [_load_or_build_generation] and [_recover_via_rollback].
    - [Build]: snapshot, target, chunks, metadata, probes and manifest,
      [build_generation] over the derived root, and every check of
      [open_generation] behind the identity.  [BuildTheorems]: the reference
      description of a container ([build_files], [spec_files]) and that it passes
      the checks; [BuildRuns]: the one-shot build writes it.
    - [Staging]: the memory of [StagingBuildMachine] and its cycle, operation by
      operation.  [StagingSafety]: what no turn does, for all faults and crashes;
      [StagingRuns]: the turns up to a ready container; [StagingFaults]: states the
      worker does not leave.
    - [Ann]: [compute_ann_evidence] over any neighbour index, and [BruteForceIndex].
      [SixDigits]: floats written with six significant digits and read back.
      [Evidence]: [EvidenceService] with the configuration identity, the fixture
      providers, the watermark check, both paths and the traces;
      [EvidenceTheorems] proves it.
    - [Server]: policy identities, [candidate_scoring_plan], the reductions and
      [ModelState.score], framing, validation, the handlers and
      [serve_scoring_connection], each as its reply and the list of what it does;
      [Adapter] is what the health report reads of the adapter directory;
      [ServerTheorems] proves it and interleaves the events of a connection with the
      threads of [Coordinator] ([follows]).

    ** How the parts meet

    [OpEngine] uses the store only through [RecordStore] and [RecordStoreLaws],
    which [OpStore] implements ([StoreInstance]).  The snapshots of [Delta] read
    the facts through the readers of [Facts], each at another moment of the step
    relation of the writer; [DeltaSystem] composes worker, writer, staging
    builder, maintenance and restarts.  [Publish] takes the checkpoint and the
    answer of the delta worker as data of its environment; [PublishRuns] puts
    [Delta.perform_publish_switch] in that place for the statement on stale
    epochs.  [Recovery] yields what [Delta.start_machine] starts with.
    [Derived.GenerationFiles] is what publication, retention and recovery need of
    the files of a container; [Build.dir_files] implements it with the real checks,
    and only there do vectors, rows and probes matter.  The probes run the oracle
    over the container's own rows; [OracleProjection] carries their results over to
    the rows read back.  [StagingRuns.staged_build_is_ready] ends in
    [PublishRuns.publishable], the state [ready_staging_is_published] starts from.
    [Evidence] asks the gate of [Delta] or the readers of [Facts] and hands both to
    [Oracle] or [Ann]; a direct look takes each of its reads from another state of
    the writer ([reads_grow]).  [Server] calls [Evidence.serve] with the machine at
    one moment and the gate at a later one.

    ** What the theorems show

    - Operations: no update is lost and every write is crash-atomic; for machines
      that do not start at their irreversible phase ([OpRunner.guarded_init]) every
      step is legal, a cancelled operation has run no irreversible phase and has been
      compensated, a finished one has run every phase; the executor terminates,
      completes and refines the transition system; records round-trip.
    - Maintenance: after [prepare] nothing of the facts is in use; serving resumes
      only on a proven epoch; a closed coordinator stays closed; a replacement
      leaves the old or the new facts at every crash; leases exclude each other; a
      control connection that has ended strands no lease, and a confirmed lease
      means a quiet daemon.
    - Compatibility: derived state is reused only when that is safe, and plans are
      complete, minimal and independent of the order in which sets iterate.
    - Delta: in every reachable state the snapshot of the current epoch is the
      facts' own projection at its watermark; the gate serves nothing older than
      the request and answers by its deadline; a switch is all or nothing, after
      the checks that [DeltaTheorems.switched] lists;
      checkpoints load back; a healthy cycle reaches the clock of the facts.
    - Derived state: the sweep never touches the ids it is told to keep, which are
      those of the pointers when their files can be read; a publish is crash-safe and
      reports truthfully whether it committed, as long as its recovery can read the
      pointer; a ready staging is published; a broken active generation is never
      served, and the rollback generation stays in place while it is recovered to
      (its pointer may be cleared by a refusal).
    - Oracle: the evidence is that of the specification (which events contribute,
      with which cosine, relevance, age and weight, which are kept, the masses and
      the scores), its masses and scores are finite and ordered, the cut keeps the heaviest, engines do not change it, and
      later facts do not change the past; the simplification takes longest matches.
    - Builds: the one-shot build publishes what opens; the turns of the staging
      worker end with byte for byte the same container, through restarts and growing
      facts, when no call fails and the facts keep their epoch ([StagingRuns.calm]);
      whatever fails, what is served is not touched and only a verified container is
      announced.
    - Evidence, for the exact backends: an answer of either path is the oracle's evidence over the facts at
      one moment during the request, covering what the request declares; a commit
      between the reads of the direct path is a fault, not a mixture (for providers
      that are not candidate-conditioned); on a store at rest, with the scalar oracle
      configured throughout, both paths agree; scores are bounded, zero evidence is never a change of
      order, approximate retrieval is exact on what it proposes, and the identity
      binds every parameter.
    - Server: no connection works or sends a result while maintenance is prepared,
      and every lease is completed once, last; a result answers its request; a
      score is the mean over exactly the candidate's tokens; every request is
      answered but four kinds that are named; framing does not depend on chunks.
    - What does not hold is stated too: [OpRunner.irreversible_first_phase_race],
      [DeltaTheorems.requested_rebuild_is_attempted_once],
      [PublishRuns.stale_commit_blocks_publishing],
      [StagingFaults.interrupted_first_chunk_is_stuck],
      [StagingFaults.ready_compaction_is_discarded] and the examples
      [Retention.unreadable_pointer_loses_generation],
      [PublishDemo.unreadable_recovery_loses_generation],
      [RecoveryDemo.transient_error_forgets_rollback], the last section of
      [BuildDemo], in [OracleDemo] a score of one, a cosine that is no number
      and a division by zero, and in [ServerDemo] a transport error for a huge trial
      score and for an adapter that cannot be read, a fault without a trace and a reply with another identity than its
      evidence.

    ** Conventions, bounds and fuel

    Python ints are [Z]; the clocks of the C++ writer are 64-bit, and [facts_step]
    only takes transactions whose clock stays in range ([in_range]), so that the
    decimal text that is stored parses back.  Floats are the binary64 values of
    [SpecFloat], and the vector file holds binary32.  [Oracle.py_sum] is [sum] as
    Python has it up to 3.11, from left to right; later versions compensate the
    rounding of a sum of floats.  [Publish.open_container] raises what the code
    raises for a directory that cannot be listed and for files that cannot be read;
    an error of the oracle inside the probes counts as a rejection.  The pointer
    reads of a publish's recovery ([Publish.read_active]) fail by the flags of the
    environment, not by the oracle of [Effects].  [Publish.write_progress] keeps the
    record it was given as the parsed file, and writes the temporary file in one
    call.
    Strings are byte strings.  Fuel occurs in eight loops, each with a theorem that a
    stated amount is enough for every input: [Compat.collapse_loop] (the number of
    actions), [MaintLock.acquire_loop] (any clock that passes the deadline), the
    executor of [OpEngine] (its step budget) and its [cancel_loop],
    [Build.write_all] (the bytes to write: every call takes some),
    [Build.chunk_loop] (the rows: every chunk has some), and [SixDigits.climb] and
    [SixDigits.descend] (the binary digits of the number: each turn takes three).  The wait loop of the gate
    recurses on the list of wake-ups.
    Concurrency is by interleaving of the blocks the code makes atomic.

    ** Not modelled, and why

    The components of the manifest name every other part of the repository.  Not
    here: model inference and the numerical retrieval backends, which are library
    calls (the provider of vectors is a record of functions, an engine is a
    function that may fail); SHA-256, JSON parsing, the composition of Unicode and
    the power function, which are parameters ([PyJson.PyStdlib], [Build.BuildLib],
    [TextMatch.Unicode], [Oracle.Libm], [Server.JsonDecoder],
    [Control.JsonLines]); SQLite, which is its transactions and their failures; the accessors of an opened generation, its use as a provider and the
    replay tool; the construction of the staging worker from the configuration; the
    production operations that run on the engine; sockets, command line, status,
    tracing and deployment; the input archive ([src/archive/]) and the offline
    experiments ([src/eval/], [src/tools/]). *)

From stdpp Require Export base list strings gmap relations.
From Stdlib Require Export Lia.

(** ** Results: a Python call returns a value or raises *)

Inductive result (E A : Type) : Type :=
| Ok (a : A)
| Err (e : E).
Arguments Ok {E A} a.
Arguments Err {E A} e.

#[export] Instance result_ret {E} : MRet (result E) := λ A a, Ok a.
#[export] Instance result_bind {E} : MBind (result E) :=
  λ A B f m, match m with Ok a => f a | Err e => Err e end.

Definition guard_err {E} (b : bool) (e : E) : result E unit :=
  if b then Err e else Ok tt.

(** [let* p := m in k]: run [m], match its result against [p], or fail with it. *)
Notation "'let*' p := m 'in' k" := (match m with Ok p => k | Err e => Err e end)
  (at level 200, p pattern, m at level 200, k at level 200,
   format "'[v' 'let*'  p  :=  m  'in' '/' k ']'").

Lemma bind_Ok {E A B} (m : result E A) (f : A → result E B) b :
  (m ≫= f) = Ok b ↔ ∃ a, m = Ok a ∧ f a = Ok b.
Proof.
  destruct m; simpl; split.
  - eauto.
  - by intros (?&[= ->]&?).
  - done.
  - by intros (?&?&?).
Qed.

Lemma guard_err_Ok {E} (b : bool) (e : E) u :
  guard_err b e = Ok u ↔ b = false.
Proof. destruct b, u; simpl; naive_solver. Qed.

Lemma bind_Err {E A B} (m : result E A) (f : A → result E B) e :
  (m ≫= f) = Err e ↔ m = Err e ∨ ∃ a, m = Ok a ∧ f a = Err e.
Proof.
  destruct m as [x|x]; simpl; [|naive_solver]. split; [eauto|].
  by intros [[=]|(?&[= ->]&?)].
Qed.

Lemma guard_err_Err {E} (b : bool) (e e' : E) :
  guard_err b e = Err e' ↔ b = true ∧ e = e'.
Proof. destruct b; simpl; naive_solver. Qed.

(** ** Tactics *)

(** Case analysis on the first [match] or [if] of the goal or of a hypothesis. *)
Ltac split_match :=
  match goal with
  | |- context [match ?x with _ => _ end] => destruct x eqn:?
  end.

Ltac split_match_in H :=
  match type of H with
  | context [match ?x with _ => _ end] => destruct x eqn:?
  end.

(** Turn boolean hypotheses and goals into propositions. *)
Ltac bool_to_prop :=
  repeat match goal with
  | H : _ && _ = true |- _ => apply andb_true_iff in H as [? ?]
  | H : _ || _ = false |- _ => apply orb_false_iff in H as [? ?]
  | H : negb _ = true |- _ => apply negb_true_iff in H
  | H : negb _ = false |- _ => apply negb_false_iff in H
  | H : bool_decide _ = true |- _ => apply bool_decide_eq_true in H
  | H : bool_decide _ = false |- _ => apply bool_decide_eq_false in H
  | H : String.eqb _ _ = true |- _ => apply String.eqb_eq in H
  | H : String.eqb _ _ = false |- _ => apply String.eqb_neq in H
  | H : Z.eqb _ _ = true |- _ => apply Z.eqb_eq in H
  | H : Z.eqb _ _ = false |- _ => apply Z.eqb_neq in H
  | H : Z.ltb _ _ = true |- _ => apply Z.ltb_lt in H
  | H : Z.ltb _ _ = false |- _ => apply Z.ltb_ge in H
  | H : Z.leb _ _ = true |- _ => apply Z.leb_le in H
  | H : Z.leb _ _ = false |- _ => apply Z.leb_gt in H
  | H : Nat.ltb _ _ = true |- _ => apply Nat.ltb_lt in H
  | H : Nat.ltb _ _ = false |- _ => apply Nat.ltb_ge in H
  | H : Nat.leb _ _ = true |- _ => apply Nat.leb_le in H
  | H : Nat.leb _ _ = false |- _ => apply Nat.leb_gt in H
  end.

(** Take a successful computation apart: every bind succeeded, every guard let
    the call through. *)
Ltac ok_inv :=
  repeat match goal with
  | H : (match ?m with Ok _ => _ | Err _ => Err _ end) = Ok _ |- _ =>
      let E := fresh "Hok" in destruct m as [|] eqn:E; [|discriminate H]
  | H : (match ?x with (_, _) => _ end) = Ok _ |- _ => destruct x
  | H : mbind _ _ = Ok _ |- _ =>
      let E := fresh "Hok" in apply bind_Ok in H as (?&E&H)
  | H : guard_err _ _ = Ok _ |- _ => apply guard_err_Ok in H
  | H : Ok _ = Ok _ |- _ => injection H as H; subst
  | H : Err _ = Ok _ |- _ => discriminate H
  end; bool_to_prop; simplify_eq.

(** Take a failed computation apart: one goal for each place that raises. *)
Ltac err_inv :=
  repeat match goal with
  | H : (match ?m with Ok _ => _ | Err _ => Err _ end) = Err _ |- _ =>
      let E := fresh "Herr" in destruct m as [|] eqn:E; [|injection H as H; subst]
  | H : (match ?x with (_, _) => _ end) = Err _ |- _ => destruct x
  | H : mbind _ _ = Err _ |- _ =>
      let E := fresh "Hok" in apply bind_Err in H as [H|(?&E&H)]
  | H : guard_err _ _ = Err _ |- _ => apply guard_err_Err in H as [? H]; subst
  | H : Ok _ = Err _ |- _ => discriminate H
  | H : Err _ = Err _ |- _ => injection H as H; subst
  end.

(** ** Python's [list.index] *)

Section list_index.
Context {A : Type} `{EqDecision A}.

(** [l.index(x)]: the first position of [x]; [None] is the [ValueError]. *)
Fixpoint list_index (x : A) (l : list A) : option nat :=
  match l with
  | [] => None
  | y :: l' => if decide (x = y) then Some 0%nat else S <$> list_index x l'
  end.

Lemma list_index_lookup x l i : list_index x l = Some i → l !! i = Some x.
Proof.
  revert i. induction l as [|y l IH]; intros i; [done|]. simpl.
  case_decide as H; [intros [= <-]; simpl; congruence|].
  intros (j & Hj & ->)%fmap_Some. simpl. eauto.
Qed.

Lemma list_index_elem_of x l : x ∈ l → ∃ i, list_index x l = Some i.
Proof.
  induction l as [|y l IH]; [by intros ?%not_elem_of_nil|]. simpl.
  intros [->|Hx]%elem_of_cons; [rewrite decide_True; eauto|].
  case_decide; [eauto|]. destruct (IH Hx) as [i ->]. simpl; eauto.
Qed.

Lemma list_index_elem_of_inv x l i : list_index x l = Some i → x ∈ l.
Proof. intros H%list_index_lookup. by eapply list_elem_of_lookup_2. Qed.

Lemma list_index_None x l : list_index x l = None ↔ x ∉ l.
Proof.
  split.
  - intros HN Hin. destruct (list_index_elem_of x l Hin) as [i Hi]. congruence.
  - intros Hni. destruct (list_index x l) as [i|] eqn:E; [|done].
    by apply list_index_elem_of_inv in E.
Qed.

Lemma list_index_NoDup x l i :
  NoDup l → l !! i = Some x → list_index x l = Some i.
Proof.
  intros Hnd Hl.
  destruct (list_index_elem_of x l) as [j Hj].
  { by eapply list_elem_of_lookup_2. }
  assert (i = j) as ->; [|done].
  eapply NoDup_lookup; eauto using list_index_lookup.
Qed.

Lemma list_index_lt x l i : list_index x l = Some i → (i < length l)%nat.
Proof. intros H%list_index_lookup. by eapply lookup_lt_Some. Qed.
End list_index.

(** ** Transition systems *)

(** A transition system is a set of initial states and a step relation; a
    state is reachable when some initial state reaches it. *)
Section transition_system.
Context {S : Type} (init : S → Prop) (step : relation S).

Definition reachable (s : S) : Prop := ∃ s0, init s0 ∧ rtc step s0 s.

Lemma reachable_init s : init s → reachable s.
Proof. intros ?; exists s; split; [done|constructor]. Qed.

Lemma reachable_step s s' : reachable s → step s s' → reachable s'.
Proof. intros (s0&?&?) ?. exists s0. split; [done|]. by eapply rtc_r. Qed.

(** Invariants by rule induction; the step case may use reachability, hence
    any invariant proved before. *)
Lemma reachable_invariant (P : S → Prop) :
  (∀ s, init s → P s) →
  (∀ s s', reachable s → P s → step s s' → P s') →
  ∀ s, reachable s → P s.
Proof.
  intros Hi Hs s (s0&Hi0&Hr). revert Hr. revert s.
  apply (rtc_ind_r (λ s, P s)).
  - by apply Hi.
  - intros y z Hy Hyz IH. eapply (Hs y); eauto. by exists s0.
Qed.

Lemma rtc_preserves (P : S → Prop) s s' :
  (∀ a b, P a → step a b → P b) → P s → rtc step s s' → P s'.
Proof. intros Hp Hs Hr. induction Hr; eauto. Qed.
End transition_system.

Create HintDb s2m discriminated.
#[export] Hint Resolve reachable_init reachable_step : s2m.
#[export] Hint Resolve list_index_elem_of_inv list_index_lookup : s2m.
