(* ===== verification/Float64.v ===== *)
(** * Binary64 arithmetic: what the evidence of the oracle computes with

    Python floats are IEEE 754 binary64 numbers.  The operations are those of
    [SpecFloat] at the precision of binary64; [max], [min] and comparisons are
    Python's.  The lemmas say how rounding meets representable bounds: a rounded
    sum, product or quotient never crosses a number that the exact result does not
    cross. *)

From Stdlib Require Import SpecFloat.
From stdpp Require Import base list.
From S2P Require Import Prelude.
Open Scope Z_scope.

Notation float := spec_float.
Notation PREC := 53.
Notation EMAX := 1024.

(** ** Operations *)

Definition fadd : float → float → float := SFadd PREC EMAX.
Definition fsub : float → float → float := SFsub PREC EMAX.
Definition fmul : float → float → float := SFmul PREC EMAX.
Definition fdiv : float → float → float := SFdiv PREC EMAX.
Definition fsqrt : float → float := SFsqrt PREC EMAX.
Definition fopp : float → float := SFopp.

(** An [int] operand, rounded to the nearest float. *)
Definition float_of_Z (z : Z) : float := binary_normalize PREC EMAX z 0 false.

Definition fzero : float := S754_zero false.
Definition fone : float := S754_finite false 4503599627370496 (-52).

Definition fltb : float → float → bool := SFltb.
Definition fleb : float → float → bool := SFleb.
Definition feqb : float → float → bool := SFeqb.

(** [math.isfinite] and [math.isinf] *)
Definition is_finite (x : float) : bool :=
  match x with S754_zero _ | S754_finite _ _ _ => true | _ => false end.
Definition is_inf (x : float) : bool := match x with S754_infinity _ => true | _ => false end.

(** [max(x, y)] and [min(x, y)]: the second only when it is strictly beyond. *)
Definition py_max (x y : float) : float := if fltb x y then y else x.
Definition py_min (x y : float) : float := if fltb y x then y else x.

#[global] Arguments fadd : simpl never.
#[global] Arguments fsub : simpl never.
#[global] Arguments fmul : simpl never.
#[global] Arguments fdiv : simpl never.
#[global] Arguments fsqrt : simpl never.
#[global] Arguments fltb : simpl never.
#[global] Arguments fleb : simpl never.
#[global] Arguments feqb : simpl never.

(** Every float a program holds is canonical. *)
Definition valid (x : float) : Prop := valid_binary PREC EMAX x = true.

(** ** Binary digits *)

Lemma digits2_bounds p :
  2 ^ (Zpos (digits2_pos p) - 1) <= Zpos p < 2 ^ Zpos (digits2_pos p).
Proof.
  induction p as [p [IH1 IH2]|p [IH1 IH2]|]; simpl digits2_pos; [| |by simpl].
  all: rewrite Pos2Z.inj_succ; replace (Z.succ (Zpos (digits2_pos p)) - 1) with (Z.succ (Zpos (digits2_pos p) - 1)) by lia.
  all: rewrite !Z.pow_succ_r by lia; lia.
Qed.

Definition digits : Z → Z := Zdigits2.

Lemma digits_pos m : 0 < m → 2 ^ (digits m - 1) <= m < 2 ^ digits m ∧ 0 < digits m.
Proof. destruct m as [|p|p]; [done| |done]. intros _. split; [apply digits2_bounds|done]. Qed.

Lemma digits_nonneg m : 0 <= digits m.
Proof. by destruct m. Qed.

Lemma digits_le m k : 0 <= m → 0 <= k → m < 2 ^ k → digits m <= k.
Proof.
  intros Hm Hk Hlt. destruct (decide (m = 0)) as [->|]; [done|]. destruct (digits_pos m) as [[H1 _] H2]; [lia|].
  apply Z.nlt_ge. intros Hc. assert (2 ^ k <= 2 ^ (digits m - 1)) by (apply Z.pow_le_mono_r; lia). lia.
Qed.

Lemma digits_ge m k : 0 <= k → 2 ^ k <= m → k < digits m.
Proof.
  intros Hk Hle. assert (0 < 2 ^ k) by (apply Z.pow_pos_nonneg; lia).
  destruct (digits_pos m) as [[_ H1] H2]; [lia|]. apply Z.nle_gt. intros Hc.
  assert (2 ^ digits m <= 2 ^ k) by (apply Z.pow_le_mono_r; lia). lia.
Qed.

(** ** Shifting out digits *)

Definition lost (r : shr_record) : bool := shr_r r || shr_s r.

Lemma shr_1_spec r : 0 <= shr_m r →
  shr_m (shr_1 r) = shr_m r / 2 ∧ lost (shr_1 r) = negb (shr_m r mod 2 =? 0) || lost r.
Proof.
  destruct r as [[|[p|p|]|p] r s]; unfold lost; cbn -[Z.div Z.modulo]; intros Hm; try lia.
  - done.
  - split; [|by rewrite Pos2Z.inj_xI, Z.add_comm, Z.mul_comm, Z.mod_add].
    by rewrite Pos2Z.inj_xI, Z.mul_comm, Z.div_add_l by lia; rewrite Z.add_0_r.
  - split; [by rewrite Pos2Z.inj_xO, Z.mul_comm, Z.div_mul by lia|].
    by rewrite Pos2Z.inj_xO, Z.mul_comm, Z.mod_mul by lia.
  - done.
Qed.

(** [d] shifts: the quotient by [2 ^ d], and whether anything was lost. *)
Lemma iter_shr d r : 0 <= shr_m r →
  shr_m (SpecFloat.iter_pos shr_1 d r) = shr_m r / 2 ^ Zpos d ∧
  lost (SpecFloat.iter_pos shr_1 d r) = negb (shr_m r mod 2 ^ Zpos d =? 0) || lost r.
Proof.
  assert (∀ m a b, 0 <= m → 0 < a → 0 < b → m / a / b = m / (a * b) ∧
    (negb (m / a mod b =? 0) || negb (m mod a =? 0)) = negb (m mod (a * b) =? 0)) as Hsplit.
  { intros m a b Hm Ha Hb. split; [by rewrite Z.div_div by lia|].
    rewrite Z.rem_mul_r by lia. pose proof (Z.mod_pos_bound m a Ha). pose proof (Z.mod_pos_bound (m / a) b Hb).
    destruct (Z.eqb_spec (m / a mod b) 0), (Z.eqb_spec (m mod a) 0), (Z.eqb_spec (m mod a + a * (m / a mod b)) 0);
      try done; nia. }
  revert r. induction d as [d IH|d IH|]; intros r Hr; simpl SpecFloat.iter_pos.
  - destruct (shr_1_spec r Hr) as [H1 H2].
    assert (0 <= shr_m (shr_1 r)) as Hr1 by (rewrite H1; by apply Z.div_pos).
    destruct (IH _ Hr1) as [H3 H4].
    assert (0 <= shr_m (SpecFloat.iter_pos shr_1 d (shr_1 r))) as Hr2 by (rewrite H3; apply Z.div_pos; lia).
    destruct (IH _ Hr2) as [H5 H6]. set (t := 2 ^ Zpos d) in *. assert (0 < t) by (apply Z.pow_pos_nonneg; lia).
    assert (2 ^ Zpos d~1 = 2 * t * t) as ->.
    { subst t. replace (Zpos d~1) with (1 + (Zpos d + Zpos d)) by lia. rewrite !Z.pow_add_r by lia. lia. }
    destruct (Hsplit (shr_m r) 2 t) as [E1 E2]; [lia..|]. destruct (Hsplit (shr_m r) (2 * t) t) as [E3 E4]; [lia..|].
    rewrite H5, H6, H4, H3, H2, H1, E1. split; [done|]. rewrite <- E4, <- E2. by rewrite !orb_assoc.
  - destruct (IH _ Hr) as [H3 H4].
    assert (0 <= shr_m (SpecFloat.iter_pos shr_1 d r)) as Hr2 by (rewrite H3; apply Z.div_pos; lia).
    destruct (IH _ Hr2) as [H5 H6]. set (t := 2 ^ Zpos d) in *. assert (0 < t) by (apply Z.pow_pos_nonneg; lia).
    assert (2 ^ Zpos d~0 = t * t) as ->.
    { subst t. replace (Zpos d~0) with (Zpos d + Zpos d) by lia. by rewrite Z.pow_add_r by lia. }
    destruct (Hsplit (shr_m r) t t) as [E1 E2]; [lia..|].
    rewrite H5, H6, H4, H3. split; [done|]. rewrite <- E2. by rewrite !orb_assoc.
  - by apply shr_1_spec.
Qed.

(** ** Rounding *)

Definition fexp64 (e : Z) : Z := fexp PREC EMAX e.
Lemma fexp64_eq e : fexp64 e = Z.max (e - 53) (-1074).
Proof. done. Qed.

Definition is_exact (l : location) : bool := match l with loc_Exact => true | _ => false end.

Lemma shr_fexp_form m e l : 0 <= m → e <= fexp64 (digits m + e) →
  let n := fexp64 (digits m + e) - e in
  ∃ mrs, shr_fexp PREC EMAX m e l = (mrs, fexp64 (digits m + e)) ∧
         shr_m mrs = m / 2 ^ n ∧ lost mrs = negb (m mod 2 ^ n =? 0) || negb (is_exact l).
Proof.
  intros Hm He n. unfold shr_fexp, shr. change (fexp PREC EMAX (Zdigits2 m + e)) with (fexp64 (digits m + e)).
  assert (shr_m (shr_record_of_loc m l) = m ∧ lost (shr_record_of_loc m l) = negb (is_exact l)) as [H1 H2]
    by by destruct l as [|[]].
  fold n. destruct n as [|d|d] eqn:En; [| |exfalso; subst n; lia].
  - exists (shr_record_of_loc m l). rewrite H1, H2, Z.pow_0_r, Z.div_1_r, Z.mod_1_r. split; [|done]. f_equal. subst n. lia.
  - destruct (iter_shr d (shr_record_of_loc m l)) as [H3 H4]; [by rewrite H1|].
    eexists. split; [by replace (fexp64 (digits m + e)) with (e + Zpos d) by lia|].
    by rewrite H3, H4, H1, H2.
Qed.

(** What is left of the rounded mantissa [r] at exponent [e]. *)
Definition pack (s : bool) (r e : Z) : float :=
  if r =? 0 then S754_zero s
  else
    let '(r, e) := if r =? 2 ^ 53 then (2 ^ 52, e + 1) else (r, e) in
    if e <=? 971 then S754_finite s (Z.to_pos r) e else S754_infinity s.

Lemma shifted_small m e : 0 <= m → e <= fexp64 (digits m + e) → m / 2 ^ (fexp64 (digits m + e) - e) < 2 ^ 53.
Proof.
  intros Hm He. destruct (decide (m = 0)) as [->|Hne]; [by rewrite Z.div_0_l by (apply Z.pow_nonzero; lia)|].
  destruct (digits_pos m) as [[_ Hd] _]; [lia|]. apply Z.div_lt_upper_bound; [apply Z.pow_pos_nonneg; lia|].
  eapply Z.lt_le_trans; [exact Hd|]. rewrite <- Z.pow_add_r by lia. apply Z.pow_le_mono_r; [lia|].
  rewrite fexp64_eq in *. lia.
Qed.

Lemma round_aux_form s m e l : 0 <= m → e <= fexp64 (digits m + e) →
  let E := fexp64 (digits m + e) in
  ∃ r, binary_round_aux PREC EMAX s m e l = pack s r E ∧
       (r = m / 2 ^ (E - e) ∨ (r = m / 2 ^ (E - e) + 1 ∧ (m mod 2 ^ (E - e) ≠ 0 ∨ is_exact l = false))).
Proof.
  intros Hm He E. destruct (shr_fexp_form m e l Hm He) as (mrs&Hs&Hq&Hl). fold E in Hs, Hq, Hl.
  pose proof (shifted_small m e Hm He) as Hlt. fold E in Hlt. rewrite <- Hq in Hlt.
  assert (0 <= shr_m mrs) as H0 by (rewrite Hq; apply Z.div_pos; [lia|apply Z.pow_pos_nonneg; lia]).
  set (r := round_nearest_even (shr_m mrs) (loc_of_shr_record mrs)).
  assert (r = shr_m mrs ∨ (r = shr_m mrs + 1 ∧ lost mrs = true)) as Hr.
  { subst r. destruct mrs as [q [] []]; unfold lost; simpl; [by right|destruct (Z.even q); [by left|by right]|by left..]. }
  assert (0 <= r <= 2 ^ 53) as Hrb by (destruct Hr as [->|[-> _]]; lia).
  exists r. split; [|rewrite <- Hq; destruct Hr as [?|[? Hlost]]; [by left|right; split; [done|]]].
  2: { rewrite Hl in Hlost. apply orb_true_iff in Hlost as [Hx|Hx]; [left; by destruct (Z.eqb_spec (m mod 2 ^ (E - e)) 0)|].
       right. by apply negb_true_iff. }
  unfold binary_round_aux. rewrite Hs. fold r. unfold pack.
  assert (-1074 <= E) as HE by (subst E; rewrite fexp64_eq; lia).
  destruct (Z.eqb_spec r (2 ^ 53)) as [Hbig|Hbig].
  - rewrite Hbig. unfold shr_fexp, shr.
    assert (fexp PREC EMAX (Zdigits2 (2 ^ 53) + E) - E = 1) as ->.
    { change (Zdigits2 (2 ^ 53)) with 54. change (fexp PREC EMAX (54 + E)) with (fexp64 (54 + E)). rewrite fexp64_eq. lia. }
    change (shr_m (SpecFloat.iter_pos shr_1 1 (shr_record_of_loc (2 ^ 53) loc_Exact))) with (2 ^ 52).
    reflexivity.
  - unfold shr_fexp, shr.
    assert (digits r <= 53) as Hd by (apply digits_le; lia).
    assert (fexp PREC EMAX (Zdigits2 r + E) - E <= 0) as Hn.
    { change (fexp PREC EMAX (Zdigits2 r + E)) with (fexp64 (digits r + E)). rewrite fexp64_eq. lia. }
    destruct (fexp PREC EMAX (Zdigits2 r + E) - E) as [|d|d]; [|lia|].
    all: destruct r as [|p|p]; [reflexivity|reflexivity|lia].
Qed.

(** ** Order *)

(** [m * 2 ^ e <= m' * 2 ^ e'] and its strict form. *)
Definition scaled_le (m e m' e' : Z) : Prop := m * 2 ^ (e - Z.min e e') <= m' * 2 ^ (e' - Z.min e e').
Definition scaled_lt (m e m' e' : Z) : Prop := m * 2 ^ (e - Z.min e e') < m' * 2 ^ (e' - Z.min e e').

Lemma pow2_pos k : 0 <= k → 0 < 2 ^ k.
Proof. intros. apply Z.pow_pos_nonneg; lia. Qed.

(** A common scale cancels. *)
Lemma scaled_at m e m' e' K : K <= e → K <= e' →
  (scaled_le m e m' e' ↔ m * 2 ^ (e - K) <= m' * 2 ^ (e' - K)) ∧
  (scaled_lt m e m' e' ↔ m * 2 ^ (e - K) < m' * 2 ^ (e' - K)).
Proof.
  intros H1 H2. unfold scaled_le, scaled_lt. set (L := Z.min e e').
  assert (e - K = (e - L) + (L - K)) as -> by lia. assert (e' - K = (e' - L) + (L - K)) as -> by lia.
  rewrite !(Z.pow_add_r 2) by lia. rewrite !Z.mul_assoc. pose proof (pow2_pos (L - K)) as Hp.
  rewrite <- Z.mul_le_mono_pos_r, <- Z.mul_lt_mono_pos_r by lia. done.
Qed.

Lemma scaled_le_iff m e m' e' : scaled_le m e m' e' ↔ ¬ scaled_lt m' e' m e.
Proof. unfold scaled_le, scaled_lt. rewrite (Z.min_comm e' e). lia. Qed.

Lemma scaled_lt_le m e m' e' : scaled_lt m e m' e' → scaled_le m e m' e'.
Proof. unfold scaled_le, scaled_lt. lia. Qed.

(** A mantissa and exponent as a canonical float has them. *)
Definition canonical (m e : Z) : Prop := 0 < m < 2 ^ 53 ∧ -1074 <= e <= 971 ∧ (e = -1074 ∨ 2 ^ 52 <= m).

Lemma canonical_fexp m e : 0 < m → fexp64 (digits m + e) = e → m < 2 ^ 53 ∧ -1074 <= e ∧ (e = -1074 ∨ 2 ^ 52 <= m).
Proof.
  intros Hm. rewrite fexp64_eq. intros He. destruct (digits_pos m Hm) as [[H1 H2] H3].
  assert (2 ^ digits m <= 2 ^ 53) by (apply Z.pow_le_mono_r; lia). split_and!; [lia|lia|].
  destruct (decide (e = -1074)); [by left|right]. assert (digits m = 53) as Hd by lia. by rewrite Hd in H1.
Qed.

Lemma fexp_canonical m e : 0 < m < 2 ^ 53 → -1074 <= e → e = -1074 ∨ 2 ^ 52 <= m → fexp64 (digits m + e) = e.
Proof.
  intros Hm He Hc. rewrite fexp64_eq. pose proof (digits_le m 53 ltac:(lia) ltac:(lia) ltac:(lia)).
  destruct Hc as [->|Hc]; [lia|]. pose proof (digits_ge m 52 ltac:(lia) Hc). lia.
Qed.

Lemma valid_finite s p e : valid (S754_finite s p e) ↔ canonical (Zpos p) e.
Proof.
  unfold valid, valid_binary, bounded, canonical_mantissa. rewrite andb_true_iff, Z.eqb_eq, Z.leb_le.
  change (Zpos (digits2_pos p)) with (digits (Zpos p)). change (fexp PREC EMAX ?x) with (fexp64 x).
  change (EMAX - PREC) with 971. split.
  - intros [H1 H2]. apply canonical_fexp in H1 as (?&?&?); [|lia]. split_and!; [lia|done..].
  - intros (H1&[H2 H3]&H4). split; [by apply fexp_canonical|done].
Qed.

Lemma canonical_compare m e m' e' : canonical m e → canonical m' e' →
  (e < e' → scaled_lt m e m' e') ∧ (e = e' → scaled_lt m e m' e' ↔ m < m').
Proof.
  intros (Hm&He&Hc) (Hm'&He'&Hc'). split.
  - intros Hlt. apply (proj2 (scaled_at m e m' e' e ltac:(lia) ltac:(lia))).
    rewrite Z.sub_diag, Z.pow_0_r, Z.mul_1_r.
    assert (2 ^ 1 <= 2 ^ (e' - e)) by (apply Z.pow_le_mono_r; lia). destruct Hc' as [?|?]; [lia|nia].
  - intros <-. rewrite (proj2 (scaled_at m e m' e e ltac:(lia) ltac:(lia))). rewrite Z.sub_diag, Z.pow_0_r. lia.
Qed.

Lemma fleb_finite p e p' e' : canonical (Zpos p) e → canonical (Zpos p') e' →
  fleb (S754_finite false p e) (S754_finite false p' e') = true ↔ scaled_le (Zpos p) e (Zpos p') e'.
Proof.
  intros H1 H2. destruct (canonical_compare _ _ _ _ H1 H2) as [Hlt Heq].
  destruct (canonical_compare _ _ _ _ H2 H1) as [Hgt Heq'].
  rewrite scaled_le_iff. unfold fleb, SFleb, SFcompare. change (Pos.compare_cont Eq p p') with (Pos.compare p p').
  destruct (Z.compare_spec e e') as [->|Hl|Hg].
  - rewrite Heq' by done. destruct (Pos.compare_spec p p'); naive_solver lia.
  - specialize (Hlt Hl). apply scaled_lt_le, scaled_le_iff in Hlt. done.
  - specialize (Hgt Hg). naive_solver.
Qed.

(** ** Rounding against representable bounds *)

Lemma shifted_large m e : 0 <= m → e <= fexp64 (digits m + e) →
  let E := fexp64 (digits m + e) in
  -1074 <= E ∧ (E = -1074 ∨ 2 ^ 52 <= m / 2 ^ (E - e)).
Proof.
  intros Hm He E. destruct (decide (m = 0)) as [->|Hne].
  { subst E. change (digits 0) with 0 in *. rewrite fexp64_eq in *. lia. }
  assert (0 < m) as Hpos by lia. clear Hm. rename Hpos into Hm. destruct (digits_pos m Hm) as [[Hd _] _]. subst E. rewrite fexp64_eq in *. split; [lia|].
  destruct (decide (digits m + e - 53 <= -1074)); [left; lia|right].
  assert (Z.max (digits m + e - 53) (-1074) - e = digits m - 53) as -> by lia.
  apply Z.div_le_lower_bound; [apply pow2_pos; lia|].
  rewrite <- Z.pow_add_r by lia. by replace (digits m - 53 + 52) with (digits m - 1) by lia.
Qed.

(** The rounded value as a float and as mantissa and exponent. *)
Lemma pack_canonical s r e : 0 < r <= 2 ^ 53 → -1074 <= e → e = -1074 ∨ 2 ^ 52 <= r →
  ∃ m' e', 0 < m' < 2 ^ 53 ∧ -1074 <= e' ∧ (e' = -1074 ∨ 2 ^ 52 <= m') ∧
    (∀ m0 e0, (scaled_le r e m0 e0 ↔ scaled_le m' e' m0 e0) ∧ (scaled_le m0 e0 r e ↔ scaled_le m0 e0 m' e')) ∧
    pack s r e = if e' <=? 971 then S754_finite s (Z.to_pos m') e' else S754_infinity s.
Proof.
  intros Hr He Hc. unfold pack. destruct (Z.eqb_spec r 0) as [->|_]; [lia|].
  destruct (Z.eqb_spec r (2 ^ 53)) as [->|Hne].
  - exists (2 ^ 52), (e + 1). split_and!; [lia..|by right| |done].
    intros m0 e0. set (K := Z.min e e0).
    rewrite !(proj1 (scaled_at (2 ^ 53) e m0 e0 K ltac:(lia) ltac:(lia))), !(proj1 (scaled_at m0 e0 (2 ^ 53) e K ltac:(lia) ltac:(lia))).
    rewrite !(proj1 (scaled_at (2 ^ 52) (e + 1) m0 e0 K ltac:(lia) ltac:(lia))), !(proj1 (scaled_at m0 e0 (2 ^ 52) (e + 1) K ltac:(lia) ltac:(lia))).
    replace (e + 1 - K) with (1 + (e - K)) by lia. rewrite (Z.pow_add_r 2 1) by lia. split; lia.
  - exists r, e. split_and!; try done; lia.
Qed.

(** The largest binary64 mantissa and exponent below infinity. *)
Lemma beyond_971 m e m0 e0 : canonical m0 e0 → 2 ^ 52 <= m → 971 < e → ¬ scaled_le m e m0 e0.
Proof.
  intros (H1&H2&_) Hm He. rewrite (proj1 (scaled_at m e m0 e0 e0 ltac:(lia) ltac:(lia))).
  rewrite Z.sub_diag, Z.pow_0_r. assert (2 ^ 1 <= 2 ^ (e - e0)) by (apply Z.pow_le_mono_r; lia). nia.
Qed.

Lemma pack_le r e p0 e0 : 0 <= r <= 2 ^ 53 → -1074 <= e → e = -1074 ∨ 2 ^ 52 <= r →
  canonical (Zpos p0) e0 → scaled_le r e (Zpos p0) e0 →
  fleb (pack false r e) (S754_finite false p0 e0) = true.
Proof.
  intros Hr He Hc H0 Hle. destruct (decide (r = 0)) as [->|Hne]; [done|].
  destruct (pack_canonical false r e) as (m'&e'&Hm'&He'&Hc'&Hsc&->); [lia|done..|].
  apply Hsc in Hle. destruct (Z.leb_spec e' 971) as [Hs|Hb].
  - rewrite <- (Z2Pos.id m') in Hle by lia. apply fleb_finite; [|done..].
    rewrite Z2Pos.id by lia. split_and!; [lia..|done].
  - exfalso. eapply (beyond_971 m' e'); [done|destruct Hc'; lia|done|done].
Qed.

Lemma pack_ge r e p0 e0 : 0 <= r <= 2 ^ 53 → -1074 <= e → e = -1074 ∨ 2 ^ 52 <= r →
  canonical (Zpos p0) e0 → scaled_le (Zpos p0) e0 r e →
  fleb (S754_finite false p0 e0) (pack false r e) = true.
Proof.
  intros Hr He Hc H0 Hle. destruct (decide (r = 0)) as [->|Hne].
  { unfold scaled_le in Hle. pose proof (pow2_pos (e0 - Z.min e0 e)). lia. }
  destruct (pack_canonical false r e) as (m'&e'&Hm'&He'&Hc'&Hsc&->); [lia|done..|].
  apply Hsc in Hle. destruct (Z.leb_spec e' 971) as [Hs|Hb]; [|done].
  rewrite <- (Z2Pos.id m') in Hle by lia. apply fleb_finite; [done| |done].
  rewrite Z2Pos.id by lia. split_and!; [lia..|done].
Qed.

Lemma pack_valid s r e : 0 <= r <= 2 ^ 53 → -1074 <= e → e = -1074 ∨ 2 ^ 52 <= r → valid (pack s r e).
Proof.
  intros Hr He Hc. destruct (decide (r = 0)) as [->|Hne]; [done|].
  destruct (pack_canonical s r e) as (m'&e'&Hm'&He'&Hc'&_&->); [lia|done..|].
  destruct (Z.leb_spec e' 971); [|done]. apply valid_finite. rewrite Z2Pos.id by lia. split_and!; [lia..|done].
Qed.

Section rounding.
Context (m e : Z) (l : location) (Hm : 0 <= m) (He : e <= fexp64 (digits m + e)).
Local Notation E := (fexp64 (digits m + e)).

Lemma rounded s : ∃ r,
  binary_round_aux PREC EMAX s m e l = pack s r E ∧ 0 <= r <= 2 ^ 53 ∧ (E = -1074 ∨ 2 ^ 52 <= r) ∧
  m / 2 ^ (E - e) <= r ∧
  (r = m / 2 ^ (E - e) ∨ r = m / 2 ^ (E - e) + 1 ∧ (m mod 2 ^ (E - e) ≠ 0 ∨ is_exact l = false)).
Proof using Hm He.
  destruct (round_aux_form s m e l ltac:(lia) He) as (r&Hr&Hcase). exists r.
  pose proof (shifted_small m e ltac:(lia) He). destruct (shifted_large m e Hm He) as [_ Hl].
  assert (0 <= m / 2 ^ (E - e)) by (apply Z.div_pos; [lia|apply pow2_pos; lia]).
  split_and!; [done|lia..|destruct Hl; [by left|right; lia]|lia|done].
Qed.

Lemma round_valid s : valid (binary_round_aux PREC EMAX s m e l).
Proof using Hm He.
  destruct (rounded s) as (r&->&Hr&Hc&_). apply pack_valid; [done|rewrite fexp64_eq; lia|done].
Qed.

(** A representable upper bound of the exact value bounds the rounded one. *)
Lemma round_le p0 e0 : canonical (Zpos p0) e0 → scaled_le m e (Zpos p0) e0 →
  (is_exact l = false → scaled_lt m e (Zpos p0) e0) →
  fleb (binary_round_aux PREC EMAX false m e l) (S754_finite false p0 e0) = true.
Proof using Hm He.
  intros H0 Hle Hlt. destruct (rounded false) as (r&->&Hr&Hc&Hge&Hcase).
  assert (-1074 <= E) as HE by (rewrite fexp64_eq; lia). apply pack_le; [done..|].
  set (t := 2 ^ (E - e)) in *. assert (0 < t) as Ht by (apply pow2_pos; lia).
  pose proof (Z.div_mod m t ltac:(lia)) as Hdm. pose proof (Z.mod_pos_bound m t Ht) as Hmod.
  destruct H0 as (Hp0&He0&Hc0). destruct (Z.lt_trichotomy E e0) as [Hlo|[Heq|Hhi]].
  - apply (proj1 (scaled_at r E (Zpos p0) e0 E ltac:(lia) ltac:(lia))). rewrite Z.sub_diag, Z.pow_0_r.
    assert (2 ^ 1 <= 2 ^ (e0 - E)) by (apply Z.pow_le_mono_r; lia). destruct Hc0; [lia|nia].
  - subst e0. rewrite (proj1 (scaled_at r E (Zpos p0) E E ltac:(lia) ltac:(lia))), Z.sub_diag, Z.pow_0_r.
    rewrite (proj1 (scaled_at m e (Zpos p0) E e ltac:(lia) ltac:(lia))), Z.sub_diag, Z.pow_0_r in Hle.
    rewrite (proj2 (scaled_at m e (Zpos p0) E e ltac:(lia) ltac:(lia))), Z.sub_diag, Z.pow_0_r in Hlt. fold t in Hle, Hlt.
    destruct Hcase as [->|[-> Hinex]].
    + apply Z.mul_le_mono_pos_r with (p := t); [done|]. nia.
    + assert (m < Zpos p0 * t) as Hs; [|assert (m / t < Zpos p0) by (apply Z.div_lt_upper_bound; lia); lia].
      destruct Hinex as [Hne|Hl]; [|rewrite Z.mul_1_r in Hlt; by apply Hlt].
      apply Z.le_neq. split; [lia|]. intros Hm0. apply Hne. replace m with (Zpos p0 * t) by lia. apply Z.mod_mul. lia.
  - exfalso. destruct (shifted_large m e Hm He) as [_ [Hx|Hx]]; [lia|]. fold t in Hx.
    apply scaled_le_iff in Hle. apply Hle.
    apply (proj2 (scaled_at (Zpos p0) e0 m e (Z.min e0 e) ltac:(lia) ltac:(lia))).
    set (K := Z.min e0 e). apply Z.lt_le_trans with (2 ^ 52 * 2 ^ (E - K)).
    + replace (E - K) with ((E - e0) + (e0 - K)) by lia. rewrite Z.pow_add_r by lia.
      assert (2 ^ 1 <= 2 ^ (E - e0)) by (apply Z.pow_le_mono_r; lia). pose proof (pow2_pos (e0 - K) ltac:(lia)). nia.
    + replace (E - K) with ((E - e) + (e - K)) by lia. rewrite Z.pow_add_r by lia. fold t.
      pose proof (pow2_pos (e - K) ltac:(lia)). nia.
Qed.

(** A representable lower bound too. *)
Lemma round_ge p0 e0 : canonical (Zpos p0) e0 → scaled_le (Zpos p0) e0 m e →
  fleb (S754_finite false p0 e0) (binary_round_aux PREC EMAX false m e l) = true.
Proof using Hm He.
  intros H0 Hle. destruct (rounded false) as (r&->&Hr&Hc&Hge&Hcase).
  assert (-1074 <= E) as HE by (rewrite fexp64_eq; lia). apply pack_ge; [done..|].
  set (t := 2 ^ (E - e)) in *. assert (0 < t) as Ht by (apply pow2_pos; lia).
  pose proof (Z.div_mod m t ltac:(lia)) as Hdm. pose proof (Z.mod_pos_bound m t Ht) as Hmod.
  destruct H0 as (Hp0&He0&Hc0). destruct (Z.lt_trichotomy E e0) as [Hlo|[Heq|Hhi]].
  - exfalso. pose proof (shifted_small m e ltac:(lia) He) as Hs. fold t in Hs.
    rewrite (proj1 (scaled_at (Zpos p0) e0 m e e ltac:(lia) ltac:(lia))), Z.sub_diag, Z.pow_0_r in Hle.
    replace (e0 - e) with ((e0 - E) + (E - e)) in Hle by lia. rewrite Z.pow_add_r in Hle by lia. fold t in Hle.
    assert (2 ^ 1 <= 2 ^ (e0 - E)) by (apply Z.pow_le_mono_r; lia). assert (m < 2 ^ 53 * t) by nia.
    destruct Hc0; [lia|]. assert (2 ^ 52 * (2 ^ 1 * t) <= Zpos p0 * (2 ^ (e0 - E) * t)) by (apply Z.mul_le_mono_nonneg; nia).
    lia.
  - subst e0. rewrite (proj1 (scaled_at (Zpos p0) E r E E ltac:(lia) ltac:(lia))), Z.sub_diag, Z.pow_0_r.
    rewrite (proj1 (scaled_at (Zpos p0) E m e e ltac:(lia) ltac:(lia))), Z.sub_diag, Z.pow_0_r in Hle. fold t in Hle.
    assert (Zpos p0 <= m / t) by (apply Z.div_le_lower_bound; lia). lia.
  - rewrite (proj1 (scaled_at (Zpos p0) e0 r E e0 ltac:(lia) ltac:(lia))), Z.sub_diag, Z.pow_0_r.
    assert (2 ^ 1 <= 2 ^ (E - e0)) by (apply Z.pow_le_mono_r; lia). destruct Hc as [?|?]; [lia|]. nia.
Qed.
End rounding.

(** ** Unsigned floats: zero, positive numbers and infinity *)

Definition unsigned (x : float) : Prop :=
  match x with
  | S754_zero s | S754_infinity s => s = false
  | S754_finite s p e => s = false ∧ canonical (Zpos p) e
  | S754_nan => False
  end.

Lemma unsigned_valid x : unsigned x → valid x.
Proof. destruct x as [| | |s p e]; try done. intros [_ H]. by apply valid_finite. Qed.

Lemma scaled_le_trans m1 e1 m2 e2 m3 e3 :
  scaled_le m1 e1 m2 e2 → scaled_le m2 e2 m3 e3 → scaled_le m1 e1 m3 e3.
Proof.
  set (K := Z.min e1 (Z.min e2 e3)).
  rewrite (proj1 (scaled_at m1 e1 m2 e2 K ltac:(lia) ltac:(lia))), (proj1 (scaled_at m2 e2 m3 e3 K ltac:(lia) ltac:(lia))),
    (proj1 (scaled_at m1 e1 m3 e3 K ltac:(lia) ltac:(lia))). lia.
Qed.

Lemma fleb_refl x : unsigned x → fleb x x = true.
Proof.
  destruct x as [s|s| |s p e]; [done|by intros ->|done|]. intros [-> Hc].
  apply fleb_finite; [done..|]. unfold scaled_le. lia.
Qed.

Lemma fleb_trans x y z : unsigned x → unsigned y → unsigned z →
  fleb x y = true → fleb y z = true → fleb x z = true.
Proof.
  destruct x as [sx|sx| |sx px ex], y as [sy|sy| |sy py ey], z as [sz|sz| |sz pz ez];
    simpl; intros; destruct_and?; subst; try done.
  rewrite fleb_finite in * by done. by eapply scaled_le_trans.
Qed.

Lemma fltb_fleb x y : fltb x y = true → fleb x y = true.
Proof. unfold fltb, fleb, SFltb, SFleb. by destruct (SFcompare x y) as [[]|]. Qed.

Lemma fleb_total x y : unsigned x → unsigned y → fleb x y = false → fltb y x = true.
Proof.
  destruct x as [sx|sx| |sx px ex], y as [sy|sy| |sy py ey];
    simpl; intros; destruct_and?; subst; try done.
  unfold fleb, SFleb, fltb, SFltb, SFcompare in *. change (Pos.compare_cont Eq ?a ?b) with (Pos.compare a b) in *.
  rewrite (Z.compare_antisym ex ey), (Pos.compare_antisym px py).
  destruct (ex ?= ey); [|done..]. by destruct (px ?= py)%positive.
Qed.

(** Rounding an unsigned exact value. *)
Lemma round_unsigned m e l : 0 <= m → e <= fexp64 (digits m + e) → unsigned (binary_round_aux PREC EMAX false m e l).
Proof.
  intros Hm He. pose proof (round_valid m e l Hm He false) as Hv.
  destruct (rounded m e l Hm He false) as (r&Hr&Hb&_). rewrite Hr in *. revert Hv.
  assert (∃ x, pack false r (fexp64 (digits m + e)) = x ∧
    match x with S754_zero s | S754_infinity s | S754_finite s _ _ => s = false | S754_nan => False end) as (x&Hx&Hs).
  { eexists. split; [reflexivity|]. unfold pack. destruct (r =? 0); [done|].
    destruct (r =? 2 ^ 53); case (Z.leb _ _); done. }
  rewrite Hx. destruct x as [| | |s p e']; [done..|]. rewrite valid_finite. by subst.
Qed.

(** ** Sums, products and quotients *)

Lemma shl_align_spec p e e' : ∃ q k,
  shl_align p e e' = (q, k) ∧ k = Z.min e e' ∧ Zpos q = Zpos p * 2 ^ (e - k).
Proof.
  unfold shl_align. assert (∀ d, Zpos (Pos.iter xO p d) = Zpos p * 2 ^ Zpos d) as Hiter.
  { intros d. induction d as [|d IH] using Pos.peano_ind; [simpl; lia|].
    rewrite Pos.iter_succ, Pos2Z.inj_xO, IH, Pos2Z.inj_succ, Z.pow_succ_r by lia. lia. }
  destruct (e' - e) as [|d|d] eqn:Ed; eexists _, _; (split; [reflexivity|]); (split; [lia|]).
  - by rewrite Z.sub_diag, Z.pow_0_r, Z.mul_1_r.
  - by rewrite Z.sub_diag, Z.pow_0_r, Z.mul_1_r.
  - rewrite Hiter. by replace (e - e') with (Zpos d) by lia.
Qed.

Lemma digits_shift m k : 0 < m → 0 <= k → digits (m * 2 ^ k) = digits m + k.
Proof.
  intros Hm Hk. destruct (digits_pos m Hm) as [[H1 H2] H3]. pose proof (pow2_pos k Hk). apply Z.le_antisymm.
  - apply digits_le; [nia|lia|]. rewrite Z.pow_add_r by lia. nia.
  - assert (digits m + k - 1 < digits (m * 2 ^ k)); [|lia]. apply digits_ge; [lia|].
    replace (digits m + k - 1) with ((digits m - 1) + k) by lia. rewrite Z.pow_add_r by lia. nia.
Qed.

(** [binary_round] is the rounding of its exact argument. *)
Lemma binary_round_spec p e : ∃ m e', binary_round PREC EMAX false p e = binary_round_aux PREC EMAX false m e' loc_Exact ∧
  0 <= m ∧ e' <= fexp64 (digits m + e') ∧ (∀ m0 e0, (scaled_le (Zpos p) e m0 e0 ↔ scaled_le m e' m0 e0) ∧
    (scaled_le m0 e0 (Zpos p) e ↔ scaled_le m0 e0 m e')).
Proof.
  unfold binary_round. change (fexp PREC EMAX (Zpos (digits2_pos p) + e)) with (fexp64 (digits (Zpos p) + e)).
  destruct (shl_align_spec p e (fexp64 (digits (Zpos p) + e))) as (q&k&->&Hk&Hq). exists (Zpos q), k.
  split; [done|split; [lia|split]].
  - rewrite Hq, digits_shift by lia. replace (digits (Zpos p) + (e - k) + k) with (digits (Zpos p) + e) by lia. lia.
  - intros m0 e0. set (K := Z.min k e0).
    rewrite (proj1 (scaled_at (Zpos p) e m0 e0 K ltac:(lia) ltac:(lia))), (proj1 (scaled_at m0 e0 (Zpos p) e K ltac:(lia) ltac:(lia))).
    rewrite (proj1 (scaled_at (Zpos q) k m0 e0 K ltac:(lia) ltac:(lia))), (proj1 (scaled_at m0 e0 (Zpos q) k K ltac:(lia) ltac:(lia))).
    replace (e - K) with ((e - k) + (k - K)) by lia. rewrite Hq, Z.pow_add_r by lia. rewrite !Z.mul_assoc. done.
Qed.

(** The exact sum of two positive floats, scaled to the smaller exponent. *)
Lemma fadd_spec p e p' e' : ∃ m k,
  fadd (S754_finite false p e) (S754_finite false p' e') = binary_round PREC EMAX false m k ∧
  k = Z.min e e' ∧ Zpos m = Zpos p * 2 ^ (e - k) + Zpos p' * 2 ^ (e' - k).
Proof.
  unfold fadd, SFadd. destruct (shl_align_spec p e (Z.min e e')) as (q&k&->&Hk&Hq).
  destruct (shl_align_spec p' e' (Z.min e e')) as (q'&k'&->&Hk'&Hq'). simpl fst. unfold cond_Zopp.
  exists (q + q')%positive, (Z.min e e'). split_and!; [done|done|].
  rewrite Pos2Z.inj_add, Hq, Hq'. do 3 f_equal; lia.
Qed.

Lemma fadd_ge x y : unsigned x → unsigned y →
  unsigned (fadd x y) ∧ fleb x (fadd x y) = true ∧ fleb y (fadd x y) = true.
Proof.
  destruct x as [sx|sx| |sx p e], y as [sy|sy| |sy p' e']; simpl; intros Hx Hy; destruct_and?; subst; try done.
  - split; [done|split; [done|by apply fleb_refl]].
  - split; [done|split; [by apply fleb_refl|done]].
  - destruct (fadd_spec p e p' e') as (m&k&->&Hk&Hm). destruct (binary_round_spec m k) as (m'&k'&->&Hp&Hf&Hs).
    split; [by apply round_unsigned|split]; (apply round_ge; [done..|]); apply Hs.
    all: match goal with |- scaled_le ?a ?b ?c ?d => apply (proj1 (scaled_at a b c d k ltac:(lia) ltac:(lia))) end.
    all: rewrite Z.sub_diag, Z.pow_0_r, Hm; pose proof (pow2_pos (e - k)); pose proof (pow2_pos (e' - k)); nia.
Qed.

(** [x] is at most [n * 2 ^ c]. *)
Definition at_most (n c : Z) (x : float) : Prop :=
  match x with
  | S754_zero _ => True
  | S754_finite _ p e => scaled_le (Zpos p) e n c
  | _ => False
  end.

(** Integers up to [2 ^ 53], scaled, are representable. *)
Lemma representable n c : 0 < n <= 2 ^ 53 → 0 <= c <= 900 →
  ∃ p0 e0, canonical (Zpos p0) e0 ∧ ∀ m e, scaled_le m e (Zpos p0) e0 ↔ scaled_le m e n c.
Proof.
  intros Hn Hc. destruct (decide (n = 2 ^ 53)) as [->|Hne].
  - exists (Z.to_pos (2 ^ 52)), (c + 1). split; [split; [done|split; [lia|by right]]|].
    intros m e. set (K := Z.min c e). change (Zpos (Z.to_pos (2 ^ 52))) with (2 ^ 52).
    rewrite (proj1 (scaled_at m e (2 ^ 52) (c + 1) K ltac:(lia) ltac:(lia))), (proj1 (scaled_at m e (2 ^ 53) c K ltac:(lia) ltac:(lia))).
    replace (c + 1 - K) with (1 + (c - K)) by lia. rewrite (Z.pow_add_r 2 1) by lia. lia.
  - destruct (digits_pos n) as [[H1 H2] H3]; [lia|]. pose proof (digits_le n 53 ltac:(lia) ltac:(lia) ltac:(lia)) as Hd.
    set (k := 53 - digits n). assert (0 < n * 2 ^ k) by (pose proof (pow2_pos k); nia).
    exists (Z.to_pos (n * 2 ^ k)), (c - k). rewrite Z2Pos.id by done. split.
    + assert (2 ^ (digits n - 1) * 2 ^ k = 2 ^ 52) as E1 by (rewrite <- Z.pow_add_r by lia; f_equal; lia).
      assert (2 ^ digits n * 2 ^ k = 2 ^ 53) as E2 by (rewrite <- Z.pow_add_r by lia; f_equal; lia).
      pose proof (pow2_pos k ltac:(lia)). split; [split; [done|nia]|]. split; [lia|right; nia].
    + intros m e. set (K := Z.min (c - k) e).
      rewrite (proj1 (scaled_at m e (n * 2 ^ k) (c - k) K ltac:(lia) ltac:(lia))), (proj1 (scaled_at m e n c K ltac:(lia) ltac:(lia))).
      replace (c - K) with (k + (c - k - K)) by lia. rewrite (Z.pow_add_r 2 k) by lia. by rewrite Z.mul_assoc.
Qed.

Lemma at_most_fleb n c p0 e0 x : (∀ m e, scaled_le m e (Zpos p0) e0 ↔ scaled_le m e n c) → canonical (Zpos p0) e0 →
  unsigned x → at_most n c x ↔ fleb x (S754_finite false p0 e0) = true.
Proof.
  intros H0 Hc. destruct x as [s|s| |s p e]; simpl; intros; destruct_and?; subst; try done.
  by rewrite fleb_finite, H0.
Qed.

Lemma canonical_one : canonical 4503599627370496 (-52).
Proof. split; [done|]. split; [done|]. by right. Qed.

Lemma scaled_one m e : scaled_le m e 4503599627370496 (-52) ↔ scaled_le m e 1 0.
Proof.
  set (K := Z.min (-52) e). rewrite (proj1 (scaled_at m e 4503599627370496 (-52) K ltac:(lia) ltac:(lia))).
  rewrite (proj1 (scaled_at m e 1 0 K ltac:(lia) ltac:(lia))).
  replace (0 - K) with (52 + (-52 - K)) by lia. rewrite (Z.pow_add_r 2 52) by lia. rewrite Z.mul_1_l. done.
Qed.

Lemma scaled_lt_one m e : scaled_lt m e 4503599627370496 (-52) ↔ scaled_lt m e 1 0.
Proof.
  set (K := Z.min (-52) e). rewrite (proj2 (scaled_at m e 4503599627370496 (-52) K ltac:(lia) ltac:(lia))).
  rewrite (proj2 (scaled_at m e 1 0 K ltac:(lia) ltac:(lia))).
  replace (0 - K) with (52 + (-52 - K)) by lia. rewrite (Z.pow_add_r 2 52) by lia. rewrite Z.mul_1_l. done.
Qed.

Lemma at_most_one x : unsigned x → at_most 1 0 x ↔ fleb x fone = true.
Proof. apply at_most_fleb; [apply scaled_one|apply canonical_one]. Qed.

Lemma at_most_finite n c x : at_most n c x → is_finite x = true.
Proof. by destruct x. Qed.

Lemma at_most_mono n n' c x : n <= n' → at_most n c x → at_most n' c x.
Proof.
  destruct x as [| | |s p e]; simpl; try done. unfold scaled_le. intros Hn Hle.
  pose proof (pow2_pos (c - Z.min e c) ltac:(lia)). nia.
Qed.

Lemma fadd_at_most a b c x y : unsigned x → unsigned y → at_most a c x → at_most b c y →
  0 <= a → 0 <= b → a + b <= 2 ^ 53 → 0 <= c <= 900 → at_most (a + b) c (fadd x y).
Proof.
  intros Hx Hy Ha Hb Ha0 Hb0 Hab Hc. destruct (fadd_ge x y Hx Hy) as [Hu _].
  destruct x as [sx|sx| |sx p e], y as [sy|sy| |sy p' e']; simpl in Ha, Hb; try done.
  - by simpl in Hx, Hy; subst.
  - simpl in Hx, Hy. destruct_and?. subst. apply (at_most_mono b); [lia|done].
  - simpl in Hx, Hy. destruct_and?. subst. apply (at_most_mono a); [lia|done].
  - simpl in Hx, Hy. destruct_and?. subst.
    assert (scaled_le (Zpos p) e a c → 0 < a) as Hpos.
    { unfold scaled_le. pose proof (pow2_pos (e - Z.min e c)). pose proof (pow2_pos (c - Z.min e c)). nia. }
    destruct (representable (a + b) c) as (p0&e0&Hc0&Hrep); [specialize (Hpos Ha); lia|done|].
    apply (at_most_fleb _ _ p0 e0); [done..|]. destruct (fadd_spec p e p' e') as (m&k&->&Hk&Hm).
    destruct (binary_round_spec m k) as (m'&k'&->&Hp&Hf&Hs). apply round_le; [done..| |done].
    apply Hs, Hrep. set (K := Z.min k c).
    rewrite (proj1 (scaled_at (Zpos p) e a c K ltac:(lia) ltac:(lia))) in Ha.
    rewrite (proj1 (scaled_at (Zpos p') e' b c K ltac:(lia) ltac:(lia))) in Hb.
    rewrite (proj1 (scaled_at (Zpos m) k (a + b) c K ltac:(lia) ltac:(lia))), Hm.
    replace (e - K) with ((e - k) + (k - K)) in Ha by lia. replace (e' - K) with ((e' - k) + (k - K)) in Hb by lia.
    rewrite Z.pow_add_r in Ha, Hb by lia. lia.
Qed.

Lemma product_exponent m e m' e' : canonical m e → canonical m' e' →
  e + e' <= fexp64 (digits (m * m') + (e + e')).
Proof.
  intros (Hm&He&Hc) (Hm'&He'&Hc'). rewrite fexp64_eq.
  assert (m <= m * m') by nia. assert (m' <= m * m') by nia.
  destruct Hc as [->|Hc]; [destruct Hc' as [->|Hc']; [lia|]|].
  - pose proof (digits_ge (m * m') 52 ltac:(lia) ltac:(lia)). lia.
  - pose proof (digits_ge (m * m') 52 ltac:(lia) ltac:(lia)).
    destruct Hc' as [->|Hc']; [lia|]. lia.
Qed.

Lemma fmul_unit x y : unsigned x → unsigned y → fleb x fone = true → fleb y fone = true →
  unsigned (fmul x y) ∧ fleb (fmul x y) fone = true.
Proof.
  destruct x as [sx|sx| |sx p e], y as [sy|sy| |sy p' e']; simpl; intros Hx Hy Hx1 Hy1; destruct_and?; subst; try done.
  assert (canonical (Zpos p) e) as Hcx by done. assert (canonical (Zpos p') e') as Hcy by done.
  rewrite (fleb_finite _ _ _ _ Hcx canonical_one), scaled_one in Hx1.
  rewrite (fleb_finite _ _ _ _ Hcy canonical_one), scaled_one in Hy1.
  pose proof (product_exponent _ _ _ _ Hcx Hcy) as He.
  unfold fmul, SFmul. simpl xorb. change (Zpos (p * p')) with (Zpos p * Zpos p').
  split; [by apply round_unsigned; [lia|]|]. apply round_le; [lia|done|apply canonical_one| |done].
  apply scaled_one. set (k := Z.min e 0). set (k' := Z.min e' 0).
  rewrite (proj1 (scaled_at _ e 1 0 k ltac:(lia) ltac:(lia))) in Hx1.
  rewrite (proj1 (scaled_at _ e' 1 0 k' ltac:(lia) ltac:(lia))) in Hy1.
  rewrite (proj1 (scaled_at _ (e + e') 1 0 (k + k') ltac:(lia) ltac:(lia))).
  replace (e + e' - (k + k')) with ((e - k) + (e' - k')) by lia. replace (0 - (k + k')) with ((0 - k) + (0 - k')) by lia.
  rewrite !Z.pow_add_r by lia. pose proof (pow2_pos (e - k)). pose proof (pow2_pos (e' - k')).
  pose proof (pow2_pos (0 - k)). pose proof (pow2_pos (0 - k')).
  transitivity ((Zpos p * 2 ^ (e - k)) * (Zpos p' * 2 ^ (e' - k'))); [lia|]. rewrite Z.mul_1_l in *.
  apply Z.mul_le_mono_nonneg; nia.
Qed.

(** The quotient the division rounds. *)
Lemma div_core_spec m1 e1 m2 e2 : 0 < m1 → 0 < m2 → ∃ q e l r s,
  SFdiv_core_binary PREC EMAX m1 e1 m2 e2 = (q, e, l) ∧ 0 <= s ∧ e = e1 - e2 - s ∧
  m1 * 2 ^ s = m2 * q + r ∧ 0 <= r < m2 ∧ (is_exact l = true ↔ r = 0) ∧ e <= fexp64 (digits q + e).
Proof.
  intros H1 H2. unfold SFdiv_core_binary. change (Zdigits2 m1) with (digits m1). change (Zdigits2 m2) with (digits m2).
  change (fexp PREC EMAX ?x) with (fexp64 x). set (e := Z.min _ _). set (s := e1 - e2 - e).
  assert (0 <= s) as Hs by lia.
  assert (match s with Z0 => m1 | Zpos _ => Z.shiftl m1 s | Zneg _ => 0 end = m1 * 2 ^ s) as ->.
  { destruct s as [|p|p]; [by rewrite Z.pow_0_r, Z.mul_1_r|by apply Z.shiftl_mul_pow2|lia]. }
  destruct (Z.div_eucl (m1 * 2 ^ s) m2) as [q r] eqn:Hqr.
  pose proof (Z_div_mod (m1 * 2 ^ s) m2 ltac:(lia)) as Hdm. rewrite Hqr in Hdm. destruct Hdm as [Heq Hr].
  exists q, e, (new_location m2 r), r, s. split; [done|]. split; [done|]. split; [lia|]. split; [done|]. split; [done|]. split.
  - unfold new_location, new_location_even, new_location_odd. destruct (Z.even m2), (Z.eqb_spec r 0); naive_solver.
  - assert (0 <= q) as Hq by (pose proof (pow2_pos s Hs); nia).
    assert (digits m1 + s - digits m2 <= digits q) as Hd.
    { destruct (digits_pos m1 H1) as [[Ha _] Hd1]. destruct (digits_pos m2 H2) as [[_ Hb] Hd2].
      destruct (decide (digits m1 + s - digits m2 <= 0)); [pose proof (digits_nonneg q); lia|].
      assert (digits m1 + s - digits m2 - 1 < digits q); [|lia]. apply digits_ge; [lia|].
      set (t := digits m1 + s - digits m2 - 1) in *. pose proof (pow2_pos t ltac:(lia)).
      assert (2 ^ t * 2 ^ digits m2 = 2 ^ (digits m1 - 1) * 2 ^ s) as E by (rewrite <- !Z.pow_add_r by lia; f_equal; lia).
      pose proof (pow2_pos s Hs). pose proof (pow2_pos (digits m2)).
      apply Z.nlt_ge. intros Hlt. assert (m2 * (q + 1) <= m2 * 2 ^ t) by nia. nia. }
    assert (e = Z.min (Z.max (digits m1 + e1 - (digits m2 + e2) - 53) (-1074)) (e1 - e2)) as He by done.
    assert (s = e1 - e2 - e) as Hse by done. rewrite fexp64_eq. clearbody s e. lia.
Qed.

(** A quotient of unsigned numbers whose divisor is the larger. *)
Lemma fdiv_unit x y : unsigned x → unsigned y → fltb fzero y = true → fleb x y = true → is_finite x = true →
  unsigned (fdiv x y) ∧ fleb (fdiv x y) fone = true.
Proof.
  destruct x as [sx|sx| |sx p e], y as [sy|sy| |sy p' e']; simpl; intros Hx Hy Hpos Hxy Hfin;
    destruct_and?; subst; try done.
  assert (canonical (Zpos p) e) as Hcx by done. assert (canonical (Zpos p') e') as Hcy by done.
  rewrite (fleb_finite _ _ _ _ Hcx Hcy) in Hxy. unfold fdiv, SFdiv.
  destruct (div_core_spec (Zpos p) e (Zpos p') e') as (q&k&l&r&s&->&Hs&Hk&Heq&Hr&Hl&Hf); [done..|].
  simpl xorb. assert (0 <= q) as Hq by (pose proof (pow2_pos s Hs); nia).
  split; [by apply round_unsigned|].
  assert (Zpos p * 2 ^ (e - e' - Z.min (e - e') 0) <= Zpos p' * 2 ^ (0 - Z.min (e - e') 0)) as Hle.
  { set (L := Z.min (e - e') 0). rewrite (proj1 (scaled_at _ e _ e' (L + e') ltac:(lia) ltac:(lia))) in Hxy.
    by replace (e - e' - L) with (e - (L + e')) by lia; replace (0 - L) with (e' - (L + e')) by lia. }
  assert (Zpos p' * q * 2 ^ (k - Z.min k 0) + r * 2 ^ (k - Z.min k 0) <= Zpos p' * 2 ^ (0 - Z.min k 0)) as Hsum.
  { set (K := Z.min k 0). rewrite <- Z.mul_add_distr_r, <- Heq, <- Z.mul_assoc, <- Z.pow_add_r by lia.
    set (L := Z.min (e - e') 0) in *. replace (s + (k - K)) with ((e - e' - L) + (L - K)) by lia.
    replace (0 - K) with ((0 - L) + (L - K)) by lia. rewrite !Z.pow_add_r by lia.
    pose proof (pow2_pos (L - K)). nia. }
  pose proof (pow2_pos (k - Z.min k 0)) as Hp0.
  apply round_le; [done|done|apply canonical_one| |].
  - apply scaled_one. unfold scaled_le. rewrite Z.mul_1_l.
    apply Z.mul_le_mono_pos_l with (p := Zpos p'); [lia|]. rewrite Z.mul_assoc. nia.
  - intros Hne. assert (r ≠ 0) by (intros E0; apply Hl in E0; congruence).
    apply scaled_lt_one. unfold scaled_lt. rewrite Z.mul_1_l.
    apply Z.mul_lt_mono_pos_l with (p := Zpos p'); [lia|]. rewrite Z.mul_assoc. nia.
Qed.

(** ** Results are canonical *)

Lemma binary_round_valid s p e : valid (binary_round PREC EMAX s p e).
Proof.
  unfold binary_round. change (fexp PREC EMAX (Zpos (digits2_pos p) + e)) with (fexp64 (digits (Zpos p) + e)).
  destruct (shl_align_spec p e (fexp64 (digits (Zpos p) + e))) as (q&k&->&Hk&Hq). apply round_valid; [lia|].
  rewrite Hq, digits_shift by lia. replace (digits (Zpos p) + (e - k) + k) with (digits (Zpos p) + e) by lia. lia.
Qed.

Lemma fsub_valid x y : valid x → valid y → valid (fsub x y).
Proof.
  intros Hx Hy. destruct x as [sx|sx| |sx p e], y as [sy|sy| |sy p' e']; try reflexivity; try (by destruct sx, sy); try done.
  unfold fsub, SFsub, binary_normalize. destruct (_ - _); [done|apply binary_round_valid..].
Qed.

Lemma fdiv_valid x y : valid x → valid y → valid (fdiv x y).
Proof.
  intros Hx Hy. destruct x as [sx|sx| |sx p e], y as [sy|sy| |sy p' e']; try reflexivity.
  unfold fdiv, SFdiv. destruct (div_core_spec (Zpos p) e (Zpos p') e') as (q&k&l&r&s&->&Hs&Hk&Heq&Hr&Hl&Hf); [done..|].
  apply round_valid; [|done]. pose proof (pow2_pos s Hs). nia.
Qed.

Lemma one_unsigned : unsigned fone.
Proof. split; [done|apply canonical_one]. Qed.

(** [x] is a number between 0 and 1; the sign of a zero is left open. *)
Definition in_unit (x : float) : Prop := match x with S754_zero _ => True | _ => unsigned x ∧ fleb x fone = true end.

Lemma clamp_in_unit x : valid x → x ≠ S754_nan → in_unit (py_min (py_max x fzero) fone).
Proof.
  intros Hv Hnan. unfold py_max. destruct (fltb x fzero) eqn:E0; [done|]. unfold py_min.
  destruct (fltb fone x) eqn:E1; [by split; [apply one_unsigned|]|].
  destruct x as [s|s| |s p e]; [done|by destruct s|done|].
  destruct s; [done|]. rewrite valid_finite in Hv. assert (unsigned (S754_finite false p e)) as Hu by done.
  split; [done|]. destruct (fleb _ fone) eqn:E; [done|].
  apply fleb_total in E; [by rewrite E in E1|done|apply one_unsigned].
Qed.

Lemma in_unit_inv x : in_unit x →
  (∃ s, x = S754_zero s) ∨ (∃ p e, x = S754_finite false p e ∧ unsigned x ∧ fleb x fone = true).
Proof.
  destruct x as [s|s| |s p e]; intros Hx; [by left; exists s|by destruct Hx as [-> ?]|by destruct Hx|].
  right. destruct Hx as [[-> Hc] Hle]. by exists p, e.
Qed.

Lemma fmul_in_unit x y : in_unit x → in_unit y → in_unit (fmul x y).
Proof.
  intros [[s ->]|(p&e&->&Hx&Hx1)]%in_unit_inv [[s' ->]|(p'&e'&->&Hy&Hy1)]%in_unit_inv; [done..|].
  pose proof (fmul_unit _ _ Hx Hy Hx1 Hy1) as [Hu Hle]. unfold in_unit. by destruct (fmul _ _).
Qed.

Lemma positive_in_unit x : in_unit x → fltb fzero x = true → unsigned x ∧ at_most 1 0 x.
Proof.
  intros [[s ->]|(p&e&->&Hx&Hx1)]%in_unit_inv Hpos; [done|]. split; [done|by apply at_most_one].
Qed.

Lemma fadd_valid x y : valid x → valid y → valid (fadd x y).
Proof.
  intros Hx Hy. destruct x as [sx|sx| |sx p e], y as [sy|sy| |sy p' e']; try reflexivity; try (by destruct sx, sy); try done.
  unfold fadd, SFadd, binary_normalize. destruct (_ + _); [done|apply binary_round_valid..].
Qed.

Lemma fmul_valid x y : valid x → valid y → valid (fmul x y).
Proof.
  intros Hx Hy. destruct x as [sx|sx| |sx p e], y as [sy|sy| |sy p' e']; try reflexivity.
  rewrite valid_finite in *. unfold fmul, SFmul. change (Zpos (p * p')) with (Zpos p * Zpos p').
  apply round_valid; [lia|by apply product_exponent].
Qed.

Lemma fsqrt_valid x : valid x → valid (fsqrt x).
Proof.
  intros Hx. destruct x as [s|s| |s p e]; try done; [by destruct s|]. destruct s; [done|].
  unfold fsqrt, SFsqrt, SFsqrt_core_binary. change (Zdigits2 (Zpos p)) with (digits (Zpos p)).
  change (fexp PREC EMAX ?x) with (fexp64 x). set (k := Z.min _ _). set (s := e - 2 * k).
  assert (k = Z.min (Z.max (Z.div2 (digits (Zpos p) + e + 1) - 53) (-1074)) (Z.div2 e)) as Hk by done.
  rewrite !Z.div2_div in Hk. pose proof (Z.div_mod e 2 ltac:(lia)). pose proof (Z.mod_pos_bound e 2 ltac:(lia)).
  assert (0 <= s) as Hs by lia.
  assert (match s with Z0 => Zpos p | Zpos _ => Z.shiftl (Zpos p) s | Zneg _ => 0 end = Zpos p * 2 ^ s) as ->.
  { destruct s as [|t|t]; [by rewrite Z.pow_0_r, Z.mul_1_r|by apply Z.shiftl_mul_pow2|lia]. }
  destruct (Z.sqrtrem (Zpos p * 2 ^ s)) as [q r] eqn:Hq. pose proof (pow2_pos s Hs) as Hp.
  pose proof (Z.sqrtrem_spec (Zpos p * 2 ^ s) ltac:(lia)) as Hspec. rewrite Hq in Hspec. destruct Hspec as [Hm Hr].
  assert (0 <= q) as Hq0 by lia. apply round_valid; [done|].
  assert ((digits (Zpos p) + s + 1) / 2 <= digits q) as Hd.
  { destruct (digits_pos (Zpos p) ltac:(done)) as [[Ha _] Hd].
    set (t := (digits (Zpos p) + s + 1) / 2). pose proof (Z.div_mod (digits (Zpos p) + s + 1) 2 ltac:(lia)) as Hdm. fold t in Hdm.
    pose proof (Z.mod_pos_bound (digits (Zpos p) + s + 1) 2 ltac:(lia)).
    assert (t - 1 < digits q); [|lia]. apply digits_ge; [lia|]. apply Z.nlt_ge. intros Hlt.
    assert (q + 1 <= 2 ^ (t - 1)) by lia.
    assert ((q + 1) * (q + 1) <= 2 ^ (t - 1) * 2 ^ (t - 1)) as Hsq by nia.
    rewrite <- Z.pow_add_r in Hsq by lia.
    assert (2 ^ (t - 1 + (t - 1)) <= 2 ^ (digits (Zpos p) - 1) * 2 ^ s) as Hle.
    { rewrite <- Z.pow_add_r by lia. apply Z.pow_le_mono_r; lia. }
    nia. }
  rewrite fexp64_eq. pose proof (Z.div_mod (digits (Zpos p) + s + 1) 2 ltac:(lia)).
  pose proof (Z.mod_pos_bound (digits (Zpos p) + s + 1) 2 ltac:(lia)).
  pose proof (Z.div_mod (digits (Zpos p) + e + 1) 2 ltac:(lia)). pose proof (Z.mod_pos_bound (digits (Zpos p) + e + 1) 2 ltac:(lia)).
  assert (s = e - 2 * k) as Hs2 by done. clearbody s k. lia.
Qed.

#[export] Hint Resolve fadd_valid fsub_valid fmul_valid fdiv_valid fsqrt_valid unsigned_valid : s2m.

(** ** Signs *)

Definition signed (s : bool) (x : float) : Prop :=
  match x with S754_zero t | S754_infinity t | S754_finite t _ _ => t = s | S754_nan => False end.

Lemma pack_signed s r e : signed s (pack s r e).
Proof. unfold pack. destruct (r =? 0); [done|]. destruct (r =? 2 ^ 53); case (Z.leb _ _); done. Qed.

Lemma negative_le_zero x : signed true x → fleb x fzero = true.
Proof. destruct x as [s|s| |s p e]; simpl; [by destruct s|by intros ->|done|by intros ->]. Qed.

(** A quotient of [-n] by a positive number is not positive. *)
Lemma negated_quotient n h : 0 <= n → valid h → fltb fzero h = true → is_inf h = false →
  fleb (fdiv (float_of_Z (- n)) h) fzero = true.
Proof.
  intros Hn Hv Hpos Hinf. destruct h as [s|s| |s p e]; try done. destruct s; [done|].
  unfold float_of_Z, binary_normalize. destruct n as [|n|n]; [done| |lia]. change (- Zpos n) with (Zneg n).
  assert (signed true (binary_round PREC EMAX true n 0)) as Hs.
  { unfold binary_round. destruct (shl_align_spec n 0 (fexp64 (digits (Zpos n) + 0))) as (q&k&E&Hk&Hq).
    change (fexp PREC EMAX (Zpos (digits2_pos n) + 0)) with (fexp64 (digits (Zpos n) + 0)). rewrite E.
    destruct (round_aux_form true (Zpos q) k loc_Exact) as (r&->&_); [lia| |apply pack_signed].
    rewrite Hq, digits_shift by lia. replace (digits (Zpos n) + (0 - k) + k) with (digits (Zpos n) + 0) by lia. lia. }
  apply negative_le_zero. destruct (binary_round PREC EMAX true n 0) as [t|t| |t m k]; simpl in Hs; subst; try exact eq_refl; try done.
  unfold fdiv, SFdiv. destruct (div_core_spec (Zpos m) k (Zpos p) e) as (q&k'&l&r&s&->&Hs&Hk&Heq&Hr&Hl&Hf); [done..|].
  change (xorb true false) with true. destruct (round_aux_form true q k' l) as (r0&->&_); [|done|apply pack_signed]. pose proof (pow2_pos s Hs). nia.
Qed.
