(* ===== verification/Bytes.v ===== *)
(** * Byte strings and the vector file

    Slices of byte strings, and the row-major little-endian FP32 layout of
    [vectors.fp32] ([src/daemon/generation.py]: [struct.pack] in [_build_chunks],
    [_VectorFile.vector]): a binary64 number is rounded to binary32 when it is
    packed and widened exactly when it is read. *)

From Stdlib Require Import SpecFloat Ascii String.
From stdpp Require Import base list strings.
From S2P Require Import Prelude Float64.
Open Scope Z_scope.

(** ** Slices *)

(** [s[:n]] and [s[n:]] *)
Fixpoint str_take (n : nat) (s : string) : string :=
  match n, s with S n, String c s => String c (str_take n s) | _, _ => "" end.
Fixpoint str_drop (n : nat) (s : string) : string :=
  match n, s with S n, String _ s => str_drop n s | _, _ => s end.

Lemma str_app_cons c s t : String c s +:+ t = String c (s +:+ t).
Proof. done. Qed.
Lemma str_app_nil s : s +:+ "" = s.
Proof. induction s as [|c s IH]; [done|]. by rewrite str_app_cons, IH. Qed.
Lemma str_app_assoc (a b c : string) : a +:+ (b +:+ c) = (a +:+ b) +:+ c.
Proof. induction a as [|x a IH]; [done|]. by rewrite !str_app_cons, IH. Qed.
Lemma str_length_app (a b : string) : String.length (a +:+ b) = (String.length a + String.length b)%nat.
Proof. induction a as [|x a IH]; [done|]. rewrite str_app_cons. simpl. by rewrite IH. Qed.
Lemma str_length_zero s : String.length s = 0%nat → s = "".
Proof. by destruct s. Qed.

Lemma str_take_0 s : str_take 0 s = "".
Proof. by destruct s. Qed.
Lemma str_drop_0 s : str_drop 0 s = s.
Proof. by destruct s. Qed.
Lemma str_take_nil n : str_take n "" = "".
Proof. by destruct n. Qed.
Lemma str_drop_nil n : str_drop n "" = "".
Proof. by destruct n. Qed.
Lemma str_take_drop n s : str_take n s +:+ str_drop n s = s.
Proof. revert n. induction s as [|c s IH]; intros [|n]; try done. simpl. by rewrite str_app_cons, IH. Qed.
Lemma str_length_take n s : String.length (str_take n s) = (n `min` String.length s)%nat.
Proof. revert n. induction s as [|c s IH]; intros [|n]; try done. simpl. by rewrite IH. Qed.
Lemma str_length_drop n s : String.length (str_drop n s) = (String.length s - n)%nat.
Proof. revert n. induction s as [|c s IH]; intros [|n]; try done. simpl. by rewrite IH. Qed.
Lemma str_take_ge n s : (String.length s <= n)%nat → str_take n s = s.
Proof.
  revert n. induction s as [|c s IH]; intros [|n] Hn; simpl in *; try done; [lia|]. by rewrite IH by lia.
Qed.
Lemma str_drop_ge n s : (String.length s <= n)%nat → str_drop n s = "".
Proof. revert n. induction s as [|c s IH]; intros [|n] Hn; simpl in *; try done; [lia|]. apply IH. lia. Qed.
Lemma str_take_app a b : str_take (String.length a) (a +:+ b) = a.
Proof. induction a as [|c a IH]; [apply str_take_0|]. rewrite str_app_cons. simpl. by rewrite IH. Qed.
Lemma str_drop_app a b : str_drop (String.length a) (a +:+ b) = b.
Proof. induction a as [|c a IH]; [apply str_drop_0|]. done. Qed.
Lemma str_drop_app_add n a b : str_drop (String.length a + n) (a +:+ b) = str_drop n b.
Proof. induction a as [|c a IH]; simpl; [done|]. done. Qed.
Lemma str_take_app_le n a b : (n <= String.length a)%nat → str_take n (a +:+ b) = str_take n a.
Proof.
  revert n. induction a as [|c a IH]; intros [|n] Hn; rewrite ?str_take_0; try done; [simpl in Hn; lia|].
  rewrite str_app_cons. simpl in *. by rewrite IH by lia.
Qed.
Lemma str_drop_drop m n s : str_drop m (str_drop n s) = str_drop (n + m) s.
Proof. revert n. induction s as [|c s IH]; intros [|n]; simpl; try done; by rewrite ?str_drop_nil. Qed.

(** [data[start:start + len]] *)
Definition slice (start len : nat) (s : string) : string := str_take len (str_drop start s).

Lemma str_drop_app_le n a b : (n <= String.length a)%nat → str_drop n (a +:+ b) = str_drop n a +:+ b.
Proof.
  revert n. induction a as [|c a IH]; intros [|n] Hn; rewrite ?str_drop_0; try done; [simpl in Hn; lia|].
  rewrite str_app_cons. simpl in *. by rewrite IH by lia.
Qed.
Lemma slice_app_l a b n len : (n + len <= String.length a)%nat → slice n len (a +:+ b) = slice n len a.
Proof.
  intros Hl. unfold slice. rewrite str_drop_app_le by lia. apply str_take_app_le. rewrite str_length_drop. lia.
Qed.
Lemma slice_app_r a b n len : slice (String.length a + n) len (a +:+ b) = slice n len b.
Proof. unfold slice. by rewrite str_drop_app_add. Qed.

(** [b"".join(l)] *)
Definition concat_bytes (l : list string) : string := foldr append "" l.
Lemma concat_bytes_app l1 l2 : concat_bytes (l1 ++ l2) = concat_bytes l1 +:+ concat_bytes l2.
Proof. induction l1 as [|x l1 IH]; [done|]. simpl. by rewrite IH, str_app_assoc. Qed.

(** ** binary32 *)

(** The low [n] bytes of [z], least significant first, and their value. *)
Fixpoint le_bytes (n : nat) (z : Z) : string :=
  match n with
  | O => ""
  | S n => String (ascii_of_N (Z.to_N (Z.land z 255))) (le_bytes n (Z.shiftr z 8))
  end.
Fixpoint le_value (s : string) : Z :=
  match s with
  | EmptyString => 0
  | String c s => Z.lor (Z.of_N (N_of_ascii c)) (Z.shiftl (le_value s) 8)
  end.

(** Rounding to binary32. *)
Definition to_f32 (x : float) : float :=
  match x with S754_finite s m e => binary_round 24 128 s m e | x => x end.

(** The bit pattern of a rounded number; [None] is the [OverflowError] of a
    finite number beyond the range. *)
Definition f32_bits (x : float) : option Z :=
  let sign (s : bool) := if s then 2 ^ 31 else 0 in
  match to_f32 x with
  | S754_zero s => Some (sign s)
  | S754_infinity s => if is_inf x then Some (sign s + 255 * 2 ^ 23) else None
  | S754_nan => Some (511 * 2 ^ 22)
  | S754_finite s m e =>
      if Zpos m <? 2 ^ 23 then Some (sign s + Zpos m) else Some (sign s + (e + 150) * 2 ^ 23 + (Zpos m - 2 ^ 23))
  end.

Definition f32_of_bits (b : Z) : float :=
  let s := Z.testbit b 31 in
  let ex := Z.land (Z.shiftr b 23) 255 in
  let fr := Z.land b (2 ^ 23 - 1) in
  if ex =? 255 then (if fr =? 0 then S754_infinity s else S754_nan)
  else if ex =? 0
  then match fr with Zpos p => binary_round PREC EMAX s p (-149) | _ => S754_zero s end
  else match fr + 2 ^ 23 with Zpos p => binary_round PREC EMAX s p (ex - 150) | _ => S754_nan end.

Definition pack_f32 (x : float) : option string := le_bytes 4 <$> f32_bits x.

(** [struct.pack("<%df" % dimension, *v)] of as many numbers *)
Definition pack_row (v : list float) : option string := concat_bytes <$> mapM pack_f32 v.

(** [struct.unpack_from("<%df" % dimension, data)] *)
Fixpoint unpack_row (dimension : nat) (s : string) : list float :=
  match dimension with
  | O => []
  | S n => f32_of_bits (le_value (str_take 4 s)) :: unpack_row n (str_drop 4 s)
  end.

(** What a vector reads back as. *)
Definition stored_row (v : list float) : option (list float) := unpack_row (length v) <$> pack_row v.

Lemma le_bytes_length n z : String.length (le_bytes n z) = n.
Proof. revert z. induction n as [|n IH]; intros z; [done|]. simpl. by rewrite IH. Qed.

Lemma pack_f32_length x b : pack_f32 x = Some b → String.length b = 4%nat.
Proof. unfold pack_f32. intros (z&_&->)%fmap_Some. apply le_bytes_length. Qed.

Lemma pack_row_length v b : pack_row v = Some b → String.length b = (length v * 4)%nat.
Proof.
  unfold pack_row. intros (l&Hl&->)%fmap_Some. apply mapM_Some in Hl.
  induction Hl as [|x y v l Hx Hl IH]; [done|]. simpl. rewrite str_length_app, IH, (pack_f32_length _ _ Hx). lia.
Qed.

(** The sign bit, exponent and fraction of 0.1 and of the largest finite
    number; rounding is to nearest, ties to even. *)
Example f32_bits_tenth : f32_bits (fdiv fone (float_of_Z 10)) = Some 1036831949.
Proof. by vm_compute. Qed.
Example f32_bits_minus_two : f32_bits (float_of_Z (-2)) = Some 3221225472.
Proof. by vm_compute. Qed.
Example f32_overflow : f32_bits (float_of_Z (2 ^ 128)) = None.
Proof. by vm_compute. Qed.
Example f32_reads_back : (f32_of_bits <$> f32_bits (float_of_Z 3)) = Some (float_of_Z 3).
Proof. by vm_compute. Qed.
