(* ===== verification/SixDigits.v ===== *)
(** * Six significant digits: Python's [format(v, ".6g")] and [float] of it

    The configuration identity of the evidence protocol writes floats with six
    significant digits on both sides, in Python and in C++.  This file defines the
    digits of a binary64 value, rounded half to even from its exact value, their
    text, and the nearest float of a decimal, and proves that reading the digits
    back and formatting again gives the same text. *)

From Stdlib Require Import SpecFloat Ascii String.
From stdpp Require Import base list strings pretty.
From S2P Require Import Prelude Float64 Bytes.
Open Scope Z_scope.

(** ** The digits of a positive fraction *)

(** Powers of ten are moved to the other side until [den <= num < 10 * den]; the
    value is [num / den * 10 ^ x] throughout. *)
Fixpoint climb (fuel : nat) (num den x : Z) : Z * Z :=
  match fuel with
  | O => (den, x)
  | S fuel => if num <? 10 * den then (den, x) else climb fuel num (10 * den) (x + 1)
  end.
Fixpoint descend (fuel : nat) (num den x : Z) : Z * Z :=
  match fuel with
  | O => (num, x)
  | S fuel => if den <=? num then (num, x) else descend fuel (10 * num) den (x - 1)
  end.

Definition round_half_even (a b : Z) : Z :=
  let q := a / b in let r := a mod b in
  if 2 * r <? b then q else if b <? 2 * r then q + 1 else if Z.even q then q else q + 1.

(** The six digits and the decimal exponent: the value is about
    [digits * 10 ^ (exponent - 5)]. *)
Definition six_digits (num den : Z) : Z * Z :=
  let '(den, x) := climb (Z.to_nat (digits num)) num den 0 in
  let '(num, x) := descend (Z.to_nat (digits den)) num den x in
  let d := round_half_even (num * 10 ^ 5) den in
  if d =? 10 ^ 6 then (10 ^ 5, x + 1) else (d, x).

Definition float_digits (m : positive) (e : Z) : Z * Z := six_digits (Zpos m * 2 ^ Z.max e 0) (2 ^ Z.max (- e) 0).

(** ** Text *)

Fixpoint zeros (n : nat) : string := match n with O => "" | S n => String "0" (zeros n) end.
Fixpoint strip_zeros (s : string) : string :=
  match s with
  | EmptyString => EmptyString
  | String c s =>
      match strip_zeros s with
      | EmptyString => if Ascii.eqb c "0" then EmptyString else String c EmptyString
      | t => String c t
      end
  end.
Definition with_fraction (whole fraction : string) : string :=
  match strip_zeros fraction with EmptyString => whole | f => whole +:+ "." +:+ f end.

(** Digits [d] of exponent [x]: scientific below [-4] and from [6] on. *)
Definition digits_text (d x : Z) : string :=
  let ds := pretty d in
  if (x <? -4) || (6 <=? x) then
    let e := pretty (Z.abs x) in
    with_fraction (String.substring 0 1 ds) (String.substring 1 5 ds) +:+ "e" +:+ (if x <? 0 then "-" else "+") +:+
    (if (String.length e <? 2)%nat then String "0" e else e)
  else if 0 <=? x then
    let n := Z.to_nat (x + 1) in with_fraction (String.substring 0 n ds) (String.substring n (6 - n) ds)
  else with_fraction "0" (zeros (Z.to_nat (- x - 1)) +:+ ds).

(** [format(v, ".6g")] *)
Definition format_6g (v : float) : string :=
  match v with
  | S754_nan => "nan"
  | S754_infinity s => if s then "-inf" else "inf"
  | S754_zero s => if s then "-0" else "0"
  | S754_finite s m e =>
      let '(d, x) := float_digits m e in (if s then "-" else "") +:+ digits_text d x
  end.

(** The float nearest to [d * 10 ^ k]. *)
Definition float_of_decimal (s : bool) (d : positive) (k : Z) : float :=
  if 0 <=? k then binary_round PREC EMAX s (d * Z.to_pos (10 ^ k)) 0
  else SFdiv PREC EMAX (S754_finite s d 0) (S754_finite false (Z.to_pos (10 ^ (- k))) 0).

(** [float(format(v, ".6g"))]: the text of a finite value is the decimal of its
    digits. *)
Definition through_6g (v : float) : float :=
  match v with
  | S754_finite s m e => let '(d, x) := float_digits m e in float_of_decimal s (Z.to_pos d) (x - 5)
  | _ => v
  end.

Example format_half : format_6g (S754_finite false 4503599627370496 (-53)) = "0.5".
Proof. vm_compute. reflexivity. Qed.
Example format_tenth : format_6g (S754_finite false 7205759403792794 (-56)) = "0.1".
Proof. vm_compute. reflexivity. Qed.
Example format_large : format_6g (S754_finite true 4503599627370495 5) = "-1.44115e+17".
Proof. vm_compute. reflexivity. Qed.
Example format_max : format_6g (S754_finite false 9007199254740991 971) = "1.79769e+308".
Proof. vm_compute. reflexivity. Qed.
Example format_least : format_6g (S754_finite false 1 (-1074)) = "4.94066e-324".
Proof. vm_compute. reflexivity. Qed.
Example format_million : format_6g (float_of_Z 999999500000) = "1e+12".
Proof. vm_compute. reflexivity. Qed.
Example format_small : format_6g (through_6g (S754_finite false 7205759403792794 (-69))) = "1.2207e-05".
Proof. vm_compute. reflexivity. Qed.
Example through_tenth : through_6g (S754_finite false 7205759403792790 (-56)) = S754_finite false 7205759403792794 (-56).
Proof. vm_compute. reflexivity. Qed.

(** ** The digits are right *)

Lemma pow10_pos k : 0 <= k → 0 < 10 ^ k.
Proof. intros. apply Z.pow_pos_nonneg; lia. Qed.

Lemma climb_spec fuel num den x : 0 < num → 0 < den → num < den * 10 ^ Z.of_nat fuel →
  ∃ b, 0 <= b ∧ climb fuel num den x = (den * 10 ^ b, x + b) ∧ num < 10 * (den * 10 ^ b) ∧
       (b = 0 ∨ den * 10 ^ b <= num).
Proof.
  intros Hn. revert den x. induction fuel as [|fuel IH]; intros den x Hd Hf.
  { exists 0. rewrite Z.pow_0_r, Z.mul_1_r in *. split_and!; [lia|simpl; f_equal; lia|lia|by left]. }
  rewrite Nat2Z.inj_succ, Z.pow_succ_r in Hf by lia. cbn [climb].
  destruct (Z.ltb_spec num (10 * den)) as [Hlt|Hge].
  { exists 0. rewrite Z.pow_0_r, Z.mul_1_r, Z.add_0_r. split_and!; [lia|done|lia|by left]. }
  destruct (IH (10 * den) (x + 1)) as (b&Hb&Heq&Hlt&Hor); [lia|lia|]. exists (b + 1).
  assert (den * 10 ^ (b + 1) = 10 * den * 10 ^ b) as ->.
  { rewrite Z.pow_add_r by lia. lia. }
  split_and!; [lia|rewrite Heq; f_equal; lia|done|]. right. destruct Hor as [->|]; lia.
Qed.

Lemma descend_spec fuel num den x : 0 < num → 0 < den → num < 10 * den → den <= num * 10 ^ Z.of_nat fuel →
  ∃ a, 0 <= a ∧ descend fuel num den x = (num * 10 ^ a, x - a) ∧ den <= num * 10 ^ a < 10 * den.
Proof.
  intros Hn Hd. revert num x Hn. induction fuel as [|fuel IH]; intros num x Hn Hlt Hf.
  { exists 0. rewrite Z.pow_0_r, Z.mul_1_r in *. split_and!; [lia|simpl; f_equal; lia|lia|lia]. }
  rewrite Nat2Z.inj_succ, Z.pow_succ_r in Hf by lia. cbn [descend].
  destruct (Z.leb_spec den num) as [Hle|Hgt].
  { exists 0. rewrite Z.pow_0_r, Z.mul_1_r, Z.sub_0_r. split_and!; [lia|done|lia|lia]. }
  destruct (IH (10 * num) (x - 1)) as (a&Ha&Heq&Hb); [lia|lia|lia|]. exists (a + 1).
  assert (num * 10 ^ (a + 1) = 10 * num * 10 ^ a) as -> by (rewrite Z.pow_add_r by lia; lia).
  split_and!; [lia|rewrite Heq; f_equal; lia|lia|lia].
Qed.

(** A positive number is below ten to the number of its binary digits. *)
Lemma below_pow10 n : 0 < n → n < 10 ^ Z.of_nat (Z.to_nat (digits n)).
Proof.
  intros Hn. destruct (digits_pos n Hn) as [[_ H] Hd]. rewrite Z2Nat.id by lia.
  eapply Z.lt_le_trans; [exact H|]. apply Z.pow_le_mono_l. lia.
Qed.

Lemma round_half_even_near a b q : 0 < b → 2 * Z.abs (a - q * b) < b → round_half_even a b = q.
Proof.
  intros Hb Hq. unfold round_half_even. pose proof (Z.div_mod a b ltac:(lia)) as Hdm. pose proof (Z.mod_pos_bound a b Hb) as Hr.
  set (d := a / b) in *. set (r := a mod b) in *.
  assert (q = d ∨ q = d + 1) as [->| ->] by nia.
  - assert (a - d * b = r) as Ha by lia. rewrite Ha in Hq. rewrite Z.abs_eq in Hq by lia. by rewrite (proj2 (Z.ltb_lt (2 * r) b)).
  - assert (a - (d + 1) * b = r - b) as Ha by lia. rewrite Ha in Hq. rewrite Z.abs_neq in Hq by lia.
    rewrite (proj2 (Z.ltb_ge (2 * r) b)) by lia. by rewrite (proj2 (Z.ltb_lt b (2 * r))) by lia.
Qed.

(** The normalised fraction. *)
Lemma normalised num den : 0 < num → 0 < den →
  ∃ n d x, 0 < n ∧ 0 < d ∧ d <= n < 10 * d ∧
    six_digits num den = (let r := round_half_even (n * 10 ^ 5) d in if r =? 10 ^ 6 then (10 ^ 5, x + 1) else (r, x)) ∧
    ∀ k, 0 <= k → 0 <= k + x → num * d * 10 ^ k = n * den * 10 ^ (k + x).
Proof.
  intros Hn Hd. destruct (climb_spec (Z.to_nat (digits num)) num den 0) as (b&Hb&Hc&Hlt&Hor); [done|done| |].
  { pose proof (below_pow10 num Hn). nia. }
  pose proof (pow10_pos b Hb) as Hpb. set (d := den * 10 ^ b) in *. assert (0 < d) as Hd' by (subst d; nia).
  destruct (descend_spec (Z.to_nat (digits d)) num d (0 + b)) as (a&Ha&Hde&Hbd); [done..| |].
  { pose proof (below_pow10 d Hd'). nia. }
  pose proof (pow10_pos a Ha) as Hpa. exists (num * 10 ^ a), d, (b - a). split_and!; [nia|done|lia|lia| |].
  { unfold six_digits. rewrite Hc. fold d. rewrite Hde. by rewrite Z.add_0_l. }
  intros k Hk Hkx. unfold d. replace (num * (den * 10 ^ b) * 10 ^ k) with (num * den * (10 ^ b * 10 ^ k)) by lia.
  replace (num * 10 ^ a * den * 10 ^ (k + (b - a))) with (num * den * (10 ^ a * 10 ^ (k + (b - a)))) by lia.
  rewrite <- !Z.pow_add_r by lia. do 2 f_equal. lia.
Qed.

(** A value that is as close to a decimal of six digits as a rounded float is has
    these digits. *)
Lemma six_digits_close num den D X k : 0 < num → 0 < den → 10 ^ 5 <= D < 10 ^ 6 → 0 <= k → 0 <= k + X - 5 →
  Z.abs (num * 10 ^ k - D * den * 10 ^ (k + X - 5)) * 2 ^ 52 <= D * den * 10 ^ (k + X - 5) →
  six_digits num den = (D, X).
Proof.
  intros Hn Hd HD Hk HkX Hclose. destruct (normalised num den Hn Hd) as (n&d&x&Hn'&Hd'&Hnd&->&Hval).
  set (j := Z.abs x + 1). specialize (Hval (k + j) ltac:(lia) ltac:(lia)). cbn zeta.
  set (P := 10 ^ (k + j + X - 6)). set (Q := 10 ^ (k + j + x)) in *.
  assert (0 < P) as HP by (apply pow10_pos; lia).
  assert (Z.abs (n * Q - 10 * D * P * d) * 2 ^ 52 <= 10 * D * P * d) as Hc.
  { assert (10 ^ (k + j) = 10 ^ k * 10 ^ j) as Hkj by (apply Z.pow_add_r; lia).
    assert (10 * P = 10 ^ (k + X - 5) * 10 ^ j) as HPj.
    { unfold P. rewrite <- Z.pow_add_r by lia. rewrite <- Z.pow_succ_r by lia. f_equal. lia. }
    apply (Zmult_le_reg_r _ _ den); [lia|].
    pose proof (pow10_pos j ltac:(lia)) as Hj. set (J := 10 ^ j) in *. set (R := 10 ^ (k + X - 5)) in *.
    assert (Z.abs (n * Q - 10 * D * P * d) * den = Z.abs (num * 10 ^ k - D * den * R) * (d * J)) as Habs.
    { rewrite <- (Z.abs_eq den) at 1 by lia. rewrite <- (Z.abs_eq (d * J)) by nia. rewrite <- !Z.abs_mul. f_equal.
      rewrite !Z.mul_sub_distr_r. f_equal; [rewrite Hkj in Hval; lia|].
      replace (10 * D * P * d * den) with (10 * P * (D * d * den)) by lia. rewrite HPj. lia. }
    replace (Z.abs (n * Q - 10 * D * P * d) * 2 ^ 52 * den) with (Z.abs (n * Q - 10 * D * P * d) * den * 2 ^ 52) by lia.
    rewrite Habs. replace (10 * D * P * d * den) with (D * den * (10 * P) * d) by lia. rewrite HPj. nia. }
  clear Hclose Hval. assert (2 ^ 52 = 4503599627370496) as E52 by reflexivity. rewrite E52 in Hc.
  assert (10 ^ 5 = 100000) as E5 by reflexivity. assert (10 ^ 6 = 1000000) as E6 by reflexivity. rewrite E5, E6 in *.
  assert (∀ i, 0 <= i → 10 ^ (k + j + X - 6 + i) = P * 10 ^ i) as HPi by (intros; unfold P; apply Z.pow_add_r; lia).
  assert (x = X ∨ x = X - 1 ∨ X + 1 <= x ∨ x <= X - 2) as [->|[->|[Hx|Hx]]] by lia.
  - assert (Q = P * 10 ^ 6) as HQ by (rewrite <- HPi by lia; unfold Q; f_equal; lia). rewrite HQ, E6 in Hc.
    assert (Z.abs (n * 100000 - D * d) * 4503599627370496 <= D * d) as Hc'.
    { replace (n * (P * 1000000) - 10 * D * P * d) with ((n * 100000 - D * d) * (10 * P)) in Hc by lia.
      rewrite Z.abs_mul, (Z.abs_eq (10 * P)) in Hc by lia. nia. }
    assert (2 * Z.abs (n * 100000 - D * d) < d) as Hnear by nia.
    rewrite (round_half_even_near _ _ D); [|lia|exact Hnear]. by rewrite (proj2 (Z.eqb_neq D 1000000)) by lia.
  - assert (Q = P * 10 ^ 5) as HQ by (rewrite <- HPi by lia; unfold Q; f_equal; lia). rewrite HQ, E5 in Hc.
    assert (Z.abs (n * 100000 - 10 * D * d) * 4503599627370496 <= 10 * D * d) as Hc'.
    { replace (n * (P * 100000) - 10 * D * P * d) with ((n * 100000 - 10 * D * d) * P) in Hc by lia.
      rewrite Z.abs_mul, (Z.abs_eq P) in Hc by lia. nia. }
    assert (D = 100000) as -> by nia.
    assert (2 * Z.abs (n * 100000 - 1000000 * d) < d) as Hnear by lia.
    rewrite (round_half_even_near _ _ 1000000); [|lia|exact Hnear]. simpl. f_equal. lia.
  - exfalso. assert (P * 10000000 <= Q) as HQ.
    { change 10000000 with (10 ^ 7). rewrite <- HPi by lia. apply Z.pow_le_mono_r; lia. }
    assert (d * (P * 10000000) <= n * Q) by nia. assert (0 < P * d) by nia. nia.
  - exfalso. assert (Q <= P * 10000) as HQ.
    { change 10000 with (10 ^ 4). rewrite <- HPi by lia. apply Z.pow_le_mono_r; lia. }
    assert (n * Q <= 10 * d * (P * 10000)) by nia. assert (0 < P * d) by nia. nia.
Qed.

(** ** Reading the digits back *)

(** Rounding the fraction [a / b], of which [q] are the first bits. *)
Lemma rounded_close sg a b q s l r : 0 < a → 0 < b → 0 <= s → 0 <= q → a * 2 ^ s = b * q + r → 0 <= r < b →
  - s <= fexp64 (digits q + - s) → b <= a * 2 ^ 1010 → a <= b * 2 ^ 1010 →
  ∃ p e, binary_round_aux PREC EMAX sg q (- s) l = S754_finite sg p e ∧
    ∀ k, 0 <= k → 0 <= k + e → Z.abs (Zpos p * 2 ^ (k + e) * b - a * 2 ^ k) * 2 ^ 52 <= a * 2 ^ k.
Proof.
  intros Ha Hb Hs Hq Heq Hr He Hlow Hhigh. destruct (rounded q (- s) l Hq He sg) as (x&Hx&Hx0&_&_&Hcase).
  destruct (shifted_large q (- s) Hq He) as [HE Hlarge]. set (E := fexp64 (digits q + - s)) in *. set (n := E - - s) in *.
  assert (0 <= n) as Hn by lia. pose proof (pow2_pos n Hn) as Hpn. pose proof (pow2_pos s Hs) as Hps.
  destruct Hlarge as [Hsub|Hlarge].
  { exfalso. unfold E in Hsub. rewrite fexp64_eq in Hsub. assert (digits q <= s - 1021) as Hd by lia.
    pose proof (digits_nonneg q). assert (q + 1 <= 2 ^ (s - 1021)) as Hqs.
    { assert (2 ^ digits q <= 2 ^ (s - 1021)) by (apply Z.pow_le_mono_r; lia).
      destruct (decide (q = 0)) as [->|]; [pose proof (pow2_pos (s - 1021)); lia|].
      destruct (digits_pos q) as [[_ ?] _]; lia. }
    assert (2 ^ s = 2 ^ (s - 1021) * 2 ^ 1021) as Hss by (rewrite <- Z.pow_add_r by lia; f_equal; lia).
    assert (a * 2 ^ 1021 < b) as Hbad by (pose proof (pow2_pos (s - 1021) ltac:(lia)); nia).
    change (2 ^ 1021) with (2 ^ 1010 * 2 ^ 11) in Hbad. pose proof (pow2_pos 1010). lia. }
  assert (E <= 970) as HE2.
  { apply Z.nlt_ge. intros Hbig. assert (2 ^ (s + 1023) <= q) as Hqb.
    { assert (0 < q). { destruct (decide (q = 0)) as [Hz|]; [|lia]. rewrite Hz, Z.div_0_l in Hlarge by lia. lia. }
      destruct (digits_pos q) as [[? _] _]; [done|]. unfold E in Hbig. rewrite fexp64_eq in Hbig.
      etransitivity; [|done]. apply Z.pow_le_mono_r; lia. }
    rewrite Z.pow_add_r in Hqb by lia. change (2 ^ 1023) with (2 ^ 1010 * 2 ^ 13) in Hqb. pose proof (pow2_pos 1010). nia. }
  assert (∃ p e, binary_round_aux PREC EMAX sg q (- s) l = S754_finite sg p e ∧ 0 <= e - E <= 1 ∧
    Zpos p * 2 ^ (e - E) = x) as (p&e&Hp&HeE&Hval).
  { rewrite Hx. unfold pack. assert (2 ^ 52 <= x) by lia. rewrite (proj2 (Z.eqb_neq x 0)) by lia.
    destruct (Z.eqb_spec x (2 ^ 53)) as [->|].
    - rewrite (proj2 (Z.leb_le (E + 1) 971)) by lia. eexists _, _. split; [done|]. split; [lia|].
      by replace (E + 1 - E) with 1 by lia.
    - rewrite (proj2 (Z.leb_le E 971)) by lia. eexists _, _. split; [done|]. split; [lia|].
      rewrite Z.sub_diag, Z.pow_0_r, Z2Pos.id; lia. }
  exists p, e. split; [done|]. intros k Hk Hke.
  assert (Z.abs (x * 2 ^ n * b - a * 2 ^ s) <= 2 ^ n * b ∧ 2 ^ 52 * (2 ^ n * b) <= a * 2 ^ s) as [Hnear Hbig].
  { pose proof (Z.div_mod q (2 ^ n) ltac:(lia)). pose proof (Z.mod_pos_bound q (2 ^ n) Hpn).
    set (d := q / 2 ^ n) in *. split; [destruct Hcase as [->|[-> _]]; nia|nia]. }
  assert (Zpos p * 2 ^ (k + e) * 2 ^ s = x * 2 ^ n * 2 ^ k) as Hscale.
  { rewrite <- Hval, <- !Z.mul_assoc, <- !Z.pow_add_r by lia. do 2 f_equal. lia. }
  pose proof (pow2_pos k Hk) as Hpk. apply (Zmult_le_reg_r _ _ (2 ^ s)); [lia|].
  assert (Z.abs (Zpos p * 2 ^ (k + e) * b - a * 2 ^ k) * 2 ^ s = Z.abs (x * 2 ^ n * b - a * 2 ^ s) * 2 ^ k) as Habs.
  { rewrite <- (Z.abs_eq (2 ^ s)) at 1 by lia. rewrite <- (Z.abs_eq (2 ^ k)) at 2 by lia. rewrite <- !Z.abs_mul. f_equal.
    rewrite !Z.mul_sub_distr_r. f_equal; [|lia].
    replace (Zpos p * 2 ^ (k + e) * b * 2 ^ s) with (Zpos p * 2 ^ (k + e) * 2 ^ s * b) by lia. rewrite Hscale. lia. }
  replace (Z.abs (Zpos p * 2 ^ (k + e) * b - a * 2 ^ k) * 2 ^ 52 * 2 ^ s)
    with (Z.abs (Zpos p * 2 ^ (k + e) * b - a * 2 ^ k) * 2 ^ s * 2 ^ 52) by lia. rewrite Habs. nia.
Qed.

(** The decimal [d * 10 ^ k] is read as a float that is as close. *)
Lemma float_of_decimal_close sg d k : let a := Zpos d * 10 ^ Z.max k 0 in let b := 10 ^ Z.max (- k) 0 in
  b <= a * 2 ^ 1010 → a <= b * 2 ^ 1010 →
  ∃ p e, float_of_decimal sg d k = S754_finite sg p e ∧
    ∀ j, 0 <= j → 0 <= j + e → Z.abs (Zpos p * 2 ^ (j + e) * b - a * 2 ^ j) * 2 ^ 52 <= a * 2 ^ j.
Proof.
  intros a b Hlow Hhigh. unfold float_of_decimal. destruct (Z.leb_spec 0 k) as [Hk|Hk].
  - assert (a = Zpos (d * Z.to_pos (10 ^ k)) ∧ b = 1) as [Ha Hb].
    { unfold a, b. rewrite Z.max_l, Z.max_r by lia. pose proof (pow10_pos k Hk). by rewrite Pos2Z.inj_mul, Z2Pos.id by done. }
    unfold binary_round. set (m := (d * Z.to_pos (10 ^ k))%positive) in *.
    change (fexp PREC EMAX (Zpos (digits2_pos m) + 0)) with (fexp64 (digits (Zpos m) + 0)).
    destruct (shl_align_spec m 0 (fexp64 (digits (Zpos m) + 0))) as (q&x&->&Hx&Hq). rewrite Z.sub_0_l in Hq.
    replace x with (- - x) by lia. apply (rounded_close sg a b (Zpos q) (- x) loc_Exact 0); try lia.
    + by rewrite Ha, Hb, Hq, Z.mul_1_l, Z.add_0_r.
    + rewrite Hq, digits_shift by lia. replace (digits (Zpos m) + - x + - - x) with (digits (Zpos m) + 0) by lia. lia.
  - unfold SFdiv. assert (a = Zpos d ∧ b = Zpos (Z.to_pos (10 ^ (- k)))) as [Ha Hb].
    { unfold a, b. rewrite Z.max_r, Z.max_l by lia. pose proof (pow10_pos (- k) ltac:(lia)).
      rewrite Z2Pos.id by done. split; lia. }
    destruct (div_core_spec (Zpos d) 0 (Zpos (Z.to_pos (10 ^ (- k)))) 0) as (q&e&l&r&s&->&Hs&He&Heq&Hr&_&Hfe); [done..|].
    replace (xorb sg false) with sg by (by destruct sg). rewrite <- Hb, <- Ha in *.
    assert (e = - s) as -> by lia. apply (rounded_close sg a b q s l r); try done; try lia.
    pose proof (pow2_pos s Hs). nia.
Qed.

(** The digits of a value: six of them, and at most twice or half the value. *)
Lemma six_digits_range num den D X : 0 < num → 0 < den → six_digits num den = (D, X) →
  10 ^ 5 <= D < 10 ^ 6 ∧
  ∀ k, 0 <= k → 0 <= k + X - 5 →
    num * 10 ^ k <= 2 * (D * den * 10 ^ (k + X - 5)) ∧ D * den * 10 ^ (k + X - 5) <= 2 * (num * 10 ^ k).
Proof.
  intros Hn Hd Hsix. destruct (normalised num den Hn Hd) as (n&d&x&Hn'&Hd'&Hnd&Heq&Hval). rewrite Hsix in Heq. cbn zeta in Heq.
  assert (10 ^ 5 = 100000) as E5 by reflexivity. assert (10 ^ 6 = 1000000) as E6 by reflexivity. rewrite E5, E6 in *.
  set (r := round_half_even (n * 100000) d) in *.
  assert (d * r <= n * 100000 + d ∧ n * 100000 <= d * r + d ∧ 100000 <= r <= 1000000) as (H1&H2&H3).
  { unfold r, round_half_even. pose proof (Z.div_mod (n * 100000) d ltac:(lia)). pose proof (Z.mod_pos_bound (n * 100000) d Hd').
    set (y := n * 100000 / d) in *. assert (100000 <= y < 1000000) by nia. repeat case_match; nia. }
  assert (∃ u, 0 <= u <= 1 ∧ D * 10 ^ u = r ∧ X = x + u ∧ 100000 <= D < 1000000) as (u&Hu&HD&HX&Hrange).
  { destruct (Z.eqb_spec r 1000000) as [Hr|]; injection Heq as -> ->; [exists 1|exists 0]; split_and!; lia. }
  split; [done|]. intros k Hk HkX. pose proof (Hval (k + 5) ltac:(lia)) as Hv.
  destruct (decide (0 <= k + x)) as [Hkx|Hkx].
  - assert (∀ z, 0 <= z → 10 ^ (z + 5) = 10 ^ z * 100000) as Hp5.
    { intros z Hz. by rewrite Z.pow_add_r by lia. }
    rewrite Hp5 in Hv by lia. replace (k + 5 + x) with ((k + x) + 5) in Hv by lia.
    specialize (Hv ltac:(lia)). rewrite Hp5 in Hv by lia.
    assert (10 ^ (k + X - 5) * 100000 = 10 ^ (k + x) * 10 ^ u) as HP.
    { rewrite <- Hp5, <- Z.pow_add_r by lia. f_equal. lia. }
    set (P := 10 ^ (k + x)) in *. set (Q := 10 ^ (k + X - 5)) in *. set (T := 10 ^ k) in *. set (U := 10 ^ u) in *.
    assert (D * Q * 100000 = r * P) as HDQ by nia.
    assert (num * T * d = n * den * P) as HT by nia. assert (0 < P) by (apply pow10_pos; lia).
    assert (D * den * Q * 100000 = r * den * P) as HR by nia.
    split; apply (Zmult_le_reg_r _ _ (d * 100000)); try lia.
    + replace (num * T * (d * 100000)) with (n * 100000 * (den * P)) by nia.
      replace (2 * (D * den * Q) * (d * 100000)) with (2 * (d * r) * (den * P)) by nia.
      apply Z.mul_le_mono_nonneg_r; nia.
    + replace (2 * (num * T) * (d * 100000)) with (2 * (n * 100000) * (den * P)) by nia.
      replace (D * den * Q * (d * 100000)) with (d * r * (den * P)) by nia.
      apply Z.mul_le_mono_nonneg_r; nia.
  - exfalso. lia.
Qed.

(** A value between [2 ^ -1000] and [2 ^ 1000]. *)
Definition moderate (m : positive) (e : Z) : Prop :=
  2 ^ Z.max (- e) 0 <= Zpos m * 2 ^ Z.max e 0 * 2 ^ 1000 ∧ Zpos m * 2 ^ Z.max e 0 <= 2 ^ Z.max (- e) 0 * 2 ^ 1000.

Lemma read_digits_back s m e D X : moderate m e → float_digits m e = (D, X) →
  ∃ p e', float_of_decimal s (Z.to_pos D) (X - 5) = S754_finite s p e' ∧ float_digits p e' = (D, X).
Proof.
  intros [Hlow Hhigh] Hsix. unfold float_digits in Hsix. set (num := Zpos m * 2 ^ Z.max e 0) in *. set (den := 2 ^ Z.max (- e) 0) in *.
  assert (0 < num) as Hnum by (pose proof (pow2_pos (Z.max e 0)); lia). assert (0 < den) as Hden by (apply pow2_pos; lia).
  destruct (six_digits_range num den D X Hnum Hden Hsix) as [HD Hclose].
  set (j := Z.max (5 - X) 0). specialize (Hclose j ltac:(lia) ltac:(lia)).
  assert (Zpos (Z.to_pos D) = D) as HDp by (apply Z2Pos.id; lia).
  assert (j + X - 5 = Z.max (X - 5) 0) as Hj by lia. rewrite Hj in Hclose.
  assert (10 ^ j = 10 ^ Z.max (- (X - 5)) 0) as Hb by (f_equal; lia). rewrite Hb in Hclose.
  set (b := 10 ^ Z.max (- (X - 5)) 0) in *. set (a := D * 10 ^ Z.max (X - 5) 0).
  replace (D * den * 10 ^ Z.max (X - 5) 0) with (a * den) in Hclose by (unfold a; lia). destruct Hclose as [Hc1 Hc2].
  assert (0 < b) as Hbp by (apply pow10_pos; lia).
  destruct (float_of_decimal_close s (Z.to_pos D) (X - 5)) as (p&e'&Hf&Hnear).
  { rewrite HDp. fold a b. change (2 ^ 1010) with (2 ^ 1000 * 1024). apply (Zmult_le_reg_r _ _ den); [lia|]. nia. }
  { rewrite HDp. fold a b. change (2 ^ 1010) with (2 ^ 1000 * 1024). apply (Zmult_le_reg_r _ _ den); [lia|]. nia. }
  exists p, e'. split; [done|]. rewrite HDp in Hnear. fold a b in Hnear. specialize (Hnear (Z.max (- e') 0) ltac:(lia) ltac:(lia)).
  replace (Z.max (- e') 0 + e') with (Z.max e' 0) in Hnear by lia. unfold float_digits.
  set (num' := Zpos p * 2 ^ Z.max e' 0) in *. set (den' := 2 ^ Z.max (- e') 0) in *.
  apply (six_digits_close num' den' D X j); [|apply pow2_pos; lia|done|lia|lia|].
  { unfold num'. pose proof (pow2_pos (Z.max e' 0)). lia. }
  rewrite Hj, Hb. fold b. replace (D * den' * 10 ^ Z.max (X - 5) 0) with (a * den') by (unfold a; lia). done.
Qed.

(** [format(float(format(v, ".6g")), ".6g")] is [format(v, ".6g")]. *)
Lemma format_through v :
  match v with S754_finite _ m e => moderate m e | _ => True end → format_6g (through_6g v) = format_6g v.
Proof.
  destruct v as [s|s| |s m e]; [done..|]. intros Hm. unfold through_6g. destruct (float_digits m e) as [D X] eqn:Hd.
  destruct (read_digits_back s m e D X Hm Hd) as (p&e'&->&Hd'). unfold format_6g. by rewrite Hd', Hd.
Qed.

(** ** The characters of numerals *)

(** No colon occurs in [s]. *)
Definition colonless (s : string) : Prop := Forall (λ c, c ≠ ":"%char) (String.list_ascii_of_string s).

Lemma list_ascii_append s t : String.list_ascii_of_string (s +:+ t) = String.list_ascii_of_string s ++ String.list_ascii_of_string t.
Proof. induction s as [|c s IH]; [done|]. rewrite str_app_cons. simpl. by rewrite IH. Qed.
Lemma colonless_app s t : colonless s → colonless t → colonless (s +:+ t).
Proof. unfold colonless. rewrite list_ascii_append. apply Forall_app_2. Qed.
Lemma colonless_cons c s : colonless (String c s) ↔ c ≠ ":"%char ∧ colonless s.
Proof. unfold colonless. simpl. by rewrite Forall_cons. Qed.
Lemma colonless_substring n k s : colonless s → colonless (String.substring n k s).
Proof.
  revert n k. induction s as [|c s IH]; intros n k; [by destruct n, k|]. rewrite colonless_cons. intros [Hc Hs].
  destruct n as [|n]; [|by apply IH]. destruct k as [|k]; [constructor|]. simpl. apply colonless_cons. by split; [|apply IH].
Qed.
Lemma colonless_strip s : colonless s → colonless (strip_zeros s).
Proof.
  induction s as [|c s IH]; [done|]. rewrite colonless_cons. intros [Hc Hs]. cbn [strip_zeros]. specialize (IH Hs).
  destruct (strip_zeros s); [destruct (Ascii.eqb c "0"); [constructor|]|]; by apply colonless_cons.
Qed.
Lemma colonless_zeros n : colonless (zeros n).
Proof. induction n; [constructor|]. by apply colonless_cons. Qed.
Lemma colonless_fraction w f : colonless w → colonless f → colonless (with_fraction w f).
Proof.
  intros Hw Hf%colonless_strip. unfold with_fraction. destruct (strip_zeros f); [done|].
  by repeat apply colonless_app; [|repeat constructor|].
Qed.
Lemma colonless_pretty (z : Z) : colonless (pretty z).
Proof.
  assert (∀ n : N, colonless (pretty n)) as HN.
  { intros n. unfold pretty, pretty_N. case_decide; [by repeat constructor|].
    assert (∀ s, colonless s → colonless (pretty_N_go n s)) as Hgo; [|apply Hgo; constructor].
    clear. induction (N.lt_wf_0 n) as [n _ IH]. intros s Hs. destruct (decide (n = 0)%N) as [->|Hn]; [by rewrite pretty_N_go_0|].
    rewrite pretty_N_go_step by lia. apply IH; [apply N.div_lt; lia|]. apply colonless_cons. split; [|done].
    unfold pretty_N_char. by repeat case_match. }
  destruct z as [|p|p]; [by repeat constructor|apply (HN (N.pos p))|]. change (pretty (Z.neg p)) with (String "-" (pretty (N.pos p))).
  by apply colonless_cons.
Qed.

Lemma colonless_format v : colonless (format_6g v).
Proof.
  destruct v as [s|s| |s m e]; [destruct s; by repeat constructor..|by repeat constructor|]. unfold format_6g.
  destruct (float_digits m e) as [D X]. apply colonless_app; [destruct s; by repeat constructor|]. unfold digits_text.
  pose proof (colonless_pretty D) as HD. pose proof (colonless_pretty (Z.abs X)) as HX. case_match; [|case_match].
  - repeat apply colonless_app; [by apply colonless_fraction; apply colonless_substring|by repeat constructor|case_match; by repeat constructor|].
    case_match; [by apply colonless_cons|done].
  - by apply colonless_fraction; apply colonless_substring.
  - apply colonless_fraction; [by repeat constructor|]. apply colonless_app; [apply colonless_zeros|done].
Qed.

(** The last field of colon-separated text is determined. *)
Lemma colon_split s s' a a' : colonless a → colonless a' → s +:+ ":" +:+ a = s' +:+ ":" +:+ a' → s = s' ∧ a = a'.
Proof.
  intros Ha Ha' Heq.
  assert (∀ (l l' k k' : list ascii), Forall (λ c, c ≠ ":"%char) k → Forall (λ c, c ≠ ":"%char) k' →
    l ++ ":"%char :: k = l' ++ ":"%char :: k' → l = l' ∧ k = k') as Hl.
  { clear. induction l as [|x l IH]; intros [|y l'] k k' Hk Hk' Heq.
    - by injection Heq as ->.
    - injection Heq as Hx Hl. subst k. apply Forall_app in Hk as [_ Hk]. by apply Forall_cons in Hk as [Hk _].
    - injection Heq as Hx Hl. subst k'. apply Forall_app in Hk' as [_ Hk']. by apply Forall_cons in Hk' as [Hk' _].
    - injection Heq as Hx Hl. destruct (IH l' k k' Hk Hk' Hl) as [-> ->]. by subst. }
  assert (∀ x y, String.list_ascii_of_string x = String.list_ascii_of_string y → x = y) as Hinj.
  { intros x y Hxy. by rewrite <- (String.string_of_list_ascii_of_string x), Hxy, String.string_of_list_ascii_of_string. }
  apply (f_equal String.list_ascii_of_string) in Heq. rewrite !list_ascii_append in Heq. simpl in Heq.
  apply Hl in Heq as [H1 H2]; [|done..]. by split; apply Hinj.
Qed.
