(* ===== verification/PyJson.v ===== *)
(** * Python values that JSON can carry, and [json.dumps] in canonical form

    [json] is what [json.loads] returns: dicts keep their insertion order and,
    for values read through [_reject_duplicate_object_pairs], have distinct
    keys ([wf_json]).  [py_eq_int] is Python's [==] against an int, where
    [True == 1 == 1.0].  [dumps] models
    [json.dumps(v, sort_keys=True, ensure_ascii=False, separators=(",", ":"))],
    the canonical form that the fingerprints digest; strings are UTF-8 bytes,
    whose order agrees with the order by code point that [sort_keys] uses.
    The decimal rendering of floats, SHA-256 and [datetime.fromisoformat] are
    operations of the class [PyStdlib]. *)

From Stdlib Require Import SpecFloat Ascii String.
From stdpp Require Import base list strings pretty sorting.
From S2P Require Import Prelude.
Open Scope Z_scope.

(** ** Values *)

Inductive json : Type :=
| JNull
| JBool (b : bool)
| JInt (z : Z)
| JFloat (f : spec_float)
| JStr (s : string)
| JList (l : list json)
| JObj (m : list (string * json)).

(** Standard-library functions the code calls and the model does not define. *)
Class PyStdlib := {
  (** [hashlib.sha256(b).hexdigest()] *)
  sha256_hex : string → string;
  (** [datetime.fromisoformat(s)] succeeds and the result carries a tzinfo *)
  iso_tz_aware : string → bool;
  (** [repr] of a float, as [json.dumps] prints it *)
  float_repr : spec_float → string }.

Section json_induction.
Variable P : json → Prop.
Hypothesis Pnull : P JNull.
Hypothesis Pbool : ∀ b, P (JBool b).
Hypothesis Pint : ∀ z, P (JInt z).
Hypothesis Pfloat : ∀ f, P (JFloat f).
Hypothesis Pstr : ∀ s, P (JStr s).
Hypothesis Plist : ∀ l, Forall P l → P (JList l).
Hypothesis Pobj : ∀ m, Forall (λ kv, P kv.2) m → P (JObj m).

Fixpoint json_nested_ind (j : json) : P j :=
  match j with
  | JNull => Pnull
  | JBool b => Pbool b
  | JInt z => Pint z
  | JFloat f => Pfloat f
  | JStr s => Pstr s
  | JList l =>
      Plist l ((fix go l := match l return Forall P l with
                            | [] => Forall_nil_2 _
                            | x :: l' => Forall_cons_2 _ _ _ (json_nested_ind x) (go l')
                            end) l)
  | JObj m =>
      Pobj m ((fix go m := match m return Forall (λ kv, P kv.2) m with
                           | [] => Forall_nil_2 _
                           | kv :: m' => Forall_cons_2 _ _ _ (json_nested_ind kv.2) (go m')
                           end) m)
  end.
End json_induction.

(** ** Dict access *)

(** [d.get(k)] on the pairs of a dict, in insertion order. *)
Fixpoint obj_get (k : string) (m : list (string * json)) : option json :=
  match m with
  | [] => None
  | (k', v) :: m' => if String.eqb k k' then Some v else obj_get k m'
  end.

(** [d.get(k)] when a missing key and an explicit [None] are not told apart. *)
Definition obj_get_or_null (k : string) (m : list (string * json)) : json :=
  default JNull (obj_get k m).

Definition obj_keys (m : list (string * json)) : list string := m.*1.

(** [set(d) == set(fields)] *)
Definition same_key_set (m : list (string * json)) (fields : list string) : bool :=
  bool_decide (Forall (λ k, k ∈ fields) (obj_keys m)) &&
  bool_decide (Forall (λ k, k ∈ obj_keys m) fields).

(** ** Python type tests and equality against an int *)

(** A finite float equals the integer [z] exactly. *)
Definition float_eq_Z (f : spec_float) (z : Z) : bool :=
  match f with
  | S754_zero _ => z =? 0
  | S754_finite s m e =>
      let v := if s then Z.neg m else Z.pos m in
      if 0 <=? e then z =? v * 2 ^ e else z * 2 ^ (- e) =? v
  | _ => false
  end.

(** [v == z] for a Python int [z]: bools are ints and floats compare exactly. *)
Definition py_eq_int (v : json) (z : Z) : bool :=
  match v with
  | JBool b => Z.b2z b =? z
  | JInt n => n =? z
  | JFloat f => float_eq_Z f z
  | _ => false
  end.

(** [isinstance(v, str) and v] *)
Definition is_nonempty_str (v : json) : bool :=
  match v with JStr s => negb (String.eqb s "") | _ => false end.

Definition is_bool (v : json) : bool := match v with JBool _ => true | _ => false end.
Definition is_str (v : json) : bool := match v with JStr _ => true | _ => false end.
Definition is_dict (v : json) : bool := match v with JObj _ => true | _ => false end.
Definition is_null (v : json) : bool := match v with JNull => true | _ => false end.

(** [type(v) is int]: [bool] is excluded. *)
Definition strict_int (v : json) : option Z :=
  match v with JInt z => Some z | _ => None end.

(** ** Well-formed values: every dict has distinct keys *)

Fixpoint wf_json (j : json) : Prop :=
  match j with
  | JList l => (fix go l := match l with [] => True | x :: l' => wf_json x ∧ go l' end) l
  | JObj m =>
      NoDup m.*1 ∧
      (fix go m := match m with [] => True | kv :: m' => wf_json kv.2 ∧ go m' end) m
  | _ => True
  end.

Lemma wf_json_list l : wf_json (JList l) ↔ Forall wf_json l.
Proof.
  simpl. induction l as [|x l IH]; [by split|]. rewrite Forall_cons. by rewrite IH.
Qed.

Lemma wf_json_obj m :
  wf_json (JObj m) ↔ NoDup m.*1 ∧ Forall (λ kv, wf_json kv.2) m.
Proof.
  simpl. assert (∀ m, (fix go m := match m with
      | [] => True | kv :: m' => wf_json kv.2 ∧ go m' end) m
      ↔ Forall (λ kv : string * json, wf_json kv.2) m) as ->; [|done].
  clear. induction m as [|kv m IH]; [by split|]. rewrite Forall_cons. by rewrite IH.
Qed.

(** ** Lookup lemmas *)

Lemma obj_get_Some_elem k v m : obj_get k m = Some v → (k, v) ∈ m.
Proof.
  induction m as [|[k' v'] m IH]; [done|]. simpl.
  destruct (String.eqb_spec k k') as [->|]; [intros [= ->]; left|right; auto].
Qed.

Lemma obj_get_elem k v m : NoDup m.*1 → (k, v) ∈ m → obj_get k m = Some v.
Proof.
  induction m as [|[k' v'] m IH]; [by intros _ ?%not_elem_of_nil|].
  rewrite fmap_cons, NoDup_cons; simpl. intros [Hni Hnd].
  intros [[= -> ->]|Hin]%elem_of_cons; [by rewrite String.eqb_refl|].
  destruct (String.eqb_spec k k') as [->|]; [|auto].
  destruct Hni. apply list_elem_of_fmap. by exists (k', v).
Qed.

Lemma obj_get_permutation k m m' :
  NoDup m.*1 → m ≡ₚ m' → obj_get k m = obj_get k m'.
Proof.
  intros Hnd Hp.
  assert (NoDup m'.*1) as Hnd' by (by rewrite <- Hp).
  destruct (obj_get k m) as [v|] eqn:E.
  - symmetry. apply obj_get_elem; [done|]. rewrite <- Hp. by apply obj_get_Some_elem.
  - destruct (obj_get k m') as [v|] eqn:E'; [|done].
    apply obj_get_Some_elem in E'. rewrite <- Hp in E'.
    by rewrite (obj_get_elem k v m Hnd E') in E.
Qed.

Lemma obj_get_is_Some k m : k ∈ obj_keys m ↔ is_Some (obj_get k m).
Proof.
  unfold obj_keys. induction m as [|[k' v] m IH]; simpl.
  - split; [by intros ?%not_elem_of_nil|by intros [? ?]].
  - rewrite elem_of_cons, IH. destruct (String.eqb_spec k k'); naive_solver.
Qed.

(** ** [json.dumps] in canonical form *)

(** Quote, backslash, newline, carriage return, tab, backspace, form feed and
    the other control characters are escaped; all other bytes are copied. *)
Definition hex_digit (n : nat) : ascii :=
  default "0"%char (String.list_ascii_of_string "0123456789abcdef" !! n).

Definition escape_char (c : ascii) : string :=
  let n := nat_of_ascii c in
  let esc d := String (Ascii.ascii_of_nat 92) (String d EmptyString) in
  if (n =? 34)%nat then esc (Ascii.ascii_of_nat 34)
  else if (n =? 92)%nat then esc (Ascii.ascii_of_nat 92)
  else if (n =? 10)%nat then esc "n"%char
  else if (n =? 13)%nat then esc "r"%char
  else if (n =? 9)%nat then esc "t"%char
  else if (n =? 8)%nat then esc "b"%char
  else if (n =? 12)%nat then esc "f"%char
  else if (n <? 32)%nat then
    String (Ascii.ascii_of_nat 92)
      ("u00" +:+ String (hex_digit (n / 16)) (String (hex_digit (n mod 16)) EmptyString))
  else String c EmptyString.

Fixpoint escape (s : string) : string :=
  match s with
  | EmptyString => EmptyString
  | String c s' => escape_char c +:+ escape s'
  end.

Definition quote (s : string) : string :=
  let q := String (Ascii.ascii_of_nat 34) EmptyString in q +:+ escape s +:+ q.

(** Key order of [sort_keys]. *)
Definition key_le {A} (a b : string * A) : Prop := String.leb a.1 b.1 = true.
#[export] Instance key_le_dec {A} : RelDecision (@key_le A).
Proof. intros a b. unfold key_le. apply _. Defined.

Lemma string_leb_total a b : String.leb a b = true ∨ String.leb b a = true.
Proof. apply String.leb_total. Qed.

Lemma ascii_compare_trans a b c r :
  Ascii.compare a b = r → Ascii.compare b c = r → Ascii.compare a c = r.
Proof.
  unfold Ascii.compare. destruct r.
  - rewrite !N.compare_eq_iff. congruence.
  - rewrite !N.compare_lt_iff. lia.
  - rewrite !N.compare_gt_iff. lia.
Qed.

Lemma ascii_compare_eq a b : Ascii.compare a b = Eq → a = b.
Proof.
  unfold Ascii.compare. rewrite N.compare_eq_iff. intros E.
  by rewrite <- (ascii_N_embedding a), <- (ascii_N_embedding b), E.
Qed.

Lemma string_leb_trans a b c :
  String.leb a b = true → String.leb b c = true → String.leb a c = true.
Proof.
  revert b c. induction a as [|x a IH]; intros [|y b] [|z c]; unfold String.leb; simpl;
    try done.
  specialize (IH b c). unfold String.leb in IH.
  destruct (Ascii.compare x y) eqn:Exy, (Ascii.compare y z) eqn:Eyz; try done.
  - apply ascii_compare_eq in Exy as ->. apply ascii_compare_eq in Eyz as ->.
    assert (Ascii.compare z z = Eq) as -> by apply N.compare_refl. auto.
  - apply ascii_compare_eq in Exy as ->. by rewrite Eyz.
  - apply ascii_compare_eq in Eyz as ->. by rewrite Exy.
  - by rewrite (ascii_compare_trans x y z Lt).
Qed.

#[export] Instance key_le_total {A} : Total (@key_le A).
Proof. intros a b. apply string_leb_total. Qed.
#[export] Instance key_le_trans {A} : Transitive (@key_le A).
Proof. intros a b c. apply string_leb_trans. Qed.

(** ** [int] and truth values of what SQLite returns *)

(** [int(v)] on a value of a [meta] table; [None] is its exception. *)
Class PyInt := { py_int : json → option Z }.

(** Python's truth value of what SQLite returns. *)
Definition truthy (v : json) : bool :=
  match v with
  | JNull => false
  | JBool b => b
  | JInt z => negb (z =? 0)
  | JFloat f => negb (py_eq_int (JFloat f) 0)
  | JStr s => negb (String.eqb s "")
  | JList l => match l with [] => false | _ => true end
  | JObj m => match m with [] => false | _ => true end
  end.

(** The integer under [key], with the default ["-1"]. *)
Definition meta_int `{PyInt} (key : string) (rows : list (string * json)) : option Z :=
  py_int (default (JStr "-1") (obj_get key rows)).

Fixpoint join (sep : string) (l : list string) : string :=
  match l with
  | [] => ""
  | [x] => x
  | x :: l' => x +:+ sep +:+ join sep l'
  end.

Definition dump_pair (kv : string * string) : string := quote kv.1 +:+ ":" +:+ kv.2.

(** [sorted(d.items())] on rendered values, then the members joined. *)
Definition dump_members (m : list (string * string)) : string :=
  "{" +:+ join "," (dump_pair <$> merge_sort key_le m) +:+ "}".

Section dumps.
Context `{PyStdlib}.

Fixpoint dumps (j : json) : string :=
  match j with
  | JNull => "null"
  | JBool true => "true"
  | JBool false => "false"
  | JInt z => pretty z
  | JFloat f => float_repr f
  | JStr s => quote s
  | JList l =>
      "[" +:+ join "," ((fix go l := match l with
                                     | [] => []
                                     | x :: l' => dumps x :: go l'
                                     end) l) +:+ "]"
  | JObj m =>
      dump_members ((fix go m := match m with
                                 | [] => []
                                 | kv :: m' => (kv.1, dumps kv.2) :: go m'
                                 end) m)
  end.

Lemma dumps_list l : dumps (JList l) = "[" +:+ join "," (dumps <$> l) +:+ "]".
Proof. simpl. do 3 f_equal. Qed.

Lemma dumps_obj m : dumps (JObj m) = dump_members ((λ kv, (kv.1, dumps kv.2)) <$> m).
Proof. simpl. f_equal. Qed.

(** Two sorted lists with the same elements and distinct keys are equal. *)
Lemma sorted_keys_unique {A} (l1 l2 : list (string * A)) :
  NoDup l1.*1 → StronglySorted key_le l1 → StronglySorted key_le l2 →
  l1 ≡ₚ l2 → l1 = l2.
Proof.
  revert l2. induction l1 as [|a l1 IH]; intros l2 Hnd H1 H2 Hp.
  - by apply Permutation_nil in Hp.
  - destruct l2 as [|b l2]; [by apply Permutation_nil_r in Hp|].
    inversion H1 as [|?? H1' Ha]; subst. inversion H2 as [|?? H2' Hb]; subst.
    rewrite fmap_cons, NoDup_cons in Hnd. destruct Hnd as [Hni Hnd].
    assert (a = b) as <-.
    { assert (a ∈ b :: l2) as [|Hin]%elem_of_cons by (rewrite <- Hp; left); [done|].
      assert (b ∈ a :: l1) as [|Hin']%elem_of_cons by (rewrite Hp; left); [done|].
      rewrite Forall_forall in Ha, Hb.
      specialize (Ha b Hin'). specialize (Hb a Hin). unfold key_le in *.
      assert (a.1 = b.1) as Heq by (by apply String.leb_antisym).
      destruct Hni. rewrite Heq. by apply list_elem_of_fmap_2. }
    f_equal. apply IH; eauto using Permutation_cons_inv.
Qed.

Lemma dump_members_permutation m1 m2 :
  NoDup m1.*1 → m1 ≡ₚ m2 → dump_members m1 = dump_members m2.
Proof.
  intros Hnd Hp. unfold dump_members. do 4 f_equal. apply sorted_keys_unique.
  - by rewrite merge_sort_Permutation.
  - apply (StronglySorted_merge_sort _).
  - apply (StronglySorted_merge_sort _).
  - by rewrite !merge_sort_Permutation.
Qed.
End dumps.

(** ** Equality of Python values: dicts compare as maps *)

Inductive json_equiv : json → json → Prop :=
| equiv_refl j : json_equiv j j
| equiv_list l1 l2 : Forall2 json_equiv l1 l2 → json_equiv (JList l1) (JList l2)
| equiv_obj m1 m2 m2' :
    m2 ≡ₚ m2' →
    Forall2 (λ a b, a.1 = b.1 ∧ json_equiv a.2 b.2) m1 m2 →
    json_equiv (JObj m1) (JObj m2').

Section dumps_canonical.
Context `{PyStdlib}.

(** The canonical text of a value does not depend on the order in which
    its dicts were built. *)
Lemma dumps_equiv j1 : ∀ j2, wf_json j1 → json_equiv j1 j2 → dumps j1 = dumps j2.
Proof.
  induction j1 as [| | | | |l1 IH|m1 IH] using json_nested_ind; intros j2 Hwf He;
    inversion He as [|? l2 Hl|? m2 m2' Hp Hm]; subst; try done.
  - rewrite !dumps_list. do 3 f_equal. apply wf_json_list in Hwf.
    clear He. induction Hl; [done|]. inversion IH; inversion Hwf; subst.
    simpl. f_equal; auto.
  - rewrite !dumps_obj. apply wf_json_obj in Hwf as [Hnd Hwf].
    assert ((λ kv, (kv.1, dumps kv.2)) <$> m1 = (λ kv, (kv.1, dumps kv.2)) <$> m2) as ->.
    { clear He Hp Hnd. induction Hm as [|[] [] ?? [? ?]]; [done|].
      inversion IH; inversion Hwf; simpl in *; subst. f_equal; [|by auto].
      f_equal; auto. }
    apply dump_members_permutation; [|by rewrite Hp].
    assert (m1.*1 = m2.*1) as Hkeys.
    { clear -Hm. induction Hm as [|?? ?? [? ?] ? IHm]; [done|].
      rewrite !fmap_cons. by f_equal. }
    rewrite <- list_fmap_compose. by rewrite Hkeys in Hnd.
Qed.
End dumps_canonical.

(** A dict with exactly the given keys is, up to order, the list of its fields. *)
Lemma same_key_set_permutation m fields :
  NoDup m.*1 → NoDup fields → same_key_set m fields = true →
  m ≡ₚ ((λ k, (k, obj_get_or_null k m)) <$> fields).
Proof.
  intros Hm Hf Hs. unfold same_key_set in Hs. bool_to_prop.
  rewrite !Forall_forall in *. apply NoDup_Permutation.
  - by eapply NoDup_fmap_1.
  - apply NoDup_fmap_2_strong; [|done]. by intros ?? _ _ [= ->].
  - intros [k v]. rewrite list_elem_of_fmap. split.
    + intros Hin. exists k. unfold obj_get_or_null. rewrite (obj_get_elem k v m Hm Hin).
      split; [done|]. apply H. by apply (list_elem_of_fmap_2 fst _ (k, v)).
    + intros (k'&[= -> ->]&Hin). apply H0, obj_get_is_Some in Hin as [v' Hv].
      unfold obj_get_or_null. rewrite Hv. simpl. by apply obj_get_Some_elem.
Qed.
