(* ===== verification/OpRecord.v ===== *)
(** * Operation records: model of the record part of [src/daemon/operations.py]

    The state machine ([validate_state_transition], [validate_phase_transition],
    [is_cancelable]), the constructor [new_operation], and the structural
    validator [validate_record], which runs on every record read from or
    written to disk.  The validator is defined on raw JSON; [op_record] is the
    typed view the rest of the development computes with, [to_json]/[of_json]
    relate the two, and [wf_record] is the proposition that the validator
    decides. *)

From Stdlib Require Import Ascii String.
From stdpp Require Import base list strings sorting.
From S2P Require Import Prelude PyJson.
Open Scope Z_scope.

(** ** Constants *)

Definition OPERATION_VERSION : Z := 1.
Definition EVENT_VERSION : Z := 1.
Definition ERROR_VERSION : Z := 1.
Definition MAX_ID_LENGTH : nat := 64.

Definition CANONICAL_PHASES : list string :=
  ["preflight"; "waiting-for-quiesce"; "staging"; "publishing"; "reopening";
   "catching-up"; "cleanup"].
Definition PROGRESS_UNITS : list string := ["events"; "bytes"; "chunks"].
Definition LOG_KINDS : list string :=
  ["transition"; "progress"; "cancel_requested"; "terminal"].
Definition OUTCOMES : list string := ["succeeded"; "failed"; "cancelled"; "blocked"].

Definition SAFE_ID_CHARS : list ascii :=
  list_ascii_of_string
    "abcdefghijklmnopqrstuvwxyzABCDEFGHIJKLMNOPQRSTUVWXYZ0123456789-_".

(** ** States *)

Inductive op_state := Queued | Running | Blocked | Succeeded | Failed | Cancelled.
#[export] Instance op_state_eq_dec : EqDecision op_state.
Proof. solve_decision. Defined.

Definition state_name (s : op_state) : string :=
  match s with
  | Queued => "queued" | Running => "running" | Blocked => "blocked"
  | Succeeded => "succeeded" | Failed => "failed" | Cancelled => "cancelled"
  end.

Definition STATES : list op_state := [Queued; Running; Blocked; Succeeded; Failed; Cancelled].

Definition state_of_name (n : string) : option op_state :=
  List.find (λ s, String.eqb (state_name s) n) STATES.

Definition TERMINAL_STATES : list op_state := [Succeeded; Failed; Cancelled].
Definition is_terminal (s : op_state) : bool := bool_decide (s ∈ TERMINAL_STATES).

Definition state_transitions (s : op_state) : list op_state :=
  match s with
  | Queued => [Running; Cancelled]
  | Running => [Blocked; Failed; Succeeded; Cancelled]
  | Blocked => [Running; Cancelled]
  | Succeeded | Failed | Cancelled => []
  end.

(** ** Exceptions *)

Inductive value_error :=
| InvalidOperationId
| InvalidPhaseMachine
| InvalidParameters
| DuplicatePhase
| PhaseNotCanonical (p : string)
| CancelPhaseNotInMachine
| CancelPhaseBeforeIrreversible.

(** The payload of an [OperationError]: code, phase, retryable, remediation
    and cause. *)
Record op_error := OpError {
  err_code : string;
  err_phase : string;
  err_retryable : bool;
  err_remediation : option string;
  err_cause : json }.

Inductive exn :=
| OperationNotFound (id : string)
| OperationIdConflict (id : string)
| OperationConflict (id : string)
| UnsupportedOperationType (t : string)
| StoreBlocked (fault_code : string)
| UnsupportedPrivilege
| InvalidOperationRecord
| InvalidTransition
| OSErrorRaised
| ValueError (e : value_error).

(** ** Identifiers *)

(** [validate_operation_id] raises on anything but a non-empty string of at
    most 64 safe characters.  A character outside ASCII is not safe, so the
    byte length agrees with the Python length on every accepted string. *)
Definition valid_operation_id (s : string) : bool :=
  negb (String.eqb s "") && (String.length s <=? MAX_ID_LENGTH)%nat &&
  bool_decide (Forall (λ c, c ∈ SAFE_ID_CHARS) (list_ascii_of_string s)).

Definition validate_operation_id (s : string) : result exn unit :=
  guard_err (negb (valid_operation_id s)) (ValueError InvalidOperationId).

(** ** The record *)

Record op_progress := OpProgress { pr_events : Z; pr_bytes : Z; pr_chunks : Z }.

Record op_record := OpRecord {
  operation_version : json;
  operation_id : string;
  op_type : string;
  state : op_state;
  phase : string;
  phases : list string;
  irreversible_phase : string;
  cancel_phase : option string;
  parameters : list (string * json);
  record_fingerprint : string;
  created_at : string;
  updated_at : string;
  cancel_requested : bool;
  cancel_requested_at : option string;
  progress : op_progress;
  op_result : json;
  error : json;
  log : list json;
  rev : Z;
  runner_claim : json }.

Definition REQUIRED_RECORD_FIELDS : list string :=
  ["operation_version"; "operation_id"; "type"; "state"; "phase"; "phases";
   "irreversible_phase"; "cancel_phase"; "parameters"; "parameters_fingerprint";
   "created_at"; "updated_at"; "cancel_requested"; "cancel_requested_at";
   "progress"; "result"; "error"; "log"; "rev"; "runner_claim"].

(** Assignments [record["..."] = v]. *)
Definition set_state (v : op_state) (r : op_record) : op_record :=
  let 'OpRecord a b c _ e f g h i j k l m n o p q s t u := r in
  OpRecord a b c v e f g h i j k l m n o p q s t u.
Definition set_phase (v : string) (r : op_record) : op_record :=
  let 'OpRecord a b c d _ f g h i j k l m n o p q s t u := r in
  OpRecord a b c d v f g h i j k l m n o p q s t u.
Definition set_updated_at (v : string) (r : op_record) : op_record :=
  let 'OpRecord a b c d e f g h i j k _ m n o p q s t u := r in
  OpRecord a b c d e f g h i j k v m n o p q s t u.
Definition set_cancel_requested (at_ : string) (r : op_record) : op_record :=
  let 'OpRecord a b c d e f g h i j k l _ _ o p q s t u := r in
  OpRecord a b c d e f g h i j k l true (Some at_) o p q s t u.
Definition set_progress (v : op_progress) (r : op_record) : op_record :=
  let 'OpRecord a b c d e f g h i j k l m n _ p q s t u := r in
  OpRecord a b c d e f g h i j k l m n v p q s t u.
Definition set_result (v : json) (r : op_record) : op_record :=
  let 'OpRecord a b c d e f g h i j k l m n o _ q s t u := r in
  OpRecord a b c d e f g h i j k l m n o v q s t u.
Definition set_error (v : json) (r : op_record) : op_record :=
  let 'OpRecord a b c d e f g h i j k l m n o p _ s t u := r in
  OpRecord a b c d e f g h i j k l m n o p v s t u.
Definition set_log (v : list json) (r : op_record) : op_record :=
  let 'OpRecord a b c d e f g h i j k l m n o p q _ t u := r in
  OpRecord a b c d e f g h i j k l m n o p q v t u.
Definition set_rev (v : Z) (r : op_record) : op_record :=
  let 'OpRecord a b c d e f g h i j k l m n o p q s _ u := r in
  OpRecord a b c d e f g h i j k l m n o p q s v u.
Definition set_claim (v : json) (r : op_record) : op_record :=
  let 'OpRecord a b c d e f g h i j k l m n o p q s t _ := r in
  OpRecord a b c d e f g h i j k l m n o p q s t v.

(** ** The state machine *)

Definition validate_state_transition (current new_state : op_state) : result exn unit :=
  guard_err (bool_decide (new_state ∉ state_transitions current)) InvalidTransition.

Definition phase_index (r : op_record) (p : string) : result exn nat :=
  match list_index p (phases r) with Some i => Ok i | None => Err InvalidTransition end.

(** A phase may stay or advance to its recorded successor. *)
Definition validate_phase_transition (r : op_record) (new_phase : string) : result exn unit :=
  if String.eqb (phase r) new_phase then Ok tt else
  _ ← guard_err (bool_decide (new_phase ∉ phases r)) InvalidTransition;
  _ ← guard_err (bool_decide (phase r ∉ phases r)) InvalidTransition;
  i ← phase_index r (phase r);
  j ← phase_index r new_phase;
  guard_err (negb (j =? i + 1)%nat) InvalidTransition.

(** Cancel is honored only before the irreversible phase. *)
Definition is_cancelable (r : op_record) : bool :=
  if is_terminal (state r) then false
  else if bool_decide (state r = Queued) then true
  else
    match list_index (phase r) (phases r), list_index (irreversible_phase r) (phases r) with
    | Some i, Some j => (i <? j)%nat
    | _, _ => false
    end.

Section with_stdlib.
Context `{PyStdlib}.

(** ** Validators of the parts of a record *)

Definition parameters_fingerprint (t : string) (params : list (string * json)) : string :=
  sha256_hex (dumps (JList [JStr t; JObj params])).

Definition valid_timestamp (s : string) : bool :=
  negb (String.eqb s "") && iso_tz_aware s.

Definition valid_timestamp_json (v : json) : bool :=
  match v with JStr s => valid_timestamp s | _ => false end.

Definition valid_claim (v : json) : bool :=
  match v with
  | JNull => true
  | JObj m =>
      let get k := obj_get_or_null k m in
      match get "pid" with JInt p => 0 <? p | _ => false end &&
      is_nonempty_str (get "token") && valid_timestamp_json (get "claimed_at")
  | _ => false
  end.

Definition ERROR_FIELDS : list string :=
  ["error_version"; "code"; "message"; "occurred_at"; "retryable"; "phase";
   "remediation"; "cause"].

Definition valid_error (v : json) : bool :=
  match v with
  | JNull => true
  | JObj m =>
      let get k := obj_get_or_null k m in
      same_key_set m ERROR_FIELDS && py_eq_int (get "error_version") ERROR_VERSION &&
      is_nonempty_str (get "code") && is_nonempty_str (get "message") &&
      valid_timestamp_json (get "occurred_at") && is_bool (get "retryable") &&
      is_nonempty_str (get "phase") && is_str (get "remediation") &&
      (is_dict (get "cause") || is_null (get "cause"))
  | _ => false
  end.

Definition EVENT_FIELDS : list string :=
  ["event_version"; "seq"; "at"; "kind"; "state"; "phase"; "progress";
   "error_code"; "outcome"].

Definition valid_progress_delta (v : json) : bool :=
  match v with
  | JObj [] => false
  | JObj d =>
      bool_decide (Forall (λ k, k ∈ PROGRESS_UNITS) (obj_keys d)) &&
      forallb (λ kv, match kv.2 with JInt z => 0 <=? z | _ => false end) d
  | _ => false
  end.

Definition str_member (v : json) (l : list string) : bool :=
  match v with JStr s => bool_decide (s ∈ l) | _ => false end.

(** The checks [validate_record] makes on the log entry at [index]. *)
Definition valid_log_entry (ps : list string) (index : nat) (entry : json) : bool :=
  match entry with
  | JObj m =>
      let get k := obj_get_or_null k m in
      bool_decide (Forall (λ k, k ∈ EVENT_FIELDS) (obj_keys m)) &&
      match get "seq" with JInt z => z =? Z.of_nat index + 1 | _ => false end &&
      py_eq_int (get "event_version") EVENT_VERSION &&
      is_nonempty_str (get "at") &&
      str_member (get "kind") LOG_KINDS &&
      str_member (get "state") (state_name <$> STATES) &&
      str_member (get "phase") ps &&
      (if str_member (get "kind") ["progress"]
       then valid_progress_delta (get "progress") else true) &&
      (if str_member (get "kind") ["terminal"]
       then str_member (get "outcome") OUTCOMES else true) &&
      (is_null (get "error_code") || is_str (get "error_code"))
  | _ => false
  end.

Definition valid_log (ps : list string) (l : list json) : bool :=
  forallb (λ '(i, e), valid_log_entry ps i e) (imap pair l).

Definition hex_chars : list ascii := list_ascii_of_string "0123456789abcdef".

Definition is_sha256_hex (s : string) : bool :=
  (String.length s =? 64)%nat &&
  bool_decide (Forall (λ c, c ∈ hex_chars) (list_ascii_of_string s)).

(** The phase machine: non-empty, distinct, canonical and in canonical order. *)
Definition valid_phases (ps : list string) : bool :=
  negb (bool_decide (ps = [])) && bool_decide (NoDup ps) &&
  bool_decide (Forall (λ p, p ∈ CANONICAL_PHASES) ps) &&
  (let idx := omap (λ p, list_index p CANONICAL_PHASES) ps in
   bool_decide (merge_sort le idx = idx)).

(** [phases.index(cancel_phase) <= phases.index(irreversible)] is refused. *)
Definition cancel_after_irreversible (ps : list string) (irr c : string) : bool :=
  match list_index irr ps, list_index c ps with
  | Some i, Some j => (i <? j)%nat
  | _, _ => false
  end.

Definition str_list (v : json) : option (list string) :=
  match v with
  | JList l => mapM (λ x, match x with JStr s => Some s | _ => None end) l
  | _ => None
  end.

Definition nonneg_int (v : json) : bool :=
  match v with JInt z => 0 <=? z | _ => false end.

(** ** [validate_record] *)

Definition validate_machine (get : string → json) : bool :=
  match str_list (get "phases"), get "irreversible_phase", get "phase" with
  | Some ps, JStr irr, JStr ph =>
      valid_phases ps && bool_decide (irr ∈ ps) &&
      match get "cancel_phase" with
      | JNull => true
      | JStr c => bool_decide (c ∈ ps) && cancel_after_irreversible ps irr c
      | _ => false
      end &&
      bool_decide (ph ∈ ps) &&
      match get "progress" with
      | JObj d =>
          same_key_set d PROGRESS_UNITS &&
          forallb (λ u, nonneg_int (obj_get_or_null u d)) PROGRESS_UNITS
      | _ => false
      end &&
      match get "log" with JList l => valid_log ps l | _ => false end
  | _, _, _ => false
  end.

Definition validate_record (j : json) : bool :=
  match j with
  | JObj m =>
      let get k := obj_get_or_null k m in
      py_eq_int (get "operation_version") OPERATION_VERSION &&
      same_key_set m REQUIRED_RECORD_FIELDS &&
      match get "operation_id" with JStr s => valid_operation_id s | _ => false end &&
      match get "type", get "parameters", get "parameters_fingerprint" with
      | JStr t, JObj ps, JStr f =>
          negb (String.eqb t "") && is_sha256_hex f &&
          String.eqb f (parameters_fingerprint t ps)
      | _, _, _ => false
      end &&
      valid_timestamp_json (get "created_at") &&
      valid_timestamp_json (get "updated_at") &&
      match get "cancel_requested", get "cancel_requested_at" with
      | JBool c, JNull => negb c
      | JBool _, v => valid_timestamp_json v
      | _, _ => false
      end &&
      (is_dict (get "result") || is_null (get "result")) &&
      valid_error (get "error") &&
      str_member (get "state") (state_name <$> STATES) &&
      match get "rev" with JInt z => 1 <=? z | _ => false end &&
      valid_claim (get "runner_claim") &&
      validate_machine get
  | _ => false
  end.
End with_stdlib.

(** ** The dict behind a typed record *)

Definition opt_str (o : option string) : json :=
  match o with Some s => JStr s | None => JNull end.

Definition progress_json (p : op_progress) : json :=
  JObj [("events", JInt (pr_events p)); ("bytes", JInt (pr_bytes p));
        ("chunks", JInt (pr_chunks p))].

Definition record_fields (r : op_record) : list (string * json) :=
  [("operation_version", operation_version r); ("operation_id", JStr (operation_id r));
   ("type", JStr (op_type r)); ("state", JStr (state_name (state r)));
   ("phase", JStr (phase r)); ("phases", JList (JStr <$> phases r));
   ("irreversible_phase", JStr (irreversible_phase r));
   ("cancel_phase", opt_str (cancel_phase r)); ("parameters", JObj (parameters r));
   ("parameters_fingerprint", JStr (record_fingerprint r));
   ("created_at", JStr (created_at r)); ("updated_at", JStr (updated_at r));
   ("cancel_requested", JBool (cancel_requested r));
   ("cancel_requested_at", opt_str (cancel_requested_at r));
   ("progress", progress_json (progress r)); ("result", op_result r);
   ("error", error r); ("log", JList (log r)); ("rev", JInt (rev r));
   ("runner_claim", runner_claim r)].

Definition to_json (r : op_record) : json := JObj (record_fields r).

Definition as_str (v : json) : option string := match v with JStr s => Some s | _ => None end.
Definition as_opt_str (v : json) : option (option string) :=
  match v with JStr s => Some (Some s) | JNull => Some None | _ => None end.
Definition as_dict (v : json) : option (list (string * json)) :=
  match v with JObj m => Some m | _ => None end.
Definition as_list (v : json) : option (list json) :=
  match v with JList l => Some l | _ => None end.
Definition as_bool (v : json) : option bool := match v with JBool b => Some b | _ => None end.

Definition progress_of_json (v : json) : option op_progress :=
  d ← as_dict v;
  e ← strict_int (obj_get_or_null "events" d);
  b ← strict_int (obj_get_or_null "bytes" d);
  c ← strict_int (obj_get_or_null "chunks" d);
  Some (OpProgress e b c).

Definition of_fields (m : list (string * json)) : option op_record :=
  let get k := obj_get_or_null k m in
  id ← as_str (get "operation_id"); t ← as_str (get "type");
  s ← (as_str (get "state") ≫= state_of_name); ph ← as_str (get "phase");
  ps ← str_list (get "phases"); irr ← as_str (get "irreversible_phase");
  cp ← as_opt_str (get "cancel_phase"); params ← as_dict (get "parameters");
  fp ← as_str (get "parameters_fingerprint"); ca ← as_str (get "created_at");
  ua ← as_str (get "updated_at"); cr ← as_bool (get "cancel_requested");
  cra ← as_opt_str (get "cancel_requested_at"); pr ← progress_of_json (get "progress");
  lg ← as_list (get "log"); rv ← strict_int (get "rev");
  Some (OpRecord (get "operation_version") id t s ph ps irr cp params fp ca ua cr cra pr
          (get "result") (get "error") lg rv (get "runner_claim")).

Definition of_json (j : json) : option op_record := as_dict j ≫= of_fields.

Lemma state_of_name_name s : state_of_name (state_name s) = Some s.
Proof. by destruct s. Qed.

Lemma state_name_of_name n s : state_of_name n = Some s → state_name s = n.
Proof. intros [_ H]%find_some. by apply String.eqb_eq. Qed.

Lemma state_name_in s : state_name s ∈ state_name <$> STATES.
Proof. apply list_elem_of_fmap_2. destruct s; unfold STATES; set_solver. Qed.

Lemma state_of_name_in n : n ∈ state_name <$> STATES → ∃ s, state_of_name n = Some s.
Proof. intros (s&->&_)%list_elem_of_fmap. exists s. apply state_of_name_name. Qed.

Lemma str_list_strs l : str_list (JList (JStr <$> l)) = Some l.
Proof. unfold str_list. apply mapM_Some. induction l; simpl; by constructor. Qed.

Lemma str_list_inv v l : str_list v = Some l → v = JList (JStr <$> l).
Proof.
  destruct v as [| | | | |xs|]; try done. unfold str_list. intros H%mapM_Some. f_equal. induction H as [|x s xs l Hx _ IH]; [done|].
  destruct x; simplify_eq/=. by f_equal.
Qed.

(** The typed view loses nothing of a record it was built from. *)
Lemma of_json_to_json r : of_json (to_json r) = Some r.
Proof.
  destruct r as [v id t s ph ps irr cp params fp ca ua cr cra [pe pb pc] rs er lg rv cl].
  unfold of_json, of_fields. cbn -[str_list state_of_name].
  rewrite state_of_name_name, str_list_strs. by destruct cp, cra.
Qed.

(** ** Well-formed records *)

Section wf.
Context `{PyStdlib}.

Record wf_record (r : op_record) : Prop := {
  wf_version : py_eq_int (operation_version r) OPERATION_VERSION = true;
  wf_id : valid_operation_id (operation_id r) = true;
  wf_type : op_type r ≠ "";
  wf_hex : is_sha256_hex (record_fingerprint r) = true;
  wf_fingerprint :
    record_fingerprint r = parameters_fingerprint (op_type r) (parameters r);
  wf_created : valid_timestamp (created_at r) = true;
  wf_updated : valid_timestamp (updated_at r) = true;
  wf_cancel_at : match cancel_requested_at r with
                 | Some s => valid_timestamp s = true
                 | None => cancel_requested r = false
                 end;
  wf_result : is_dict (op_result r) || is_null (op_result r) = true;
  wf_error : valid_error (error r) = true;
  wf_rev : 1 <= rev r;
  wf_claim : valid_claim (runner_claim r) = true;
  wf_phases : valid_phases (phases r) = true;
  wf_irreversible : irreversible_phase r ∈ phases r;
  wf_cancel_phase : ∀ c, cancel_phase r = Some c →
    c ∈ phases r ∧ cancel_after_irreversible (phases r) (irreversible_phase r) c = true;
  wf_phase : phase r ∈ phases r;
  wf_progress : 0 <= pr_events (progress r) ∧ 0 <= pr_bytes (progress r) ∧
                0 <= pr_chunks (progress r);
  wf_log : valid_log (phases r) (log r) = true }.

Lemma valid_machine_to_json r :
  validate_machine (λ k, obj_get_or_null k (record_fields r)) = true ↔
  valid_phases (phases r) = true ∧ irreversible_phase r ∈ phases r ∧
  (∀ c, cancel_phase r = Some c →
    c ∈ phases r ∧ cancel_after_irreversible (phases r) (irreversible_phase r) c = true) ∧
  phase r ∈ phases r ∧
  (0 <= pr_events (progress r) ∧ 0 <= pr_bytes (progress r) ∧ 0 <= pr_chunks (progress r)) ∧
  valid_log (phases r) (log r) = true.
Proof.
  unfold validate_machine. unfold obj_get_or_null at 1 2 3 4 5 6.
  cbn -[str_list valid_phases valid_log same_key_set].
  rewrite str_list_strs.
  assert (same_key_set [("events", JInt (pr_events (progress r)));
     ("bytes", JInt (pr_bytes (progress r))); ("chunks", JInt (pr_chunks (progress r)))]
     PROGRESS_UNITS = true) as -> by done.
  rewrite !andb_true_iff, !bool_decide_eq_true, !Z.leb_le.
  destruct (cancel_phase r) as [c|]; simpl;
    rewrite ?andb_true_iff, ?bool_decide_eq_true; naive_solver.
Qed.

(** The validator on the dict of a typed record decides [wf_record]. *)
Lemma validate_record_wf r : validate_record (to_json r) = true ↔ wf_record r.
Proof.
  unfold validate_record, to_json. cbv beta zeta.
  rewrite !andb_true_iff, valid_machine_to_json.
  unfold obj_get_or_null. cbn -[valid_error valid_claim valid_timestamp is_sha256_hex
    parameters_fingerprint same_key_set valid_operation_id STATES].
  rewrite !andb_true_iff, negb_true_iff, String.eqb_neq, String.eqb_eq, Z.leb_le.
  assert (same_key_set (record_fields r) REQUIRED_RECORD_FIELDS = true) as Hk
    by (vm_compute; reflexivity).
  assert (bool_decide (state_name (state r) ∈ state_name <$> STATES) = true) as Hs
    by (apply bool_decide_eq_true, state_name_in).
  split.
  - intros H'. destruct_and!. split; try assumption; [|by split_and!].
    destruct (cancel_requested_at r); [done|]. by apply negb_true_iff.
  - intros [???????????????? (?&?&?) ?]. split_and!; try assumption; try reflexivity.
    destruct (cancel_requested_at r); [done|]. by apply negb_true_iff.
Qed.
End wf.

(** ** Every record that passes the validator has a typed view *)

Section decode.
Context `{PyStdlib}.

(** What a successful validation says of the individual fields. *)
Lemma validate_record_shape m :
  validate_record (JObj m) = true →
  ∃ r d, of_fields m = Some r ∧ wf_record r ∧ same_key_set m REQUIRED_RECORD_FIELDS = true ∧
    obj_get_or_null "progress" m = JObj d ∧ same_key_set d PROGRESS_UNITS = true ∧
    (λ u, (u, obj_get_or_null u d)) <$> PROGRESS_UNITS =
      [("events", JInt (pr_events (progress r))); ("bytes", JInt (pr_bytes (progress r)));
       ("chunks", JInt (pr_chunks (progress r)))] ∧
    Forall2 (λ k kv, kv.1 = k ∧ (k ≠ "progress" → kv.2 = obj_get_or_null k m))
      REQUIRED_RECORD_FIELDS (record_fields r).
Proof.
  unfold validate_record, validate_machine, of_fields. cbv beta zeta.
  destruct (same_key_set m REQUIRED_RECORD_FIELDS) eqn:Hk;
    [|by rewrite andb_false_r].
  intros Hv. bool_to_prop.
  destruct (obj_get_or_null "operation_id" m) eqn:E1; try done.
  destruct (obj_get_or_null "type" m) eqn:E2; try done.
  destruct (obj_get_or_null "parameters" m) eqn:E3; try done.
  destruct (obj_get_or_null "parameters_fingerprint" m) eqn:E4; try done.
  destruct (obj_get_or_null "created_at" m) eqn:E5; try done.
  destruct (obj_get_or_null "updated_at" m) eqn:E6; try done.
  destruct (obj_get_or_null "cancel_requested" m) eqn:E7; try done.
  destruct (obj_get_or_null "state" m) eqn:E8; try done.
  destruct (obj_get_or_null "rev" m) eqn:E9; try done.
  destruct (str_list (obj_get_or_null "phases" m)) eqn:E10; try done.
  destruct (obj_get_or_null "irreversible_phase" m) eqn:E11; try done.
  destruct (obj_get_or_null "phase" m) eqn:E12; try done.
  bool_to_prop.
  destruct (obj_get_or_null "progress" m) as [| | | | | |d] eqn:E13; try done.
  destruct (obj_get_or_null "log" m) eqn:E14; try done.
  match goal with Hs : str_member (JStr _) (state_name <$> STATES) = true |- _ =>
    apply bool_decide_eq_true, state_of_name_in in Hs as [st Hst] end.
  bool_to_prop. simpl in *. unfold nonneg_int in *. bool_to_prop.
  destruct (obj_get_or_null "events" d) eqn:E15; try done.
  destruct (obj_get_or_null "bytes" d) eqn:E16; try done.
  destruct (obj_get_or_null "chunks" d) eqn:E17; try done.
  pose proof (str_list_inv _ _ E10) as E10'.
  assert (∃ cp, as_opt_str (obj_get_or_null "cancel_phase" m) = Some cp ∧
                opt_str cp = obj_get_or_null "cancel_phase" m) as (cp&Ecp&Hcp).
  { destruct (obj_get_or_null "cancel_phase" m) as [| | | |c| |]; try done;
      [by exists None|by exists (Some c)]. }
  assert (∃ ca, as_opt_str (obj_get_or_null "cancel_requested_at" m) = Some ca ∧
                opt_str ca = obj_get_or_null "cancel_requested_at" m) as (ca&Eca&Hca).
  { destruct (obj_get_or_null "cancel_requested_at" m) as [| | | |c| |]; try done;
      [by exists None|by exists (Some c)]. }
  rewrite ?Hst, ?Ecp, ?Eca. unfold progress_of_json. simpl. rewrite E15, E16, E17. simpl.
  eexists _, d. split; [reflexivity|]. split.
  { split; simpl; try assumption; try done.
    - destruct (obj_get_or_null "cancel_requested_at" m); simplify_eq/=; try done.
      by apply negb_true_iff.
    - intros c Hc. rewrite Hc in Hcp. simpl in Hcp. rewrite <- Hcp in *. by bool_to_prop.
    - by rewrite <- !Z.leb_le. }
  split; [done|]. split; [done|].
  split; [done|]. split; [simpl; by rewrite ?E15, ?E16, ?E17|]. unfold record_fields. simpl.
  rewrite (state_name_of_name _ _ Hst).
  repeat (apply Forall2_cons; split; [by split|]). by apply Forall2_nil.
Qed.

Lemma record_fields_equiv m r d :
  wf_json (JObj m) → obj_get_or_null "progress" m = JObj d →
  same_key_set d PROGRESS_UNITS = true →
  (λ u, (u, obj_get_or_null u d)) <$> PROGRESS_UNITS =
    [("events", JInt (pr_events (progress r))); ("bytes", JInt (pr_bytes (progress r)));
     ("chunks", JInt (pr_chunks (progress r)))] →
  Forall2 (λ k kv, kv.1 = k ∧ (k ≠ "progress" → kv.2 = obj_get_or_null k m))
    REQUIRED_RECORD_FIELDS (record_fields r) →
  Forall2 (λ a b, a.1 = b.1 ∧ json_equiv a.2 b.2) (record_fields r)
    ((λ k, (k, obj_get_or_null k m)) <$> REQUIRED_RECORD_FIELDS).
Proof.
  intros [_ Hwf]%wf_json_obj Hd Hkd Hpr HF.
  assert (NoDup d.*1) as Hnd.
  { unfold obj_get_or_null in Hd. destruct (obj_get "progress" m) as [v|] eqn:E; [|done].
    simpl in Hd. subst v. apply obj_get_Some_elem in E.
    rewrite Forall_forall in Hwf. by destruct (proj1 (wf_json_obj d) (Hwf _ E)). }
  assert (json_equiv (progress_json (progress r)) (JObj d)) as Hpe.
  { eapply (equiv_obj _ ((λ u, (u, obj_get_or_null u d)) <$> PROGRESS_UNITS)).
    - symmetry. apply same_key_set_permutation; [done| |done].
      unfold PROGRESS_UNITS. by apply (bool_decide_unpack _); vm_compute.
    - rewrite Hpr. repeat (apply Forall2_cons; split; [split; [done|constructor]|]).
      by apply Forall2_nil. }
  unfold record_fields, REQUIRED_RECORD_FIELDS in *. simpl in HF |- *.
  repeat match goal with
  | HF : Forall2 _ (_ :: _) (_ :: _) |- _ =>
      apply Forall2_cons in HF as [[? ?] HF]; simpl in *
  end.
  repeat (apply Forall2_cons; split; [split; [done|]; simpl;
    first [ by rewrite Hd
          | match goal with
            Hk : ?k ≠ "progress" → _ = obj_get_or_null ?k m |- json_equiv _ (obj_get_or_null ?k m) =>
              rewrite Hk by done; constructor end ]|]).
  by apply Forall2_nil.
Qed.

Lemma validate_record_of_json j r :
  validate_record j = true → of_json j = Some r → wf_record r.
Proof.
  intros Hv Hr. destruct j as [| | | | | |m]; try done.
  destruct (validate_record_shape m Hv) as (r'&d&Hr'&Hwf&_).
  unfold of_json in Hr. simpl in Hr. congruence.
Qed.

(** A valid record on disk decodes, and its typed view denotes the same dict. *)
Lemma validate_record_decodes j :
  wf_json j → validate_record j = true →
  ∃ r, of_json j = Some r ∧ wf_record r ∧ json_equiv (to_json r) j.
Proof.
  intros Hwf Hv. destruct j as [| | | | | |m]; try done.
  destruct (validate_record_shape m Hv) as (r&d&Hr&Hwfr&Hk&Hd&Hkd&Hpr&HF).
  exists r. split; [done|]. split; [done|].
  eapply (equiv_obj _ ((λ k, (k, obj_get_or_null k m)) <$> REQUIRED_RECORD_FIELDS)).
  - symmetry. apply same_key_set_permutation; [|apply (bool_decide_unpack _); by vm_compute|done].
    by destruct (proj1 (wf_json_obj m) Hwf).
  - by eapply record_fields_equiv.
Qed.
End decode.

(** ** Creating records, error objects and log events *)

Definition STABLE_MESSAGES : list (string * string) :=
  [("operation_not_found", "no such operation");
   ("operation_id_conflict", "operation id already used with different parameters");
   ("unsupported_operation_type", "no executor is registered for this operation type");
   ("invalid_operation_record",
    "the operation record is invalid or from an unsupported version");
   ("store_blocked", "the operation store cannot be safely accessed");
   ("unsupported_privilege", "the CLI refuses to run with elevated privileges");
   ("operation_uncancellable",
    "the operation is past its irreversible point and cannot be cancelled");
   ("operation_already_terminal", "the operation already reached a terminal state");
   ("deterministic_step_failure",
    "the operation failed deterministically and needs an explicit retry");
   ("transient_step_failure", "the operation failed on a transient condition");
   ("not_implemented", "this command is reserved by the spec and not implemented in this build");
   ("unknown_schema", "no deployed schema matches the filter");
   ("operation_conflict", "the operation changed concurrently; retry");
   ("fixture_preflight_failed", "fixture preflight failed (test-only)")].

Definition stable_message (code : string) : string :=
  match List.find (λ kv, String.eqb kv.1 code) STABLE_MESSAGES with
  | Some kv => kv.2
  | None => code
  end.

Definition default_remediation (retryable : bool) : string :=
  if retryable then "retry the operation" else "fix the condition and explicitly retry".

(** [remediation or _default_remediation(retryable)]: an empty string also
    takes the default. *)
Definition remediation_text (remediation : option string) (retryable : bool) : string :=
  match remediation with
  | Some EmptyString | None => default_remediation retryable
  | Some s => s
  end.

Definition make_error (now : string) (e : op_error) : json :=
  JObj [("error_version", JInt ERROR_VERSION); ("code", JStr (err_code e));
        ("message", JStr (stable_message (err_code e))); ("occurred_at", JStr now);
        ("retryable", JBool (err_retryable e)); ("phase", JStr (err_phase e));
        ("remediation", JStr (remediation_text (err_remediation e) (err_retryable e)));
        ("cause", err_cause e)].

(** The event [_append_event] adds: optional fields only when they are given. *)
Definition event_entry (seq : Z) (now kind : string) (st : op_state) (ph : string)
    (pr : option json) (error_code : option string) (outcome : option string) : json :=
  let opt k o := match o with Some v => [(k, v)] | None => [] end in
  JObj ([("event_version", JInt EVENT_VERSION); ("seq", JInt seq);
         ("at", JStr now); ("kind", JStr kind); ("state", JStr (state_name st));
         ("phase", JStr ph)] ++
        opt "progress" pr ++ opt "error_code" (JStr <$> error_code) ++
        opt "outcome" (JStr <$> outcome)).

Definition append_event (now kind : string) (st : op_state) (ph : string)
    (pr : option json) (error_code : option string) (outcome : option string)
    (r : op_record) : op_record :=
  set_log (log r ++ [event_entry (Z.of_nat (length (log r)) + 1) now kind st ph pr
                       error_code outcome]) r.

Section creation.
Context `{PyStdlib}.

(** [new_operation].  [uuid] is the identifier [uuid.uuid4()] would give;
    it is used when no identifier, or an empty one, is passed. *)
Definition new_operation (uuid now : string) (operation_type : string)
    (normalized_parameters : list (string * json)) (ps : list string) (irr : string)
    (opid : option string) (cp : option string) : result exn op_record :=
  let id := match opid with Some EmptyString | None => uuid | Some s => s end in
  _ ← validate_operation_id id;
  _ ← guard_err (bool_decide (ps = []) || bool_decide (irr ∉ ps))
        (ValueError InvalidPhaseMachine);
  _ ← guard_err (negb (bool_decide (NoDup ps))) (ValueError DuplicatePhase);
  _ ← match List.find (λ p, bool_decide (p ∉ CANONICAL_PHASES)) ps with
      | Some p => Err (ValueError (PhaseNotCanonical p))
      | None => Ok tt
      end;
  _ ← match cp with
      | Some c =>
          _ ← guard_err (bool_decide (c ∉ ps)) (ValueError CancelPhaseNotInMachine);
          guard_err (negb (cancel_after_irreversible ps irr c))
            (ValueError CancelPhaseBeforeIrreversible)
      | None => Ok tt
      end;
  Ok (OpRecord (JInt OPERATION_VERSION) id operation_type Queued
        (default "" (head ps)) ps irr cp normalized_parameters
        (parameters_fingerprint operation_type normalized_parameters)
        now now false None (OpProgress 0 0 0) JNull JNull [] 1 JNull).

Lemma valid_make_error now e :
  valid_timestamp now = true → err_code e ≠ "" → err_phase e ≠ "" →
  is_dict (err_cause e) || is_null (err_cause e) = true →
  valid_error (make_error now e) = true.
Proof.
  intros Hts Hc Hp Hcause. unfold make_error, valid_error.
  assert (String.eqb (stable_message (err_code e)) "" = false) as Hm.
  { apply String.eqb_neq. unfold stable_message.
    destruct (List.find _ _) as [kv|] eqn:E; [|done].
    apply find_some in E as [Hin _]. simpl in Hin.
    repeat destruct Hin as [<-|Hin]; done. }
  apply String.eqb_neq in Hc, Hp.
  unfold obj_get_or_null. cbn -[valid_timestamp stable_message same_key_set].
  rewrite Hts, Hc, Hp, Hm, Hcause. by vm_compute.
Qed.

Lemma valid_log_app ps l e :
  valid_log ps l = true → valid_log_entry ps (length l) e = true →
  valid_log ps (l ++ [e]) = true.
Proof.
  unfold valid_log. intros Hl He. rewrite imap_app, forallb_app, Hl. simpl.
  by rewrite Nat.add_0_r, He.
Qed.

Lemma valid_log_lookup ps l i e :
  valid_log ps l = true → l !! i = Some e → valid_log_entry ps i e = true.
Proof.
  unfold valid_log. rewrite forallb_forall. intros Hv Hl.
  apply (Hv (i, e)). apply list_elem_of_In, list_elem_of_lookup. exists i.
  by rewrite list_lookup_imap, Hl.
Qed.

(** An appended event is always acceptable to the validator. *)
Lemma valid_event_entry ps n now kind st ph pr ec out :
  valid_timestamp now = true → kind ∈ LOG_KINDS → ph ∈ ps →
  (kind = "progress" → ∃ d, pr = Some d ∧ valid_progress_delta d = true) →
  (kind = "terminal" → ∃ o, out = Some o ∧ o ∈ OUTCOMES) →
  valid_log_entry ps n
    (event_entry (Z.of_nat n + 1) now kind st ph pr ec out) = true.
Proof.
  intros [Hne _]%andb_true_iff Hk Hph Hpr Hout.
  pose proof (state_name_in st) as Hs.
  assert (∀ s l, s ∈ l → str_member (JStr s) l = true) as Hin
    by (intros; by apply bool_decide_eq_true).
  assert (str_member (JStr kind) ["progress"] = true → kind = "progress") as Hkp.
  { intros Hb%bool_decide_eq_true. by apply list_elem_of_singleton in Hb. }
  assert (str_member (JStr kind) ["terminal"] = true → kind = "terminal") as Hkt.
  { intros Hb%bool_decide_eq_true. by apply list_elem_of_singleton in Hb. }
  unfold valid_log_entry, event_entry. rewrite !andb_true_iff.
  unfold obj_get_or_null.
  destruct pr as [d|], ec as [c|], out as [o|];
    cbn -[str_member valid_progress_delta STATES LOG_KINDS OUTCOMES EVENT_FIELDS];
    split_and!;
    try first [ done | by apply Z.eqb_refl | by apply Hin | by vm_compute ].
  all: match goal with |- (if ?b then _ else _) = true => destruct b eqn:Eb; [|done] end.
  all: first [ destruct (Hpr (Hkp eq_refl)) as (?&?&?)
             | destruct (Hout (Hkt eq_refl)) as (?&?&?) ].
  all: simplify_eq; first [ done | by apply Hin ].
Qed.

Lemma valid_log_append_event now kind st ph pr ec out r :
  valid_timestamp now = true → kind ∈ LOG_KINDS → ph ∈ phases r →
  (kind = "progress" → ∃ d, pr = Some d ∧ valid_progress_delta d = true) →
  (kind = "terminal" → ∃ o, out = Some o ∧ o ∈ OUTCOMES) →
  valid_log (phases r) (log r) = true →
  valid_log (phases r) (log (append_event now kind st ph pr ec out r)) = true.
Proof.
  intros. assert (log (append_event now kind st ph pr ec out r) =
    log r ++ [event_entry (Z.of_nat (length (log r)) + 1) now kind st ph pr ec out])
    as -> by (by destruct r).
  apply valid_log_app; [done|]. by apply valid_event_entry.
Qed.

(** [new_operation] either refuses or builds a record the validator accepts,
    provided its phases are listed in canonical order. *)
Lemma new_operation_wf uuid now t params ps irr opid cp r :
  new_operation uuid now t params ps irr opid cp = Ok r →
  t ≠ "" → valid_timestamp now = true →
  (∀ s, is_sha256_hex (sha256_hex s) = true) →
  (let idx := omap (λ p, list_index p CANONICAL_PHASES) ps in
   bool_decide (merge_sort le idx = idx) = true) →
  wf_record r.
Proof.
  unfold new_operation, validate_operation_id. intros Hr Ht Hts Hsha Hord.
  apply bind_Ok in Hr as (?&Hid%guard_err_Ok&Hr).
  apply bind_Ok in Hr as (?&Hm%guard_err_Ok&Hr).
  apply bind_Ok in Hr as (?&Hnd%guard_err_Ok&Hr).
  apply bind_Ok in Hr as (?&Hcan&Hr). apply bind_Ok in Hr as (?&Hcp&[= <-]).
  bool_to_prop. split; simpl; try done.
  - apply Hsha.
  - unfold valid_phases. rewrite !andb_true_iff, negb_true_iff. split_and!; try done.
    + by apply bool_decide_eq_false.
    + by apply bool_decide_eq_true.
    + apply bool_decide_eq_true, Forall_forall. intros p Hp.
      destruct (List.find _ ps) eqn:E; [done|].
      apply list_elem_of_In, (find_none _ _ E), bool_decide_eq_false in Hp.
      by apply dec_stable.
    + by apply bool_decide_eq_true.
  - by apply dec_stable.
  - intros c ->. apply bind_Ok in Hcp as (?&Hc%guard_err_Ok&Hc'%guard_err_Ok).
    bool_to_prop. split; [|done]. by apply dec_stable.
  - destruct ps; [done|]. by left.
Qed.
End creation.

(** From here on the validator and the codec are used through their lemmas. *)
#[global] Arguments validate_record : simpl never.
#[global] Arguments to_json : simpl never.
#[global] Arguments of_json : simpl never.
