(* ===== verification/OpTransforms.v ===== *)
(** * Record mutations of [src/daemon/operations.py]

    Every change to a persisted record is one of the functions below, applied
    by [OperationStore.mutate] to the freshest record: the runner's claim/start,
    cancel checkpoint, unsupported-type failure, step error and step result
    transforms, and the two mutations [cancel_operation] makes.  A transform
    returns whether the record changed (and must be written), with the new
    record, or raises.  [ts i] is the i-th reading of [_now_iso] inside the
    call; [claim] is the executor identity (pid, token). *)

From Stdlib Require Import Ascii String.
From stdpp Require Import base list strings.
From S2P Require Import Prelude PyJson OpRecord.
Open Scope Z_scope.

Definition clock := nat → string.
Record claim := Claim { claim_pid : Z; claim_token : string }.

Definition transform := op_record → result exn (bool * op_record).

(** What a step function returns: progress deltas, whether to advance, and the
    result payload. *)
Record step_result := StepResult {
  sr_progress : list (string * Z);
  sr_advance : bool;
  sr_result : json }.

(** Python truth value. *)
Definition py_truthy (v : json) : bool :=
  match v with
  | JNull => false
  | JBool b => b
  | JInt z => negb (z =? 0)
  | JFloat f => negb (float_eq_Z f 0)
  | JStr s => negb (String.eqb s "")
  | JList l => negb (bool_decide (length l = 0%nat))
  | JObj m => negb (bool_decide (length m = 0%nat))
  end.

(** [record.get("cancel_phase")] used as a condition: [None] and [""] are false. *)
Definition cancel_phase_set (r : op_record) : option string :=
  match cancel_phase r with Some EmptyString => None | o => o end.

Definition refresh_claim (now : string) (c : claim) (r : op_record) : op_record :=
  set_claim (JObj [("pid", JInt (claim_pid c)); ("token", JStr (claim_token c));
                   ("claimed_at", JStr now)]) r.

Definition terminal_event (now : string) (st : op_state) (ph : string)
    (code : option string) (r : op_record) : op_record :=
  append_event now "terminal" st ph None code (Some (state_name st)) r.

Definition transition_event (now : string) (ph : string) (r : op_record) : op_record :=
  append_event now "transition" Running ph None None None r.

(** ** Runner transforms *)

Definition claim_and_start_transform (ts : clock) (c : claim) (retry_blocked : bool)
    : transform := λ r,
  match state r with
  | Queued =>
      let r := set_state Running (refresh_claim (ts 0%nat) c r) in
      Ok (true, transition_event (ts 1%nat) (phase r) r)
  | Blocked =>
      if retry_blocked then
        let r := set_error JNull (set_state Running (refresh_claim (ts 0%nat) c r)) in
        Ok (true, transition_event (ts 1%nat) (phase r) r)
      else Ok (false, r)
  | _ => Ok (false, r)
  end.

Definition cancel_checkpoint_transform (ts : clock) : transform := λ r,
  if negb (cancel_requested r && is_cancelable r) then Ok (false, r) else
  match cancel_phase_set r with
  | Some c =>
      if bool_decide (phase r ≠ c) then
        r ← (if bool_decide (state r = Queued) || bool_decide (state r = Blocked) then
               _ ← validate_state_transition (state r) Running;
               Ok (set_error JNull (set_state Running r))
             else Ok r);
        Ok (true, set_phase c (transition_event (ts 0%nat) c r))
      else Ok (false, r)
  | None =>
      _ ← validate_state_transition (state r) Cancelled;
      Ok (true, set_state Cancelled
                  (terminal_event (ts 0%nat) Cancelled (phase r) None r))
  end.

Definition fail_unsupported_transform (ts : clock) (c : claim) : transform := λ r,
  let r := refresh_claim (ts 0%nat) c r in
  let r := set_error (make_error (ts 1%nat)
                        (OpError "unsupported_operation_type" (phase r) false None JNull)) r in
  Ok (true, set_state Failed
              (terminal_event (ts 2%nat) Failed (phase r)
                 (Some "unsupported_operation_type") r)).

Definition mark_step_error_transform (ts : clock) (c : claim) (ph : string)
    (e : op_error) (st : op_state) : transform := λ r,
  if bool_decide (phase r ≠ ph) || bool_decide (state r ≠ Running) then Ok (false, r) else
  let r := refresh_claim (ts 0%nat) c r in
  if cancel_requested r && is_cancelable r then
    cancel_checkpoint_transform (λ i, ts (S i)) r
  else
    let r := set_error (make_error (ts 1%nat) e) r in
    Ok (true, set_state st (terminal_event (ts 2%nat) st ph (Some (err_code e)) r)).

(** [record["progress"][unit] += int(progress[unit])] for the known units. *)
Definition delta_of (u : string) (d : list (string * Z)) : Z :=
  match List.find (λ kv, String.eqb kv.1 u) d with Some kv => kv.2 | None => 0 end.

Definition add_progress (d : list (string * Z)) (p : op_progress) : op_progress :=
  OpProgress (pr_events p + delta_of "events" d) (pr_bytes p + delta_of "bytes" d)
    (pr_chunks p + delta_of "chunks" d).

Definition progress_delta_json (d : list (string * Z)) : json :=
  JObj ((λ kv, (kv.1, JInt kv.2)) <$> d).

Definition completed_result (v : json) : json :=
  if py_truthy v then v else JObj [("completed", JBool true)].

Definition apply_step_result_transform (ts : clock) (c : claim) (ph : string)
    (res : step_result) : transform := λ r,
  if bool_decide (phase r ≠ ph) then Ok (false, r) else
  let r := refresh_claim (ts 0%nat) c r in
  let r := match sr_progress res with
           | [] => r
           | d => append_event (ts 1%nat) "progress" (state r) ph
                    (Some (progress_delta_json d)) None None
                    (set_progress (add_progress d (progress r)) r)
           end in
  if negb (sr_advance res) then Ok (true, r) else
  if cancel_requested r && is_cancelable r && bool_decide (Some (phase r) ≠ cancel_phase r)
  then Ok (true, r)
  else if bool_decide (Some ph = cancel_phase r) && cancel_requested r then
    let r := set_error JNull r in
    Ok (true, set_state Cancelled (terminal_event (ts 2%nat) Cancelled ph None r))
  else if bool_decide (last (phases r) = Some ph) then
    let r := set_error JNull (set_result (completed_result (sr_result res)) r) in
    Ok (true, set_state Succeeded (terminal_event (ts 2%nat) Succeeded ph None r))
  else
    i ← phase_index r ph;
    match phases r !! S i with
    | None => Err InvalidTransition
    | Some new_phase =>
        _ ← validate_phase_transition r new_phase;
        Ok (true, set_phase new_phase (transition_event (ts 2%nat) new_phase r))
    end.

(** ** Cancel requests *)

Inductive cancel_disposition :=
| AlreadyCancelled | TerminalOperation | Uncancellable | Requested.
#[export] Instance cancel_disposition_eq_dec : EqDecision cancel_disposition.
Proof. solve_decision. Defined.

Definition classify_cancel (r : op_record) : cancel_disposition :=
  match state r with
  | Cancelled => AlreadyCancelled
  | Succeeded | Failed => TerminalOperation
  | _ => if is_cancelable r then Requested else Uncancellable
  end.

(** The mutation for a blocked operation without a cancel phase. *)
Definition cancel_blocked_transform (ts : clock) : transform := λ r,
  if bool_decide (state r ≠ Blocked) || negb (is_cancelable r) then Ok (false, r) else
  _ ← validate_state_transition (state r) Cancelled;
  Ok (true, set_state Cancelled (terminal_event (ts 0%nat) Cancelled (phase r) None r)).

(** The mutation that records a request for the executor's checkpoint. *)
Definition request_cancel_transform (ts : clock) : transform := λ r,
  if bool_decide (classify_cancel r ≠ Requested) then Ok (false, r) else
  if cancel_requested r then Ok (false, r) else
  let r := set_cancel_requested (ts 0%nat) r in
  Ok (true, append_event (ts 1%nat) "cancel_requested" (state r) (phase r) None None None r).

(** ** What a transform leaves alone *)

(** The fields no transform ever touches: identity, parameters, the recorded
    phase machine, the creation time and the revision. *)
Definition same_machine (r r' : op_record) : Prop :=
  operation_version r' = operation_version r ∧ operation_id r' = operation_id r ∧
  op_type r' = op_type r ∧ phases r' = phases r ∧
  irreversible_phase r' = irreversible_phase r ∧ cancel_phase r' = cancel_phase r ∧
  parameters r' = parameters r ∧ record_fingerprint r' = record_fingerprint r ∧
  created_at r' = created_at r ∧ rev r' = rev r.

#[export] Instance same_machine_preorder : PreOrder same_machine.
Proof.
  split; [by intros []; split_and!|].
  intros r1 r2 r3 H12 H23. unfold same_machine in *. destruct_and!. split_and!; congruence.
Qed.

(** Successive records differ only in the fields a transform may change, and
    this is all the callers need to know about the position in the machine. *)
Lemma claim_and_start_effect ts c rb r r' :
  claim_and_start_transform ts c rb r = Ok (true, r') →
  same_machine r r' ∧ (state r = Queued ∨ state r = Blocked ∧ rb = true) ∧
  state r' = Running ∧ phase r' = phase r ∧ cancel_requested r' = cancel_requested r.
Proof.
  destruct r as [? ? ? []]; unfold claim_and_start_transform; simpl; try done;
    [intros [= <-]|destruct rb; [intros [= <-]|done]]; simpl;
    by split_and!; auto.
Qed.

Lemma cancel_checkpoint_effect ts r r' :
  cancel_checkpoint_transform ts r = Ok (true, r') →
  same_machine r r' ∧ cancel_requested r = true ∧ is_cancelable r = true ∧
  cancel_requested r' = true ∧
  (match cancel_phase_set r with
   | Some c => state r' = Running ∧ phase r' = c
   | None => state r' = Cancelled ∧ phase r' = phase r
   end).
Proof.
  unfold cancel_checkpoint_transform.
  destruct (cancel_requested r) eqn:Hc, (is_cancelable r) eqn:Hi; simpl; try done.
  destruct (cancel_phase_set r) as [c|] eqn:Hcp.
  - case_bool_decide; [|done]. intros (r1&Hr1&[= <-])%bind_Ok.
    assert (state r1 = Running ∧ same_machine r r1 ∧ cancel_requested r1 = true) as (?&?&?).
    { destruct (bool_decide _ || bool_decide _) eqn:Hq.
      - apply bind_Ok in Hr1 as (?&_&[= <-]). destruct r; by split_and!.
      - injection Hr1 as <-. bool_to_prop. split_and!; [|done|done].
        unfold is_cancelable in Hi. destruct r as [? ? ? []]; simpl in *; try done.
        all: unfold is_terminal in Hi; simpl in Hi; by vm_compute in Hi. }
    destruct r1; simpl in *. by split_and!.
  - intros (?&_&[= <-])%bind_Ok. destruct r; simpl in *. by split_and!.
Qed.

Lemma fail_unsupported_effect ts c r b r' :
  fail_unsupported_transform ts c r = Ok (b, r') →
  b = true ∧ same_machine r r' ∧ state r' = Failed ∧ phase r' = phase r ∧
  cancel_requested r' = cancel_requested r.
Proof. intros [= <- <-]. destruct r; simpl. by split_and!. Qed.

Lemma is_cancelable_refresh_claim now c r : is_cancelable (refresh_claim now c r) = is_cancelable r.
Proof. by destruct r. Qed.

Lemma mark_step_error_effect ts c ph e st r r' :
  mark_step_error_transform ts c ph e st r = Ok (true, r') →
  phase r = ph ∧ state r = Running ∧ same_machine r r' ∧
  cancel_requested r' = cancel_requested r ∧
  ((cancel_requested r && is_cancelable r = false ∧ state r' = st ∧ phase r' = phase r) ∨
   (cancel_requested r && is_cancelable r = true ∧
    match cancel_phase_set r with
    | Some c => state r' = Running ∧ phase r' = c
    | None => state r' = Cancelled ∧ phase r' = phase r
    end)).
Proof.
  unfold mark_step_error_transform. destruct (bool_decide _ || bool_decide _) eqn:Hg; [done|].
  bool_to_prop. apply dec_stable in H, H0. rewrite is_cancelable_refresh_claim.
  replace (cancel_requested (refresh_claim (ts 0%nat) c r)) with (cancel_requested r)
    by (by destruct r).
  destruct (cancel_requested r && is_cancelable r) eqn:Hci.
  - intros (?&?&?&?&?)%cancel_checkpoint_effect. bool_to_prop.
    destruct r; simpl in *. split_and!; try done; [congruence|by right].
  - intros [= <-]. destruct r; simpl in *. split_and!; try done. by left.
Qed.

Lemma request_cancel_effect ts r r' :
  request_cancel_transform ts r = Ok (true, r') →
  same_machine r r' ∧ is_cancelable r = true ∧ cancel_requested r = false ∧
  state r' = state r ∧ phase r' = phase r ∧ cancel_requested r' = true.
Proof.
  unfold request_cancel_transform. case_bool_decide as Hcl; [done|].
  destruct (cancel_requested r) eqn:E; [done|]. intros [= <-].
  assert (is_cancelable r = true).
  { unfold classify_cancel in Hcl. destruct (state r), (is_cancelable r); done. }
  destruct r; simpl in *. by split_and!.
Qed.

Lemma cancel_blocked_effect ts r r' :
  cancel_blocked_transform ts r = Ok (true, r') →
  same_machine r r' ∧ is_cancelable r = true ∧ state r = Blocked ∧
  state r' = Cancelled ∧ phase r' = phase r ∧ cancel_requested r' = cancel_requested r.
Proof.
  unfold cancel_blocked_transform. destruct (bool_decide _ || negb _) eqn:Hg; [done|].
  bool_to_prop. apply dec_stable in H. intros (?&_&[= <-])%bind_Ok.
  destruct r; simpl in *. by split_and!.
Qed.

(** A transform that reports no change has not moved the machine. *)
Lemma request_cancel_unchanged ts r r' :
  request_cancel_transform ts r = Ok (false, r') → r' = r.
Proof. unfold request_cancel_transform. repeat case_match; congruence. Qed.

Lemma cancel_blocked_unchanged ts r r' :
  cancel_blocked_transform ts r = Ok (false, r') → r' = r.
Proof.
  unfold cancel_blocked_transform. destruct (_ || _); [congruence|].
  by intros (?&_&[=])%bind_Ok.
Qed.

Lemma cancel_checkpoint_unchanged ts r r' :
  cancel_checkpoint_transform ts r = Ok (false, r') → r' = r.
Proof.
  unfold cancel_checkpoint_transform. destruct (negb _); [congruence|].
  destruct (cancel_phase_set r); [case_bool_decide; [|congruence]|];
    by intros (?&_&[=])%bind_Ok.
Qed.

(** The four ways a step result moves the machine. *)
Inductive step_outcome_view (r r' : op_record) (adv : bool) : Prop :=
| view_held :
    state r' = state r → phase r' = phase r →
    adv = false ∨ (cancel_requested r = true ∧ is_cancelable r = true ∧
                   Some (phase r) ≠ cancel_phase r) →
    step_outcome_view r r' adv
| view_cancelled :
    adv = true → cancel_requested r = true → cancel_phase r = Some (phase r) →
    state r' = Cancelled → phase r' = phase r → step_outcome_view r r' adv
| view_succeeded :
    adv = true →
    (cancel_requested r = true →
      is_cancelable r = false ∧ cancel_phase r ≠ Some (phase r)) →
    last (phases r) = Some (phase r) →
    state r' = Succeeded → phase r' = phase r → step_outcome_view r r' adv
| view_advanced i :
    adv = true →
    (cancel_requested r = true →
      is_cancelable r = false ∧ cancel_phase r ≠ Some (phase r)) →
    list_index (phase r) (phases r) = Some i → phases r !! S i = Some (phase r') →
    state r' = state r → step_outcome_view r r' adv.

(** The record after the claim refresh and the progress update. *)
Definition progressed (ts : clock) (c : claim) (ph : string) (res : step_result)
    (r : op_record) : op_record :=
  let r := refresh_claim (ts 0%nat) c r in
  match sr_progress res with
  | [] => r
  | d => append_event (ts 1%nat) "progress" (state r) ph
           (Some (progress_delta_json d)) None None
           (set_progress (add_progress d (progress r)) r)
  end.

Lemma progressed_frame ts c ph res r :
  let r' := progressed ts c ph res r in
  same_machine r r' ∧ state r' = state r ∧ phase r' = phase r ∧
  cancel_requested r' = cancel_requested r ∧ is_cancelable r' = is_cancelable r ∧
  updated_at r' = updated_at r ∧ cancel_requested_at r' = cancel_requested_at r.
Proof. unfold progressed. destruct r, (sr_progress res); simpl; by split_and!. Qed.

Lemma apply_step_result_unfold ts c ph res r :
  apply_step_result_transform ts c ph res r =
  if bool_decide (phase r ≠ ph) then Ok (false, r) else
  let r := progressed ts c ph res r in
  if negb (sr_advance res) then Ok (true, r) else
  if cancel_requested r && is_cancelable r && bool_decide (Some (phase r) ≠ cancel_phase r)
  then Ok (true, r)
  else if bool_decide (Some ph = cancel_phase r) && cancel_requested r then
    let r := set_error JNull r in
    Ok (true, set_state Cancelled (terminal_event (ts 2%nat) Cancelled ph None r))
  else if bool_decide (last (phases r) = Some ph) then
    let r := set_error JNull (set_result (completed_result (sr_result res)) r) in
    Ok (true, set_state Succeeded (terminal_event (ts 2%nat) Succeeded ph None r))
  else
    i ← phase_index r ph;
    match phases r !! S i with
    | None => Err InvalidTransition
    | Some new_phase =>
        _ ← validate_phase_transition r new_phase;
        Ok (true, set_phase new_phase (transition_event (ts 2%nat) new_phase r))
    end.
Proof. reflexivity. Qed.

Lemma apply_step_result_effect ts c ph res r r' :
  apply_step_result_transform ts c ph res r = Ok (true, r') →
  phase r = ph ∧ same_machine r r' ∧ cancel_requested r' = cancel_requested r ∧
  step_outcome_view r r' (sr_advance res).
Proof.
  rewrite apply_step_result_unfold. cbv zeta. case_bool_decide as Hph; [done|].
  destruct (progressed_frame ts c ph res r) as (Hsm&Hst&Hp&Hc&Hcan&_&_).
  cbv zeta in *. generalize dependent (progressed ts c ph res r). intros q.
  intros Hsm Hst Hp Hc Hcan. pose proof Hsm as (_&_&_&Hps&_&Hcp&_).
  rewrite Hc, Hcan, Hp, Hps, Hcp. intros Hr.
  destruct (sr_advance res); simpl in Hr.
  2: { injection Hr as <-. split_and!; try done. apply view_held; auto. }
  destruct (cancel_requested r && is_cancelable r && _) eqn:Hheld.
  { bool_to_prop. injection Hr as <-. split_and!; try done. apply view_held; auto. }
  assert (¬ (Some ph = cancel_phase r ∧ cancel_requested r = true) →
    cancel_requested r = true →
    is_cancelable r = false ∧ cancel_phase r ≠ Some (phase r)) as Hno.
  { intros Hn Hcr. rewrite Hcr in *. simpl in Hheld. subst ph.
    destruct (is_cancelable r); simpl in Hheld.
    - apply bool_decide_eq_false, dec_stable in Hheld. naive_solver.
    - split; [done|]. naive_solver. }
  destruct (bool_decide (Some ph = cancel_phase r) && cancel_requested r) eqn:Hcan'.
  { bool_to_prop. injection Hr as <-. destruct q; simpl in *.
    split_and!; try done. apply view_cancelled; try done. by rewrite Hph. }
  apply andb_false_iff in Hcan'.
  assert (¬ (Some ph = cancel_phase r ∧ cancel_requested r = true)) as Hn.
  { intros [? ?]. destruct Hcan' as [Hf|Hf]; [|congruence].
    by apply bool_decide_eq_false in Hf. }
  specialize (Hno Hn). clear Hcan' Hn Hheld. case_bool_decide as Hlast.
  { injection Hr as <-. destruct q; simpl in *. split_and!; try done.
    apply view_succeeded; first [done|congruence]. }
  apply bind_Ok in Hr as (i&Hi&Hr). unfold phase_index in Hi. rewrite Hps in Hi.
  destruct (list_index ph (phases r)) eqn:Ei; [|done]. injection Hi as <-.
  destruct (phases r !! S n) as [np|] eqn:En; [|done].
  apply bind_Ok in Hr as (?&_&[= <-]). destruct q; simpl in *.
  split_and!; try done. apply (view_advanced _ _ _ n); simpl; first [done|congruence].
Qed.

(** ** Transforms preserve well-formedness *)

Section wf.
Context `{PyStdlib}.

Definition valid_clock (ts : clock) : Prop := ∀ i, valid_timestamp (ts i) = true.
Definition valid_claim_id (c : claim) : Prop := 0 < claim_pid c ∧ claim_token c ≠ "".
Definition valid_op_error (e : op_error) : Prop :=
  err_code e ≠ "" ∧ err_phase e ≠ "" ∧ is_dict (err_cause e) || is_null (err_cause e) = true.
Definition valid_delta (d : list (string * Z)) : Prop :=
  Forall (λ kv, kv.1 ∈ PROGRESS_UNITS ∧ 0 <= kv.2) d.
(** A step's result payload is a dict, or falsy. *)
Definition valid_step_result (res : step_result) : Prop :=
  valid_delta (sr_progress res) ∧
  (is_dict (sr_result res) = true ∨ py_truthy (sr_result res) = false).

Ltac wf_field := intros []; intros; split; simpl in *; try assumption.

Lemma wf_set_state st r : wf_record r → wf_record (set_state st r).
Proof. destruct r. by wf_field. Qed.
Lemma wf_set_phase p r : wf_record r → p ∈ phases r → wf_record (set_phase p r).
Proof. destruct r. by wf_field. Qed.
Lemma wf_set_error v r : wf_record r → valid_error v = true → wf_record (set_error v r).
Proof. destruct r. by wf_field. Qed.
Lemma wf_set_result v r :
  wf_record r → is_dict v || is_null v = true → wf_record (set_result v r).
Proof. destruct r. by wf_field. Qed.
Lemma wf_set_claim v r : wf_record r → valid_claim v = true → wf_record (set_claim v r).
Proof. destruct r. by wf_field. Qed.
Lemma wf_set_log v r : wf_record r → valid_log (phases r) v = true → wf_record (set_log v r).
Proof. destruct r. by wf_field. Qed.
Lemma wf_set_progress v r :
  wf_record r → 0 <= pr_events v ∧ 0 <= pr_bytes v ∧ 0 <= pr_chunks v →
  wf_record (set_progress v r).
Proof. destruct r. by wf_field. Qed.
Lemma wf_set_cancel_requested at_ r :
  wf_record r → valid_timestamp at_ = true → wf_record (set_cancel_requested at_ r).
Proof. destruct r. by wf_field. Qed.
Lemma wf_set_updated_at at_ r :
  wf_record r → valid_timestamp at_ = true → wf_record (set_updated_at at_ r).
Proof. destruct r. by wf_field. Qed.
Lemma wf_set_rev v r : wf_record r → 1 <= v → wf_record (set_rev v r).
Proof. destruct r. by wf_field. Qed.

Lemma wf_refresh_claim now c r :
  wf_record r → valid_timestamp now = true → valid_claim_id c →
  wf_record (refresh_claim now c r).
Proof.
  intros Hwf Hts [Hp Ht]. apply wf_set_claim; [done|].
  apply Z.ltb_lt in Hp. apply String.eqb_neq in Ht.
  unfold valid_claim, obj_get_or_null. cbn -[valid_timestamp]. by rewrite Hp, Ht, Hts.
Qed.

Lemma wf_append_event now kind st ph pr ec out r :
  wf_record r → valid_timestamp now = true → kind ∈ LOG_KINDS → ph ∈ phases r →
  (kind = "progress" → ∃ d, pr = Some d ∧ valid_progress_delta d = true) →
  (kind = "terminal" → ∃ o, out = Some o ∧ o ∈ OUTCOMES) →
  wf_record (append_event now kind st ph pr ec out r).
Proof.
  intros Hwf Hts Hk Hph Hpr Ho. apply wf_set_log; [done|].
  apply valid_log_app; [by apply wf_log|]. by apply valid_event_entry.
Qed.

Lemma wf_transition_event now ph r :
  wf_record r → valid_timestamp now = true → ph ∈ phases r →
  wf_record (transition_event now ph r).
Proof. intros. apply wf_append_event; try done. unfold LOG_KINDS; set_solver. Qed.

Lemma wf_terminal_event now st ph code r :
  wf_record r → valid_timestamp now = true → ph ∈ phases r →
  st ∈ [Succeeded; Failed; Cancelled; Blocked] →
  wf_record (terminal_event now st ph code r).
Proof.
  intros ??? Hst. apply wf_append_event; try done; [unfold LOG_KINDS; set_solver|].
  intros _. eexists. split; [done|]. unfold OUTCOMES.
  rewrite !elem_of_cons in Hst. destruct_or!; subst; simpl; set_solver.
Qed.

Lemma valid_delta_of d u : valid_delta d → 0 <= delta_of u d.
Proof.
  unfold valid_delta, delta_of. intros Hd. destruct (List.find _ d) as [kv|] eqn:E; [|done].
  apply find_some in E as [Hin%list_elem_of_In _]. rewrite Forall_forall in Hd.
  by apply Hd.
Qed.

Lemma valid_delta_json d : d ≠ [] → valid_delta d → valid_progress_delta (progress_delta_json d) = true.
Proof.
  unfold valid_delta, progress_delta_json. intros Hne Hd.
  assert (∀ m, m ≠ [] → valid_progress_delta (JObj m) =
    bool_decide (Forall (λ k, k ∈ PROGRESS_UNITS) (obj_keys m)) &&
    forallb (λ kv, match kv.2 with JInt z => 0 <=? z | _ => false end) m) as ->.
  { by intros [|? ?]. }
  2: { by destruct d. }
  rewrite andb_true_iff, bool_decide_eq_true. split.
  - unfold obj_keys. apply Forall_fmap, Forall_fmap.
    by eapply Forall_impl; [exact Hd|intros ? []].
  - apply forallb_forall. intros kv' Hin%list_elem_of_In.
    apply list_elem_of_fmap in Hin as (kv''&->&Hin). simpl.
    rewrite Forall_forall in Hd. apply Z.leb_le. by apply Hd.
Qed.

Lemma wf_progressed ts c ph res r :
  wf_record r → valid_clock ts → valid_claim_id c → valid_delta (sr_progress res) →
  ph ∈ phases r → wf_record (progressed ts c ph res r).
Proof.
  intros Hwf Hts Hc Hd Hph. unfold progressed.
  pose proof (wf_refresh_claim (ts 0%nat) c r Hwf (Hts _) Hc) as Hwf'.
  destruct (sr_progress res) as [|kv d] eqn:E; [done|].
  apply wf_append_event; [|by apply Hts|unfold LOG_KINDS; set_solver| | |done].
  - apply wf_set_progress; [done|]. destruct (wf_progress _ Hwf') as (?&?&?).
    pose proof (valid_delta_of (kv :: d) "events" Hd).
    pose proof (valid_delta_of (kv :: d) "bytes" Hd).
    pose proof (valid_delta_of (kv :: d) "chunks" Hd). simpl. lia.
  - by destruct r.
  - intros _. eexists; split; [done|]. by apply valid_delta_json.
Qed.
End wf.

(** The phase machine is untouched by the field updates. *)
Lemma phases_updates r :
  (∀ v, phases (set_state v r) = phases r) ∧ (∀ v, phases (set_error v r) = phases r) ∧
  (∀ v, phases (set_result v r) = phases r) ∧ (∀ n c, phases (refresh_claim n c r) = phases r) ∧
  (∀ v, phases (set_cancel_requested v r) = phases r) ∧
  (∀ n k st p d e o, phases (append_event n k st p d e o r) = phases r).
Proof. by destruct r. Qed.

Lemma phase_updates r :
  (∀ v, phase (set_state v r) = phase r) ∧ (∀ v, phase (set_error v r) = phase r) ∧
  (∀ v, phase (set_result v r) = phase r) ∧ (∀ n c, phase (refresh_claim n c r) = phase r) ∧
  (∀ v, phase (set_cancel_requested v r) = phase r) ∧
  (∀ n k st p d e o, phase (append_event n k st p d e o r) = phase r).
Proof. by destruct r. Qed.

Ltac field_updates :=
  repeat match goal with
  | |- context [phases (?f ?v ?r)] =>
      rewrite (proj1 (phases_updates r)) || rewrite (proj1 (proj2 (phases_updates r)))
      || rewrite (proj1 (proj2 (proj2 (phases_updates r))))
      || rewrite (proj1 (proj2 (proj2 (proj2 (proj2 (phases_updates r))))))
  | |- context [phase (?f ?v ?r)] =>
      rewrite (proj1 (phase_updates r)) || rewrite (proj1 (proj2 (phase_updates r)))
      || rewrite (proj1 (proj2 (proj2 (phase_updates r))))
      || rewrite (proj1 (proj2 (proj2 (proj2 (proj2 (phase_updates r))))))
  | |- context [phases (refresh_claim ?n ?c ?r)] =>
      rewrite (proj1 (proj2 (proj2 (proj2 (phases_updates r)))))
  | |- context [phase (refresh_claim ?n ?c ?r)] =>
      rewrite (proj1 (proj2 (proj2 (proj2 (phase_updates r)))))
  | |- context [phases (append_event _ _ _ _ _ _ _ ?r)] =>
      rewrite (proj2 (proj2 (proj2 (proj2 (proj2 (phases_updates r))))))
  | |- context [phase (append_event _ _ _ _ _ _ _ ?r)] =>
      rewrite (proj2 (proj2 (proj2 (proj2 (proj2 (phase_updates r))))))
  end.

Create HintDb wf_record discriminated.
#[export] Hint Resolve wf_set_state wf_set_phase wf_set_error wf_set_result wf_refresh_claim
  wf_transition_event wf_terminal_event wf_set_cancel_requested : wf_record.
#[export] Hint Resolve wf_phase : wf_record.

(** Solves [wf_record] of nested updates of a well-formed record. *)
Ltac wf_solve :=
  repeat first
    [ assumption
    | simple apply wf_set_state | simple apply wf_set_phase | simple apply wf_set_error
    | simple apply wf_set_result | simple apply wf_refresh_claim
    | simple apply wf_transition_event | simple apply wf_terminal_event
    | simple apply wf_set_cancel_requested ];
  unfold terminal_event, transition_event; field_updates;
  try match goal with
      | |- valid_timestamp _ = true =>
          match goal with Hts : valid_clock _ |- _ => apply Hts end
      | |- _ ∈ [_; _; _; _] =>
          solve [ assumption | by left | by right; left | by do 2 right; left
                | by do 3 right; left ]
      | |- _ => solve [ assumption | by simple apply wf_phase | reflexivity ]
      end.

Section transforms_wf.
Context `{PyStdlib}.

(** A transform is well behaved when what it wants written is well formed. *)
Definition transform_wf (t : transform) : Prop :=
  ∀ r b r', wf_record r → t r = Ok (b, r') → wf_record r'.

Lemma cancel_phase_set_in r c : wf_record r → cancel_phase_set r = Some c → c ∈ phases r.
Proof.
  intros Hwf. unfold cancel_phase_set. destruct (cancel_phase r) as [[|a s]|] eqn:E; [done| |done].
  intros [= <-]. by apply (wf_cancel_phase r Hwf).
Qed.

Lemma cancel_checkpoint_wf ts : valid_clock ts → transform_wf (cancel_checkpoint_transform ts).
Proof.
  intros Hts r b r' Hwf. unfold cancel_checkpoint_transform.
  destruct (negb _); [by intros [= <- <-]|].
  destruct (cancel_phase_set r) as [c|] eqn:Hc.
  - pose proof (cancel_phase_set_in r c Hwf Hc) as Hin.
    case_bool_decide; [|by intros [= <- <-]]. intros (r1&Hr1&[= <- <-])%bind_Ok.
    assert (wf_record r1 ∧ phases r1 = phases r) as [Hwf1 Hps].
    { destruct (_ || _); [apply bind_Ok in Hr1 as (?&_&[= <-])|by injection Hr1 as <-].
      split; [wf_solve|by field_updates]. }
    wf_solve; by rewrite Hps.
  - intros (?&_&[= <- <-])%bind_Ok. wf_solve.
Qed.

Context (ts : clock) (Hts : valid_clock ts).

Lemma claim_and_start_wf c rb : valid_claim_id c → transform_wf (claim_and_start_transform ts c rb).
Proof.
  intros Hc r b r' Hwf. unfold claim_and_start_transform.
  destruct (state r), rb; intros [= <- <-]; wf_solve.
Qed.

Lemma fail_unsupported_wf c : valid_claim_id c → transform_wf (fail_unsupported_transform ts c).
Proof.
  intros Hc r b r' Hwf [= <- <-]. wf_solve.
  apply valid_make_error; simpl; try done.
  pose proof (wf_phase r Hwf) as Hp. pose proof (wf_phases r Hwf) as Hps.
  unfold valid_phases in Hps. bool_to_prop. rewrite Forall_forall in *.
  field_updates. intros Heq. rewrite Heq in Hp.
  match goal with Hcan : ∀ x, x ∈ phases r → _ |- _ => apply Hcan in Hp end.
  unfold CANONICAL_PHASES in Hp. set_solver.
Qed.

Lemma mark_step_error_wf c ph e st :
  valid_claim_id c → valid_op_error e → st ∈ [Failed; Blocked] →
  transform_wf (mark_step_error_transform ts c ph e st).
Proof.
  intros Hc (?&?&?) Hst r b r' Hwf. unfold mark_step_error_transform.
  destruct (bool_decide (phase r ≠ ph)) eqn:Hph; [by intros [= <- <-]|].
  apply bool_decide_eq_false, dec_stable in Hph as <-.
  destruct (bool_decide (state r ≠ Running)); [by intros [= <- <-]|]. simpl.
  pose proof (wf_refresh_claim (ts 0%nat) c r Hwf (Hts _) Hc) as Hwf'.
  destruct (cancel_requested _ && _).
  - eapply (cancel_checkpoint_wf (λ i, ts (S i))); [intros i; apply Hts|done].
  - intros [= <- <-]. assert (st ∈ [Succeeded; Failed; Cancelled; Blocked]) as Hst'.
    { rewrite !elem_of_cons in *. naive_solver. }
    wf_solve. by apply valid_make_error.
Qed.

Lemma apply_step_result_wf c ph res :
  valid_claim_id c → valid_step_result res → transform_wf (apply_step_result_transform ts c ph res).
Proof.
  intros Hc [Hd Hres] r b r' Hwf. rewrite apply_step_result_unfold. cbv zeta.
  case_bool_decide as Hph; [by intros [= <- <-]|].
  pose proof (wf_progressed ts c ph res r Hwf Hts Hc Hd) as Hq.
  destruct (progressed_frame ts c ph res r) as (Hsm&_&Hp&_). cbv zeta in *.
  generalize dependent (progressed ts c ph res r). intros q Hq Hsm Hp.
  assert (ph ∈ phases q) as Hin.
  { destruct Hsm as (_&_&_&->&_). rewrite <- Hph. by apply wf_phase. }
  assert (ph ∈ phases r) as Hin' by (rewrite <- Hph; by apply wf_phase).
  specialize (Hq Hin').
  destruct (sr_advance res); simpl; [|by intros [= <- <-]].
  destruct (cancel_requested q && _ && _); [by intros [= <- <-]|].
  destruct (bool_decide _ && _).
  { intros [= <- <-]. wf_solve. }
  case_bool_decide.
  { intros [= <- <-]. wf_solve.
    unfold completed_result. destruct Hres as [Hdict|Hf]; [|by rewrite Hf].
    destruct (py_truthy _); [by rewrite Hdict|done]. }
  intros (i&Hi&Hr)%bind_Ok.
  destruct (phases q !! S i) as [np|] eqn:En; [|done].
  apply bind_Ok in Hr as (?&_&[= <- <-]).
  apply list_elem_of_lookup_2 in En. wf_solve.
Qed.

Lemma request_cancel_wf : transform_wf (request_cancel_transform ts).
Proof.
  intros r b r' Hwf. unfold request_cancel_transform.
  case_bool_decide; [by intros [= <- <-]|]. destruct (cancel_requested r); [by intros [= <- <-]|].
  intros [= <- <-]. apply wf_append_event; try done.
  - by wf_solve.
  - unfold LOG_KINDS; set_solver.
  - field_updates. by apply wf_phase.
Qed.

Lemma cancel_blocked_wf : transform_wf (cancel_blocked_transform ts).
Proof.
  intros r b r' Hwf. unfold cancel_blocked_transform.
  destruct (_ || _); [by intros [= <- <-]|].
  intros (?&_&[= <- <-])%bind_Ok. wf_solve.
Qed.
End transforms_wf.
