(* ===== verification/Demo.v ===== *)
(** * Concrete instances

    A concrete [PyStdlib] (a constant digest, a syntactic time-zone test) and
    concrete operation records, used by the example runs and the witnesses of
    the component files.  No theorem depends on it. *)

From Stdlib Require Import Ascii String.
From stdpp Require Import base list strings.
From S2P Require Import Prelude PyJson OpRecord OpTransforms.
Open Scope Z_scope.

Definition demo_digest : string :=
  "0123456789abcdef0123456789abcdef0123456789abcdef0123456789abcdef".

(** Accepts exactly the texts that end in ["+00:00"]. *)
Definition demo_tz (s : string) : bool :=
  let n := String.length s in
  (6 <=? n)%nat && String.eqb (String.substring (n - 6) 6 s) "+00:00".

Definition demo_stdlib : PyStdlib := {|
  sha256_hex := λ _, demo_digest;
  iso_tz_aware := demo_tz;
  float_repr := λ _, "0.5" |}.
#[local] Existing Instance demo_stdlib.

Definition demo_now : string := "2026-01-01T00:00:00+00:00".
Definition demo_clock : clock := λ _, demo_now.
Definition demo_claim : claim := Claim 42 "token".

Definition demo_phases : list string := ["staging"; "publishing"; "reopening"].

Definition demo_create (ps : list string) (irr : string) (cp : option string)
    : result exn op_record :=
  new_operation "op-1" demo_now "restore" [("source", JStr "backup-1")] ps irr (Some "op-1") cp.

Definition demo_or (r : result exn op_record) : op_record :=
  match r with
  | Ok x => x
  | Err _ => OpRecord JNull "" "" Failed "" [] "" None [] "" "" "" false None
               (OpProgress 0 0 0) JNull JNull [] 0 JNull
  end.

(** A restore-like operation that compensates in its last phase, one without
    compensation, and one whose first phase is already irreversible. *)
Definition demo_record : op_record :=
  Eval vm_compute in demo_or (demo_create demo_phases "publishing" (Some "reopening")).
Definition demo_plain : op_record :=
  Eval vm_compute in demo_or (demo_create demo_phases "publishing" None).
Definition demo_racy : op_record :=
  Eval vm_compute in demo_or (demo_create ["publishing"; "reopening"] "publishing" (Some "reopening")).

Lemma demo_record_created :
  demo_create demo_phases "publishing" (Some "reopening") = Ok demo_record.
Proof. vm_compute. reflexivity. Qed.
Lemma demo_racy_created :
  demo_create ["publishing"; "reopening"] "publishing" (Some "reopening") = Ok demo_racy.
Proof. vm_compute. reflexivity. Qed.

Lemma demo_record_wf : wf_record demo_record.
Proof. apply validate_record_wf. vm_compute. reflexivity. Qed.
Lemma demo_plain_wf : wf_record demo_plain.
Proof. apply validate_record_wf. vm_compute. reflexivity. Qed.
Lemma demo_racy_wf : wf_record demo_racy.
Proof. apply validate_record_wf. vm_compute. reflexivity. Qed.

Lemma demo_clock_valid : valid_clock demo_clock.
Proof. intros i. vm_compute. reflexivity. Qed.
