(* ===== verification/OpStore.v ===== *)
(** * The operation store of [src/daemon/operations.py]

    [OperationStore] over an explicit directory: the root entry, the
    [operations/] entry and the files inside it, each with type, owner, mode
    and whether [open] succeeds on it.  A file's content is the JSON value its
    bytes parse to, or [Unreadable] (not UTF-8, not JSON, duplicate keys, or a
    file that is still being written); writing a record and reading it back is
    the round trip of the standard [json] module.  Every access re-verifies
    the root, the directory and the file as the code does.  [_write_record] is
    a list of file-system operations, so a crash is a prefix of that list; the
    record lock makes each execution of the list atomic for the other
    processes, which interleave at the granularity of loads and locked writes. *)

From Stdlib Require Import Ascii String.
From stdpp Require Import base list strings gmap sorting pretty.
From S2P Require Import Prelude PyJson OpRecord OpTransforms.
Open Scope Z_scope.

(** ** Directory entries *)

Inductive ftype := FReg | FDir | FLnk | FOther.
#[export] Instance ftype_eq_dec : EqDecision ftype.
Proof. solve_decision. Defined.

(** [n_openable]: the kernel grants [open]; [n_ino]: the (device, inode) pair. *)
Record fnode := FNode {
  n_type : ftype; n_uid : Z; n_mode : Z; n_openable : bool; n_ino : Z * Z }.

Inductive payload := Unreadable | Parsed (j : json).

Record file := File { f_node : fnode; f_payload : payload }.

(** [w_files] are the entries of [operations/], [w_root_files] the run-lock
    files next to it, and [w_run_held] the run locks some process holds. *)
Record world := World {
  w_root : option fnode;
  w_ops : option fnode;
  w_files : gmap string file;
  w_root_files : gmap string file;
  w_run_held : gset string }.

Definition set_files (m : gmap string file) (w : world) : world :=
  World (w_root w) (w_ops w) m (w_root_files w) (w_run_held w).
Definition set_root_files (m : gmap string file) (w : world) : world :=
  World (w_root w) (w_ops w) (w_files w) m (w_run_held w).
Definition set_run_held (h : gset string) (w : world) : world :=
  World (w_root w) (w_ops w) (w_files w) (w_root_files w) h.

Definition DIR_MODE : Z := 448.   (* 0o700 *)
Definition FILE_MODE : Z := 384.  (* 0o600 *)

(** ** Names *)

Definition record_file (id : string) : string := id +:+ ".json".
Definition lock_file (id : string) : string := id +:+ ".lock".

Lemma list_ascii_app (x y : string) :
  list_ascii_of_string (x +:+ y) = list_ascii_of_string x ++ list_ascii_of_string y.
Proof. induction x as [|c x IH]; simpl; [done|by f_equal]. Qed.

Lemma string_app_inv_r a b t : a +:+ t = b +:+ t → a = b.
Proof.
  intros H%(f_equal list_ascii_of_string). rewrite !list_ascii_app in H.
  apply app_inv_tail in H.
  by rewrite <- (string_of_list_ascii_of_string a), H, string_of_list_ascii_of_string.
Qed.

Lemma record_file_inj a b : record_file a = record_file b → a = b.
Proof. apply string_app_inv_r. Qed.

Lemma record_file_not_lock a b : record_file a ≠ lock_file b.
Proof.
  unfold record_file, lock_file. intros H%(f_equal list_ascii_of_string).
  rewrite !list_ascii_app in H. apply (f_equal last) in H. by rewrite !last_app in H.
Qed.

(** What one write call reads from its environment: the time, the pid, the
    eight hex digits of a fresh uuid and the inodes of the files it creates. *)
Record write_env := WriteEnv {
  we_now : string; we_pid : Z; we_hex : string; we_ino : nat → Z * Z }.

(** ["%s.tmp-%d-%s" % (name, os.getpid(), uuid.uuid4().hex[:8])] *)
Definition tmp_file (env : write_env) (id : string) : string :=
  record_file id +:+ ".tmp-" +:+ pretty (we_pid env) +:+ "-" +:+ we_hex env.

Section store.
Context `{PyStdlib}.
(** The effective uid of the process. *)
Context (euid : Z).

(** ** Verification of the root and of [operations/] *)

Definition check_dir (n : fnode) (symlink notdir owner perm : string) : result exn unit :=
  _ ← guard_err (bool_decide (n_type n = FLnk)) (StoreBlocked symlink);
  _ ← guard_err (bool_decide (n_type n ≠ FDir)) (StoreBlocked notdir);
  _ ← guard_err (negb (n_uid n =? euid)) (StoreBlocked owner);
  guard_err (negb (n_mode n =? DIR_MODE)) (StoreBlocked perm).

(** [fresh] is the inode of a directory that is created. *)
Definition new_dir (fresh : Z * Z) : fnode := FNode FDir euid DIR_MODE true fresh.

Definition verify_root_entry (create : bool) (fresh : Z * Z) (w : world)
    : result exn (bool * world) :=
  _ ← guard_err (euid =? 0) UnsupportedPrivilege;
  match w_root w with
  | None => if create then Ok (true, World (Some (new_dir fresh)) (w_ops w) (w_files w)
                           (w_root_files w) (w_run_held w))
            else Ok (false, w)
  | Some n =>
      _ ← check_dir n "root_symlink" "root_not_directory" "root_owner" "root_permission";
      Ok (true, w)
  end.

Definition verify_operations_entry (create : bool) (fresh : Z * Z) (w : world)
    : result exn (bool * world) :=
  match w_ops w with
  | None => if create then Ok (true, World (w_root w) (Some (new_dir fresh)) (w_files w)
                           (w_root_files w) (w_run_held w))
            else Ok (false, w)
  | Some n =>
      _ ← check_dir n "op_dir_symlink" "op_dir_not_directory" "op_dir_owner"
            "op_dir_permission";
      Ok (true, w)
  end.

Definition open_store (create : bool) (fresh : nat → Z * Z) (w : world) : result exn world :=
  let* (ok, w) := verify_root_entry create (fresh 0%nat) w in
  if ok then let* (_, w) := verify_operations_entry create (fresh 1%nat) w in Ok w else Ok w.

(** [os.open(path, O_RDONLY | O_NOFOLLOW)] on a directory entry. *)
Definition open_entry (o : option fnode) (symlink missing unreadable : string)
    : result exn fnode :=
  match o with
  | None => Err (StoreBlocked missing)
  | Some n =>
      _ ← guard_err (bool_decide (n_type n = FLnk)) (StoreBlocked symlink);
      _ ← guard_err (negb (n_openable n)) (StoreBlocked unreadable);
      Ok n
  end.

Definition open_root_dir (w : world) : result exn unit :=
  _ ← guard_err (euid =? 0) UnsupportedPrivilege;
  n ← open_entry (w_root w) "root_symlink" "root_unavailable" "root_unavailable";
  check_dir n "root_symlink" "root_not_directory" "root_owner" "root_permission".

(** [pinned] is the identity a runner observed when it took its lock. *)
Definition open_operations_from_root (pinned : option (Z * Z)) (w : world)
    : result exn fnode :=
  n ← open_entry (w_ops w) "op_dir_symlink" "op_dir_unavailable" "op_dir_unreadable";
  _ ← check_dir n "op_dir_symlink" "op_dir_not_directory" "op_dir_owner"
        "op_dir_permission";
  _ ← guard_err (match pinned with Some i => bool_decide (n_ino n ≠ i) | None => false end)
        (StoreBlocked "op_dir_replaced");
  Ok n.

Definition open_operations_dir (pinned : option (Z * Z)) (w : world) : result exn fnode :=
  _ ← open_root_dir w; open_operations_from_root pinned w.

(** ** Lock files *)

Definition new_file_node (fresh : Z * Z) : fnode := FNode FReg euid FILE_MODE true fresh.

Definition verify_lock_file (n : fnode) : result exn unit :=
  _ ← guard_err (bool_decide (n_type n ≠ FReg)) (StoreBlocked "operation_lock_not_regular");
  _ ← guard_err (negb (n_uid n =? euid)) (StoreBlocked "operation_lock_owner");
  guard_err (negb (n_mode n =? FILE_MODE)) (StoreBlocked "operation_lock_permission").

(** Exclusive create, falling back to opening the existing lock file. *)
Definition open_lock_file (name : string) (fresh : Z * Z) (m : gmap string file)
    : result exn (fnode * gmap string file) :=
  match m !! name with
  | None =>
      let n := new_file_node fresh in Ok (n, <[name := File n Unreadable]> m)
  | Some f =>
      _ ← guard_err (bool_decide (n_type (f_node f) = FLnk))
            (StoreBlocked "operation_lock_symlink");
      _ ← guard_err (bool_decide (n_type (f_node f) = FDir) || negb (n_openable (f_node f)))
            (StoreBlocked "operation_lock_unavailable");
      Ok (f_node f, m)
  end.

Definition acquire_record_lock (id : string) (fresh : Z * Z) (w : world)
    : result exn world :=
  let* (n, m) := open_lock_file (lock_file id) fresh (w_files w) in
  _ ← verify_lock_file n; Ok (set_files m w).

(** The executor lock, next to [operations/] in the root.  [None]: another
    process holds it; otherwise the identity of [operations/] that the
    holder pins. *)
Definition run_lock_file (id : string) : string := ".operation-" +:+ id +:+ ".run".

Definition acquire_run_lock (id : string) (fresh : Z * Z) (w : world)
    : result exn (option (Z * Z) * world) :=
  _ ← guard_err (negb (valid_operation_id id)) (OperationNotFound id);
  _ ← open_root_dir w;
  n ← open_operations_from_root None w;
  let* (l, m) := open_lock_file (run_lock_file id) fresh (w_root_files w) in
  _ ← verify_lock_file l;
  let w := set_root_files m w in
  if bool_decide (id ∈ w_run_held w) then Ok (None, w)
  else Ok (Some (n_ino n), set_run_held ({[id]} ∪ w_run_held w) w).

Definition release_run_lock (id : string) (w : world) : world :=
  set_run_held (w_run_held w ∖ {[id]}) w.

(** ** Reading a record *)

Definition read_via_dfd (id : string) (w : world) : result exn op_record :=
  match w_files w !! record_file id with
  | None => Err (OperationNotFound id)
  | Some f =>
      let n := f_node f in
      _ ← guard_err (bool_decide (n_type n = FLnk)) (StoreBlocked "operation_symlink");
      _ ← guard_err (negb (n_openable n)) (OperationNotFound id);
      _ ← guard_err (bool_decide (n_type n ≠ FReg)) (StoreBlocked "operation_not_regular");
      _ ← guard_err (negb (n_uid n =? euid)) (StoreBlocked "operation_owner");
      _ ← guard_err (negb (n_mode n =? FILE_MODE)) (StoreBlocked "operation_permission");
      match f_payload f with
      | Unreadable => Err (StoreBlocked "operation_unreadable")
      | Parsed j =>
          _ ← guard_err (negb (validate_record j)) (StoreBlocked "operation_invalid");
          match of_json j with
          | None => Err (StoreBlocked "operation_invalid")
          | Some r =>
              _ ← guard_err (negb (String.eqb (operation_id r) id))
                    (StoreBlocked "operation_invalid");
              Ok r
          end
      end
  end.

Definition load (pinned : option (Z * Z)) (id : string) (w : world) : result exn op_record :=
  _ ← guard_err (negb (valid_operation_id id)) (OperationNotFound id);
  match open_operations_dir pinned w with
  | Err (StoreBlocked c) =>
      if String.eqb c "op_dir_unavailable" || String.eqb c "root_unavailable"
      then Err (OperationNotFound id) else Err (StoreBlocked c)
  | Err e => Err e
  | Ok _ => read_via_dfd id w
  end.

(** [sorted(name[:-len(".json")] for name in names if name.endswith(".json"))] *)
Definition strip_json (name : string) : option string :=
  let n := String.length name in
  if (5 <=? n)%nat && String.eqb (String.substring (n - 5) 5 name) ".json"
  then Some (String.substring 0 (n - 5) name) else None.

Definition str_le (a b : string) : Prop := String.leb a b = true.
#[export] Instance str_le_dec : RelDecision str_le.
Proof. intros a b. unfold str_le. apply _. Defined.

Definition list_ids (pinned : option (Z * Z)) (w : world) : result exn (list string) :=
  match open_operations_dir pinned w with
  | Err (StoreBlocked c) =>
      if String.eqb c "op_dir_unavailable" || String.eqb c "root_unavailable"
      then Ok [] else Err (StoreBlocked c)
  | Err e => Err e
  | Ok _ => Ok (merge_sort str_le (omap strip_json (map_to_list (w_files w)).*1))
  end.

(** ** Writing a record *)

Inductive fs_op :=
| FsCreate (name : string) (n : fnode)    (* O_CREAT | O_EXCL, empty *)
| FsWrite (name : string) (j : json)      (* all bytes written *)
| FsFsync (name : string)
| FsRename (src dst : string)             (* atomic *)
| FsLink (src dst : string)               (* fails when [dst] exists *)
| FsUnlink (name : string)
| FsFsyncDir.

Definition exec_op (o : fs_op) (m : gmap string file) : gmap string file :=
  match o with
  | FsCreate name n => <[name := File n Unreadable]> m
  | FsWrite name j => alter (λ f, File (f_node f) (Parsed j)) name m
  | FsRename src dst =>
      match m !! src with Some f => <[dst := f]> (delete src m) | None => m end
  | FsLink src dst =>
      match m !! src, m !! dst with Some f, None => <[dst := f]> m | _, _ => m end
  | FsUnlink name => delete name m
  | FsFsync _ | FsFsyncDir => m
  end.

Definition exec_ops (os : list fs_op) (m : gmap string file) : gmap string file :=
  fold_left (λ m o, exec_op o m) os m.

(** temp file -> write -> fsync -> rename -> directory fsync *)
Definition write_ops (tmp name : string) (fresh : Z * Z) (j : json) : list fs_op :=
  [FsCreate tmp (new_file_node fresh); FsWrite tmp j; FsFsync tmp; FsRename tmp name;
   FsFsyncDir].

(** [record["updated_at"] = now; record["rev"] = (record["rev"] or 1) + 1] *)
Definition bump (now : string) (r : op_record) : op_record :=
  set_rev ((if rev r =? 0 then 1 else rev r) + 1) (set_updated_at now r).


Definition write_record (pinned : option (Z * Z)) (env : write_env) (r : op_record)
    (id : string) (expected_rev : option Z) (w : world) : result exn (world * op_record) :=
  _ ← guard_err (negb (validate_record (to_json r))) InvalidOperationRecord;
  _ ← open_operations_dir pinned w;
  _ ← guard_err (negb (valid_operation_id id)) (ValueError InvalidOperationId);
  w ← acquire_record_lock id (we_ino env 0%nat) w;
  _ ← match expected_rev with
      | None => Ok tt
      | Some e =>
          match read_via_dfd id w with
          | Err (OperationNotFound _) => Err (OperationConflict id)
          | Err x => Err x
          | Ok current => guard_err (negb (rev current =? e)) (OperationConflict id)
          end
      end;
  _ ← guard_err (bool_decide (is_Some (w_files w !! tmp_file env id))) OSErrorRaised;
  let r := bump (we_now env) r in
  Ok (set_files (exec_ops (write_ops (tmp_file env id) (record_file id) (we_ino env 1%nat)
                             (to_json r)) (w_files w)) w, r).

(** Exclusive create; a lost race returns the winner when the fingerprints
    agree and refuses otherwise. *)
Definition create (pinned : option (Z * Z)) (env : write_env) (r : op_record) (w : world)
    : result exn (world * op_record) :=
  _ ← guard_err (negb (validate_record (to_json r))) InvalidOperationRecord;
  let id := operation_id r in
  _ ← open_operations_dir pinned w;
  w ← acquire_record_lock id (we_ino env 0%nat) w;
  _ ← guard_err (bool_decide (is_Some (w_files w !! tmp_file env id))) OSErrorRaised;
  let staged := exec_ops [FsCreate (tmp_file env id) (new_file_node (we_ino env 1%nat));
                          FsWrite (tmp_file env id) (to_json r); FsFsync (tmp_file env id)]
                  (w_files w) in
  match w_files w !! record_file id with
  | Some _ =>
      let w := set_files (exec_ops [FsUnlink (tmp_file env id)] staged) w in
      match read_via_dfd id w with
      | Err (OperationNotFound _) => Err (OperationConflict id)
      | Err x => Err x
      | Ok existing =>
          if String.eqb (record_fingerprint existing) (record_fingerprint r)
          then Ok (w, existing) else Err (OperationIdConflict id)
      end
  | None =>
      let w := set_files (exec_ops [FsLink (tmp_file env id) (record_file id);
                                    FsUnlink (tmp_file env id); FsFsyncDir] staged) w in
      r ← load pinned id w; Ok (w, r)
  end.

(** [mutate]: load, re-apply, compare-and-swap, at most [attempts] times.
    [fn i] is the mutation as applied in the i-th attempt (its clock
    readings differ). *)
Fixpoint mutate_from (pinned : option (Z * Z)) (env : nat → write_env) (id : string)
    (fn : nat → transform) (i attempts : nat) (w : world) : result exn (world * op_record) :=
  match attempts with
  | O => Err (OperationConflict id)
  | S attempts =>
      r ← load pinned id w;
      let* (changed, r') := fn i r in
      if changed then
        match write_record pinned (env i) r' id (Some (rev r')) w with
        | Err (OperationConflict _) => mutate_from pinned env id fn (S i) attempts w
        | Err x => Err x
        | Ok res => Ok res
        end
      else Ok (w, r')
  end.

Definition MUTATE_ATTEMPTS : nat := 64.

Definition mutate pinned env id fn w := mutate_from pinned env id fn 0 MUTATE_ATTEMPTS w.
End store.

(** ** Facts about names *)

(** The pid and the uuid digits make a temp file name that is neither a record
    nor a lock file. *)
Definition valid_env `{PyStdlib} (env : write_env) : Prop :=
  valid_timestamp (we_now env) = true ∧ String.length (we_hex env) = 8%nat ∧
  Forall (λ c, c ∈ hex_chars) (list_ascii_of_string (we_hex env)).

Lemma last_app_Some {A} (l1 l2 : list A) x : last l2 = Some x → last (l1 ++ l2) = Some x.
Proof. intros Hl. by rewrite last_app, Hl. Qed.

Section names.
Context `{PyStdlib}.

Lemma tmp_file_last env id :
  valid_env env → ∃ c, c ∈ hex_chars ∧ last (list_ascii_of_string (tmp_file env id)) = Some c.
Proof.
  intros (_&Hlen&Hhex). unfold tmp_file. rewrite !list_ascii_app.
  destruct (last (list_ascii_of_string (we_hex env))) as [c|] eqn:E.
  - exists c. split.
    + rewrite Forall_forall in Hhex. by apply Hhex, last_Some_elem_of.
    + by repeat apply last_app_Some.
  - apply last_None in E. by destruct (we_hex env).
Qed.

Lemma tmp_file_not_record env id id' : valid_env env → tmp_file env id ≠ record_file id'.
Proof.
  intros Hv Heq. destruct (tmp_file_last env id Hv) as (c&Hc&Hl).
  rewrite Heq in Hl. unfold record_file in Hl. rewrite list_ascii_app in Hl.
  rewrite (last_app_Some _ _ "n"%char) in Hl by done. injection Hl as <-.
  apply (bool_decide_eq_true_2 (_ ∈ _)) in Hc. by vm_compute in Hc.
Qed.

Lemma tmp_file_not_lock env id id' : valid_env env → tmp_file env id ≠ lock_file id'.
Proof.
  intros Hv Heq. destruct (tmp_file_last env id Hv) as (c&Hc&Hl).
  rewrite Heq in Hl. unfold lock_file in Hl. rewrite list_ascii_app in Hl.
  rewrite (last_app_Some _ _ "k"%char) in Hl by done. injection Hl as <-.
  apply (bool_decide_eq_true_2 (_ ∈ _)) in Hc. by vm_compute in Hc.
Qed.
End names.

(** ** Writing: crash atomicity, and what a load sees afterwards *)

Section write_facts.
Context `{PyStdlib} (euid : Z).

(** Executing the write list touches the target and the temp file only. *)
Lemma exec_write_ops tmp name ino j m :
  tmp ≠ name →
  exec_ops (write_ops euid tmp name ino j) m =
  <[name := File (new_file_node euid ino) (Parsed j)]> (delete tmp m).
Proof.
  intros Hne. unfold exec_ops, write_ops. simpl.
  rewrite alter_insert_eq. simpl. rewrite lookup_insert_eq.
  by rewrite delete_insert_eq.
Qed.

(** A crash after any number of the operations leaves the previous record or
    the complete new one, and no other file but the temp file is touched. *)
Lemma write_ops_prefix k tmp name ino j m :
  tmp ≠ name →
  let m' := exec_ops (take k (write_ops euid tmp name ino j)) m in
  (m' !! name = m !! name ∨ m' !! name = Some (File (new_file_node euid ino) (Parsed j))) ∧
  (∀ x, x ≠ name → x ≠ tmp → m' !! x = m !! x).
Proof.
  intros Hne. unfold exec_ops, write_ops.
  do 5 (destruct k as [|k]; [simpl; split; [|intros x ??]; repeat case_match;
    simplify_map_eq; by auto|]).
  rewrite take_ge by (simpl; lia).
  pose proof (exec_write_ops tmp name ino j m Hne) as Hex. unfold exec_ops, write_ops in Hex.
  rewrite Hex. split; [right|intros x ??]; by simplify_map_eq.
Qed.

Lemma acquire_record_lock_Ok id fresh w w' :
  acquire_record_lock euid id fresh w = Ok w' →
  w_root w' = w_root w ∧ w_ops w' = w_ops w ∧
  (∀ x, x ≠ lock_file id → w_files w' !! x = w_files w !! x).
Proof.
  unfold acquire_record_lock, open_lock_file. intros Hl.
  destruct (w_files w !! lock_file id) as [f|] eqn:E; ok_inv; simpl; split_and!; try done.
  intros y Hy. by rewrite lookup_insert_ne.
Qed.

Lemma acquire_record_lock_Err id fresh w e :
  acquire_record_lock euid id fresh w = Err e → ∃ c, e = StoreBlocked c.
Proof.
  unfold acquire_record_lock, open_lock_file, verify_lock_file. intros Hl.
  destruct (w_files w !! lock_file id); err_inv; eauto.
Qed.

Lemma read_via_dfd_frame id w w' :
  w_files w' !! record_file id = w_files w !! record_file id →
  read_via_dfd euid id w' = read_via_dfd euid id w.
Proof. unfold read_via_dfd. by intros ->. Qed.

Lemma open_operations_dir_frame pinned w w' :
  w_root w' = w_root w → w_ops w' = w_ops w →
  open_operations_dir euid pinned w' = open_operations_dir euid pinned w.
Proof.
  unfold open_operations_dir, open_root_dir, open_operations_from_root. by intros -> ->.
Qed.

Lemma load_frame pinned id w w' :
  w_root w' = w_root w → w_ops w' = w_ops w →
  w_files w' !! record_file id = w_files w !! record_file id →
  load euid pinned id w' = load euid pinned id w.
Proof.
  intros Hr Ho Hf. unfold load. rewrite (open_operations_dir_frame pinned w w' Hr Ho).
  by rewrite (read_via_dfd_frame id w w' Hf).
Qed.

Lemma read_via_dfd_parsed id w ino r :
  w_files w !! record_file id = Some (File (new_file_node euid ino) (Parsed (to_json r))) →
  wf_record r → operation_id r = id → read_via_dfd euid id w = Ok r.
Proof.
  intros Hf Hwf <-. unfold read_via_dfd. rewrite Hf. unfold new_file_node.
  cbn [f_node f_payload n_type n_openable n_uid n_mode].
  rewrite (Z.eqb_refl euid), (proj2 (validate_record_wf r) Hwf), of_json_to_json,
    String.eqb_refl.
  reflexivity.
Qed.

Lemma read_via_dfd_wf id w r :
  read_via_dfd euid id w = Ok r → operation_id r = id ∧ wf_record r.
Proof.
  unfold read_via_dfd. intros Hr. destruct (w_files w !! _) as [f|]; [|done].
  ok_inv. destruct (f_payload f) as [|j]; [done|]. ok_inv.
  destruct (of_json j) as [r'|] eqn:Ej; [|done]. ok_inv.
  split; [done|]. by eapply validate_record_of_json.
Qed.

Lemma load_Ok pinned id w r :
  load euid pinned id w = Ok r ↔
  valid_operation_id id = true ∧ (∃ n, open_operations_dir euid pinned w = Ok n) ∧
  read_via_dfd euid id w = Ok r.
Proof.
  unfold load. rewrite bind_Ok. split.
  - intros (?&Hv%guard_err_Ok&Hl). bool_to_prop. split; [done|].
    destruct (open_operations_dir euid pinned w) as [n|[]]; try done; [by eauto|].
    by destruct (_ || _).
  - intros (Hv&(n&Hn)&Hr). exists tt. rewrite Hv, Hn. done.
Qed.

(** The only exceptions of the read path. *)
Definition access_error (e : exn) : Prop :=
  match e with OperationNotFound _ | StoreBlocked _ | UnsupportedPrivilege => True | _ => False end.

Lemma check_dir_Err n a b c d e : check_dir euid n a b c d = Err e → access_error e.
Proof. unfold check_dir. intros Hl. by err_inv. Qed.

Lemma open_entry_Err o a b c e : open_entry o a b c = Err e → access_error e.
Proof. unfold open_entry. intros Hl. destruct o; by err_inv. Qed.

Lemma open_operations_dir_Err pinned w e :
  open_operations_dir euid pinned w = Err e → access_error e.
Proof.
  unfold open_operations_dir, open_root_dir, open_operations_from_root. intros Hl.
  err_inv; try done; eauto using check_dir_Err, open_entry_Err.
Qed.

Lemma read_via_dfd_Err id w e : read_via_dfd euid id w = Err e → access_error e.
Proof.
  unfold read_via_dfd. intros Hl. destruct (w_files w !! _) as [f|]; [|by injection Hl as <-].
  destruct (f_payload f) as [|j]; err_inv; try done. destruct (of_json j); by err_inv.
Qed.

Lemma load_Err pinned id w e : load euid pinned id w = Err e → access_error e.
Proof.
  unfold load. intros [Hl|([]&_&Hl)]%bind_Err; [by err_inv|].
  destruct (open_operations_dir euid pinned w) as [n|x] eqn:Ho;
    [by eapply read_via_dfd_Err|].
  apply open_operations_dir_Err in Ho.
  destruct x; try done; simplify_eq; repeat case_match; by simplify_eq.
Qed.

Lemma wf_bump now r : wf_record r → valid_timestamp now = true → wf_record (bump now r).
Proof.
  intros Hwf Hts. unfold bump. apply wf_set_rev; [by apply wf_set_updated_at|].
  pose proof (wf_rev r Hwf). destruct (Z.eqb_spec (rev r) 0); lia.
Qed.

Lemma bump_facts now r :
  1 <= rev r → rev (bump now r) = rev r + 1 ∧ operation_id (bump now r) = operation_id r ∧
  state (bump now r) = state r ∧ phase (bump now r) = phase r ∧
  record_fingerprint (bump now r) = record_fingerprint r.
Proof.
  intros Hr. unfold bump. destruct (Z.eqb_spec (rev r) 0); [lia|]. by destruct r.
Qed.
End write_facts.

Section write_record.
Context `{PyStdlib} (euid : Z) (pinned : option (Z * Z)).

(** A successful write: the lock and directory checks passed, the revision
    was the expected one, and afterwards the record is the bumped one while
    every other record is as before. *)
Lemma write_record_Ok env r id e w w' r' :
  valid_env env → write_record euid pinned env r id e w = Ok (w', r') →
  wf_record r ∧ r' = bump (we_now env) r ∧ valid_operation_id id = true ∧
  (∀ x, e = Some x → ∃ cur, load euid pinned id w = Ok cur ∧ rev cur = x) ∧
  (operation_id r = id → load euid pinned id w' = Ok r') ∧
  (∀ id', id' ≠ id → load euid pinned id' w' = load euid pinned id' w).
Proof.
  intros Henv Hw. unfold write_record in Hw.
  apply bind_Ok in Hw as ([]&Hok%guard_err_Ok&Hw). apply bind_Ok in Hw as (n&Hn&Hw).
  apply bind_Ok in Hw as ([]&Hid%guard_err_Ok&Hw). apply bind_Ok in Hw as (w1&Hlock&Hw).
  apply bind_Ok in Hw as ([]&Hcas&Hw). apply bind_Ok in Hw as ([]&_&Hw).
  remember (exec_ops _ _) as m eqn:Hm in Hw. injection Hw as <- <-.
  bool_to_prop. apply validate_record_wf in Hok.
  destruct (acquire_record_lock_Ok euid _ _ _ _ Hlock) as (Hr&Ho&Hf).
  pose proof (tmp_file_not_record env id id Henv) as Hne.
  split; [done|]. split; [done|]. split; [done|]. split_and!.
  - intros y ->. destruct (read_via_dfd euid id w1) as [cur|[]] eqn:Hrd; try done.
    apply guard_err_Ok in Hcas. bool_to_prop. exists cur. split; [|done]. apply load_Ok. split_and!; [done|by eexists|].
    rewrite <- Hrd. symmetry. apply read_via_dfd_frame.
    apply Hf, record_file_not_lock.
  - intros <-. apply load_Ok. split_and!; [done| |].
    + exists n. erewrite open_operations_dir_frame; [done|by rewrite <- Hr|by rewrite <- Ho].
    + destruct (bump_facts (we_now env) r (wf_rev r Hok)) as (_&Hidb&_).
      eapply read_via_dfd_parsed; [|by apply wf_bump; [|apply Henv]|done].
      simpl w_files. rewrite Hm, exec_write_ops by done. by rewrite lookup_insert_eq.
  - intros id' Hid'. apply load_frame; [by rewrite <- Hr|by rewrite <- Ho|].
    simpl w_files. rewrite Hm, exec_write_ops by done.
    rewrite lookup_insert_ne by (intros Heq; by apply Hid', record_file_inj).
    rewrite lookup_delete_ne by (by apply tmp_file_not_record).
    apply Hf, record_file_not_lock.
Qed.

(** The directory after a successful write. *)
Lemma write_record_files env r id e w w' r' :
  valid_env env → write_record euid pinned env r id e w = Ok (w', r') →
  ∃ w1, acquire_record_lock euid id (we_ino env 0%nat) w = Ok w1 ∧
    w_files w' = <[record_file id := File (new_file_node euid (we_ino env 1%nat))
                     (Parsed (to_json (bump (we_now env) r)))]>
                   (delete (tmp_file env id) (w_files w1)).
Proof.
  intros Henv Hw. unfold write_record in Hw.
  apply bind_Ok in Hw as ([]&_&Hw). apply bind_Ok in Hw as (n&_&Hw).
  apply bind_Ok in Hw as ([]&_&Hw). apply bind_Ok in Hw as (w1&Hlock&Hw).
  apply bind_Ok in Hw as ([]&_&Hw). apply bind_Ok in Hw as ([]&_&Hw).
  remember (exec_ops _ _) as m eqn:Hm in Hw. injection Hw as <- <-.
  exists w1. split; [done|]. simpl. rewrite Hm.
  by apply exec_write_ops, tmp_file_not_record.
Qed.

(** A failed write changes nothing: [write_record] returns a new directory
    only on success; a lost compare-and-swap is the only conflict. *)
Lemma write_record_conflict env r id e w x :
  valid_env env → write_record euid pinned env r id (Some e) w = Err (OperationConflict x) →
  ∀ cur, load euid pinned id w = Ok cur → rev cur ≠ e.
Proof.
  intros Henv Hw cur Hcur. apply load_Ok in Hcur as (Hid&[n Hn]&Hrd).
  unfold write_record in Hw. destruct (negb (validate_record _)); [done|].
  rewrite Hn, Hid in Hw. simpl in Hw.
  destruct (acquire_record_lock _ _ _ _) as [w1|] eqn:Hl; simpl in Hw.
  2: { injection Hw as ->. by apply acquire_record_lock_Err in Hl as []. }
  destruct (acquire_record_lock_Ok euid _ _ _ _ Hl) as (_&_&Hf).
  rewrite (read_via_dfd_frame euid id w w1) in Hw by (apply Hf, record_file_not_lock).
  rewrite Hrd in Hw. simpl in Hw. destruct (Z.eqb_spec (rev cur) e); [|done].
  simpl in Hw. by case_bool_decide.
Qed.
End write_record.

(** ** Exclusive creation *)

Section create.
Context `{PyStdlib} (euid : Z) (pinned : option (Z * Z)).

Lemma create_existing env r w f w' r' :
  valid_env env → w_files w !! record_file (operation_id r) = Some f →
  create euid pinned env r w = Ok (w', r') →
  load euid pinned (operation_id r) w = Ok r' ∧
  record_fingerprint r' = record_fingerprint r ∧
  w_files w' !! record_file (operation_id r) = Some f.
Proof.
  intros Henv Hf Hc. unfold create in Hc.
  apply bind_Ok in Hc as ([]&Hok%guard_err_Ok&Hc). apply bind_Ok in Hc as (n&Hn&Hc).
  apply bind_Ok in Hc as (w1&Hlock&Hc). apply bind_Ok in Hc as ([]&Htmp%guard_err_Ok&Hc).
  bool_to_prop. apply validate_record_wf in Hok.
  destruct (acquire_record_lock_Ok euid _ _ _ _ Hlock) as (Hr&Ho&Hfr).
  set (id := operation_id r) in *.
  pose proof (tmp_file_not_record env id id Henv) as Hne.
  assert (w_files w1 !! record_file id = Some f) as Hf1.
  { rewrite Hfr; [done|apply record_file_not_lock]. }
  rewrite Hf1 in Hc. remember (set_files _ w1) as w2 eqn:Hw2 in Hc.
  assert (w_files w2 !! record_file id = Some f) as Hf2.
  { subst w2. simpl. rewrite lookup_delete_ne by done.
    rewrite lookup_alter_ne by done. by rewrite lookup_insert_ne. }
  destruct (read_via_dfd euid id w2) as [ex|[]] eqn:Hrd; try done.
  destruct (String.eqb_spec (record_fingerprint ex) (record_fingerprint r)); [|done].
  injection Hc as <- <-. split; [|done]. apply load_Ok. split_and!.
  - by apply (wf_id r).
  - by eexists.
  - rewrite <- Hrd. symmetry. apply read_via_dfd_frame. by rewrite Hf2, Hf.
Qed.

Lemma create_fresh env r w w' r' :
  valid_env env → w_files w !! record_file (operation_id r) = None →
  create euid pinned env r w = Ok (w', r') →
  r' = r ∧ wf_record r ∧ load euid pinned (operation_id r) w' = Ok r.
Proof.
  intros Henv Hf Hc. unfold create in Hc.
  apply bind_Ok in Hc as ([]&Hok%guard_err_Ok&Hc). apply bind_Ok in Hc as (n&Hn&Hc).
  apply bind_Ok in Hc as (w1&Hlock&Hc). apply bind_Ok in Hc as ([]&Htmp%guard_err_Ok&Hc).
  bool_to_prop. apply validate_record_wf in Hok.
  destruct (acquire_record_lock_Ok euid _ _ _ _ Hlock) as (Hr&Ho&Hfr).
  set (id := operation_id r) in *.
  pose proof (tmp_file_not_record env id id Henv) as Hne.
  assert (w_files w1 !! record_file id = None) as Hf1.
  { rewrite Hfr; [done|apply record_file_not_lock]. }
  rewrite Hf1 in Hc. remember (set_files _ w1) as w2 eqn:Hw2 in Hc.
  apply bind_Ok in Hc as (r2&Hl&Hc). injection Hc as <- <-.
  assert (w_files w2 !! record_file id =
    Some (File (new_file_node euid (we_ino env 1%nat)) (Parsed (to_json r)))) as Hf2.
  { subst w2. simpl w_files. unfold exec_ops. simpl fold_left.
    rewrite alter_insert_eq, lookup_insert_eq, lookup_insert_ne, Hf1 by done. simpl.
    rewrite lookup_delete_ne, lookup_insert_eq by done. done. }
  pose proof Hl as (Hid&Ho2&Hrd)%load_Ok.
  rewrite (read_via_dfd_parsed euid id w2 _ r Hf2 Hok eq_refl) in Hrd.
  injection Hrd as <-. split_and!; done.
Qed.

Lemma create_conflict env r w x :
  valid_env env → create euid pinned env r w = Err (OperationIdConflict x) →
  ∃ ex, load euid pinned (operation_id r) w = Ok ex ∧
        record_fingerprint ex ≠ record_fingerprint r.
Proof.
  intros Henv Hc. unfold create in Hc.
  apply bind_Err in Hc as [Hc%guard_err_Err|([]&Hok%guard_err_Ok&Hc)]; [by destruct Hc|].
  apply bind_Err in Hc as [Hc|(n&Hn&Hc)].
  { by apply open_operations_dir_Err in Hc. }
  apply bind_Err in Hc as [Hc|(w1&Hlock&Hc)]; [by apply acquire_record_lock_Err in Hc as []|].
  apply bind_Err in Hc as [Hc%guard_err_Err|([]&Htmp%guard_err_Ok&Hc)]; [by destruct Hc|].
  bool_to_prop. apply validate_record_wf in Hok.
  destruct (acquire_record_lock_Ok euid _ _ _ _ Hlock) as (Hr&Ho&Hfr).
  set (id := operation_id r) in *.
  pose proof (tmp_file_not_record env id id Henv) as Hne.
  destruct (w_files w1 !! record_file id) as [f|] eqn:Hf1.
  - remember (set_files _ w1) as w2 eqn:Hw2 in Hc.
    assert (w_files w2 !! record_file id = w_files w !! record_file id) as Hf2.
    { subst w2. simpl. rewrite lookup_delete_ne, lookup_alter_ne, lookup_insert_ne by done.
      apply Hfr, record_file_not_lock. }
    destruct (read_via_dfd euid id w2) as [ex|[]] eqn:Hrd; try done.
    + destruct (String.eqb_spec (record_fingerprint ex) (record_fingerprint r)); [done|].
      exists ex. split; [|done]. apply load_Ok. split_and!.
      * by apply (wf_id r).
      * by eexists.
      * rewrite <- Hrd. symmetry. by apply read_via_dfd_frame.
    + by apply read_via_dfd_Err in Hrd.
  - apply bind_Err in Hc as [Hl|(?&_&[=])]. by apply load_Err in Hl.
Qed.
End create.
