(* ===== verification/OpConcurrent.v ===== *)
(** * Concurrent mutation of one record: no update is lost

    Any number of processes run [OperationStore.mutate] on the same operation:
    each loads the record, applies its transform, and later writes under the
    record lock with a compare-and-swap on the revision.  The steps interleave
    freely, processes may crash between any two file-system operations of a
    write, and writers of other operations run in between.  The history of a
    record is the list of its committed versions, newest first; the invariant
    is that every version is the previous one with one transform applied to
    it, i.e. the compare-and-swap makes each [mutate] atomic. *)

From Stdlib Require Import Ascii String.
From stdpp Require Import base list strings gmap sorting relations.
From S2P Require Import Prelude PyJson OpRecord OpTransforms OpStore.
Open Scope Z_scope.

(** The transforms the engine passes to [mutate]. *)
Inductive engine_transform : transform → Prop :=
| et_start ts c rb : engine_transform (claim_and_start_transform ts c rb)
| et_checkpoint ts : engine_transform (cancel_checkpoint_transform ts)
| et_unsupported ts c : engine_transform (fail_unsupported_transform ts c)
| et_error ts c ph e st : engine_transform (mark_step_error_transform ts c ph e st)
| et_result ts c ph res : engine_transform (apply_step_result_transform ts c ph res)
| et_request ts : engine_transform (request_cancel_transform ts)
| et_cancel_blocked ts : engine_transform (cancel_blocked_transform ts).

Lemma engine_transform_frame t r r' :
  engine_transform t → t r = Ok (true, r') → same_machine r r'.
Proof.
  intros [] Ht.
  - by apply claim_and_start_effect in Ht as [].
  - by apply cancel_checkpoint_effect in Ht as [].
  - by apply fail_unsupported_effect in Ht as (_&?&_).
  - by apply mark_step_error_effect in Ht as (_&_&?&_).
  - by apply apply_step_result_effect in Ht as (_&?&_).
  - by apply request_cancel_effect in Ht as [].
  - by apply cancel_blocked_effect in Ht as [].
Qed.

Section concurrent.
Context `{PyStdlib} (euid : Z) (id : string).

(** A process between its load and its write holds the record it read and
    the record it wants to write. *)
Record sys := Sys {
  s_world : world;
  s_pending : gmap nat (op_record * op_record);
  s_hist : list op_record }.

Definition pin := option (Z * Z).

Inductive sys_step : relation sys :=
| step_load c (p : pin) t r r' s :
    engine_transform t →
    load euid p id (s_world s) = Ok r → t r = Ok (true, r') →
    sys_step s (Sys (s_world s) (<[c := (r, r')]> (s_pending s)) (s_hist s))
| step_commit c (p : pin) env r r' w' r'' s :
    s_pending s !! c = Some (r, r') → valid_env env →
    write_record euid p env r' id (Some (rev r')) (s_world s) = Ok (w', r'') →
    sys_step s (Sys w' (delete c (s_pending s)) (r'' :: s_hist s))
| step_conflict c r r' s :
    s_pending s !! c = Some (r, r') →
    sys_step s (Sys (s_world s) (delete c (s_pending s)) (s_hist s))
| step_crash c env k r r' w1 s :
    s_pending s !! c = Some (r, r') → valid_env env →
    acquire_record_lock euid id (we_ino env 0%nat) (s_world s) = Ok w1 → (k < 4)%nat →
    sys_step s (Sys (set_files
      (exec_ops (take k (write_ops euid (tmp_file env id) (record_file id)
         (we_ino env 1%nat) (to_json (bump (we_now env) r')))) (w_files w1)) w1)
      (delete c (s_pending s)) (s_hist s))
| step_other (p : pin) env x id' e w' x' s :
    id' ≠ id → valid_env env →
    write_record euid p env x id' e (s_world s) = Ok (w', x') →
    sys_step s (Sys w' (s_pending s) (s_hist s)).

Definition sys_init (s : sys) : Prop :=
  s_pending s = ∅ ∧ ∃ r, s_hist s = [r] ∧ read_via_dfd euid id (s_world s) = Ok r.

(** [new] was committed on top of [old]. *)
Definition committed_on (new old : op_record) : Prop :=
  ∃ t x now, engine_transform t ∧ t old = Ok (true, x) ∧ new = bump now x.

(** Every version sits on the version before it. *)
Fixpoint chain (h : list op_record) : Prop :=
  match h with
  | new :: ((old :: _) as h') => committed_on new old ∧ chain h'
  | _ => True
  end.

Record sys_inv (s : sys) : Prop := {
  inv_current : ∃ r h, s_hist s = r :: h ∧ read_via_dfd euid id (s_world s) = Ok r;
  inv_revs : StronglySorted (λ a b, rev b < rev a) (s_hist s);
  inv_pending : ∀ c r r', s_pending s !! c = Some (r, r') →
    r ∈ s_hist s ∧ ∃ t, engine_transform t ∧ t r = Ok (true, r');
  inv_chain : chain (s_hist s) }.

Lemma sorted_rev_inj h r1 r2 :
  StronglySorted (λ a b, rev b < rev a) h → r1 ∈ h → r2 ∈ h → rev r1 = rev r2 → r1 = r2.
Proof.
  induction 1 as [|a h Hs IH Ha]; [by intros ?%not_elem_of_nil|].
  rewrite Forall_forall in Ha.
  intros [->|H1]%elem_of_cons [->|H2]%elem_of_cons Heq; [done| | |auto].
  - specialize (Ha _ H2). lia.
  - specialize (Ha _ H1). lia.
Qed.

Lemma read_via_dfd_files w w' :
  w_files w' !! record_file id = w_files w !! record_file id →
  read_via_dfd euid id w' = read_via_dfd euid id w.
Proof. apply read_via_dfd_frame. Qed.

Lemma pending_frame s c r r' :
  sys_inv s → s_pending s !! c = Some (r, r') → rev r' = rev r ∧ operation_id r' = operation_id r.
Proof.
  intros Hs Hp. destruct (inv_pending s Hs c r r' Hp) as (_&t&Ht&Htr).
  by destruct (engine_transform_frame t r r' Ht Htr) as (_&?&_&_&_&_&_&_&_&?).
Qed.

(** A successful compare-and-swap writes on top of the very version the
    process had read. *)
Lemma commit_on_current s c p env r r' w' r'' :
  sys_inv s → s_pending s !! c = Some (r, r') → valid_env env →
  write_record euid p env r' id (Some (rev r')) (s_world s) = Ok (w', r'') →
  ∃ h, s_hist s = r :: h ∧ r'' = bump (we_now env) r' ∧ rev r'' = rev r + 1 ∧
       read_via_dfd euid id w' = Ok r''.
Proof.
  intros Hs Hp Henv Hw. destruct (pending_frame s c r r' Hs Hp) as [Hrev Hid].
  destruct (write_record_Ok euid p env r' id _ _ _ _ Henv Hw) as (Hwf&->&_&Hcas&Hload&_).
  destruct (Hcas _ eq_refl) as (cur&Hcur&Heq). apply load_Ok in Hcur as (_&_&Hrd).
  destruct (inv_current s Hs) as (r0&h&Hh&Hrd0).
  rewrite Hrd in Hrd0. injection Hrd0 as ->.
  assert (r0 = r) as ->.
  { apply (sorted_rev_inj (s_hist s)); [by apply inv_revs| | |congruence].
    - rewrite Hh. by left.
    - by destruct (inv_pending s Hs c r r' Hp). }
  exists h. split; [done|]. split; [done|].
  destruct (bump_facts (we_now env) r' (wf_rev r' Hwf)) as (Hb&_). split; [lia|].
  assert (operation_id r' = id) as Hid'.
  { rewrite Hid. by destruct (read_via_dfd_wf _ _ _ _ Hrd). }
  by apply Hload, load_Ok in Hid' as (_&_&?).
Qed.

Lemma sys_inv_init s : sys_init s → sys_inv s.
Proof.
  intros (Hp&r&Hh&Hr). split.
  - by exists r, [].
  - rewrite Hh. repeat constructor.
  - intros c ?? Hc. rewrite Hp in Hc. by apply lookup_empty_Some in Hc.
  - by rewrite Hh.
Qed.

Lemma sys_inv_step s s' : sys_inv s → sys_step s s' → sys_inv s'.
Proof.
  intros Hs Hstep. pose proof Hs as [(r0&h&Hh&Hr0) Hrevs Hpend Hch].
  destruct Hstep as [c p t r r' s Ht Hl Htr|c p env r r' w' r'' s Hp Henv Hw
    |c r r' s Hp|c env k r r' w1 s Hp Henv Hlock Hk|p env x id' e w' x' s Hid Henv Hw];
    split; simpl in *; try done.
  - by exists r0, h.
  - intros c' q q' [[<- [= <- <-]]|[_ ?]]%lookup_insert_Some; [|by eauto].
    split; [|by eauto]. apply load_Ok in Hl as (_&_&Hl). rewrite Hl in Hr0.
    injection Hr0 as ->. rewrite Hh. by left.
  - destruct (commit_on_current s c p env r r' w' r'' Hs Hp Henv Hw) as (_&_&_&_&?).
    by eexists _, _.
  - destruct (commit_on_current s c p env r r' w' r'' Hs Hp Henv Hw) as (h'&Hh'&_&Hrev&_).
    constructor; [done|]. rewrite Hh' in *. apply StronglySorted_inv in Hrevs as [_ Hf].
    constructor; [lia|]. eapply Forall_impl; [exact Hf|]. simpl. lia.
  - intros c' q q' [_ Hc]%lookup_delete_Some. destruct (Hpend _ _ _ Hc) as [Hin ?].
    split; [by right|done].
  - destruct (commit_on_current s c p env r r' w' r'' Hs Hp Henv Hw) as (h'&Hh'&->&_&_).
    rewrite Hh' in *. split; [|done]. destruct (Hpend _ _ _ Hp) as (_&t&?&?). by exists t, r', (we_now env).
  - by exists r0, h.
  - intros c' q q' [_ Hc]%lookup_delete_Some. eauto.
  - exists r0, h. split; [done|]. rewrite <- Hr0. apply read_via_dfd_files. simpl.
    destruct (acquire_record_lock_Ok euid _ _ _ _ Hlock) as (_&_&Hf).
    rewrite <- (Hf (record_file id)) by apply record_file_not_lock.
    pose proof (tmp_file_not_record env id id Henv) as Hne.
    clear -Hk Hne. unfold exec_ops, write_ops.
    do 4 (destruct k as [|k]; [simpl; by simplify_map_eq|]). lia.
  - intros c' q q' [_ Hc]%lookup_delete_Some. eauto.
  - exists r0, h. split; [done|]. rewrite <- Hr0.
    unfold write_record in Hw. apply bind_Ok in Hw as ([]&_&Hw).
    apply bind_Ok in Hw as (n&_&Hw). apply bind_Ok in Hw as ([]&_&Hw).
    apply bind_Ok in Hw as (w1&Hlock&Hw). apply bind_Ok in Hw as ([]&_&Hw).
    apply bind_Ok in Hw as ([]&_&Hw). remember (exec_ops _ _) as m eqn:Hm in Hw.
    injection Hw as <- _. apply read_via_dfd_files. simpl.
    rewrite Hm, exec_write_ops by (by apply tmp_file_not_record).
    rewrite lookup_insert_ne by (intros Heq; by apply Hid, record_file_inj).
    rewrite lookup_delete_ne by (by apply tmp_file_not_record).
    destruct (acquire_record_lock_Ok euid _ _ _ _ Hlock) as (_&_&Hf).
    apply Hf, record_file_not_lock.
Qed.

Lemma sys_inv_reachable s : reachable sys_init sys_step s → sys_inv s.
Proof.
  apply reachable_invariant; [apply sys_inv_init|]. intros. by eapply sys_inv_step.
Qed.

(** ** Executable interleavings

    One command per kind of step; a command that does not apply has no
    result.  [CmdRetry] is a writer whose compare-and-swap is refused. *)

Inductive sys_command :=
| CmdLoad (c : nat) (t : transform)
| CmdCommit (c : nat) (env : write_env)
| CmdRetry (c : nat) (env : write_env)
| CmdCrash (c : nat) (env : write_env) (k : nat).

Definition valid_command (k : sys_command) : Prop :=
  match k with
  | CmdLoad _ t => engine_transform t
  | CmdCommit _ env | CmdRetry _ env | CmdCrash _ env _ => valid_env env
  end.

Definition sys_run1 (p : pin) (k : sys_command) (s : sys) : option sys :=
  match k with
  | CmdLoad c t =>
      match load euid p id (s_world s) with
      | Ok r => match t r with
                | Ok (true, r') => Some (Sys (s_world s) (<[c := (r, r')]> (s_pending s)) (s_hist s))
                | _ => None
                end
      | Err _ => None
      end
  | CmdCommit c env =>
      '(_, r') ← s_pending s !! c;
      match write_record euid p env r' id (Some (rev r')) (s_world s) with
      | Ok (w', r'') => Some (Sys w' (delete c (s_pending s)) (r'' :: s_hist s))
      | Err _ => None
      end
  | CmdRetry c env =>
      '(_, r') ← s_pending s !! c;
      match write_record euid p env r' id (Some (rev r')) (s_world s) with
      | Err (OperationConflict _) => Some (Sys (s_world s) (delete c (s_pending s)) (s_hist s))
      | _ => None
      end
  | CmdCrash c env k =>
      '(_, r') ← s_pending s !! c;
      match acquire_record_lock euid id (we_ino env 0%nat) (s_world s) with
      | Ok w1 =>
          if (k <? 4)%nat
          then Some (Sys (set_files
                 (exec_ops (take k (write_ops euid (tmp_file env id) (record_file id)
                    (we_ino env 1%nat) (to_json (bump (we_now env) r')))) (w_files w1)) w1)
                 (delete c (s_pending s)) (s_hist s))
          else None
      | Err _ => None
      end
  end.

Fixpoint sys_run (p : pin) (ks : list sys_command) (s : sys) : option sys :=
  match ks with
  | [] => Some s
  | k :: ks => s' ← sys_run1 p k s; sys_run p ks s'
  end.

Lemma sys_run1_sound p k s s' : valid_command k → sys_run1 p k s = Some s' → sys_step s s'.
Proof.
  destruct k as [c t|c env|c env|c env k]; simpl; intros Hv.
  - destruct (load _ _ _ _) as [r|] eqn:Hl; [|done].
    destruct (t r) as [[[] r']|] eqn:Ht; try done. intros [= <-]. by eapply step_load.
  - intros ([r r']&Hp&Hw)%bind_Some.
    destruct (write_record _ _ _ _ _ _ _) as [[w' r'']|] eqn:E; [|done].
    injection Hw as <-. by eapply step_commit.
  - intros ([r r']&Hp&Hw)%bind_Some.
    destruct (write_record _ _ _ _ _ _ _) as [|[]] eqn:E; try done.
    injection Hw as <-. by eapply step_conflict.
  - intros ([r r']&Hp&Hw)%bind_Some.
    destruct (acquire_record_lock _ _ _ _) as [w1|] eqn:E; [|done].
    destruct (Nat.ltb_spec k 4); [|done]. injection Hw as <-. by eapply step_crash.
Qed.

Lemma sys_run_sound p ks s s' :
  Forall valid_command ks → sys_run p ks s = Some s' → rtc sys_step s s'.
Proof.
  intros Hv. revert s. induction Hv as [|k ks Hk _ IH]; intros s; simpl; [by intros [= ->]|].
  intros (z&Hz&?)%bind_Some. eapply rtc_l; [by eapply sys_run1_sound|auto].
Qed.
End concurrent.
