(* ===== verification/OpRunner.v ===== *)
(** * The step executor of [src/daemon/operations.py]

    [try_run_pending_steps] as a transition system: one executor at a time
    holds the run lock and loops (load, dispatch, one mutation or one step),
    while cancel requests from other processes land between any two of its
    accesses and the executor may crash at any point and be replaced.  The
    ghost component of a configuration is the trace of the phases whose step
    functions have run, which is what the safety statements are about.  Each
    [mutate] is one atomic step ([OpConcurrent]), and a step function may
    return anything. *)

From Stdlib Require Import Ascii String.
From stdpp Require Import base list strings relations.
From S2P Require Import Prelude PyJson OpRecord OpTransforms Demo OpStore.
Open Scope Z_scope.

(** ** Dispatch *)

Inductive runner_action :=
| ADone | ACancel | AStart | AUnsupported | AStep (ph : string).

(** The decisions of the loop body on a freshly loaded record.  [registered]:
    the registry has an executor for the type; [exhausted]: [max_steps] step
    executions have been made. *)
Definition runner_dispatch (retry_blocked registered exhausted : bool) (r : op_record)
    : runner_action :=
  if is_terminal (state r) then ADone
  else if cancel_requested r && is_cancelable r then ACancel
  else if bool_decide (state r = Blocked) && negb retry_blocked then ADone
  else if bool_decide (state r = Queued) || bool_decide (state r = Blocked) then AStart
  else if exhausted then ADone
  else if negb registered then AUnsupported
  else AStep (phase r).

Inductive step_outcome :=
| StepReturns (res : step_result)
| StepBlocks (e : op_error)
| StepFails (e : op_error).

Definition outcome_transform (ts : clock) (c : claim) (ph : string) (o : step_outcome)
    : transform :=
  match o with
  | StepReturns res => apply_step_result_transform ts c ph res
  | StepBlocks e => mark_step_error_transform ts c ph e Blocked
  | StepFails e => mark_step_error_transform ts c ph e Failed
  end.

(** ** Configurations *)

Inductive pc :=
| Idle
| Top (c : claim) (rb : bool)
| PCancel (c : claim) (rb : bool)
| PStart (c : claim) (rb : bool)
| PUnsupported (c : claim)
| PStep (c : claim) (rb : bool) (ph : string)
| PApply (c : claim) (rb : bool) (ph : string) (o : step_outcome).

Record config := Config { c_rec : op_record; c_pc : pc; c_trace : list string }.

Definition pc_of_action (c : claim) (rb : bool) (a : runner_action) : pc :=
  match a with
  | ADone => Idle
  | ACancel => PCancel c rb
  | AStart => PStart c rb
  | AUnsupported => PUnsupported c
  | AStep ph => PStep c rb ph
  end.

(** After the mutation that records a step error the loop goes on only when a
    pending cancel kept the operation running. *)
Definition pc_after_outcome (c : claim) (rb : bool) (o : step_outcome) (r : op_record) : pc :=
  match o with
  | StepReturns _ => Top c rb
  | _ => if bool_decide (state r = Running) then Top c rb else Idle
  end.

Section runner.
Context `{PyStdlib}.

(** [mutate] with transform [t] takes the stored record [r] to [r'] and
    returns [ret]: written only when the transform reports a change, and only
    if the validator accepts the result. *)
Inductive mutated (t : transform) (r r' ret : op_record) : Prop :=
| mutated_same : t r = Ok (false, ret) → r' = r → mutated t r r' ret
| mutated_written now x :
    t r = Ok (true, x) → wf_record x → valid_timestamp now = true →
    r' = bump now x → ret = r' → mutated t r r' ret.

Inductive run_step : relation config :=
| run_acquire c rb r tr : run_step (Config r Idle tr) (Config r (Top c rb) tr)
| run_dispatch c rb registered exhausted r tr :
    run_step (Config r (Top c rb) tr)
      (Config r (pc_of_action c rb (runner_dispatch rb registered exhausted r)) tr)
| run_cancel c rb ts r r' ret tr :
    mutated (cancel_checkpoint_transform ts) r r' ret →
    run_step (Config r (PCancel c rb) tr)
      (Config r' (if bool_decide (state ret = Cancelled) then Idle else Top c rb) tr)
| run_start c rb ts r r' ret tr :
    mutated (claim_and_start_transform ts c rb) r r' ret →
    run_step (Config r (PStart c rb) tr) (Config r' (Top c rb) tr)
| run_unsupported c ts r r' ret tr :
    mutated (fail_unsupported_transform ts c) r r' ret →
    run_step (Config r (PUnsupported c) tr) (Config r' Idle tr)
| run_exec c rb ph o r tr :
    run_step (Config r (PStep c rb ph) tr) (Config r (PApply c rb ph o) (ph :: tr))
| run_apply c rb ph o ts r r' ret tr :
    mutated (outcome_transform ts c ph o) r r' ret →
    run_step (Config r (PApply c rb ph o) tr) (Config r' (pc_after_outcome c rb o ret) tr)
| run_crash p r tr : run_step (Config r p tr) (Config r Idle tr)
| run_crash_in_step c rb ph r tr :
    run_step (Config r (PStep c rb ph) tr) (Config r Idle (ph :: tr))
| run_request ts p r r' ret tr :
    mutated (request_cancel_transform ts) r r' ret →
    run_step (Config r p tr) (Config r' p tr)
| run_cancel_blocked ts p r r' ret tr :
    cancel_phase_set r = None → mutated (cancel_blocked_transform ts) r r' ret →
    run_step (Config r p tr) (Config r' p tr).

(** A fresh operation, as [new_operation] makes it: queued on its first
    phase, with no cancel request and no executor. *)
Definition run_init (x : config) : Prop :=
  wf_record (c_rec x) ∧ state (c_rec x) = Queued ∧
  cancel_requested (c_rec x) = false ∧
  head (phases (c_rec x)) = Some (phase (c_rec x)) ∧
  c_pc x = Idle ∧ c_trace x = [].

(** The side condition of this file's guarantees: the machine does not start
    at its irreversible phase. [new_operation] does not check it; every
    operation type of the program satisfies it, and without it the guarantees
    fail ([irreversible_first_phase_race] below). *)
Definition guarded_init (x : config) : Prop :=
  run_init x ∧ irreversible_phase (c_rec x) ≠ phase (c_rec x).

(** ** Positions in the phase machine *)

Definition at_or_before (r : op_record) (p q : string) : Prop :=
  ∃ i j, list_index p (phases r) = Some i ∧ list_index q (phases r) = Some j ∧ (i ≤ j)%nat.
Definition strictly_before (r : op_record) (p q : string) : Prop :=
  ∃ i j, list_index p (phases r) = Some i ∧ list_index q (phases r) = Some j ∧ (i < j)%nat.

Lemma strictly_before_at_or_before r p q : strictly_before r p q → at_or_before r p q.
Proof. intros (i&j&?&?&?). exists i, j. split_and!; [done..|lia]. Qed.

Lemma at_or_before_trans r p q s : at_or_before r p q → at_or_before r q s → at_or_before r p s.
Proof.
  intros (i&j&?&?&?) (j'&k&?&?&?). exists i, k. split_and!; [done..|]. simplify_eq. lia.
Qed.

Lemma at_or_before_strict r p q s :
  at_or_before r p q → strictly_before r q s → strictly_before r p s.
Proof.
  intros (i&j&?&?&?) (j'&k&?&?&?). exists i, k. split_and!; [done..|]. simplify_eq. lia.
Qed.

Lemma strictly_before_irrefl r p : ¬ strictly_before r p p.
Proof. intros (i&j&?&?&?). simplify_eq. lia. Qed.

Lemma at_or_before_refl r p : p ∈ phases r → at_or_before r p p.
Proof. intros (i&Hi)%list_index_elem_of. by exists i, i. Qed.

Lemma positions_frame r r' p q :
  phases r' = phases r →
  (at_or_before r' p q ↔ at_or_before r p q) ∧ (strictly_before r' p q ↔ strictly_before r p q).
Proof. unfold at_or_before, strictly_before. by intros ->. Qed.

Lemma is_cancelable_before r :
  is_cancelable r = true → state r ≠ Queued →
  strictly_before r (phase r) (irreversible_phase r).
Proof.
  unfold is_cancelable. intros Hc Hq. destruct (is_terminal _); [done|].
  rewrite bool_decide_eq_false_2 in Hc by done.
  destruct (list_index (phase r) _) as [i|] eqn:Ei; [|done].
  destruct (list_index (irreversible_phase r) _) as [j|] eqn:Ej; [|done].
  bool_to_prop. by exists i, j.
Qed.

Lemma before_is_cancelable r :
  strictly_before r (phase r) (irreversible_phase r) → is_terminal (state r) = false →
  is_cancelable r = true.
Proof.
  intros (i&j&Hi&Hj&Hlt) Ht. unfold is_cancelable. rewrite Ht, Hi, Hj.
  case_bool_decide; [done|]. by apply Nat.ltb_lt.
Qed.

Lemma irreversible_before_cancel_phase r c :
  wf_record r → cancel_phase r = Some c → strictly_before r (irreversible_phase r) c.
Proof.
  intros Hwf Hc. destruct (wf_cancel_phase r Hwf c Hc) as [_ Hb].
  unfold cancel_after_irreversible in Hb.
  destruct (list_index (irreversible_phase r) _) as [i|] eqn:Ei; [|done].
  destruct (list_index c _) as [j|] eqn:Ej; [|done]. bool_to_prop. by exists i, j.
Qed.

Lemma wf_phases_NoDup r : wf_record r → NoDup (phases r).
Proof. intros Hwf. pose proof (wf_phases r Hwf) as Hp. unfold valid_phases in Hp. by bool_to_prop. Qed.

Lemma cancel_phase_set_eq r : wf_record r → cancel_phase_set r = cancel_phase r.
Proof.
  intros Hwf. unfold cancel_phase_set. destruct (cancel_phase r) as [[|]|] eqn:E; try done.
  destruct (wf_cancel_phase r Hwf _ E) as [Hin _].
  pose proof (wf_phases r Hwf) as Hp. unfold valid_phases in Hp. bool_to_prop.
  match goal with Hc : Forall _ (phases r) |- _ => rewrite Forall_forall in Hc; apply Hc in Hin end.
  apply (bool_decide_eq_true_2 (_ ∈ _)) in Hin. by vm_compute in Hin.
Qed.

(** ** The invariant *)

Definition executing (p : pc) : option string :=
  match p with PStep _ _ ph | PApply _ _ ph _ => Some ph | _ => None end.

Record run_inv (x : config) : Prop := {
  ri_wf : wf_record (c_rec x);
  ri_first : head (phases (c_rec x)) ≠ Some (irreversible_phase (c_rec x));
  ri_queued : state (c_rec x) = Queued →
    head (phases (c_rec x)) = Some (phase (c_rec x)) ∧ c_trace x = [] ∧
    executing (c_pc x) = None;
  ri_exec : ∀ ph, executing (c_pc x) = Some ph →
    state (c_rec x) = Running ∧ phase (c_rec x) = ph;
  ri_unsupported : ∀ c, c_pc x = PUnsupported c → state (c_rec x) = Running;
  ri_applied : ∀ c rb ph o, c_pc x = PApply c rb ph o → ph ∈ c_trace x;
  ri_cancel : cancel_requested (c_rec x) = true → is_terminal (state (c_rec x)) = false →
    is_cancelable (c_rec x) = true ∨ cancel_phase (c_rec x) = Some (phase (c_rec x));
  ri_trace : Forall (λ p, at_or_before (c_rec x) p (phase (c_rec x))) (c_trace x);
  ri_safe : cancel_requested (c_rec x) = true ∨ state (c_rec x) = Cancelled →
    Forall (λ p, strictly_before (c_rec x) p (irreversible_phase (c_rec x)) ∨
                 cancel_phase (c_rec x) = Some p) (c_trace x);
  ri_done : cancel_requested (c_rec x) = false → state (c_rec x) ≠ Cancelled →
    ∀ p, strictly_before (c_rec x) p (phase (c_rec x)) → p ∈ c_trace x;
  ri_succeeded : state (c_rec x) = Succeeded → ∀ p, p ∈ phases (c_rec x) → p ∈ c_trace x;
  ri_compensated : state (c_rec x) = Cancelled →
    ∀ c, cancel_phase (c_rec x) = Some c → c ∈ c_trace x }.

(** Everything the invariant reads of a record. *)
Definition same_view (r r' : op_record) : Prop :=
  phases r' = phases r ∧ irreversible_phase r' = irreversible_phase r ∧
  cancel_phase r' = cancel_phase r.

Lemma same_machine_view r r' : same_machine r r' → same_view r r'.
Proof. intros (_&_&_&?&?&?&_). by split_and!. Qed.

Lemma same_view_trans r1 r2 r3 : same_view r1 r2 → same_view r2 r3 → same_view r1 r3.
Proof. unfold same_view. naive_solver congruence. Qed.

Lemma bump_view now r :
  same_view r (bump now r) ∧ state (bump now r) = state r ∧ phase (bump now r) = phase r ∧
  cancel_requested (bump now r) = cancel_requested r.
Proof. unfold bump. destruct r; simpl. by split_and!. Qed.

(** A written mutation: the stored record is the transform's, up to the
    revision and the write time. *)
Lemma mutated_inv t r r' ret :
  mutated t r r' ret →
  (r' = r ∧ t r = Ok (false, ret)) ∨
  (∃ x, t r = Ok (true, x) ∧ wf_record r' ∧ ret = r' ∧ same_view x r' ∧
        state r' = state x ∧ phase r' = phase x ∧ cancel_requested r' = cancel_requested x).
Proof.
  intros [|now x Hx Hwf Hts -> ->]; [by left|right]. exists x.
  destruct (bump_view now x) as (?&?&?&?).
  split_and!; try done. by apply wf_bump.
Qed.

Lemma run_inv_pc r p p' tr :
  run_inv (Config r p tr) → executing p' = None → (∀ c, p' ≠ PUnsupported c) →
  run_inv (Config r p' tr).
Proof.
  intros [] He Hu. split; simpl in *; try done.
  - naive_solver.
  - intros ph Hp. congruence.
  - intros c Hc. by apply Hu in Hc.
  - intros c rb ph o ->. done.
Qed.

(** The invariant of a record that stays in its phase and its state. *)
Lemma run_inv_held r r' p p' tr :
  run_inv (Config r p tr) → wf_record r' → same_view r r' →
  state r' = state r → phase r' = phase r → cancel_requested r' = cancel_requested r →
  executing p' = None → (∀ c, p' ≠ PUnsupported c) → run_inv (Config r' p' tr).
Proof.
  intros Hi Hwf (Hps&Hir&Hcp) Hst Hph Hcr He Hu.
  apply (run_inv_pc _ _ p') in Hi; [|done..].
  assert (is_cancelable r' = is_cancelable r) as Hcan.
  { unfold is_cancelable. by rewrite Hst, Hph, Hps, Hir. }
  destruct Hi. split; unfold at_or_before, strictly_before in *; simpl in *;
    rewrite ?Hst, ?Hph, ?Hps, ?Hir, ?Hcp, ?Hcr, ?Hcan; done.
Qed.

Lemma run_inv_init x : guarded_init x → run_inv x.
Proof.
  destruct x as [r p tr]. intros [(Hwf&Hq&Hc&Hh&Hp&Ht) Hne]. simpl in *. subst.
  split; simpl; rewrite ?Hq, ?Hc; try done.
  - rewrite Hh. congruence.
  - intros _ _ q (i&j&Hi&Hj&Hlt).
    rewrite (list_index_NoDup (phase r) (phases r) 0) in Hj; [simplify_eq; lia| |].
    + by apply wf_phases_NoDup.
    + destruct (phases r); simplify_eq/=. done.
Qed.

(** A queued operation sits on its first phase, before the irreversible one. *)
Lemma first_phase_before r p tr :
  run_inv (Config r p tr) → head (phases r) = Some (phase r) →
  strictly_before r (phase r) (irreversible_phase r).
Proof.
  intros Hi Hh. pose proof (ri_wf _ Hi) as Hwf. pose proof (ri_first _ Hi) as Hf. simpl in *.
  destruct (list_index_elem_of _ _ (wf_irreversible r Hwf)) as [j Hj].
  exists 0%nat, j. split_and!; [|done|].
  - apply list_index_NoDup; [by apply wf_phases_NoDup|].
    destruct (phases r); simplify_eq/=. done.
  - destruct j; [|lia]. apply list_index_lookup in Hj.
    destruct (phases r); simplify_eq/=.
Qed.

(** A cancelable operation has only run phases before the irreversible one. *)
Lemma cancelable_trace r p tr :
  run_inv (Config r p tr) → is_cancelable r = true →
  Forall (λ q, strictly_before r q (irreversible_phase r)) tr.
Proof.
  intros Hi Hc. destruct (decide (state r = Queued)) as [Hq|Hq].
  - destruct (ri_queued _ Hi Hq) as (_&Ht&_). simpl in Ht. by subst.
  - pose proof (is_cancelable_before r Hc Hq) as Hb.
    eapply Forall_impl; [apply (ri_trace _ Hi)|]. simpl. eauto using at_or_before_strict.
Qed.

Lemma positions_view r r' p q :
  same_view r r' →
  (at_or_before r' p q ↔ at_or_before r p q) ∧ (strictly_before r' p q ↔ strictly_before r p q).
Proof. intros (Hps&_). by apply positions_frame. Qed.

(** The operation turns [Cancelled] in place, without a compensation phase. *)
Lemma run_inv_cancelled_in_place r r' p p' tr :
  run_inv (Config r p tr) → wf_record r' → same_view r r' →
  is_cancelable r = true → cancel_phase_set r = None →
  state r' = Cancelled → phase r' = phase r → executing p' = None →
  (∀ c, p' ≠ PUnsupported c) → run_inv (Config r' p' tr).
Proof.
  intros Hi Hwf Hv Hcan Hset Hst Hph He Hu.
  pose proof (cancelable_trace r p tr Hi Hcan) as Hsafe.
  pose proof Hv as (Hps&Hir&Hcp).
  assert (cancel_phase r' = None) as Hnone.
  { rewrite Hcp, <- cancel_phase_set_eq; [done|apply (ri_wf _ Hi)]. }
  split; simpl; rewrite ?Hst, ?Hph; try done.
  - rewrite Hps, Hir. apply (ri_first _ Hi).
  - congruence.
  - intros c ->. by destruct (Hu c).
  - by intros c rb ph o ->.
  - eapply Forall_impl; [apply (ri_trace _ Hi)|]. intros q.
    by apply (proj1 (positions_view r r' q _ Hv)).
  - intros _. eapply Forall_impl; [exact Hsafe|]. intros q Hq. left. rewrite Hir.
    by apply (proj2 (positions_view r r' q _ Hv)).
  - intros _ c Hc. congruence.
Qed.

(** A pending cancel moves the operation into its compensation phase. *)
Lemma run_inv_jump r r' p p' tr c :
  run_inv (Config r p tr) → wf_record r' → same_view r r' →
  is_cancelable r = true → cancel_phase r = Some c →
  state r' = Running → phase r' = c → cancel_requested r' = true →
  executing p' = None → (∀ c, p' ≠ PUnsupported c) → run_inv (Config r' p' tr).
Proof.
  intros Hi Hwf Hv Hcan Hc Hst Hph Hcr He Hu.
  pose proof (cancelable_trace r p tr Hi Hcan) as Hsafe.
  pose proof (irreversible_before_cancel_phase r c (ri_wf _ Hi) Hc) as Hic.
  pose proof Hv as (Hps&Hir&Hcp).
  split; simpl; rewrite ?Hst, ?Hph, ?Hcr; try done.
  - rewrite Hps, Hir. apply (ri_first _ Hi).
  - congruence.
  - by intros ?? ph o ->.
  - intros _ _. right. congruence.
  - eapply Forall_impl; [exact Hsafe|]. intros q Hq. apply (proj1 (positions_view r r' q c Hv)).
    apply strictly_before_at_or_before. eapply at_or_before_strict; [|exact Hic].
    by apply strictly_before_at_or_before.
  - intros _. eapply Forall_impl; [exact Hsafe|]. intros q Hq. left. rewrite Hir.
    by apply (proj2 (positions_view r r' q _ Hv)).
Qed.

(** A step failed or blocked the operation in its current phase. *)
Lemma run_inv_stopped r r' p p' tr st :
  run_inv (Config r p tr) → wf_record r' → same_view r r' →
  state r = Running → state r' = st → st = Blocked ∨ st = Failed →
  phase r' = phase r → cancel_requested r' = cancel_requested r →
  executing p' = None → (∀ c, p' ≠ PUnsupported c) → run_inv (Config r' p' tr).
Proof.
  intros Hi Hwf Hv Hrun Hst Hbf Hph Hcr He Hu. pose proof Hv as (Hps&Hir&Hcp).
  assert (state r' ≠ Queued ∧ state r' ≠ Cancelled ∧ state r' ≠ Succeeded ∧ state r' ≠ Running)
    as (Hq&Hnc&Hns&Hnr) by (rewrite Hst; by destruct Hbf as [->| ->]).
  pose proof (positions_view r r') as Hpos.
  destruct Hi as [? Hf Hqu Hex Hun Hap Hca Htr Hsa Hdo Hsu Hco]. simpl in *.
  split; simpl; try done.
  - by rewrite Hps, Hir.
  - congruence.
  - intros c ->. by destruct (Hu c).
  - by intros ?? ph o ->.
  - rewrite Hcr. intros Hc Hnt. destruct Hca as [Hb|Hb]; [done|by rewrite Hrun| |].
    + left. apply before_is_cancelable; [|done].
      rewrite Hph, Hir. apply Hpos; [done|]. apply is_cancelable_before; [done|]. by rewrite Hrun.
    + right. congruence.
  - rewrite Hph. eapply Forall_impl; [exact Htr|]. intros q. by apply (proj1 (Hpos q _ Hv)).
  - intros [Hc|?]; [|done]. rewrite Hcr in Hc. eapply Forall_impl; [apply Hsa; by left|].
    intros q. rewrite Hir, Hcp. intros [|]; [left|by right]. by apply (proj2 (Hpos q _ Hv)).
  - rewrite Hcr, Hph. intros Hc _ q Hbq. apply Hdo; [done|by rewrite Hrun|].
    by apply (proj2 (Hpos q _ Hv)).
Qed.

(** A cancel request is recorded; nothing else moves. *)
Lemma run_inv_requested r r' p tr :
  run_inv (Config r p tr) → wf_record r' → same_view r r' →
  is_cancelable r = true → cancel_requested r = false →
  state r' = state r → phase r' = phase r → cancel_requested r' = true →
  run_inv (Config r' p tr).
Proof.
  intros Hi Hwf Hv Hcan Hcr Hst Hph Hcr'. pose proof Hv as (Hps&Hir&Hcp).
  pose proof (cancelable_trace r p tr Hi Hcan) as Hsafe.
  assert (is_cancelable r' = true) as Hcan'.
  { unfold is_cancelable in *. by rewrite Hst, Hph, Hps, Hir. }
  destruct Hi as [? Hf Hqu Hex Hun Hap Hca Htr Hsa Hdo Hsu Hco]. simpl in *.
  split; simpl; unfold at_or_before, strictly_before in *;
    rewrite ?Hst, ?Hph, ?Hps, ?Hir, ?Hcp, ?Hcr'; try done.
  - auto.
  - intros _. eapply Forall_impl; [exact Hsafe|]. simpl. by left.
Qed.

(** The operation is claimed (or reclaimed, when blocked). *)
Lemma run_inv_started r r' p p' tr :
  run_inv (Config r p tr) → wf_record r' → same_view r r' →
  state r = Queued ∨ state r = Blocked → state r' = Running →
  phase r' = phase r → cancel_requested r' = cancel_requested r →
  executing p' = None → (∀ c, p' ≠ PUnsupported c) → run_inv (Config r' p' tr).
Proof.
  intros Hi Hwf Hv Hqb Hst Hph Hcr He Hu. pose proof Hv as (Hps&Hir&Hcp).
  assert (is_terminal (state r) = false ∧ state r ≠ Cancelled) as [Hnt Hnc]
    by (by destruct Hqb as [-> | ->]).
  assert (is_cancelable r = true → strictly_before r (phase r) (irreversible_phase r)) as Hcb.
  { intros Hc. destruct (decide (state r = Queued)) as [Hq|Hq].
    - eapply first_phase_before; [done|]. by apply (ri_queued _ Hi).
    - by apply is_cancelable_before. }
  pose proof (positions_view r r') as Hpos.
  destruct Hi as [? Hf Hqu Hex Hun Hap Hca Htr Hsa Hdo Hsu Hco]. simpl in *.
  split; simpl; rewrite ?Hst, ?Hph, ?Hcr; try done.
  - by rewrite Hps, Hir.
  - congruence.
  - by intros ?? ph o ->.
  - intros Hc _. destruct Hca as [Hb|Hb]; [done|done| |].
    + left. apply before_is_cancelable; [|by rewrite Hst].
      rewrite Hph, Hir. apply Hpos; auto.
    + right. congruence.
  - eapply Forall_impl; [exact Htr|]. intros q. by apply (proj1 (Hpos q _ Hv)).
  - intros [Hc|?]; [|done]. eapply Forall_impl; [apply Hsa; by left|].
    intros q. rewrite Hir, Hcp. intros [|]; [left|by right]. by apply (proj2 (Hpos q _ Hv)).
  - intros Hc _ q Hbq. apply Hdo; [done|done|]. by apply (proj2 (Hpos q _ Hv)).
Qed.

(** The compensation phase completed. *)
Lemma run_inv_compensated r r' p p' tr :
  run_inv (Config r p tr) → wf_record r' → same_view r r' →
  state r = Running → cancel_requested r = true → cancel_phase r = Some (phase r) →
  phase r ∈ tr → cancel_requested r' = true →
  state r' = Cancelled → phase r' = phase r →
  executing p' = None → (∀ c, p' ≠ PUnsupported c) → run_inv (Config r' p' tr).
Proof.
  intros Hi Hwf Hv Hrun Hcr Hcp' Hin Hcr' Hst Hph He Hu. pose proof Hv as (Hps&Hir&Hcp).
  pose proof (positions_view r r') as Hpos.
  destruct Hi as [? Hf Hqu Hex Hun Hap Hca Htr Hsa Hdo Hsu Hco]. simpl in *.
  split; simpl; rewrite ?Hst, ?Hph, ?Hcr'; try done.
  - by rewrite Hps, Hir.
  - congruence.
  - intros c ->. by destruct (Hu c).
  - by intros ?? ph o ->.
  - eapply Forall_impl; [exact Htr|]. intros q. by apply (proj1 (Hpos q _ Hv)).
  - intros _. eapply Forall_impl; [apply Hsa; by left|].
    intros q. rewrite Hir, Hcp. intros [|]; [left|by right]. by apply (proj2 (Hpos q _ Hv)).
  - intros _ c. rewrite Hcp, Hcp'. by intros [= <-].
Qed.

Lemma at_or_before_split r p q :
  at_or_before r p q → p = q ∨ strictly_before r p q.
Proof.
  intros (i&j&Hi&Hj&Hle). destruct (decide (i = j)) as [->|].
  - left. apply list_index_lookup in Hi, Hj. congruence.
  - right. exists i, j. split_and!; [done..|lia].
Qed.

Lemma at_or_before_last r p q :
  NoDup (phases r) → last (phases r) = Some q → p ∈ phases r → at_or_before r p q.
Proof.
  intros Hnd Hl (i&Hi)%list_index_elem_of. rewrite last_lookup in Hl.
  exists i, (Nat.pred (length (phases r))). split_and!; [done| |].
  - by apply list_index_NoDup.
  - apply list_index_lt in Hi. lia.
Qed.

(** Without a pending cancel an executed phase completes: everything up to
    and including it has run. *)
Lemma done_upto r p tr q :
  run_inv (Config r p tr) → state r = Running → cancel_requested r = false →
  phase r ∈ tr → at_or_before r q (phase r) → q ∈ tr.
Proof.
  intros Hi Hrun Hcr Hin [->|Hb]%at_or_before_split; [done|].
  apply (ri_done _ Hi); simpl; [done|by rewrite Hrun|done].
Qed.

(** The last phase completed. *)
Lemma run_inv_succeeded r r' p p' tr :
  run_inv (Config r p tr) → wf_record r' → same_view r r' →
  state r = Running → cancel_requested r = false → cancel_requested r' = false →
  phase r ∈ tr → last (phases r) = Some (phase r) →
  state r' = Succeeded → phase r' = phase r →
  executing p' = None → (∀ c, p' ≠ PUnsupported c) → run_inv (Config r' p' tr).
Proof.
  intros Hi Hwf Hv Hrun Hcr Hcr' Hin Hlast Hst Hph He Hu. pose proof Hv as (Hps&Hir&Hcp).
  pose proof (positions_view r r') as Hpos.
  assert (∀ q, q ∈ phases r → q ∈ tr) as Hall.
  { intros q Hq. eapply done_upto; try done.
    apply at_or_before_last; [|done..]. apply wf_phases_NoDup, (ri_wf _ Hi). }
  pose proof (ri_trace _ Hi) as Htr. simpl in Htr.
  split; simpl; rewrite ?Hst, ?Hph, ?Hcr'; try done.
  - rewrite Hps, Hir. apply (ri_first _ Hi).
  - congruence.
  - intros c ->. by destruct (Hu c).
  - by intros ?? ph o ->.
  - eapply Forall_impl; [exact Htr|]. intros q. by apply (proj1 (Hpos q _ Hv)).
  - by intros [?|?].
  - intros _ _ q Hbq. apply Hall. apply (proj2 (Hpos q _ Hv)) in Hbq as (i&_&Hq&_).
    by eapply list_index_elem_of_inv.
  - intros _ q. rewrite Hps. apply Hall.
Qed.

(** The operation advances to the next phase. *)
Lemma run_inv_advanced r r' p p' tr i :
  run_inv (Config r p tr) → wf_record r' → same_view r r' →
  state r = Running → cancel_requested r = false → cancel_requested r' = false →
  phase r ∈ tr → list_index (phase r) (phases r) = Some i →
  phases r !! S i = Some (phase r') → state r' = Running →
  executing p' = None → (∀ c, p' ≠ PUnsupported c) → run_inv (Config r' p' tr).
Proof.
  intros Hi Hwf Hv Hrun Hcr Hcr' Hin Hix Hnext Hst He Hu. pose proof Hv as (Hps&Hir&Hcp).
  pose proof (positions_view r r') as Hpos.
  assert (list_index (phase r') (phases r) = Some (S i)) as Hix'.
  { apply list_index_NoDup; [apply wf_phases_NoDup, (ri_wf _ Hi)|done]. }
  split; simpl; rewrite ?Hst, ?Hcr'; try done.
  - rewrite Hps, Hir. apply (ri_first _ Hi).
  - congruence.
  - by intros ?? ph o ->.
  - eapply Forall_impl; [apply (ri_trace _ Hi)|]. simpl. intros q Hq.
    apply (proj1 (Hpos q _ Hv)). eapply at_or_before_trans; [exact Hq|].
    exists i, (S i). split_and!; [done..|lia].
  - by intros [?|?].
  - intros _ _ q Hbq. eapply done_upto; try done.
    apply (proj2 (Hpos q _ Hv)) in Hbq as (k&j&Hk&Hj&Hlt).
    exists k, i. split_and!; [done..|]. simplify_eq. lia.
Qed.

(** ** Each mutation preserves the invariant *)

Lemma run_inv_cancel ts r r' ret p p' tr :
  run_inv (Config r p tr) → mutated (cancel_checkpoint_transform ts) r r' ret →
  executing p' = None → (∀ c, p' ≠ PUnsupported c) → run_inv (Config r' p' tr).
Proof.
  intros Hi [(->&_)|(x&Hx&Hwf&->&Hv&Hst&Hph&Hcr)]%mutated_inv He Hu;
    [by eapply run_inv_pc|].
  apply cancel_checkpoint_effect in Hx as (Hm&Hcx&Hcan&Hcr'&Hcase).
  assert (same_view r r') as Hv' by (eapply same_view_trans; [by apply same_machine_view|done]).
  destruct (cancel_phase_set r) as [c|] eqn:Hset.
  - destruct Hcase as [Hs Hp]. eapply run_inv_jump; try done; try congruence.
    rewrite <- cancel_phase_set_eq; [congruence|apply (ri_wf _ Hi)].
  - destruct Hcase. eapply run_inv_cancelled_in_place; try done; congruence.
Qed.

Lemma run_inv_start ts c rb r r' ret p p' tr :
  run_inv (Config r p tr) → mutated (claim_and_start_transform ts c rb) r r' ret →
  executing p' = None → (∀ c, p' ≠ PUnsupported c) → run_inv (Config r' p' tr).
Proof.
  intros Hi [(->&_)|(x&Hx&Hwf&->&Hv&Hst&Hph&Hcr)]%mutated_inv He Hu;
    [by eapply run_inv_pc|].
  apply claim_and_start_effect in Hx as (Hm&Hqb&Hs&Hp&Hc).
  eapply run_inv_started; try done; try congruence.
  - eapply same_view_trans; [by apply same_machine_view|done].
  - destruct Hqb as [|[? _]]; auto.
Qed.

Lemma run_inv_unsupported ts c r r' ret p' tr :
  run_inv (Config r (PUnsupported c) tr) → mutated (fail_unsupported_transform ts c) r r' ret →
  executing p' = None → (∀ c, p' ≠ PUnsupported c) → run_inv (Config r' p' tr).
Proof.
  intros Hi [(->&_)|(x&Hx&Hwf&->&Hv&Hst&Hph&Hcr)]%mutated_inv He Hu;
    [by eapply run_inv_pc|].
  apply fail_unsupported_effect in Hx as (_&Hm&Hs&Hp&Hc).
  eapply (run_inv_stopped _ _ _ _ _ Failed); try done; try congruence.
  - eapply same_view_trans; [by apply same_machine_view|done].
  - by apply (ri_unsupported _ Hi c).
  - by right.
Qed.

Lemma run_inv_step_error ts c ph e st r r' ret p p' tr :
  run_inv (Config r p tr) → executing p = Some ph → st = Blocked ∨ st = Failed →
  mutated (mark_step_error_transform ts c ph e st) r r' ret →
  executing p' = None → (∀ c, p' ≠ PUnsupported c) → run_inv (Config r' p' tr).
Proof.
  intros Hi Hex Hbf [(->&_)|(x&Hx&Hwf&->&Hv&Hst&Hph&Hcr)]%mutated_inv He Hu;
    [by eapply run_inv_pc|].
  apply mark_step_error_effect in Hx as (Hp&Hrun&Hm&Hc&Hcase).
  assert (same_view r r') as Hv' by (eapply same_view_trans; [by apply same_machine_view|done]).
  destruct Hcase as [(_&Hs&Hpx)|(Hcc&Hcase)].
  - eapply (run_inv_stopped _ _ _ _ _ st); try done; congruence.
  - bool_to_prop. destruct (cancel_phase_set r) as [cp|] eqn:Hset.
    + destruct Hcase as [Hs Hpx]. eapply run_inv_jump; try done; try congruence.
      rewrite <- cancel_phase_set_eq; [congruence|apply (ri_wf _ Hi)].
    + destruct Hcase. eapply run_inv_cancelled_in_place; try done; congruence.
Qed.

Lemma run_inv_step_result ts c ph res r r' ret p p' tr :
  run_inv (Config r p tr) → executing p = Some ph → ph ∈ tr →
  mutated (apply_step_result_transform ts c ph res) r r' ret →
  executing p' = None → (∀ c, p' ≠ PUnsupported c) → run_inv (Config r' p' tr).
Proof.
  intros Hi Hex Hin [(->&_)|(x&Hx&Hwf&->&Hv&Hst&Hph&Hcr)]%mutated_inv He Hu;
    [by eapply run_inv_pc|].
  apply apply_step_result_effect in Hx as (Hp&Hm&Hc&Hview). subst ph.
  assert (same_view r r') as Hv' by (eapply same_view_trans; [by apply same_machine_view|done]).
  destruct (ri_exec _ Hi _ Hex) as [Hrun _]. simpl in Hrun.
  (* a pending cancel is either honourable or being compensated *)
  assert ((cancel_requested r = true → is_cancelable r = false ∧ cancel_phase r ≠ Some (phase r)) →
          cancel_requested r = false) as Hnocancel.
  { intros Hno. destruct (cancel_requested r) eqn:Hcq; [|done].
    destruct (Hno eq_refl) as [Hnc Hne].
    destruct (ri_cancel _ Hi Hcq) as [?|?]; simpl in *; [by rewrite Hrun|congruence|done]. }
  destruct Hview as [Hs Hpx _|_ Hcq Hcp Hs Hpx|_ Hno Hl Hs Hpx|i _ Hno Hix Hnx Hs].
  - eapply run_inv_held; try done; congruence.
  - eapply run_inv_compensated; try done; congruence.
  - specialize (Hnocancel Hno). eapply run_inv_succeeded; try done; congruence.
  - specialize (Hnocancel Hno). eapply run_inv_advanced; try done; congruence.
Qed.

Lemma run_inv_request ts r r' ret p tr :
  run_inv (Config r p tr) → mutated (request_cancel_transform ts) r r' ret →
  run_inv (Config r' p tr).
Proof.
  intros Hi [(->&_)|(x&Hx&Hwf&->&Hv&Hst&Hph&Hcr)]%mutated_inv; [done|].
  apply request_cancel_effect in Hx as (Hm&Hcan&Hcq&Hs&Hp&Hc).
  eapply run_inv_requested; try done; try congruence.
  eapply same_view_trans; [by apply same_machine_view|done].
Qed.

Lemma run_inv_cancel_blocked ts r r' ret p tr :
  run_inv (Config r p tr) → cancel_phase_set r = None →
  mutated (cancel_blocked_transform ts) r r' ret → run_inv (Config r' p tr).
Proof.
  intros Hi Hset [(->&_)|(x&Hx&Hwf&->&Hv&Hst&Hph&Hcr)]%mutated_inv; [done|].
  apply cancel_blocked_effect in Hx as (Hm&Hcan&Hb&Hs&Hp&_).
  eapply run_inv_cancelled_in_place; try done; try congruence.
  - eapply same_view_trans; [by apply same_machine_view|done].
  - destruct (executing p) as [q|] eqn:E; [|done].
    destruct (ri_exec _ Hi q E). simpl in *. congruence.
  - intros c ->. pose proof (ri_unsupported _ Hi c eq_refl). simpl in *. congruence.
Qed.

Lemma runner_dispatch_running rb reg ex r :
  (∀ ph, runner_dispatch rb reg ex r = AStep ph → state r = Running ∧ phase r = ph) ∧
  (runner_dispatch rb reg ex r = AUnsupported → state r = Running).
Proof.
  unfold runner_dispatch.
  destruct (state r) eqn:E, (is_terminal _) eqn:Ht; simpl; try done;
    destruct (cancel_requested r && _), rb, ex, reg; simpl;
    split; intros; simplify_eq/=; try done; by vm_compute in Ht.
Qed.

Lemma run_inv_dispatch c rb reg ex r tr :
  run_inv (Config r (Top c rb) tr) →
  run_inv (Config r (pc_of_action c rb (runner_dispatch rb reg ex r)) tr).
Proof.
  intros Hi. destruct (runner_dispatch_running rb reg ex r) as [Hs Hu].
  destruct (runner_dispatch rb reg ex r) as [| | | |ph] eqn:Ha; simpl;
    try (by eapply run_inv_pc).
  - destruct Hi. split; simpl in *; try done. auto.
  - destruct (Hs ph eq_refl) as [Hr Hp]. destruct Hi. split; simpl in *; try done.
    + congruence.
    + intros ? [= <-]. done.
Qed.

Lemma run_inv_exec c rb ph o r tr :
  run_inv (Config r (PStep c rb ph) tr) → run_inv (Config r (PApply c rb ph o) (ph :: tr)).
Proof.
  intros Hi. destruct (ri_exec _ Hi ph eq_refl) as [Hr Hp]. simpl in *. subst ph.
  pose proof (ri_wf _ Hi) as Hwf.
  destruct Hi as [? Hf Hqu Hex Hun Hap Hca Htr Hsa Hdo Hsu Hco]. simpl in *.
  split; simpl; rewrite ?Hr; try done.
  - intros ? [= <-]. done.
  - intros ???? [= <- <- <- <-]. by left.
  - rewrite Hr in Hca. auto.
  - constructor; [|done]. apply at_or_before_refl, (wf_phase r Hwf).
  - intros [Hc|?]; [|done]. constructor; [|auto].
    destruct Hca as [Hcan|?]; [done|by rewrite Hr| |by right].
    left. apply is_cancelable_before; [done|by rewrite Hr].
  - intros Hc Hn q Hq. right. apply Hdo; [done|by rewrite Hr|done].
Qed.

Lemma pc_after_outcome_view c rb o r :
  executing (pc_after_outcome c rb o r) = None ∧
  (∀ c', pc_after_outcome c rb o r ≠ PUnsupported c').
Proof. destruct o; simpl; repeat case_bool_decide; done. Qed.

Lemma run_inv_step x y : run_inv x → run_step x y → run_inv y.
Proof.
  intros Hi Hstep. destruct Hstep as [c rb r tr|c rb reg ex r tr|c rb ts r r' ret tr Hm
    |c rb ts r r' ret tr Hm|c ts r r' ret tr Hm|c rb ph o r tr|c rb ph o ts r r' ret tr Hm
    |p r tr|c rb ph r tr|ts p r r' ret tr Hm|ts p r r' ret tr Hset Hm].
  - by eapply run_inv_pc.
  - by apply run_inv_dispatch.
  - eapply run_inv_cancel; try done; by case_bool_decide.
  - by eapply run_inv_start.
  - by eapply run_inv_unsupported.
  - by apply run_inv_exec.
  - pose proof (ri_applied _ Hi _ _ _ _ eq_refl) as Hin.
    destruct (pc_after_outcome_view c rb o ret) as [He Hu].
    destruct o as [res|e|e]; simpl in Hm.
    + by eapply run_inv_step_result.
    + eapply run_inv_step_error; try done; by left.
    + eapply run_inv_step_error; try done; by right.
  - by eapply run_inv_pc.
  - apply (run_inv_exec _ _ _ (StepReturns (StepResult [] false JNull))) in Hi.
    by eapply run_inv_pc.
  - by eapply run_inv_request.
  - by eapply run_inv_cancel_blocked.
Qed.

(** ** Every mutation is a legal move of the machine *)

(** How the phase may move: not at all, to the recorded successor (never past
    an honourable cancel), or into the compensation phase of a pending cancel. *)
Definition phase_move (r r' : op_record) : Prop :=
  phase r' = phase r ∨
  (cancel_requested r = false ∧ ∃ i, list_index (phase r) (phases r) = Some i ∧
     phases r !! S i = Some (phase r')) ∨
  (cancel_requested r = true ∧ is_cancelable r = true ∧ cancel_phase r = Some (phase r')).

Definition legal_move (r r' : op_record) : Prop :=
  is_terminal (state r) = false ∧
  (state r' = state r ∨ validate_state_transition (state r) (state r') = Ok tt) ∧
  (cancel_requested r = true → cancel_requested r' = true) ∧ phase_move r r'.

Definition pc_transform (p : pc) (t : transform) : Prop :=
  match p with
  | PCancel _ _ => ∃ ts, t = cancel_checkpoint_transform ts
  | PStart c rb => ∃ ts, t = claim_and_start_transform ts c rb
  | PUnsupported c => ∃ ts, t = fail_unsupported_transform ts c
  | PApply c _ ph o => ∃ ts, t = outcome_transform ts c ph o
  | _ => False
  end.

Definition request_transform (t : transform) : Prop :=
  (∃ ts, t = request_cancel_transform ts) ∨ (∃ ts, t = cancel_blocked_transform ts).

Lemma cancelable_not_terminal r : is_cancelable r = true → is_terminal (state r) = false.
Proof. unfold is_cancelable. by destruct (is_terminal _). Qed.

Lemma checkpoint_legal r x :
  wf_record r → is_cancelable r = true → cancel_requested r = true →
  cancel_requested x = true →
  match cancel_phase_set r with
  | Some c => state x = Running ∧ phase x = c
  | None => state x = Cancelled ∧ phase x = phase r
  end → legal_move r x.
Proof.
  intros Hwf Hcan Hcr Hcx Hcase. pose proof (cancelable_not_terminal r Hcan) as Hnt.
  rewrite cancel_phase_set_eq in Hcase by done. split_and!; try done.
  - destruct (cancel_phase r), Hcase as [-> _]; destruct (state r); auto; done.
  - destruct (cancel_phase r) eqn:E, Hcase as [_ Hp]; [right; right|by left]. by rewrite E, Hp.
Qed.

Lemma legal_step r p tr t x :
  run_inv (Config r p tr) → pc_transform p t ∨ request_transform t →
  t r = Ok (true, x) → legal_move r x.
Proof.
  intros Hi Ht Hx. pose proof (ri_wf _ Hi) as Hwf. simpl in Hwf.
  destruct Ht as [Ht|[[ts ->]|[ts ->]]].
  - destruct p as [| |c rb|c rb|c| |c rb ph o]; simpl in Ht; try done; destruct Ht as [ts ->].
    + apply cancel_checkpoint_effect in Hx as (_&?&?&?&?). by apply checkpoint_legal.
    + apply claim_and_start_effect in Hx as (_&Hqb&Hs&Hp&Hc).
      split_and!; [|right|congruence|by left]; rewrite ?Hs; by destruct Hqb as [-> |[-> _]].
    + pose proof (ri_unsupported _ Hi c eq_refl) as Hr. simpl in Hr.
      apply fail_unsupported_effect in Hx as (_&_&Hs&Hp&Hc).
      split_and!; [|right|congruence|by left]; by rewrite ?Hs, Hr.
    + destruct (ri_exec _ Hi ph eq_refl) as [Hr Hph]. simpl in Hr, Hph. subst ph.
      assert (is_terminal (state r) = false) as Hnt by by rewrite Hr.
      destruct o as [res|e|e]; simpl in Hx;
        [apply apply_step_result_effect in Hx as (_&_&Hc&Hview)
        |apply mark_step_error_effect in Hx as (_&_&_&Hc&[(_&Hs&Hp)|(Hcc&?)])..].
      * pose proof (ri_cancel _ Hi) as Hca. simpl in Hca.
        assert ((cancel_requested r = true →
            is_cancelable r = false ∧ cancel_phase r ≠ Some (phase r)) →
          cancel_requested r = false) as Hnc.
        { intros Hno. destruct (cancel_requested r); [|done].
          destruct Hno, Hca; congruence. }
        destruct Hview as [Hs Hp _|_ _ _ Hs Hp|_ _ _ Hs Hp|i _ Hno Hix Hnx Hs].
        -- split_and!; [done|by left|congruence|by left].
        -- split_and!; [done|right; by rewrite Hs, Hr|congruence|by left].
        -- split_and!; [done|right; by rewrite Hs, Hr|congruence|by left].
        -- split_and!; [done|by left|congruence|right; left; by eauto].
      * split_and!; [done|right; by rewrite Hs, Hr|congruence|by left].
      * bool_to_prop. apply checkpoint_legal; try done. congruence.
      * split_and!; [done|right; by rewrite Hs, Hr|congruence|by left].
      * bool_to_prop. apply checkpoint_legal; try done. congruence.
  - apply request_cancel_effect in Hx as (_&Hcan&_&Hs&Hp&Hc).
    split_and!; [by apply cancelable_not_terminal|by left|done|by left].
  - apply cancel_blocked_effect in Hx as (_&Hcan&Hb&Hs&Hp&Hc).
    split_and!; [by apply cancelable_not_terminal|right|congruence|by left].
    by rewrite Hs, Hb.
Qed.

Lemma legal_move_bump r x now : legal_move r x → legal_move r (bump now x).
Proof.
  destruct (bump_view now x) as (_&Hs&Hp&Hc). unfold legal_move, phase_move.
  by rewrite Hs, Hp, Hc.
Qed.

(** What a step of any process does to the record. *)
Lemma run_step_record x y :
  run_step x y → c_rec y = c_rec x ∨
  ∃ t r' now, (pc_transform (c_pc x) t ∨ request_transform t) ∧
    t (c_rec x) = Ok (true, r') ∧ c_rec y = bump now r'.
Proof.
  intros Hstep. destruct Hstep; simpl; auto;
    match goal with Hm : mutated _ _ _ _ |- _ => destruct Hm as [|now z ??? ->] end; auto;
    right; eexists _, z, now; split; try done; unfold request_transform; eauto.
Qed.

Lemma run_inv_reachable x : reachable guarded_init run_step x → run_inv x.
Proof. apply reachable_invariant; [apply run_inv_init|]. intros. by eapply run_inv_step. Qed.

(** ** Executable runs *)

Inductive run_command :=
| DoAcquire (c : claim) (rb : bool)
| DoDispatch (registered exhausted : bool)
| DoExec (o : step_outcome)
| DoMutate (ts : clock) (now : string)
| DoRequest (ts : clock) (now : string)
| DoCrash.

(** [mutate] by one attempt that wins its compare-and-swap. *)
Definition apply_mutation (t : transform) (now : string) (r : op_record)
    : option (op_record * op_record) :=
  match t r with
  | Ok (false, ret) => Some (r, ret)
  | Ok (true, x) =>
      if validate_record (to_json x) && valid_timestamp now
      then Some (bump now x, bump now x) else None
  | Err _ => None
  end.

Definition drive1 (k : run_command) (x : config) : option config :=
  let 'Config r p tr := x in
  match k, p with
  | DoAcquire c rb, Idle => Some (Config r (Top c rb) tr)
  | DoDispatch reg ex, Top c rb =>
      Some (Config r (pc_of_action c rb (runner_dispatch rb reg ex r)) tr)
  | DoExec o, PStep c rb ph => Some (Config r (PApply c rb ph o) (ph :: tr))
  | DoMutate ts now, PCancel c rb =>
      '(r', ret) ← apply_mutation (cancel_checkpoint_transform ts) now r;
      Some (Config r' (if bool_decide (state ret = Cancelled) then Idle else Top c rb) tr)
  | DoMutate ts now, PStart c rb =>
      '(r', _) ← apply_mutation (claim_and_start_transform ts c rb) now r;
      Some (Config r' (Top c rb) tr)
  | DoMutate ts now, PUnsupported c =>
      '(r', _) ← apply_mutation (fail_unsupported_transform ts c) now r;
      Some (Config r' Idle tr)
  | DoMutate ts now, PApply c rb ph o =>
      '(r', ret) ← apply_mutation (outcome_transform ts c ph o) now r;
      Some (Config r' (pc_after_outcome c rb o ret) tr)
  | DoRequest ts now, _ =>
      '(r', _) ← apply_mutation (request_cancel_transform ts) now r;
      Some (Config r' p tr)
  | DoCrash, PStep _ _ ph => Some (Config r Idle (ph :: tr))
  | DoCrash, _ => Some (Config r Idle tr)
  | _, _ => None
  end.

Fixpoint drive (ks : list run_command) (x : config) : option config :=
  match ks with
  | [] => Some x
  | k :: ks => x' ← drive1 k x; drive ks x'
  end.

Lemma apply_mutation_sound t now r r' ret :
  apply_mutation t now r = Some (r', ret) → mutated t r r' ret.
Proof.
  unfold apply_mutation. destruct (t r) as [[[] x]|] eqn:E; try done.
  - destruct (validate_record _ && _) eqn:Hv; [|done]. intros [= <- <-]. bool_to_prop.
    eapply mutated_written; try done. by apply validate_record_wf.
  - intros [= <- <-]. by apply mutated_same.
Qed.

Lemma drive1_sound k x y : drive1 k x = Some y → run_step x y.
Proof.
  destruct x as [r p tr], k, p; simpl; try done;
    repeat (intros ([??]&?%apply_mutation_sound&?)%bind_Some || intros ?); simplify_eq/=;
    econstructor; by eauto.
Qed.

Lemma drive_sound ks x y : drive ks x = Some y → rtc run_step x y.
Proof.
  revert x. induction ks as [|k ks IH]; intros x; simpl; [by intros [= ->]|].
  intros (z&?%drive1_sound&?)%bind_Some. eapply rtc_l; eauto.
Qed.

(** ** Safety of cancellation and completion *)

(** C1: a cancelled operation whose machine does not start at its
    irreversible phase never ran its irreversible step, whatever requests,
    crashes and step outcomes interleaved with the executor: all it ran are
    phases before the irreversible one and its compensation phase. The
    condition on the first phase is needed: see [irreversible_first_phase_race]. *)
Theorem cancelled_never_irreversible x :
  reachable guarded_init run_step x → state (c_rec x) = Cancelled →
  irreversible_phase (c_rec x) ∉ c_trace x ∧
  (∀ p, p ∈ c_trace x → strictly_before (c_rec x) p (irreversible_phase (c_rec x)) ∨
                        cancel_phase (c_rec x) = Some p).
Proof.
  intros Hi%run_inv_reachable Hc. pose proof (ri_safe _ Hi (or_intror Hc)) as Hs.
  rewrite Forall_forall in Hs. split; [|done].
  intros [Hb|Hb]%Hs; [by apply strictly_before_irrefl in Hb|].
  apply irreversible_before_cancel_phase in Hb; [|apply (ri_wf _ Hi)].
  by apply strictly_before_irrefl in Hb.
Qed.

(** A cancelled operation that has a compensation phase has run it (the
    machine not starting at its irreversible phase, as for the next two). *)
Theorem cancelled_is_compensated x c :
  reachable guarded_init run_step x → state (c_rec x) = Cancelled →
  cancel_phase (c_rec x) = Some c → c ∈ c_trace x.
Proof. intros Hi%run_inv_reachable Hs Hc. by apply (ri_compensated _ Hi Hs). Qed.

(** A succeeded operation has run every one of its phases. *)
Theorem succeeded_ran_every_phase x :
  reachable guarded_init run_step x → state (c_rec x) = Succeeded →
  ∀ p, p ∈ phases (c_rec x) → p ∈ c_trace x.
Proof. intros Hi%run_inv_reachable Hs. by apply (ri_succeeded _ Hi Hs). Qed.

(** Once the irreversible step has run, the operation can no longer be
    cancelled: its cancel flag is down, and cancelling is refused. *)
Theorem irreversible_is_final x :
  reachable guarded_init run_step x → irreversible_phase (c_rec x) ∈ c_trace x →
  cancel_requested (c_rec x) = false ∧ state (c_rec x) ≠ Cancelled ∧
  is_cancelable (c_rec x) = false.
Proof.
  intros Hi%run_inv_reachable Hin.
  assert (∀ r, c_rec x = r → ¬ (Forall (λ p, strictly_before r p (irreversible_phase r) ∨
    cancel_phase r = Some p) (c_trace x))) as Hno.
  { intros r <- Hs. rewrite Forall_forall in Hs. destruct (Hs _ Hin) as [Hb|Hb].
    - by apply strictly_before_irrefl in Hb.
    - apply irreversible_before_cancel_phase in Hb; [|apply (ri_wf _ Hi)].
      by apply strictly_before_irrefl in Hb. }
  split_and!.
  - destruct (cancel_requested (c_rec x)) eqn:E; [|done]. destruct (Hno _ eq_refl).
    apply (ri_safe _ Hi). by left.
  - intros Hc. destruct (Hno _ eq_refl). apply (ri_safe _ Hi). by right.
  - destruct (is_cancelable (c_rec x)) eqn:E; [|done]. destruct (Hno _ eq_refl).
    destruct x as [r p tr]. eapply Forall_impl; [by eapply cancelable_trace|].
    simpl. by left.
Qed.

(** C3: for an operation whose machine does not start at its irreversible
    phase, every step of every process either leaves the record alone or makes
    one legal move: never out of a terminal state, only along the transition
    table, never taking back a cancel request, and the phase stays, advances
    to its successor with no cancel pending, or enters the compensation phase
    of a cancel that is still honourable. *)
Theorem every_step_is_legal x y :
  reachable guarded_init run_step x → run_step x y →
  c_rec y = c_rec x ∨ legal_move (c_rec x) (c_rec y).
Proof.
  intros Hi%run_inv_reachable [?|(t&r'&now&Ht&Hr&->)]%run_step_record; [by left|right].
  apply legal_move_bump. destruct x. by eapply legal_step.
Qed.
End runner.

(** ** Example runs *)

Section runs.
#[local] Existing Instance demo_stdlib.

Definition demo_init (r : op_record) : config := Config r Idle [].
Definition demo_mutate := DoMutate demo_clock demo_now.
Definition demo_advance := DoExec (StepReturns (StepResult [("bytes", 10)] true JNull)).
(** dispatch, execute the step, persist its result *)
Definition demo_one_step := [DoDispatch true false; demo_advance; demo_mutate].
Definition demo_begin := [DoAcquire demo_claim false; DoDispatch true false; demo_mutate].

(** Runs to completion, with a crash in the middle of the second step. *)
Definition demo_success : list run_command :=
  demo_begin ++ demo_one_step ++ [DoDispatch true false; DoCrash; DoAcquire demo_claim false] ++
  demo_one_step ++ demo_one_step.

(** A cancel request that lands while the first step runs: its advance is
    held, the checkpoint enters the compensation phase, which then runs. *)
Definition demo_cancel : list run_command :=
  demo_begin ++ [DoDispatch true false; DoRequest demo_clock demo_now; demo_advance; demo_mutate;
  DoDispatch true false; demo_mutate] ++ demo_one_step.

Definition run_of (r : op_record) (ks : list run_command) : config :=
  default (demo_init r) (drive ks (demo_init r)).

Lemma run_of_reachable r ks :
  guarded_init (demo_init r) → is_Some (drive ks (demo_init r)) →
  reachable guarded_init run_step (run_of r ks).
Proof.
  intros Hi [y Hy]. exists (demo_init r). split; [done|]. unfold run_of. rewrite Hy.
  by eapply drive_sound.
Qed.

Lemma demo_record_init : guarded_init (demo_init demo_record).
Proof. split; [split_and!; try done; apply demo_record_wf|done]. Qed.

Lemma demo_cancel_reachable : reachable guarded_init run_step (run_of demo_record demo_cancel).
Proof. apply run_of_reachable; [apply demo_record_init|]. eexists. vm_compute. reflexivity. Qed.

Lemma demo_success_reachable : reachable guarded_init run_step (run_of demo_record demo_success).
Proof. apply run_of_reachable; [apply demo_record_init|]. eexists. vm_compute. reflexivity. Qed.

Example demo_cancel_ends :
  state (c_rec (run_of demo_record demo_cancel)) = Cancelled ∧
  c_trace (run_of demo_record demo_cancel) = ["reopening"; "staging"].
Proof. split; vm_compute; reflexivity. Qed.

Example demo_success_ends :
  state (c_rec (run_of demo_record demo_success)) = Succeeded ∧
  c_trace (run_of demo_record demo_success) = ["reopening"; "publishing"; "publishing"; "staging"].
Proof. split; vm_compute; reflexivity. Qed.

Theorem cancelled_never_irreversible_witness :
  state (c_rec (run_of demo_record demo_cancel)) = Cancelled ∧
  "publishing" ∉ c_trace (run_of demo_record demo_cancel).
Proof.
  assert (state (c_rec (run_of demo_record demo_cancel)) = Cancelled) as Hc
    by (vm_compute; reflexivity).
  split; [exact Hc|].
  exact (proj1 (cancelled_never_irreversible _ demo_cancel_reachable Hc)).
Defined.

Theorem cancelled_is_compensated_witness :
  "reopening" ∈ c_trace (run_of demo_record demo_cancel).
Proof.
  apply (cancelled_is_compensated _ _ demo_cancel_reachable); vm_compute; reflexivity.
Defined.

Theorem succeeded_ran_every_phase_witness :
  "publishing" ∈ c_trace (run_of demo_record demo_success).
Proof.
  apply (succeeded_ran_every_phase _ demo_success_reachable); [vm_compute; reflexivity|].
  apply (bool_decide_eq_true_1 (_ ∈ _)). vm_compute. reflexivity.
Defined.

Theorem irreversible_is_final_witness :
  is_cancelable (c_rec (run_of demo_record demo_success)) = false.
Proof.
  refine (proj2 (proj2 (irreversible_is_final _ demo_success_reachable _))).
  apply (bool_decide_eq_true_1 (_ ∈ _)). vm_compute. reflexivity.
Defined.

(** The first dispatched step of the cancelled run. *)
Theorem every_step_is_legal_witness :
  ∃ y, drive1 (DoRequest demo_clock demo_now) (run_of demo_record demo_begin) = Some y ∧
    (c_rec y = c_rec (run_of demo_record demo_begin) ∨
     legal_move (c_rec (run_of demo_record demo_begin)) (c_rec y)).
Proof.
  assert (reachable guarded_init run_step (run_of demo_record demo_begin)) as Hr.
  { apply run_of_reachable; [apply demo_record_init|]. eexists. vm_compute. reflexivity. }
  destruct (drive1 (DoRequest demo_clock demo_now) (run_of demo_record demo_begin))
    as [y|] eqn:E; [|vm_compute in E; discriminate E].
  exists y. split; [reflexivity|]. apply (every_step_is_legal _ _ Hr).
  by eapply drive1_sound.
Defined.

(** ** A machine whose first phase is irreversible *)

(** [new_operation] accepts it, and there the guarantee fails: the executor
    decides to claim the queued operation, a cancel request lands, the claim
    ignores it, and the irreversible step runs before the operation ends
    [Cancelled] in its compensation phase. *)
Definition demo_race : list run_command :=
  [DoAcquire demo_claim false; DoDispatch true false; DoRequest demo_clock demo_now;
   demo_mutate] ++ demo_one_step ++ demo_one_step.

(** With an irreversible first phase, which [new_operation] accepts, a
    cancel request racing with the claim of the queued operation ends in
    [Cancelled] although the irreversible step has run. *)
Theorem irreversible_first_phase_race :
  demo_create ["publishing"; "reopening"] "publishing" (Some "reopening") = Ok demo_racy ∧
  ∃ x, reachable run_init run_step x ∧ state (c_rec x) = Cancelled ∧
       irreversible_phase (c_rec x) ∈ c_trace x.
Proof.
  split; [apply demo_racy_created|]. exists (run_of demo_racy demo_race). split_and!.
  - exists (demo_init demo_racy). split.
    + split_and!; try done. apply demo_racy_wf.
    + apply (drive_sound demo_race). vm_compute. reflexivity.
  - vm_compute. reflexivity.
  - apply (bool_decide_eq_true_1 (_ ∈ _)). vm_compute. reflexivity.
Qed.
End runs.
