(* ===== verification/OpEngine.v ===== *)
(** * Executors, clients and observers of [src/daemon/operations.py]

    The code above the store: operation types and their registry,
    [create_operation], [cancel_operation], the executor loop
    [try_run_pending_steps] as an executable function with fuel, the observer
    [wait_for_terminal] and the sanitised [public_record].  They are written
    against the interface [RecordStore]; its laws [RecordStoreLaws] are what an
    undisturbed store promises, and [StoreInstance] discharges them for
    [OpStore]. *)

From Stdlib Require Import Ascii String.
From stdpp Require Import base list strings gmap relations.
From S2P Require Import Prelude PyJson OpRecord OpTransforms Demo OpStore OpConcurrent OpRunner.
Open Scope Z_scope.

(** ** The store interface *)

(** [W] is the store together with the file system behind it. *)
Class RecordStore (W : Type) := {
  rs_open : bool → W → result exn W;
  rs_load : string → W → result exn op_record;
  rs_mutate : string → (nat → transform) → W → result exn (W * op_record);
  rs_create : op_record → W → result exn (W * op_record);
  rs_acquire : string → W → result exn (bool * W);
  rs_release : string → W → W }.

(** [rs_ready id w r]: nothing obstructs the store and operation [id] is [r]. *)
Class RecordStoreLaws (W : Type) `{PyStdlib} `{RecordStore W} := {
  rs_ready : string → W → op_record → Prop;
  ready_load id w r : rs_ready id w r → rs_load id w = Ok r ∧ wf_record r;
  ready_mutate id fn w r w' ret :
    (∀ i, engine_transform (fn i)) → rs_ready id w r → rs_mutate id fn w = Ok (w', ret) →
    ∃ r', mutated (fn 0%nat) r r' ret ∧ rs_ready id w' r';
  ready_progress id fn w r b x :
    (∀ i, engine_transform (fn i)) → rs_ready id w r → fn 0%nat r = Ok (b, x) → wf_record x →
    ∃ w' ret, rs_mutate id fn w = Ok (w', ret);
  ready_open b id w r : rs_ready id w r → ∃ w', rs_open b w = Ok w' ∧ rs_ready id w' r;
  ready_acquire id w r b w' :
    rs_ready id w r → rs_acquire id w = Ok (b, w') → rs_ready id w' r }.

(** ** Operation types *)

(** What a step function or the fault hook does: return, raise one of the
    engine's step exceptions, or raise something the engine lets through. *)
Inductive step_signal (A : Type) :=
| Returned (a : A)
| RaisedBlocked (e : op_error)
| RaisedFailed (e : op_error)
| SimulatedCrash
| RaisedOther.
Arguments Returned {A} a.
Arguments RaisedBlocked {A} e.
Arguments RaisedFailed {A} e.
Arguments SimulatedCrash {A}.
Arguments RaisedOther {A}.

(** [E] is the part of the world the step functions act on. *)
Definition step_fn (E : Type) : Type := op_record → E → step_signal step_result * E.
Definition fault_hook (E : Type) : Type := string → nat → string → E → step_signal () * E.

Record OperationTypeSpec (E : Type) := TypeSpec {
  ts_type : string;
  ts_phases : list string;
  ts_irreversible : string;
  ts_cancel_phase : option string;
  ts_normalize : json → result exn (list (string * json));
  ts_steps : list (string * step_fn E) }.
Arguments TypeSpec {E}.
Arguments ts_type {E}.
Arguments ts_phases {E}.
Arguments ts_irreversible {E}.
Arguments ts_cancel_phase {E}.
Arguments ts_normalize {E}.
Arguments ts_steps {E}.

Definition OperationRegistry (E : Type) : Type := gmap string (OperationTypeSpec E).

Definition register {E} (s : OperationTypeSpec E) (reg : OperationRegistry E)
    : OperationRegistry E := <[ts_type s := s]> reg.

Definition entry_get (k : string) (j : json) : json :=
  match j with JObj m => obj_get_or_null k m | _ => JNull end.

Definition is_progress_in (ph : string) (j : json) : bool :=
  match entry_get "kind" j, entry_get "phase" j with
  | JStr k, JStr p => String.eqb k "progress" && String.eqb p ph
  | _, _ => false
  end.

(** The number of progress entries the log has for a phase. *)
Definition step_index_in_phase (r : op_record) (ph : string) : nat :=
  length (List.filter (is_progress_in ph) (log r)).

Section engine.
Context `{PyStdlib} {W : Type} `{!RecordStore W} {E : Type}.

Definition new_record (uuid now : string) (s : OperationTypeSpec E) (params : json)
    (opid : option string) : result exn op_record :=
  ps ← ts_normalize s params;
  new_operation uuid now (ts_type s) ps (ts_phases s) (ts_irreversible s) opid
    (ts_cancel_phase s).

Definition create_operation (uuid now : string) (reg : OperationRegistry E)
    (operation_type : string) (params : json) (opid : option string) (w : W)
    : result exn (W * op_record) :=
  match reg !! operation_type with
  | None => Err (UnsupportedOperationType operation_type)
  | Some s =>
      w ← rs_open true w;
      r ← new_record uuid now s params opid;
      rs_create r w
  end.

(** ** Cancelling *)

(** [clk k i] are the clock readings of the [i]-th attempt of the [k]-th
    mutation. *)
Context (clk : nat → nat → clock).

Fixpoint cancel_loop (fuel k : nat) (id : string) (w : W)
    : option (result exn (W * op_record * cancel_disposition)) :=
  match fuel with
  | O => None
  | S fuel =>
      match rs_load id w with
      | Err x => Some (Err x)
      | Ok r =>
          let d := classify_cancel r in
          if bool_decide (d ≠ Requested) then Some (Ok (w, r, d))
          else if bool_decide (state r = Blocked) && bool_decide (cancel_phase_set r = None) then
            match rs_mutate id (λ i, cancel_blocked_transform (clk k i)) w with
            | Err x => Some (Err x)
            | Ok (w, u) =>
                if bool_decide (state u = Cancelled) then Some (Ok (w, u, Requested))
                else cancel_loop fuel (S k) id w
            end
          else
            match rs_mutate id (λ i, request_cancel_transform (clk k i)) w with
            | Err x => Some (Err x)
            | Ok (w, u) =>
                if cancel_requested u then Some (Ok (w, u, Requested))
                else cancel_loop fuel (S k) id w
            end
      end
  end.

Definition cancel_operation (fuel : nat) (id : string) (w : W) :=
  match rs_open false w with
  | Err x => Some (Err x)
  | Ok w => cancel_loop fuel 0 id w
  end.

(** ** Executing *)

(** How [try_run_pending_steps] ends: with [(record, acquired)], or with an
    exception of a step (a simulated crash or any other), or of the store. *)
Inductive run_exit :=
| RunReturned (r : op_record) (acquired : bool)
| RunCrashed
| RunStepRaised
| RunError (e : exn).

Context (reg : OperationRegistry E) (hook : option (fault_hook E)) (max_steps : option nat)
  (retry_blocked : bool) (c : claim) (id : string).

Definition call_hook (ph : string) (idx : nat) (point : string) (e : E) : step_signal () * E :=
  match hook with None => (Returned (), e) | Some h => h ph idx point e end.

(** The [try] block around one step; a phase without a step function is a
    [KeyError]. *)
Definition exec_step (s : OperationTypeSpec E) (r : op_record) (e : E)
    : step_signal step_result * E :=
  let idx := step_index_in_phase r (phase r) in
  match call_hook (phase r) idx "before_step" e with
  | (Returned _, e) =>
      match List.find (λ kv, String.eqb kv.1 (phase r)) (ts_steps s) with
      | None => (RaisedOther, e)
      | Some (_, f) =>
          match f r e with
          | (Returned res, e) =>
              match call_hook (phase r) idx "after_step" e with
              | (Returned _, e) => (Returned res, e)
              | (RaisedBlocked x, e) => (RaisedBlocked x, e)
              | (RaisedFailed x, e) => (RaisedFailed x, e)
              | (SimulatedCrash, e) => (SimulatedCrash, e)
              | (RaisedOther, e) => (RaisedOther, e)
              end
          | o => o
          end
      end
  | (RaisedBlocked x, e) => (RaisedBlocked x, e)
  | (RaisedFailed x, e) => (RaisedFailed x, e)
  | (SimulatedCrash, e) => (SimulatedCrash, e)
  | (RaisedOther, e) => (RaisedOther, e)
  end.

Definition exhausted (steps : nat) : bool :=
  match max_steps with Some n => (n <=? steps)%nat | None => false end.

Fixpoint run_loop (fuel k steps : nat) (w : W) (e : E) : option (run_exit * W * E) :=
  match fuel with
  | O => None
  | S fuel =>
      let persist t (cont : W → op_record → option (run_exit * W * E)) e :=
        match rs_mutate id t w with
        | Err x => Some (RunError x, w, e)
        | Ok (w, u) => cont w u
        end in
      match rs_load id w with
      | Err x => Some (RunError x, w, e)
      | Ok r =>
          let spec := reg !! op_type r in
          match runner_dispatch retry_blocked (bool_decide (is_Some spec)) (exhausted steps) r with
          | ADone => Some (RunReturned r true, w, e)
          | ACancel =>
              persist (λ i, cancel_checkpoint_transform (clk k i)) (λ w u,
                if bool_decide (state u = Cancelled) then Some (RunReturned u true, w, e)
                else run_loop fuel (S k) steps w e) e
          | AStart =>
              persist (λ i, claim_and_start_transform (clk k i) c retry_blocked) (λ w u,
                run_loop fuel (S k) steps w e) e
          | AUnsupported =>
              persist (λ i, fail_unsupported_transform (clk k i) c) (λ w u,
                Some (RunReturned u true, w, e)) e
          | AStep ph =>
              match spec with
              | None => None
              | Some s =>
                  match exec_step s r e with
                  | (Returned res, e) =>
                      persist (λ i, apply_step_result_transform (clk k i) c ph res) (λ w u,
                        run_loop fuel (S k) (S steps) w e) e
                  | (RaisedBlocked x, e) =>
                      persist (λ i, mark_step_error_transform (clk k i) c ph x Blocked) (λ w u,
                        if bool_decide (state u = Running) then run_loop fuel (S k) steps w e
                        else Some (RunReturned u true, w, e)) e
                  | (RaisedFailed x, e) =>
                      persist (λ i, mark_step_error_transform (clk k i) c ph x Failed) (λ w u,
                        if bool_decide (state u = Running) then run_loop fuel (S k) steps w e
                        else Some (RunReturned u true, w, e)) e
                  | (SimulatedCrash, e) => Some (RunCrashed, w, e)
                  | (RaisedOther, e) => Some (RunStepRaised, w, e)
                  end
              end
          end
      end
  end.

(** The run lock is released however the loop ends. *)
Definition try_run_pending_steps (fuel : nat) (w : W) (e : E) : option (run_exit * W * E) :=
  match rs_open true w with
  | Err x => Some (RunError x, w, e)
  | Ok w =>
      match rs_acquire id w with
      | Err x => Some (RunError x, w, e)
      | Ok (false, w) =>
          Some (match rs_load id w with Ok r => RunReturned r false | Err x => RunError x end, w, e)
      | Ok (true, w) =>
          '(x, w, e) ← run_loop fuel 0 0 w e; Some (x, rs_release id w, e)
      end
  end.
End engine.

(** ** Facts about one iteration *)

Section iteration.
Context `{PyStdlib}.

(** A cancel the checkpoint would honour. *)
Definition cancel_pending (r : op_record) : bool := cancel_requested r && is_cancelable r.

Lemma dispatch_view rb reg ex r :
  match runner_dispatch rb reg ex r with
  | ADone => True
  | ACancel => cancel_pending r = true
  | AStart => cancel_pending r = false ∧ (state r = Queued ∨ state r = Blocked ∧ rb = true)
  | AUnsupported => reg = false ∧ state r = Running
  | AStep ph => cancel_pending r = false ∧ state r = Running ∧ phase r = ph ∧ reg = true ∧ ex = false
  end.
Proof.
  unfold runner_dispatch. fold (cancel_pending r). destruct (is_terminal (state r)) eqn:Ht; [done|].
  destruct (cancel_pending r) eqn:Hc; [done|].
  destruct (state r) eqn:Hs, rb, ex, reg; simpl; auto; by vm_compute in Ht.
Qed.

Lemma is_cancelable_frame r r' :
  same_view r r' → phase r' = phase r → state r' = state r → is_cancelable r' = is_cancelable r.
Proof. unfold is_cancelable. by intros (->&->&_) -> ->. Qed.

Lemma is_cancelable_not_before r :
  state r ≠ Queued → ¬ strictly_before r (phase r) (irreversible_phase r) →
  is_cancelable r = false.
Proof.
  intros Hq Hn. destruct (is_cancelable r) eqn:E; [|done]. by apply is_cancelable_before in E.
Qed.

(** The record after an honoured cancel: the operation is over, or it runs its
    compensation phase and no cancel is pending any more. *)
Lemma checkpoint_next ts r r' ret :
  wf_record r → (state r = Queued → cancel_phase r ≠ Some (phase r)) →
  cancel_pending r = true → mutated (cancel_checkpoint_transform ts) r r' ret →
  ret = r' ∧ (state r' = Cancelled ∨ state r' = Running ∧ cancel_pending r' = false).
Proof.
  unfold cancel_pending. intros Hwf Hq Hp Hm. bool_to_prop.
  assert (cancel_phase r ≠ Some (phase r)) as Hne.
  { intros Hc. destruct (decide (state r = Queued)) as [Hs|Hs]; [by apply Hq|].
    match goal with Hi : is_cancelable r = true |- _ => apply is_cancelable_before in Hi; [|done] end.
    apply irreversible_before_cancel_phase in Hc; [|done].
    eapply strictly_before_irrefl, at_or_before_strict; [|done].
    by apply strictly_before_at_or_before. }
  apply mutated_inv in Hm as [(->&Ht)|(x&Hx&_&->&Hv&Hs&Hph&Hcr)].
  - exfalso. revert Ht. unfold cancel_checkpoint_transform.
    rewrite H0, H1, cancel_phase_set_eq by done. simpl.
    destruct (cancel_phase r) as [cp|] eqn:E.
    + rewrite bool_decide_eq_true_2 by congruence. by intros (?&_&[=])%bind_Ok.
    + by intros (?&_&[=])%bind_Ok.
  - split; [done|]. apply cancel_checkpoint_effect in Hx as (Hsm&_&_&_&Hcase).
    rewrite cancel_phase_set_eq in Hcase by done.
    destruct (cancel_phase r) as [cp|] eqn:E; [right|left; by destruct Hcase; congruence].
    destruct Hcase as [Hs' Hp']. split; [congruence|].
    rewrite is_cancelable_not_before; [by rewrite andb_false_r|by rewrite Hs, Hs'|].
    pose proof (same_view_trans _ _ _ (same_machine_view _ _ Hsm) Hv) as Hv'.
    pose proof Hv' as (_&Hir&_). rewrite Hph, Hp', Hir. intros Hb%(positions_view _ _ _ _ Hv').
    eapply strictly_before_irrefl, at_or_before_strict; [|exact Hb].
    by apply strictly_before_at_or_before, irreversible_before_cancel_phase.
Qed.

Lemma start_next ts c rb r r' ret :
  cancel_pending r = false → state r = Queued ∨ state r = Blocked ∧ rb = true →
  mutated (claim_and_start_transform ts c rb) r r' ret →
  ret = r' ∧ state r' = Running ∧ cancel_pending r' = false.
Proof.
  intros Hp Hs [(->&Ht)|(x&Hx&_&->&Hv&Hst&Hph&Hcr)]%mutated_inv.
  - revert Ht. unfold claim_and_start_transform. by destruct Hs as [-> |[-> ->]].
  - apply claim_and_start_effect in Hx as (Hsm&_&Hst'&Hph'&Hcr').
    split_and!; [done|congruence|]. unfold cancel_pending in *. rewrite Hcr, Hcr'.
    destruct (cancel_requested r) eqn:E; [|done]. simpl in *.
    pose proof (same_view_trans _ _ _ (same_machine_view _ _ Hsm) Hv) as (Hps&Hir&_).
    unfold is_cancelable in *. rewrite Hst, Hst', Hph, Hph', Hps, Hir.
    by destruct Hs as [Hs|[Hs _]]; rewrite Hs in Hp.
Qed.

Lemma error_next ts c ph e st r r' ret :
  cancel_pending r = false → state r = Running → phase r = ph → st ≠ Running →
  mutated (mark_step_error_transform ts c ph e st) r r' ret →
  ret = r' ∧ state r' = st.
Proof.
  intros Hp Hs <- Hne [(->&Ht)|(x&Hx&_&->&Hv&Hst&Hph&Hcr)]%mutated_inv.
  - exfalso. revert Ht. unfold mark_step_error_transform. rewrite Hs.
    rewrite !bool_decide_eq_false_2 by (by intros []). simpl.
    rewrite is_cancelable_refresh_claim.
    replace (cancel_requested (refresh_claim _ c r)) with (cancel_requested r) by (by destruct r).
    unfold cancel_pending in Hp. by rewrite Hp.
  - split; [done|].
    apply mark_step_error_effect in Hx as (_&_&_&_&[(_&?&_)|(Hc&_)]); [congruence|].
    unfold cancel_pending in Hp. congruence.
Qed.

Lemma result_next ts c ph res r r' ret :
  wf_record r → cancel_pending r = false → state r = Running → phase r = ph →
  mutated (apply_step_result_transform ts c ph res) r r' ret →
  ret = r' ∧ state r' ≠ Queued ∧ state r' ≠ Blocked ∧ cancel_pending r' = false.
Proof.
  intros Hwf Hp Hs <- Hm. apply mutated_inv in Hm as [(->&Ht)|(x&Hx&Hwf'&->&Hv&Hst&Hph&Hcr)].
  { exfalso. revert Ht. rewrite apply_step_result_unfold. cbv zeta.
    rewrite bool_decide_eq_false_2 by (by intros []).
    repeat case_match; try done; intros (?&_&Hr)%bind_Ok; repeat case_match; try done;
      by apply bind_Ok in Hr as (?&_&[=]). }
  apply apply_step_result_effect in Hx as (_&Hsm&Hcr'&Hview).
  pose proof (same_view_trans _ _ _ (same_machine_view _ _ Hsm) Hv) as Hv'.
  split; [done|]. rewrite Hst. unfold cancel_pending in *. rewrite Hcr, Hcr'.
  destruct Hview as [Hs' Hp' _|_ Hcq Hcp Hs' Hp'|_ _ _ Hs' Hp'|i _ Hno Hix Hnx Hs'].
  - rewrite Hs', Hs. split_and!; try done.
    rewrite (is_cancelable_frame r r'); [done|done|congruence|congruence].
  - rewrite Hs'. split_and!; try done. unfold is_cancelable. rewrite Hst, Hs'.
    by rewrite andb_false_r.
  - rewrite Hs'. split_and!; try done. unfold is_cancelable. rewrite Hst, Hs'.
    by rewrite andb_false_r.
  - rewrite Hs', Hs. split_and!; try done.
    destruct (cancel_requested r) eqn:E; [|done]. simpl in *.
    apply is_cancelable_not_before; [congruence|].
    pose proof Hv' as (Hps&Hir&_). rewrite Hir. intros Hb%(positions_view _ _ _ _ Hv').
    destruct (Hno eq_refl) as [Hnc _].
    rewrite before_is_cancelable in Hnc; [done| |by rewrite Hs].
    destruct Hb as (j&k&Hj&Hk&Hlt). rewrite Hph in Hj.
    assert (list_index (phase x) (phases r) = Some (S i)) as Hj'
      by (apply list_index_NoDup; [by apply wf_phases_NoDup|done]).
    exists i, k. split_and!; [done..|]. simplify_eq. lia.
Qed.
End iteration.

(** ** The executor loop terminates, and refines the interleaved model *)

Section engine_facts.
Context `{PyStdlib} {W : Type} `{!RecordStore W} `{!RecordStoreLaws W} {E : Type}.
Context (clk : nat → nat → clock) (reg : OperationRegistry E)
  (hook : option (fault_hook E)) (max_steps : option nat) (retry_blocked : bool) (c : claim)
  (id : string).

Notation loop := (run_loop clk reg hook max_steps retry_blocked c id).

(** Mutations still ahead of the executor besides step executions. *)
Definition moves_left (r : op_record) : nat :=
  (if cancel_pending r then 1 else 0) +
  (if bool_decide (state r = Queued) || bool_decide (state r = Blocked) then 1 else 0).

(** The one record that makes the loop spin: queued in its own compensation
    phase, with a cancel requested.  [new_operation] never creates it. *)
Definition can_progress (r : op_record) : Prop :=
  state r = Queued → cancel_phase r ≠ Some (phase r).

Lemma moves_left_running r :
  state r = Running → cancel_pending r = false → moves_left r = 0%nat.
Proof. unfold moves_left. by intros -> ->. Qed.

Lemma run_loop_total n fuel k steps w e r :
  max_steps = Some n → rs_ready id w r → can_progress r →
  (n - steps + moves_left r + 1 ≤ fuel)%nat → is_Some (loop fuel k steps w e).
Proof.
  intros Hmax. revert k steps w e r. induction fuel as [|fuel IH]; [lia|].
  intros k steps w e r Hr Hcp Hle. simpl. destruct (ready_load _ _ _ Hr) as [-> Hwf].
  pose proof (dispatch_view retry_blocked (bool_decide (is_Some (reg !! op_type r)))
    (exhausted max_steps steps) r) as Hview.
  destruct (runner_dispatch _ _ _ _) as [| | | |ph] eqn:Hd; [done| | | |].
  - destruct (rs_mutate _ _ _) as [[w' ret]|] eqn:Hm; [|done].
    apply (ready_mutate _ _ _ r) in Hm as (r'&Hm&Hr'); [|by intros; constructor|done].
    apply checkpoint_next in Hm as (->&Hs); [|done..].
    destruct Hs as [Hs|[Hs Hp]]; [by rewrite bool_decide_eq_true_2|].
    rewrite bool_decide_eq_false_2 by (by rewrite Hs).
    apply (IH _ _ _ _ r'); [done| |].
    + intros Hq. congruence.
    + rewrite moves_left_running by done. unfold moves_left in Hle. rewrite Hview in Hle. lia.
  - destruct Hview as [Hp Hs].
    destruct (rs_mutate _ _ _) as [[w' ret]|] eqn:Hm; [|done].
    apply (ready_mutate _ _ _ r) in Hm as (r'&Hm&Hr'); [|by intros; constructor|done].
    apply start_next in Hm as (->&Hst&Hp'); [|done..].
    apply (IH _ _ _ _ r'); [done| |].
    + intros Hq. congruence.
    + rewrite moves_left_running by done. unfold moves_left in Hle.
      destruct Hs as [Hs|[Hs _]]; rewrite Hs in Hle; simpl in Hle; lia.
  - by destruct (rs_mutate _ _ _) as [[w' ret]|].
  - destruct Hview as (Hp&Hs&Hph&Hreg&Hex). bool_to_prop.
    destruct (reg !! op_type r) as [sp|]; [|by destruct Hreg].
    assert (steps < n)%nat as Hlt.
    { unfold exhausted in Hex. rewrite Hmax in Hex. by apply Nat.leb_gt in Hex. }
    destruct (exec_step hook sp r e) as [[res|x|x| |] e']; try done;
      (destruct (rs_mutate _ _ _) as [[w' ret]|] eqn:Hm; [|done]);
      (apply (ready_mutate _ _ _ r) in Hm as (r'&Hm&Hr'); [|by intros; constructor|done]).
    + apply result_next in Hm as (->&Hq&Hb&Hp'); [|done..].
      apply (IH _ _ _ _ r'); [done|by intros ?|]. unfold moves_left in *.
      rewrite Hp', !bool_decide_eq_false_2 by done. simpl. lia.
    + apply error_next in Hm as (->&Hst); [|done..].
      by rewrite bool_decide_eq_false_2 by (by rewrite Hst).
    + apply error_next in Hm as (->&Hst); [|done..].
      by rewrite bool_decide_eq_false_2 by (by rewrite Hst).
Qed.

(** An executor that returns the record has made a run of the interleaved
    model, so that the safety theorems of [OpRunner] are about it. *)
Lemma run_loop_run fuel k steps w e r x w' e' tr :
  rs_ready id w r → loop fuel k steps w e = Some (x, w', e') →
  ∃ r' tr', rtc run_step (Config r (Top c retry_blocked) tr) (Config r' Idle tr') ∧
    (∃ w'', rs_ready id w'' r' ∧ (∀ y b, x = RunReturned y b → y = r' ∧ w'' = w')).
Proof.
  revert k steps w e r tr. induction fuel as [|fuel IH]; [done|].
  intros k steps w e r tr Hr. simpl. destruct (ready_load _ _ _ Hr) as [-> Hwf].
  set (rg := bool_decide (is_Some (reg !! op_type r))).
  set (ex := exhausted max_steps steps).
  pose proof (dispatch_view retry_blocked rg ex r) as Hview.
  pose proof (run_dispatch c retry_blocked rg ex r tr) as Hstep.
  (* an exception of the store ends the executor where it is *)
  assert (∀ p tr0, rtc run_step (Config r (Top c retry_blocked) tr) (Config r p tr0) →
    ∀ w0 e0 ex0, Some (RunError ex0, w0, e0) = Some (x, w', e') →
    ∃ r' tr', rtc run_step (Config r (Top c retry_blocked) tr) (Config r' Idle tr') ∧
    (∃ w'', rs_ready id w'' r' ∧ (∀ y b, x = RunReturned y b → y = r' ∧ w'' = w'))) as Herr.
  { intros p tr0 Hrun w0 e0 ex0 [= <- <- <-]. exists r, tr0. split.
    - eapply rtc_r; [exact Hrun|]. apply run_crash.
    - by exists w. }
  destruct (runner_dispatch retry_blocked rg ex r) as [| | | |ph] eqn:Hd; simpl in Hstep.
  - intros [= <- <- <-]. exists r, tr. split; [by eapply rtc_once|].
    exists w. split; [done|]. by intros ?? [= <- <-].
  - destruct (rs_mutate _ _ _) as [[w1 ret]|] eqn:Hm;
      [|intros Heq; eapply Herr; [by apply rtc_once|done]].
    apply (ready_mutate _ _ _ r) in Hm as (r1&Hm&Hr1); [|by intros; constructor|done].
    assert (ret = r1) as -> by
      (destruct Hm as [Ht%cancel_checkpoint_unchanged ->|]; congruence).
    pose proof (run_cancel c retry_blocked _ _ _ _ tr Hm) as Hc.
    case_bool_decide as Hs.
    + intros [= <- <- <-]. exists r1, tr. split; [by eapply rtc_l, rtc_once|].
      exists w1. split; [done|]. by intros ?? [= <- <-].
    + intros Hl. destruct (IH _ _ _ _ r1 tr Hr1 Hl) as (r'&tr'&Hrun&Hw).
      exists r', tr'. split; [|done]. do 2 (eapply rtc_l; [done|]). done.
  - destruct (rs_mutate _ _ _) as [[w1 ret]|] eqn:Hm;
      [|intros Heq; eapply Herr; [by apply rtc_once|done]].
    apply (ready_mutate _ _ _ r) in Hm as (r1&Hm&Hr1); [|by intros; constructor|done].
    intros Hl. destruct (IH _ _ _ _ r1 tr Hr1 Hl) as (r'&tr'&Hrun&Hw).
    exists r', tr'. split; [|done]. eapply rtc_l; [done|].
    eapply rtc_l; [by eapply run_start|done].
  - destruct (rs_mutate _ _ _) as [[w1 ret]|] eqn:Hm;
      [|intros Heq; eapply Herr; [by apply rtc_once|done]].
    apply (ready_mutate _ _ _ r) in Hm as (r1&Hm&Hr1); [|by intros; constructor|done].
    assert (ret = r1) as -> by (by inversion Hm).
    intros [= <- <- <-]. exists r1, tr. split.
    + eapply rtc_l; [done|]. eapply rtc_once, run_unsupported. done.
    + exists w1. split; [done|]. by intros ?? [= <- <-].
  - destruct Hview as (Hp&Hs&Hph&Hreg&Hex). subst rg. bool_to_prop.
    destruct (reg !! op_type r) as [sp|]; [|by destruct Hreg].
    (* the step ran, its outcome is not persisted *)
    assert (∀ o, rtc run_step (Config r (Top c retry_blocked) tr)
      (Config r (PApply c retry_blocked ph o) (ph :: tr))) as Hexec.
    { intros o. eapply rtc_l; [done|]. eapply rtc_once, run_exec. }
    assert (∃ r' tr', rtc run_step (Config r (Top c retry_blocked) tr) (Config r' Idle tr') ∧
      (∃ w'', rs_ready id w'' r' ∧ r' = r)) as (rc&trc&Hrc&wc&Hwc&->).
    { exists r, (ph :: tr). split; [|by eexists].
      eapply rtc_r; [apply (Hexec (StepFails (OpError "" "" false None JNull)))|apply run_crash]. }
    destruct (exec_step hook sp r e) as [[res|y|y| |] e1].
    4, 5: intros [= <- <- <-]; exists r, trc; split; [done|]; by exists wc.
    all: (destruct (rs_mutate _ _ _) as [[w1 ret]|] eqn:Hm;
      [|intros Heq; eapply Herr;
        [apply (Hexec (StepFails (OpError "" "" false None JNull)))|done]]);
      apply (ready_mutate _ _ _ r) in Hm as (r1&Hm&Hr1); [|by intros; constructor|done].
    + pose proof (result_next _ _ _ _ _ _ _ Hwf Hp Hs Hph Hm) as (->&_).
      intros Hl. destruct (IH _ _ _ _ r1 (ph :: tr) Hr1 Hl) as (r'&tr'&Hrun&Hw).
      exists r', tr'. split; [|done]. etrans; [apply (Hexec (StepReturns res))|].
      eapply rtc_l; [by eapply run_apply|done].
    + pose proof (error_next _ _ _ _ Blocked _ _ _ Hp Hs Hph ltac:(done) Hm) as (->&Hst).
      rewrite bool_decide_eq_false_2 by (by rewrite Hst). intros [= <- <- <-].
      exists r1, (ph :: tr). split; [|exists w1; split; [done|]; by intros ?? [= <- <-]].
      etrans; [apply (Hexec (StepBlocks y))|]. eapply rtc_once.
      pose proof (run_apply c retry_blocked ph (StepBlocks y) _ _ _ _ (ph :: tr) Hm) as Ha.
      simpl in Ha. by rewrite bool_decide_eq_false_2 in Ha by (by rewrite Hst).
    + pose proof (error_next _ _ _ _ Failed _ _ _ Hp Hs Hph ltac:(done) Hm) as (->&Hst).
      rewrite bool_decide_eq_false_2 by (by rewrite Hst). intros [= <- <- <-].
      exists r1, (ph :: tr). split; [|exists w1; split; [done|]; by intros ?? [= <- <-]].
      etrans; [apply (Hexec (StepFails y))|]. eapply rtc_once.
      pose proof (run_apply c retry_blocked ph (StepFails y) _ _ _ _ (ph :: tr) Hm) as Ha.
      simpl in Ha. by rewrite bool_decide_eq_false_2 in Ha by (by rewrite Hst).
Qed.
End engine_facts.

(** ** The undisturbed executor completes *)

Lemma apply_step_result_total `{PyStdlib} ts c res r :
  wf_record r → ∃ x, apply_step_result_transform ts c (phase r) res r = Ok (true, x).
Proof.
  intros Hwf. rewrite apply_step_result_unfold. cbv zeta.
  rewrite bool_decide_eq_false_2 by (by intros []).
  destruct (progressed_frame ts c (phase r) res r) as (Hsm&_&Hp&_). cbv zeta in *.
  generalize dependent (progressed ts c (phase r) res r). intros q Hsm Hp.
  pose proof Hsm as (_&_&_&Hps&_).
  repeat (case_match; [by eexists|]). rewrite bool_decide_eq_false in *.
  destruct (list_index_elem_of _ _ (wf_phase r Hwf)) as [i Hi].
  pose proof (list_index_lookup _ _ _ Hi) as Hl. pose proof (list_index_lt _ _ _ Hi) as Hlt.
  pose proof (wf_phases_NoDup r Hwf) as Hnd.
  unfold phase_index. rewrite Hps, Hi. cbn.
  destruct (phases r !! S i) as [np|] eqn:En.
  - unfold validate_phase_transition, phase_index. rewrite Hp, Hps, Hi.
    rewrite (list_index_NoDup np (phases r) (S i)) by done.
    assert (np ∈ phases r) by by eapply list_elem_of_lookup_2.
    pose proof (wf_phase r Hwf).
    destruct (String.eqb _ _); [by eexists|].
    rewrite !bool_decide_eq_false_2 by tauto. simpl.
    replace (i + 1)%nat with (S i) by lia. rewrite Nat.eqb_refl. simpl. by eexists.
  - exfalso. apply lookup_ge_None in En.
    match goal with Hn : last (phases q) ≠ _ |- _ => apply Hn end.
    rewrite Hps, last_lookup. rewrite <- Hl. f_equal. lia.
Qed.

Section completion.
Context `{PyStdlib} {W : Type} `{!RecordStore W} `{!RecordStoreLaws W} {E : Type}.
Context (clk : nat → nat → clock) (Hclk : ∀ k i, valid_clock (clk k i)).
Context (reg : OperationRegistry E) (hook : option (fault_hook E)) (retry_blocked : bool)
  (c : claim) (Hc : valid_claim_id c) (id : string).
(** [seen e] lists the phases whose step functions have run, newest first. *)
Context (seen : E → list string).

Notation loop := (run_loop clk reg hook None retry_blocked c id).

(** Every step of the type returns a valid result that advances. *)
Definition advancing (sp : OperationTypeSpec E) : Prop :=
  ∀ r e, phase r ∈ ts_phases sp → ∃ res e', exec_step hook sp r e = (Returned res, e') ∧ sr_advance res = true ∧
    valid_step_result res ∧ seen e' = phase r :: seen e.

Lemma bump_machine now r : phases (bump now r) = phases r ∧ op_type (bump now r) = op_type r.
Proof. by destruct r. Qed.

(** A mutation that changes the record, on an undisturbed store. *)
Lemma persist_written t w r x :
  (∀ i, engine_transform (t i)) → rs_ready id w r → t 0%nat r = Ok (true, x) → wf_record x →
  ∃ w' r', rs_mutate id t w = Ok (w', r') ∧ rs_ready id w' r' ∧ wf_record r' ∧
    phases r' = phases r ∧ op_type r' = op_type r ∧ irreversible_phase r' = irreversible_phase r ∧
    state r' = state x ∧ phase r' = phase x ∧ cancel_requested r' = cancel_requested x.
Proof.
  intros Hfn Hr Ht Hwf.
  pose proof (engine_transform_frame _ _ _ (Hfn _) Ht) as (_&Hid&Hty&Hps&Hir&_&_&_&_&Hrev).
  destruct (ready_progress id t w r true x) as (w'&ret&Hm); try done.
  destruct (ready_mutate id t w r w' ret Hfn Hr Hm) as (r'&Hmut&Hr').
  destruct Hmut as [Ht'|now y Ht' Hy Hts -> ->]; rewrite Ht in Ht'; simplify_eq.
  exists w', (bump now y). destruct (bump_view now y) as ((?&?&?)&?&?&?).
  destruct (bump_machine now y). split_and!; try congruence; try done. by apply wf_bump.
Qed.

Lemma run_from_phase sp fuel k steps w e r i :
  advancing sp → phases r = ts_phases sp → rs_ready id w r → reg !! op_type r = Some sp →
  state r = Running → cancel_requested r = false →
  list_index (phase r) (phases r) = Some i → (length (phases r) - i + 1 ≤ fuel)%nat →
  ∃ w' r' e', loop fuel k steps w e = Some (RunReturned r' true, w', e') ∧
    rs_ready id w' r' ∧ state r' = Succeeded ∧
    seen e' = reverse (drop i (phases r)) ++ seen e.
Proof.
  intros Hadv. revert k steps w e r i.
  induction fuel as [|fuel IH]; intros k steps w e r i Hsp Hr Hreg Hs Hcr Hi Hle; [lia|].
  simpl. destruct (ready_load _ _ _ Hr) as [-> Hwf].
  unfold runner_dispatch. rewrite Hs, Hcr, Hreg. simpl.
  destruct (Hadv r e) as (res&e'&Hx&Hres&Hvalid&Hseen); [rewrite <- Hsp; by apply wf_phase|].
  rewrite Hx.
  destruct (apply_step_result_total (clk k 0%nat) c res r Hwf) as [x Ht].
  pose proof (apply_step_result_wf (clk k 0%nat) (Hclk _ _) c (phase r) res Hc Hvalid _ _ _ Hwf Ht)
    as Hwfx.
  pose proof (apply_step_result_effect _ _ _ _ _ _ Ht) as (_&Hsm&Hcx&Hview).
  destruct (persist_written (λ i, apply_step_result_transform (clk k i) c (phase r) res)
    w r x ltac:(intros; constructor) Hr Ht Hwfx) as (w1&r1&->&Hr1&Hwf1&Hps1&Hty1&_&Hs1&Hp1&Hc1).
  pose proof (list_index_lookup _ _ _ Hi) as Hl. pose proof (list_index_lt _ _ _ Hi) as Hlt.
  rewrite (drop_S _ _ _ Hl).
  destruct Hview as [_ _ [|(?&_)]|_ ?|_ _ Hlast Hsx Hpx|j _ _ Hj Hnext Hsx]; try congruence.
  - destruct fuel as [|fuel]; [lia|]. simpl.
    destruct (ready_load _ _ _ Hr1) as [-> _]. unfold runner_dispatch. rewrite Hs1, Hsx. simpl.
    eexists _, _, _. split_and!; [done|done|congruence|].
    rewrite Hseen. rewrite last_lookup in Hlast.
    assert (Nat.pred (length (phases r)) = i) as Hlen.
    { exact (NoDup_lookup _ _ _ _ (wf_phases_NoDup r Hwf) Hlast Hl). }
    rewrite drop_ge by lia. done.
  - assert (i = j) as <- by congruence.
    assert (list_index (phase r1) (phases r1) = Some (S i)) as Hi1.
    { rewrite Hps1, Hp1. apply list_index_NoDup; [by apply wf_phases_NoDup|done]. }
    destruct (IH (S k) (S steps) w1 e' r1 (S i)) as (w'&r'&e2&Hrun&Hr'&Hs'&Hseen');
      try congruence; [rewrite Hps1; lia|].
    exists w', r', e2. split_and!; try done.
    rewrite Hseen', Hps1, Hseen, reverse_cons, <- app_assoc. done.
Qed.

Lemma run_from_queued sp fuel k steps w e r :
  advancing sp → phases r = ts_phases sp → rs_ready id w r → reg !! op_type r = Some sp →
  state r = Queued → cancel_requested r = false → head (phases r) = Some (phase r) →
  (length (phases r) + 2 ≤ fuel)%nat →
  ∃ w' r' e', loop fuel k steps w e = Some (RunReturned r' true, w', e') ∧
    rs_ready id w' r' ∧ state r' = Succeeded ∧ seen e' = reverse (phases r) ++ seen e.
Proof.
  intros Hadv Hsp Hr Hreg Hs Hcr Hh Hle. destruct fuel as [|fuel]; [lia|]. simpl.
  destruct (ready_load _ _ _ Hr) as [-> Hwf].
  unfold runner_dispatch. rewrite Hs, Hcr. simpl.
  destruct (claim_and_start_transform (clk k 0%nat) c retry_blocked r) as [[b x]|] eqn:Ht;
    [|unfold claim_and_start_transform in Ht; by rewrite Hs in Ht].
  assert (b = true) as ->.
  { unfold claim_and_start_transform in Ht. rewrite Hs in Ht. by injection Ht. }
  pose proof (claim_and_start_wf _ (Hclk k 0%nat) c retry_blocked Hc _ _ _ Hwf Ht) as Hwfx.
  pose proof (claim_and_start_effect _ _ _ _ _ Ht) as (Hsm&_&Hsx&Hpx&Hcx).
  destruct (persist_written (λ i, claim_and_start_transform (clk k i) c retry_blocked)
    w r x ltac:(intros; constructor) Hr Ht Hwfx) as (w1&r1&->&Hr1&_&Hps1&Hty1&_&Hs1&Hp1&Hc1).
  destruct (run_from_phase sp fuel (S k) steps w1 e r1 0) as (w'&r'&e'&Hrun&?&?&Hseen);
    try done; try congruence.
  - rewrite Hps1, Hp1, Hpx. apply list_index_NoDup; [by apply wf_phases_NoDup|].
    destruct (phases r); simplify_eq/=. done.
  - rewrite Hps1. lia.
  - exists w', r', e'. split_and!; try done. by rewrite Hseen, Hps1.
Qed.
End completion.

(** ** The undisturbed cancel *)

Section cancelling.
Context `{PyStdlib} {W : Type} `{!RecordStore W} `{!RecordStoreLaws W}.
Context (clk : nat → nat → clock) (Hclk : ∀ k i, valid_clock (clk k i)) (id : string).

(** What [cancel_operation] leaves behind. *)
Definition cancel_result (r r' : op_record) : Prop :=
  match classify_cancel r with
  | Requested =>
      if bool_decide (state r = Blocked) && bool_decide (cancel_phase r = None)
      then state r' = Cancelled
      else cancel_requested r' = true ∧ state r' = state r ∧ phase r' = phase r
  | _ => r' = r
  end.

Lemma cancel_loop_spec fuel k w r :
  rs_ready id w r →
  ∃ w' r', cancel_loop clk (S fuel) k id w = Some (Ok (w', r', classify_cancel r)) ∧
    rs_ready id w' r' ∧ cancel_result r r'.
Proof.
  intros Hr. simpl. destruct (ready_load _ _ _ Hr) as [-> Hwf]. unfold cancel_result.
  rewrite <- (cancel_phase_set_eq r Hwf).
  destruct (classify_cancel r) eqn:Hcl; simpl; try (by exists w, r).
  destruct (_ && _) eqn:Hb.
  - bool_to_prop.
    assert (is_cancelable r = true) as Hcan.
    { unfold classify_cancel in Hcl. by destruct (state r), (is_cancelable r). }
    destruct (cancel_blocked_transform (clk k 0%nat) r) as [[b x]|] eqn:Ht;
      unfold cancel_blocked_transform in Ht;
      match goal with Hs : state r = Blocked |- _ => rewrite Hs, Hcan in Ht; simpl in Ht end;
      [|done].
    assert (cancel_blocked_transform (clk k 0%nat) r = Ok (true, x)) as Ht'.
    { unfold cancel_blocked_transform.
      match goal with Hs : state r = Blocked |- _ => rewrite Hs, Hcan end.
      by injection Ht as <- <-. }
    clear Ht.
    pose proof (cancel_blocked_wf _ (Hclk k 0%nat) _ _ _ Hwf Ht') as Hwfx.
    pose proof (cancel_blocked_effect _ _ _ Ht') as (Hsm&_&_&Hsx&_&_).
    destruct (persist_written id (λ i, cancel_blocked_transform (clk k i)) w r x ltac:(intros; constructor) Hr Ht' Hwfx)
      as (w1&r1&->&Hr1&_&_&_&_&Hs1&_).
    rewrite bool_decide_eq_true_2 by congruence. exists w1, r1. split_and!; [done|done|congruence].
  - destruct (cancel_requested r) eqn:Hcr.
    + assert (request_cancel_transform (clk k 0%nat) r = Ok (false, r)) as Ht.
      { unfold request_cancel_transform. by rewrite Hcl, Hcr. }
      destruct (ready_progress id (λ i, request_cancel_transform (clk k i)) w r false r
        ltac:(intros; constructor) Hr Ht Hwf) as (w1&ret&Hm).
      destruct (ready_mutate _ _ _ r _ _ (λ _, et_request _) Hr Hm) as (r1&Hmut&Hr1). rewrite Hm.
      destruct Hmut as [Ht' ->|]; [|congruence].
      assert (ret = r) as -> by congruence. rewrite Hcr. by exists w1, r.
    + destruct (request_cancel_transform (clk k 0%nat) r) as [[b x]|] eqn:Ht;
        [|unfold request_cancel_transform in Ht; by rewrite Hcl, Hcr in Ht].
      assert (b = true) as ->.
      { unfold request_cancel_transform in Ht. rewrite Hcl, Hcr in Ht. by injection Ht. }
      pose proof (request_cancel_wf _ (Hclk k 0%nat) _ _ _ Hwf Ht) as Hwfx.
      pose proof (request_cancel_effect _ _ _ Ht) as (Hsm&_&_&Hsx&Hpx&Hcx).
      destruct (persist_written id (λ i, request_cancel_transform (clk k i)) w r x ltac:(intros; constructor) Hr Ht Hwfx)
        as (w1&r1&->&Hr1&_&_&_&_&Hs1&Hp1&Hc1).
      rewrite Hc1, Hcx. exists w1, r1. split_and!; try done; congruence.
Qed.
End cancelling.

(** ** The store of [OpStore] is a [RecordStore] *)

(** One [OperationStore] object on a file system: the effective uid and the
    pinned directory identity, and the write environments still to come. *)
Record fs_store := FsStore {
  fs_world : world;
  fs_pin : option (Z * Z);
  fs_env : nat → write_env;
  fs_ino : nat → Z * Z;
  fs_next : nat }.

Definition fs_with (w : world) (n : nat) (s : fs_store) : fs_store :=
  FsStore w (fs_pin s) (fs_env s) (fs_ino s) n.
Definition fs_pinned (p : option (Z * Z)) (s : fs_store) : fs_store :=
  FsStore (fs_world s) p (fs_env s) (fs_ino s) (fs_next s).

Module StoreInstance.
Section instance.
Context `{PyStdlib} (euid : Z).

#[local] Instance fs_record_store : RecordStore fs_store := {|
  rs_open create s :=
    w ← open_store euid create (λ i, fs_ino s (fs_next s + i)%nat) (fs_world s);
    Ok (fs_with w (fs_next s + 2) s);
  rs_load id s := load euid (fs_pin s) id (fs_world s);
  rs_mutate id fn s :=
    let* (w, r) := mutate euid (fs_pin s) (λ i, fs_env s (fs_next s + i)%nat) id fn (fs_world s) in
    Ok (fs_with w (fs_next s + MUTATE_ATTEMPTS) s, r);
  rs_create r s :=
    let* (w, r) := create euid (fs_pin s) (fs_env s (fs_next s)) r (fs_world s) in
    Ok (fs_with w (fs_next s + 1) s, r);
  rs_acquire id s :=
    let* (o, w) := acquire_run_lock euid id (fs_ino s (fs_next s)) (fs_world s) in
    match o with
    | None => Ok (false, fs_with w (fs_next s + 1) s)
    | Some p => Ok (true, fs_pinned (Some p) (fs_with w (fs_next s + 1) s))
    end;
  rs_release id s := fs_pinned None (fs_with (release_run_lock id (fs_world s)) (fs_next s) s) |}.

(** A lock file that is absent, or usable. *)
Definition lock_usable (id : string) (w : world) : Prop :=
  match w_files w !! lock_file id with
  | None => True
  | Some f => n_type (f_node f) = FReg ∧ n_openable (f_node f) = true ∧
              n_uid (f_node f) = euid ∧ n_mode (f_node f) = FILE_MODE
  end.

(** Every temp file name still to be drawn is free. *)
Definition temps_free (id : string) (s : fs_store) : Prop :=
  ∀ n, valid_env (fs_env s n) ∧ w_files (fs_world s) !! tmp_file (fs_env s n) id = None.

Definition fs_ready (id : string) (s : fs_store) (r : op_record) : Prop :=
  load euid (fs_pin s) id (fs_world s) = Ok r ∧ lock_usable id (fs_world s) ∧ temps_free id s.

Lemma acquire_usable id ino w :
  lock_usable id w → ∃ w1, acquire_record_lock euid id ino w = Ok w1 ∧ lock_usable id w1 ∧
    (∀ n, n ≠ lock_file id → w_files w1 !! n = w_files w !! n).
Proof.
  intros Hl. unfold acquire_record_lock, open_lock_file, lock_usable in *.
  destruct (w_files w !! lock_file id) as [f|] eqn:E.
  - destruct Hl as (Hty&Hop&Hu&Hm). unfold verify_lock_file.
    rewrite Hty, Hop. simpl. rewrite Hty, Hu, Hm, !Z.eqb_refl. simpl. exists w.
    destruct w; simpl in *. rewrite E. split_and!; done.
  - unfold verify_lock_file. simpl. rewrite Z.eqb_refl. simpl. eexists. split; [done|]. simpl.
    split; [by rewrite lookup_insert_eq|]. intros n Hn. by rewrite lookup_insert_ne.
Qed.

Lemma tmp_file_not_lock' env id : valid_env env → lock_file id ≠ tmp_file env id.
Proof. intros Hv Heq. by apply (tmp_file_not_lock env id id Hv). Qed.

(** A write with the current revision succeeds, and leaves the store ready. *)
Lemma write_ready id s n r x :
  fs_ready id s r → wf_record x → operation_id x = operation_id r → rev x = rev r →
  ∃ w', write_record euid (fs_pin s) (fs_env s n) x id (Some (rev x)) (fs_world s) =
          Ok (w', bump (we_now (fs_env s n)) x) ∧
        ∀ m, fs_ready id (fs_with w' m s) (bump (we_now (fs_env s n)) x).
Proof.
  intros (Hload&Hlock&Hfree) Hwf Hid Hrev. destruct (Hfree n) as [Henv Htmp].
  pose proof Hload as (Hvid&[d Hd]&Hrd)%load_Ok.
  destruct (acquire_usable id (we_ino (fs_env s n) 0%nat) (fs_world s) Hlock)
    as (w1&Hacq&Hl1&Hf1).
  destruct (write_record euid (fs_pin s) (fs_env s n) x id (Some (rev x)) (fs_world s))
    as [[w' r']|e] eqn:Hw.
  - destruct (write_record_Ok euid _ _ _ _ _ _ _ _ Henv Hw) as (_&->&_&_&Hload'&_).
    destruct (write_record_files euid _ _ _ _ _ _ _ _ Henv Hw) as (w2&Hacq2&Hf2).
    assert (w2 = w1) as -> by congruence.
    exists w'. split; [done|]. intros m. split_and!.
    + simpl. apply Hload'. rewrite Hid. by apply (read_via_dfd_wf euid) in Hrd as [].
    + unfold lock_usable in *. simpl. rewrite Hf2.
      rewrite lookup_insert_ne by apply record_file_not_lock.
      by rewrite lookup_delete_ne by (by apply not_eq_sym, tmp_file_not_lock').
    + intros m'. destruct (Hfree m') as [Henv' Htmp']. split; [done|]. simpl. rewrite Hf2.
      rewrite lookup_insert_ne by (by apply not_eq_sym, tmp_file_not_record).
      apply lookup_delete_None. right.
      by rewrite Hf1 by (by apply not_eq_sym, tmp_file_not_lock').
  - exfalso. unfold write_record in Hw.
    rewrite (proj2 (validate_record_wf x) Hwf), Hd, Hvid, Hacq in Hw. simpl in Hw.
    rewrite (read_via_dfd_frame euid id (fs_world s) w1) in Hw
      by (apply Hf1, record_file_not_lock).
    rewrite Hrd, Hrev, Z.eqb_refl in Hw. simpl in Hw.
    rewrite Hf1 in Hw by (by apply not_eq_sym, tmp_file_not_lock').
    by rewrite Htmp in Hw.
Qed.

(** The first of the attempts. *)
Lemma mutate_unfold pinned env id fn w :
  mutate euid pinned env id fn w =
  (r ← load euid pinned id w;
   let* (changed, r') := fn 0%nat r in
   if changed then
     match write_record euid pinned (env 0%nat) r' id (Some (rev r')) w with
     | Err (OperationConflict _) => mutate_from euid pinned env id fn 1 63 w
     | Err x => Err x
     | Ok res => Ok res
     end
   else Ok (w, r')).
Proof. reflexivity. Qed.

(** Opening a healthy store changes nothing. *)
Lemma open_store_ready pin b ino w d :
  open_operations_dir euid pin w = Ok d → open_store euid b ino w = Ok w.
Proof.
  unfold open_operations_dir, open_root_dir, open_operations_from_root, open_entry.
  unfold open_store, verify_root_entry, verify_operations_entry. intros Hd.
  apply bind_Ok in Hd as ([]&Hr&Hd). apply bind_Ok in Hr as ([]&->&Hr).
  destruct (w_root w) as [n|]; [|done]. apply bind_Ok in Hr as (n'&Hn&Hr).
  destruct (w_ops w) as [m|] eqn:Eo; [|done]. apply bind_Ok in Hd as (m'&Hm&Hd).
  ok_inv. simpl.
  repeat match goal with Hg : check_dir _ _ _ _ _ _ = Ok _ |- _ => rewrite Hg; clear Hg; simpl; rewrite ?Eo end.
  done.
Qed.

(** The pin a runner takes is the identity of the directory it then opens. *)
Lemma open_operations_dir_pin pin w d :
  open_operations_dir euid pin w = Ok d → open_operations_dir euid (Some (n_ino d)) w = Ok d.
Proof.
  unfold open_operations_dir, open_operations_from_root. intros (u&Hr&Hd)%bind_Ok.
  rewrite Hr. cbn [mbind result_bind] in *. apply bind_Ok in Hd as (n&Hn&Hd). rewrite Hn.
  cbn [mbind result_bind]. apply bind_Ok in Hd as (u'&Hc&Hd). rewrite Hc.
  cbn [mbind result_bind]. apply bind_Ok in Hd as (?&_&[= <-]).
  by rewrite bool_decide_eq_false_2 by (by intros []).
Qed.

#[local] Program Instance fs_record_store_laws : RecordStoreLaws fs_store := {|
  rs_ready := λ id s r, fs_ready id s r |}.
Next Obligation.
  intros id s r (Hl&_). split; [done|]. apply load_Ok in Hl as (_&_&Hr).
  by apply read_via_dfd_wf in Hr as [].
Qed.
Next Obligation.
  intros id fn s r s' ret Hfn Hs Hm. simpl in Hm. apply bind_Ok in Hm as ([w' ret']&Hm&[= <- ->]).
  rewrite mutate_unfold in Hm. apply bind_Ok in Hm as (r0&Hl&Hm). pose proof Hs as (Hload&Hlock&Hfree).
  rewrite Hload in Hl. injection Hl as <-. apply bind_Ok in Hm as ([b x]&Ht&Hm).
  destruct b; [|injection Hm as <- <-; exists r; split; [by apply mutated_same|done]].
  pose proof (engine_transform_frame _ _ _ (Hfn _) Ht) as (_&Hid&_&_&_&_&_&_&_&Hrev).
  rewrite Nat.add_0_r in Hm. destruct (Hfree (fs_next s)) as [Henv _].
  destruct (write_record _ _ _ _ _ _ _) as [[w1 r1]|e] eqn:Hw.
  - injection Hm as <- <-.
    destruct (write_record_Ok euid _ _ _ _ _ _ _ _ Henv Hw) as (Hwfx&->&_).
    eexists. split; [eapply mutated_written; try done; apply Henv|].
    destruct (write_ready id s (fs_next s) r x Hs Hwfx Hid Hrev) as (w2&Hw2&Hready).
    rewrite Hw in Hw2. injection Hw2 as <-. apply Hready.
  - exfalso. destruct e; try done.
    by eapply (write_record_conflict euid _ _ _ _ _ _ _ Henv Hw).
Qed.
Next Obligation.
  intros id fn s r b x Hfn Hs Ht Hwf. simpl. rewrite mutate_unfold.
  pose proof Hs as (-> &_). cbn [mbind result_bind]. rewrite Ht. cbn [mbind result_bind].
  destruct b; [|by eexists _, _].
  pose proof (engine_transform_frame _ _ _ (Hfn _) Ht) as (_&Hid&_&_&_&_&_&_&_&Hrev).
  destruct (write_ready id s (fs_next s) r x) as (w2&Hw2&_); try done.
  rewrite Nat.add_0_r, Hw2. simpl. by eexists _, _.
Qed.
Next Obligation.
  intros b id s r (Hload&Hlock&Hfree). simpl.
  pose proof Hload as (_&[d Hd]&_)%load_Ok.
  rewrite (open_store_ready _ _ _ _ _ Hd).
  eexists. split; [done|]. done.
Qed.
Next Obligation.
  intros id s r b s' (Hload&Hlock&Hfree) Ha. simpl in Ha.
  apply bind_Ok in Ha as ([o w']&Hr&Ha). unfold acquire_run_lock in Hr.
  apply bind_Ok in Hr as (?&_&Hr). apply bind_Ok in Hr as (?&Hroot&Hr).
  apply bind_Ok in Hr as (n&Hn&Hr). apply bind_Ok in Hr as ([l m]&_&Hr).
  apply bind_Ok in Hr as (?&_&Hr).
  pose proof Hload as (Hvid&_&Hrd)%load_Ok.
  assert (open_operations_dir euid None (fs_world s) = Ok n) as Hd.
  { unfold open_operations_dir. by rewrite Hroot. }
  destruct (bool_decide _); injection Hr as <- <-; injection Ha as <- <-.
  - split; [|by split]. exact Hload.
  - split; [|by split]. apply load_Ok. split_and!; [done| |done].
    exists n. by apply open_operations_dir_pin in Hd.
Qed.
End instance.
End StoreInstance.

(** ** Properties of the engine *)

Section properties.
Context `{PyStdlib} {W : Type} `{!RecordStore W} `{!RecordStoreLaws W} {E : Type}.
Context (clk : nat → nat → clock) (reg : OperationRegistry E)
  (hook : option (fault_hook E)) (retry_blocked : bool) (c : claim) (id : string).

(** C17: an executor invocation with a step budget ends, whatever the steps
    do: besides the budgeted steps it makes at most two transitions. *)
Theorem try_run_terminates n fuel w e r :
  rs_ready id w r → can_progress r → (n + 3 ≤ fuel)%nat →
  is_Some (try_run_pending_steps clk reg hook (Some n) retry_blocked c id fuel w e).
Proof.
  intros Hr Hcp Hle. unfold try_run_pending_steps.
  destruct (ready_open true id w r Hr) as (w1&->&Hr1).
  destruct (rs_acquire id w1) as [[[] w2]|] eqn:Ha; [|done..].
  destruct (run_loop_total clk reg hook (Some n) retry_blocked c id n fuel 0 0 w2 e r)
    as [[[x w3] e3] ->]; try done; [by eapply ready_acquire|].
  unfold moves_left. destruct (cancel_pending r), (_ || _); lia.
Qed.

(** C18: the executable loop refines the interleaved executor model: what it
    returns is the outcome of a run of that model, so the safety theorems on
    cancellation and completion are about it. *)
Theorem try_run_refines max_steps fuel w e r y w' e' :
  rs_ready id w r →
  try_run_pending_steps clk reg hook max_steps retry_blocked c id fuel w e =
    Some (RunReturned y true, w', e') →
  ∃ tr, rtc run_step (Config r Idle []) (Config y Idle tr).
Proof.
  intros Hr. unfold try_run_pending_steps.
  destruct (ready_open true id w r Hr) as (w1&->&Hr1).
  destruct (rs_acquire id w1) as [[[] w2]|] eqn:Ha; [|by destruct (rs_load _ _)|done].
  intros ([[x w3] e3]&Hl&[= -> <- <-])%bind_Some.
  apply (run_loop_run _ _ _ _ _ _ _ _ _ _ _ _ r _ _ _ []) in Hl as (r'&tr'&Hrun&w''&_&Hx);
    [|by eapply ready_acquire].
  destruct (Hx _ _ eq_refl) as [-> _].
  exists tr'. eapply rtc_l; [apply run_acquire|done].
Qed.

(** C16: when every step function returns a valid advancing result, an
    undisturbed invocation on a fresh operation runs each recorded phase
    exactly once, in order, and leaves the operation succeeded. *)
Theorem try_run_completes (seen : E → list string) sp fuel w e r w1 w2 :
  (∀ k i, valid_clock (clk k i)) → valid_claim_id c → advancing hook seen sp →
  rs_ready id w r → rs_open true w = Ok w1 → rs_acquire id w1 = Ok (true, w2) →
  reg !! op_type r = Some sp → phases r = ts_phases sp → state r = Queued →
  cancel_requested r = false → head (phases r) = Some (phase r) →
  (length (phases r) + 2 ≤ fuel)%nat →
  ∃ w' r' e', try_run_pending_steps clk reg hook None retry_blocked c id fuel w e =
      Some (RunReturned r' true, w', e') ∧
    state r' = Succeeded ∧ seen e' = reverse (phases r) ++ seen e.
Proof.
  intros Hclk Hc Hadv Hr Ho Ha Hreg Hsp Hs Hcr Hh Hf.
  destruct (ready_open true id w r Hr) as (w1'&Ho'&Hr1). assert (w1' = w1) as -> by congruence.
  pose proof (ready_acquire _ _ _ _ _ Hr1 Ha) as Hr2.
  destruct (run_from_queued clk Hclk reg hook retry_blocked c Hc id seen sp fuel 0 0 w2 e r)
    as (w'&r'&e'&Hl&_&Hs'&Hseen); try done.
  exists (rs_release id w'), r', e'. split; [|done].
  unfold try_run_pending_steps. by rewrite Ho, Ha, Hl.
Qed.

(** [cancel_operation] on an undisturbed store returns the disposition of
    the record it found; a terminal or uncancellable operation is untouched,
    a blocked one without compensation is cancelled on the spot, and any
    other is left where it is with the cancel flag raised. *)
Theorem cancel_operation_result fuel w r :
  (∀ k i, valid_clock (clk k i)) → rs_ready id w r →
  ∃ w' r', cancel_operation clk (S fuel) id w = Some (Ok (w', r', classify_cancel r)) ∧
    rs_ready id w' r' ∧ cancel_result r r'.
Proof.
  intros Hclk Hr. unfold cancel_operation. destruct (ready_open false id w r Hr) as (w1&->&Hr1).
  by apply cancel_loop_spec.
Qed.
End properties.

(** ** A concrete store *)

Section demo.
#[local] Existing Instance demo_stdlib.
#[local] Existing Instance StoreInstance.fs_record_store.
#[local] Existing Instance StoreInstance.fs_record_store_laws.

Definition demo_uid : Z := 1000.
Definition demo_env : write_env := WriteEnv demo_now 42 "0123abcd" (λ n, (1, Z.of_nat n)).
Definition demo_world (r : op_record) : world :=
  World (Some (FNode FDir demo_uid DIR_MODE true (1, 1)))
    (Some (FNode FDir demo_uid DIR_MODE true (1, 2)))
    {[ "op-1.json" := File (FNode FReg demo_uid FILE_MODE true (1, 3)) (Parsed (to_json r)) ]}
    ∅ ∅.
Definition demo_store (r : op_record) : fs_store :=
  FsStore (demo_world r) None (λ _, demo_env) (λ _, (1, 9)) 0.
#[local] Instance demo_store_rs : RecordStore fs_store := StoreInstance.fs_record_store demo_uid.
#[local] Instance demo_store_laws : RecordStoreLaws fs_store :=
  StoreInstance.fs_record_store_laws demo_uid.

Lemma demo_env_valid : valid_env demo_env.
Proof. split_and!; [done|done|]. apply (bool_decide_eq_true_1 (Forall _ _)). vm_compute. reflexivity. Qed.

Lemma demo_record_ready : rs_ready "op-1" (demo_store demo_record) demo_record.
Proof.
  split_and!.
  - vm_compute. reflexivity.
  - vm_compute. done.
  - intros n. split; [apply demo_env_valid|]. vm_compute. reflexivity.
Qed.

(** Steps that record the phase they ran in. *)
Definition demo_step : step_fn (list string) :=
  λ r e, (Returned (StepResult [("bytes", 7)] true JNull), phase r :: e).
Definition demo_spec : OperationTypeSpec (list string) :=
  TypeSpec "restore" demo_phases "publishing" (Some "reopening")
    (λ _, Ok [("source", JStr "backup-1")]) ((λ p, (p, demo_step)) <$> demo_phases).
Definition demo_registry : OperationRegistry (list string) := register demo_spec ∅.
Definition demo_clk : nat → nat → clock := λ _ _, demo_clock.

Lemma demo_advancing : advancing None (λ e, e) demo_spec.
Proof.
  intros r e Hin. exists (StepResult [("bytes", 7)] true JNull), (phase r :: e).
  split_and!; [|done| |done].
  - unfold exec_step, demo_spec, demo_phases in *. simpl in *.
    repeat (apply elem_of_cons in Hin as [Hp|Hin]; [unfold demo_step; rewrite Hp; simpl; by rewrite Hp|]).
    by apply elem_of_nil in Hin.
  - split; [|by right]. repeat constructor. apply (bool_decide_eq_true_1 (_ ∈ _)). done.
Qed.

Definition demo_run (fuel : nat) :=
  try_run_pending_steps demo_clk demo_registry None None false demo_claim "op-1" fuel
    (demo_store demo_record) [].

Theorem try_run_terminates_witness :
  is_Some (try_run_pending_steps demo_clk demo_registry None (Some 1%nat) false demo_claim "op-1" 4
    (demo_store demo_record) []).
Proof. by apply (try_run_terminates _ _ _ _ _ _ _ _ _ _ _ demo_record_ready). Defined.

Theorem try_run_completes_witness :
  ∃ w' r' e', demo_run 5 = Some (RunReturned r' true, w', e') ∧ state r' = Succeeded ∧
    e' = reverse demo_phases.
Proof.
  destruct (try_run_completes demo_clk demo_registry None false demo_claim "op-1" (λ e, e) demo_spec
    5 (demo_store demo_record) [] demo_record (fs_with (demo_world demo_record) 2 (demo_store demo_record))
    (fs_with (set_run_held {["op-1"]}
        (set_root_files {[ ".operation-op-1.run" := File (new_file_node demo_uid (1, 9)) Unreadable ]}
           (demo_world demo_record))) 3 (fs_pinned (Some (1, 2)) (demo_store demo_record))))
    as (w'&r'&e'&Hr&Hs&He).
  - intros k i. apply demo_clock_valid.
  - by split.
  - apply demo_advancing.
  - apply demo_record_ready.
  - vm_compute. reflexivity.
  - vm_compute. reflexivity.
  - vm_compute. reflexivity.
  - reflexivity.
  - reflexivity.
  - reflexivity.
  - reflexivity.
  - simpl. lia.
  - exists w', r', e'. split_and!; [exact Hr|exact Hs|]. rewrite He. apply app_nil_r.
Defined.

Theorem try_run_refines_witness :
  ∃ y w' e', demo_run 5 = Some (RunReturned y true, w', e') ∧
    ∃ tr, rtc run_step (Config demo_record Idle []) (Config y Idle tr).
Proof.
  destruct (demo_run 5) as [[[[y [|]| | |] w'] e']|] eqn:E; try (vm_compute in E; discriminate E).
  exists y, w', e'. split; [reflexivity|].
  exact (try_run_refines _ _ _ _ _ _ _ _ _ _ _ _ _ _ demo_record_ready E).
Defined.

Theorem cancel_operation_result_witness :
  ∃ w' r', cancel_operation demo_clk 1 "op-1" (demo_store demo_record) =
      Some (Ok (w', r', Requested)) ∧
    rs_ready "op-1" w' r' ∧ cancel_result demo_record r'.
Proof.
  apply (cancel_operation_result demo_clk "op-1" 0 (demo_store demo_record) demo_record).
  - intros k i. apply demo_clock_valid.
  - apply demo_record_ready.
Defined.
End demo.
