(* ===== verification/OpObserve.v ===== *)
(** * Observers of [src/daemon/operations.py]

    [wait_for_terminal], which polls a record another process is changing and
    emits its log entries; the exit code of an outcome; and [public_record], the
    snapshot that leaves the owner-only store.  A poll sequence is a function
    from the poll number to what [load] returns; that logs only grow is a
    theorem about the engine's mutations. *)

From Stdlib Require Import Ascii String.
From stdpp Require Import base list strings relations.
From S2P Require Import Prelude PyJson OpRecord OpTransforms Demo OpStore OpConcurrent OpRunner.
Open Scope Z_scope.

(** ** Logs only grow *)

Lemma append_event_log now k st ph pr ec oc r :
  log r `prefix_of` log (append_event now k st ph pr ec oc r).
Proof. unfold append_event. destruct r; simpl. by eexists. Qed.

Lemma progressed_log ts c ph res r : log r `prefix_of` log (progressed ts c ph res r).
Proof. unfold progressed. destruct r, (sr_progress res); simpl; [done|]. by eexists. Qed.

Lemma cancel_checkpoint_log ts r b x :
  cancel_checkpoint_transform ts r = Ok (b, x) → log r `prefix_of` log x.
Proof.
  unfold cancel_checkpoint_transform. destruct (negb _); [by intros [= <- <-]|].
  destruct (cancel_phase_set r); [case_bool_decide; [|by intros [= <- <-]]|].
  - intros (r1&Hr1&[= <- <-])%bind_Ok.
    assert (log r1 = log r) as Hl.
    { destruct (_ || _); [apply bind_Ok in Hr1 as (?&_&[= <-])|injection Hr1 as <-]; by destruct r. }
    rewrite <- Hl. destruct r1; simpl. by eexists.
  - intros (?&_&[= <- <-])%bind_Ok. destruct r; simpl. by eexists.
Qed.

(** No mutation of the engine removes or changes a log entry. *)
Lemma engine_transform_log t r b x :
  engine_transform t → t r = Ok (b, x) → log r `prefix_of` log x.
Proof.
  intros []; unfold claim_and_start_transform, fail_unsupported_transform,
    mark_step_error_transform, request_cancel_transform, cancel_blocked_transform; intros Ht.
  - destruct r as [? ? ? []]; simpl in *; try destruct rb; simplify_eq/=; try done; by eexists.
  - by eapply cancel_checkpoint_log.
  - destruct r; simplify_eq/=. by eexists.
  - destruct (_ || _); [by simplify_eq|]. destruct (_ && _).
    + apply cancel_checkpoint_log in Ht. by destruct r.
    + destruct r; simplify_eq/=. by eexists.
  - rewrite apply_step_result_unfold in Ht. cbv zeta in Ht.
    case_bool_decide; [by simplify_eq|].
    etrans; [apply (progressed_log ts c ph res)|].
    generalize dependent (progressed ts c ph res r). intros q Ht.
    destruct (negb _); [by simplify_eq|].
    destruct (_ && _ && _); [by simplify_eq|].
    destruct (_ && _); [destruct q; simplify_eq/=; by eexists|].
    case_bool_decide; [destruct q; simplify_eq/=; by eexists|].
    apply bind_Ok in Ht as (i&_&Ht). destruct (phases q !! S i); [|done].
    apply bind_Ok in Ht as (?&_&[= <- <-]). destruct q; simpl. by eexists.
  - repeat case_match; simplify_eq; try done. destruct r; simpl. by eexists.
  - destruct (_ || _); [by simplify_eq|]. apply bind_Ok in Ht as (?&_&[= <- <-]).
    destruct r; simpl. by eexists.
Qed.

(** ** Waiting *)

Definition entry_seq (j : json) : Z :=
  match j with
  | JObj m => match obj_get_or_null "seq" m with JInt z => z | _ => 0 end
  | _ => 0
  end.

(** [for entry in record["log"]: if entry["seq"] > last_seq: emit(entry); ...] *)
Fixpoint emit_unseen (l : list json) (last_seq : Z) (out : list json) : Z * list json :=
  match l with
  | [] => (last_seq, out)
  | x :: l =>
      if last_seq <? entry_seq x then emit_unseen l (entry_seq x) (out ++ [x])
      else emit_unseen l last_seq out
  end.

(** [load k] is the record the [k]-th poll reads, [mono k] the monotonic clock
    at that poll.  The result carries what was emitted. *)
Fixpoint wait_loop (load : nat → result exn op_record) (mono : nat → Z) (deadline : option Z)
    (fuel k : nat) (last_seq : Z) (out : list json)
    : option (result exn (op_record * option op_state) * list json) :=
  match fuel with
  | O => None
  | S fuel =>
      match load k with
      | Err x => Some (Err x, out)
      | Ok r =>
          let '(last_seq, out) := emit_unseen (log r) last_seq out in
          if is_terminal (state r) || bool_decide (state r = Blocked)
          then Some (Ok (r, Some (state r)), out)
          else if match deadline with Some d => d <=? mono k | None => false end
          then Some (Ok (r, None), out)
          else wait_loop load mono deadline fuel (S k) last_seq out
      end
  end.

Definition wait_for_terminal load mono (start : Z) (timeout : option Z) (fuel : nat) :=
  wait_loop load mono ((λ t, start + t) <$> timeout) fuel 0 0 [].

Definition operation_outcome_exit_code (o : option op_state) : Z :=
  match o with
  | Some Succeeded | Some Cancelled => 0
  | Some Failed | Some Blocked => 1
  | _ => 2
  end.

Section waiting.
Context `{PyStdlib}.

(** The log of a valid record is numbered from 1. *)
Lemma wf_log_seq r i x : wf_record r → log r !! i = Some x → entry_seq x = Z.of_nat i + 1.
Proof.
  intros Hwf Hx. pose proof (wf_log r Hwf) as Hl. unfold valid_log in Hl.
  rewrite forallb_forall in Hl. specialize (Hl (i, x)).
  assert (valid_log_entry (phases r) i x = true) as Hv.
  { apply Hl. apply list_elem_of_In, list_elem_of_lookup. exists i.
    by rewrite list_lookup_imap, Hx. }
  unfold valid_log_entry in Hv. destruct x as [| | | | | |m]; try done. simpl.
  rewrite !andb_true_iff in Hv. destruct Hv as [[[[[[[[[_ Hs] _] _] _] _] _] _] _] _].
  destruct (obj_get_or_null "seq" m); try done. lia.
Qed.

(** Emitting from a log whose first [n] entries have been seen. *)
Lemma emit_unseen_suffix l n m out :
  (∀ i x, l !! i = Some x → entry_seq x = m + Z.of_nat i + 1) → m <= n <= m + Z.of_nat (length l) →
  emit_unseen l n out = (m + Z.of_nat (length l), out ++ drop (Z.to_nat (n - m)) l).
Proof.
  revert n m out. induction l as [|x l IH]; intros n m out Hseq Hn; simpl in *.
  - rewrite drop_nil, app_nil_r. f_equal. lia.
  - rewrite (Hseq 0%nat x eq_refl).
    assert (∀ i y, l !! i = Some y → entry_seq y = (m + 1) + Z.of_nat i + 1) as Hseq'.
    { intros i y Hy. rewrite (Hseq (S i) y Hy). lia. }
    destruct (Z.ltb_spec n (m + Z.of_nat 0 + 1)).
    + assert (n = m) as -> by lia. rewrite (IH _ (m + 1)); [|done|lia].
      rewrite Z.sub_diag. replace (m + Z.of_nat 0 + 1 - (m + 1)) with 0 by lia. simpl.
      rewrite <- app_assoc. f_equal. lia.
    + rewrite (IH _ (m + 1)); [|done|lia].
      replace (Z.to_nat (n - m)) with (S (Z.to_nat (n - (m + 1)))) by lia. simpl.
      f_equal. lia.
Qed.

Lemma emit_unseen_prefix r seen :
  wf_record r → seen `prefix_of` log r →
  emit_unseen (log r) (Z.of_nat (length seen)) seen = (Z.of_nat (length (log r)), log r).
Proof.
  intros Hwf [rest Hrest].
  rewrite (emit_unseen_suffix _ _ 0).
  - rewrite Z.sub_0_r, Nat2Z.id, Hrest, drop_app_length. by rewrite Z.add_0_l.
  - intros i x Hx. by apply (wf_log_seq r).
  - rewrite Hrest, length_app. lia.
Qed.
End waiting.

(** ** The sanitised snapshot *)

Fixpoint scrub_private (j : json) : json :=
  match j with
  | JObj m =>
      JObj ((fix go (m : list (string * json)) :=
        match m with
        | [] => []
        | (k, v) :: m => if String.eqb k "parameters" then go m else (k, scrub_private v) :: go m
        end) m)
  | JList l => JList (map scrub_private l)
  | _ => j
  end.

Definition public_record (j : json) : json := scrub_private j.

(** [key] occurs as a key nowhere in the value. *)
Fixpoint key_free (key : string) (j : json) : bool :=
  match j with
  | JObj m => forallb (λ kv, negb (String.eqb kv.1 key) && key_free key kv.2) m
  | JList l => forallb (key_free key) l
  | _ => true
  end.

(** The dict comprehension over one object's items. *)
Fixpoint scrub_fields (m : list (string * json)) : list (string * json) :=
  match m with
  | [] => []
  | (k, v) :: m =>
      if String.eqb k "parameters" then scrub_fields m else (k, scrub_private v) :: scrub_fields m
  end.

Lemma scrub_private_obj m : scrub_private (JObj m) = JObj (scrub_fields m).
Proof. reflexivity. Qed.

Lemma scrub_private_key_free j : key_free "parameters" (scrub_private j) = true.
Proof.
  induction j as [| | | | |l IH|m IH] using json_nested_ind; try done.
  - simpl. induction IH as [|x l Hx Hl IHl]; [done|]. simpl. by rewrite Hx.
  - rewrite scrub_private_obj. simpl. induction IH as [|[k v] m Hx Hm IHm]; [done|].
    simpl. destruct (String.eqb k "parameters") eqn:E; simpl in *; [done|]. by rewrite E, Hx.
Qed.

Lemma scrub_private_id j : key_free "parameters" j = true → scrub_private j = j.
Proof.
  induction j as [| | | | |l IH|m IH] using json_nested_ind; try done; intros Hk.
  - simpl in *. f_equal. induction IH as [|x l Hx Hl IHl]; [done|].
    simpl in *. bool_to_prop. by rewrite Hx, IHl.
  - rewrite scrub_private_obj. simpl in Hk. f_equal.
    induction IH as [|[k v] m Hx Hm IHm]; [done|]. simpl in *.
    apply andb_true_iff in Hk as [[Hk1%negb_true_iff Hk2]%andb_true_iff Hk'].
    by rewrite Hk1, Hx, IHm.
Qed.

Lemma scrub_fields_get k m :
  obj_get k (scrub_fields m) =
  if String.eqb k "parameters" then None else scrub_private <$> obj_get k m.
Proof.
  induction m as [|[k' v] m IH]; simpl; [by case_match|].
  destruct (String.eqb_spec k' "parameters") as [->|Hne]; simpl.
  - rewrite IH. destruct (String.eqb_spec k "parameters"); [done|].
    by destruct (String.eqb_spec k "parameters").
  - destruct (String.eqb_spec k k') as [->|]; [|done].
    by destruct (String.eqb_spec k' "parameters").
Qed.

(** ** Properties *)

Section properties.
Context `{PyStdlib}.

Lemma wait_loop_emitted load mono d fuel k seen r o out :
  (∀ i q, load i = Ok q → wf_record q) →
  (∀ i j q q', (i <= j)%nat → load i = Ok q → load j = Ok q' → log q `prefix_of` log q') →
  (∀ i q, (k <= i)%nat → load i = Ok q → seen `prefix_of` log q) →
  wait_loop load mono d fuel k (Z.of_nat (length seen)) seen = Some (Ok (r, o), out) →
  out = log r ∧ (∃ i, load i = Ok r) ∧
  match o with
  | Some st => st = state r ∧ (is_terminal st = true ∨ st = Blocked)
  | None => is_terminal (state r) = false ∧ state r ≠ Blocked
  end.
Proof.
  intros Hwf Hgrow. revert k seen.
  induction fuel as [|fuel IH]; intros k seen Hseen; simpl; [done|].
  destruct (load k) as [q|] eqn:Hk; [|done].
  rewrite (emit_unseen_prefix q seen (Hwf k q Hk)) by (by apply (Hseen k)).
  destruct (is_terminal (state q) || bool_decide (state q = Blocked)) eqn:Hst.
  { intros [= <- <- <-]. split_and!; [done|by exists k|done|].
    apply orb_true_iff in Hst as [?|?]; [by left|right]. by bool_to_prop. }
  destruct (match d with Some _ => _ | None => _ end).
  { intros [= <- <- <-]. bool_to_prop. split_and!; [done|by exists k|done|done]. }
  apply IH. intros i q' Hi Hq'. apply (Hgrow k i); [lia|done|done].
Qed.

(** A mutation of the engine never removes or changes a log entry: the
    audit trail of an operation is append-only along any run. *)
Theorem log_append_only x y : rtc run_step x y → log (c_rec x) `prefix_of` log (c_rec y).
Proof.
  induction 1 as [x|x y z Hstep _ IH]; [done|]. etrans; [|exact IH].
  apply run_step_record in Hstep as [->|(t&r'&now&Ht&Hr&->)]; [done|].
  replace (log (bump now r')) with (log r') by (by destruct r').
  apply (engine_transform_log t) in Hr; [done|].
  destruct Ht as [Ht|[[ts ->]|[ts ->]]]; [|constructor..].
  destruct (c_pc x) as [| | | | | |c rb ph o]; simpl in Ht; try done; destruct Ht as [ts ->];
    try constructor. destruct o; constructor.
Qed.

(** Whatever the poll times, [wait_for_terminal] emits every log entry of
    the record it returns exactly once and in order, and its outcome is the
    state of that record when it is terminal or blocked, none otherwise. *)
Theorem wait_emits_the_log load mono start timeout fuel r o out :
  (∀ i q, load i = Ok q → wf_record q) →
  (∀ i j q q', (i <= j)%nat → load i = Ok q → load j = Ok q' → log q `prefix_of` log q') →
  wait_for_terminal load mono start timeout fuel = Some (Ok (r, o), out) →
  out = log r ∧ (∃ i, load i = Ok r) ∧
  match o with
  | Some st => st = state r ∧ (is_terminal st = true ∨ st = Blocked)
  | None => is_terminal (state r) = false ∧ state r ≠ Blocked
  end.
Proof.
  intros Hwf Hgrow Hw. eapply (wait_loop_emitted _ _ _ _ 0 []); try done.
  intros i q _ _. apply prefix_nil.
Qed.
End properties.

(** The public snapshot holds the idempotency credential nowhere, at any
    depth, and keeps every other field of the record (sanitised the same way);
    sanitising twice changes nothing. *)
Theorem public_record_private j :
  key_free "parameters" (public_record j) = true ∧
  public_record (public_record j) = public_record j ∧
  (∀ m k, j = JObj m → k ≠ "parameters" →
    ∃ m', public_record j = JObj m' ∧ obj_get k m' = scrub_private <$> obj_get k m).
Proof.
  split_and!.
  - apply scrub_private_key_free.
  - apply scrub_private_id, scrub_private_key_free.
  - intros m k -> Hk. exists (scrub_fields m). split; [apply scrub_private_obj|].
    rewrite scrub_fields_get. by destruct (String.eqb_spec k "parameters").
Qed.

Section demo.
#[local] Existing Instance demo_stdlib.

Theorem log_append_only_witness :
  log demo_record `prefix_of` log (c_rec (run_of demo_record demo_cancel)).
Proof.
  apply (log_append_only (demo_init demo_record) (run_of demo_record demo_cancel)).
  apply (drive_sound demo_cancel). vm_compute. reflexivity.
Defined.

(** Two polls: the operation is running, then cancelled. *)
Definition demo_running : op_record :=
  Eval vm_compute in c_rec (run_of demo_record demo_begin).
Definition demo_cancelled : op_record :=
  Eval vm_compute in c_rec (run_of demo_record demo_cancel).
Definition demo_polls (k : nat) : result exn op_record :=
  Ok (match k with O => demo_running | _ => demo_cancelled end).

Lemma demo_running_wf : wf_record demo_running.
Proof. apply validate_record_wf. vm_compute. reflexivity. Qed.
Lemma demo_cancelled_wf : wf_record demo_cancelled.
Proof. apply validate_record_wf. vm_compute. reflexivity. Qed.
Lemma demo_polls_grow : log demo_running `prefix_of` log demo_cancelled.
Proof. eexists. reflexivity. Qed.

Theorem wait_emits_the_log_witness :
  wait_for_terminal demo_polls Z.of_nat 0 None 2 =
    Some (Ok (demo_cancelled, Some Cancelled), log demo_cancelled) ∧
  ∃ i, demo_polls i = Ok demo_cancelled.
Proof.
  assert (wait_for_terminal demo_polls Z.of_nat 0 None 2 =
    Some (Ok (demo_cancelled, Some Cancelled), log demo_cancelled)) as E
    by (vm_compute; reflexivity).
  split; [exact E|].
  refine (proj1 (proj2 (wait_emits_the_log _ _ _ _ _ _ _ _ _ _ E))).
  - intros i q. unfold demo_polls. intros [= <-].
    destruct i; [apply demo_running_wf|apply demo_cancelled_wf].
  - intros i j q q' Hij. unfold demo_polls. intros [= <-] [= <-].
    destruct i, j; [done|apply demo_polls_grow|lia|done].
Defined.
End demo.
