(* ===== verification/OpTheorems.v ===== *)
(** * What the record layer and the store promise

    The main statements about [OpRecord], [OpTransforms], [OpStore] and
    [OpConcurrent], each with an instance at concrete records and a concrete
    directory. *)

From Stdlib Require Import Ascii String.
From stdpp Require Import base list strings gmap sorting relations.
From S2P Require Import Prelude PyJson OpRecord OpTransforms Demo OpStore OpConcurrent OpRunner OpEngine.
Open Scope Z_scope.

(** A record mutation of the engine applied to sensible arguments: valid clock
    readings, a valid claim, errors and step results a step may produce. *)
Inductive valid_mutation `{PyStdlib} : transform → Prop :=
| vm_start ts c rb : valid_clock ts → valid_claim_id c →
    valid_mutation (claim_and_start_transform ts c rb)
| vm_checkpoint ts : valid_clock ts → valid_mutation (cancel_checkpoint_transform ts)
| vm_unsupported ts c : valid_clock ts → valid_claim_id c →
    valid_mutation (fail_unsupported_transform ts c)
| vm_error ts c ph e st : valid_clock ts → valid_claim_id c → valid_op_error e →
    st ∈ [Failed; Blocked] → valid_mutation (mark_step_error_transform ts c ph e st)
| vm_result ts c ph res : valid_clock ts → valid_claim_id c → valid_step_result res →
    valid_mutation (apply_step_result_transform ts c ph res)
| vm_request ts : valid_clock ts → valid_mutation (request_cancel_transform ts)
| vm_cancel_blocked ts : valid_clock ts → valid_mutation (cancel_blocked_transform ts).

Section theorems.
Context `{PyStdlib} (euid : Z).

(** Every record the validator accepts on disk decodes to a well-formed
    typed record that denotes the same dict, and every well-formed record,
    encoded, is accepted and decodes to itself. *)
Theorem validator_and_codec_agree j r :
  (wf_json j → validate_record j = true →
    ∃ q, of_json j = Some q ∧ wf_record q ∧ json_equiv (to_json q) j) ∧
  of_json (to_json r) = Some r ∧ (validate_record (to_json r) = true ↔ wf_record r).
Proof.
  split_and!; [apply validate_record_decodes|apply of_json_to_json|apply validate_record_wf].
Qed.

(** The idempotency fingerprint depends on the parameters as a dict, not
    on the order in which its keys were inserted, at any depth. *)
Theorem fingerprint_order_independent t m1 m2 :
  wf_json (JObj m1) → json_equiv (JObj m1) (JObj m2) →
  parameters_fingerprint t m1 = parameters_fingerprint t m2.
Proof.
  intros Hwf He. unfold parameters_fingerprint. f_equal. apply dumps_equiv.
  - apply (proj2 (wf_json_list _)). constructor; [done|]. constructor; [exact Hwf|constructor].
  - apply equiv_list. constructor; [apply equiv_refl|]. by constructor.
Qed.

(** A record [new_operation] builds from phases in canonical order passes
    the validator, is queued in its first phase with no cancel requested, and
    its compensation phase, if any, lies after the irreversible one. *)
Theorem new_operation_valid uuid now t params ps irr opid cp r :
  new_operation uuid now t params ps irr opid cp = Ok r →
  t ≠ "" → valid_timestamp now = true → (∀ s, is_sha256_hex (sha256_hex s) = true) →
  bool_decide (merge_sort le (omap (λ p, list_index p CANONICAL_PHASES) ps) =
               omap (λ p, list_index p CANONICAL_PHASES) ps) = true →
  validate_record (to_json r) = true ∧ state r = Queued ∧ cancel_requested r = false ∧
  head (phases r) = Some (phase r) ∧ phases r = ps ∧ can_progress r ∧
  (∀ c, cp = Some c → strictly_before r irr c).
Proof.
  intros Hr Ht Hts Hsha Hord. pose proof (new_operation_wf _ _ _ _ _ _ _ _ _ Hr Ht Hts Hsha Hord) as Hwf.
  split; [by apply validate_record_wf|].
  unfold new_operation in Hr. apply bind_Ok in Hr as (?&_&Hr).
  apply bind_Ok in Hr as (?&Hm%guard_err_Ok&Hr). apply bind_Ok in Hr as (?&_&Hr).
  apply bind_Ok in Hr as (?&_&Hr). apply bind_Ok in Hr as (?&_&[= <-]).
  apply orb_false_iff in Hm as [Hm _]. apply bool_decide_eq_false in Hm.
  pose proof (λ c, irreversible_before_cancel_phase _ c Hwf) as Hcp.
  simpl in *. split_and!; try done; [by destruct ps|].
  intros _ Hc. simpl in Hc. destruct (Hcp _ Hc) as (i&j&_&Hj&Hlt). simpl in Hj.
  destruct ps as [|p ps]; [done|]. simpl in Hj. rewrite decide_True in Hj by done.
  simplify_eq. lia.
Qed.

(** No mutation of the engine can corrupt a record: applied to a record
    the validator accepts, it yields one the validator accepts, so the write
    that follows never fails its validation. *)
Theorem mutations_preserve_validity t r b r' :
  valid_mutation t → validate_record (to_json r) = true → t r = Ok (b, r') →
  validate_record (to_json r') = true.
Proof.
  rewrite !validate_record_wf. intros Hm Hwf. revert b r' Hwf.
  change (∀ b r', wf_record r → t r = Ok (b, r') → wf_record r').
  intros b r' Hwf Ht.
  destruct Hm; [eapply claim_and_start_wf|eapply cancel_checkpoint_wf|eapply fail_unsupported_wf
    |eapply mark_step_error_wf|eapply apply_step_result_wf|eapply request_cancel_wf
    |eapply cancel_blocked_wf]; eauto.
Qed.

(** Writing a record is crash-atomic: whatever number of the write's file
    operations ran before the crash, the next load sees the record as it was,
    or the complete new one, and every other file but the temp file is as it
    was. *)
Theorem write_crash_atomic pinned env id r w k :
  valid_env env → wf_record r → operation_id r = id →
  let w' := set_files (exec_ops (take k (write_ops euid (tmp_file env id) (record_file id)
              (we_ino env 1%nat) (to_json r))) (w_files w)) w in
  (load euid pinned id w' = load euid pinned id w ∨
   (∀ cur, load euid pinned id w = Ok cur → load euid pinned id w' = Ok r)) ∧
  (∀ x, x ≠ record_file id → x ≠ tmp_file env id → w_files w' !! x = w_files w !! x).
Proof.
  intros Henv Hwf Hid w'.
  destruct (write_ops_prefix euid k (tmp_file env id) (record_file id) (we_ino env 1%nat)
    (to_json r) (w_files w)) as [Hrec Hother]; [by apply tmp_file_not_record|].
  split; [|exact Hother].
  destruct Hrec as [Hsame|Hnew]; [left|right].
  - by apply load_frame.
  - intros cur (Hv&[d Hd]&_)%load_Ok. apply load_Ok. split_and!; [done| |].
    + exists d. by rewrite <- Hd.
    + by eapply read_via_dfd_parsed.
Qed.

(** Creating is idempotent: once an operation exists, creating it again
    returns the stored record, however far it has progressed, exactly when
    type and parameters have the same fingerprint, and refuses otherwise;
    neither outcome changes the stored record. *)
Theorem create_is_idempotent pinned env r w f :
  valid_env env → w_files w !! record_file (operation_id r) = Some f →
  (∀ w' r', create euid pinned env r w = Ok (w', r') →
    load euid pinned (operation_id r) w = Ok r' ∧
    record_fingerprint r' = record_fingerprint r ∧
    w_files w' !! record_file (operation_id r) = Some f) ∧
  (∀ x, create euid pinned env r w = Err (OperationIdConflict x) →
    ∃ ex, load euid pinned (operation_id r) w = Ok ex ∧
          record_fingerprint ex ≠ record_fingerprint r).
Proof.
  intros Henv Hf. split.
  - intros w' r' Hc. by eapply create_existing.
  - intros x Hc. by eapply create_conflict.
Qed.

(** C2: no update is lost: with any number of processes mutating the same
    operation concurrently and crashing anywhere in a write, the stored record
    is always the newest committed version, every version is the previous one
    with exactly one mutation applied and the revision raised by one. *)
Theorem no_update_is_lost id s :
  reachable (sys_init euid id) (sys_step euid id) s →
  (∃ r h, s_hist s = r :: h ∧ read_via_dfd euid id (s_world s) = Ok r) ∧
  chain (s_hist s) ∧ StronglySorted (λ a b, rev b < rev a) (s_hist s).
Proof. intros Hs%sys_inv_reachable. by destruct Hs. Qed.
End theorems.

Section witnesses.
#[local] Existing Instance demo_stdlib.

Theorem fingerprint_order_independent_witness :
  parameters_fingerprint "restore" [("a", JInt 1); ("b", JStr "x")] =
  parameters_fingerprint "restore" [("b", JStr "x"); ("a", JInt 1)].
Proof.
  apply fingerprint_order_independent.
  - apply wf_json_obj. split.
    + apply (bool_decide_eq_true_1 (NoDup _)). reflexivity.
    + repeat constructor.
  - eapply equiv_obj; [apply Permutation_swap|].
    repeat (constructor; [split; [reflexivity|apply equiv_refl]|]). constructor.
Defined.

Theorem new_operation_valid_witness :
  validate_record (to_json demo_record) = true ∧ strictly_before demo_record "publishing" "reopening".
Proof.
  destruct (new_operation_valid "op-1" demo_now "restore" [("source", JStr "backup-1")] demo_phases
    "publishing" (Some "op-1") (Some "reopening") demo_record demo_record_created)
    as (Hv&_&_&_&_&_&Hc).
  - discriminate.
  - vm_compute. reflexivity.
  - intros s. vm_compute. reflexivity.
  - vm_compute. reflexivity.
  - split; [exact Hv|]. by apply Hc.
Defined.

Theorem mutations_preserve_validity_witness :
  ∃ r', claim_and_start_transform demo_clock demo_claim false demo_record = Ok (true, r') ∧
    validate_record (to_json r') = true.
Proof.
  eexists. split; [reflexivity|].
  apply (mutations_preserve_validity (claim_and_start_transform demo_clock demo_claim false)
    demo_record true).
  - constructor; [apply demo_clock_valid|by split].
  - vm_compute. reflexivity.
  - reflexivity.
Defined.

Theorem write_crash_atomic_witness :
  let w' := set_files (exec_ops (take 3 (write_ops demo_uid (tmp_file demo_env "op-1")
              (record_file "op-1") (we_ino demo_env 1%nat) (to_json demo_record)))
              (w_files (demo_world demo_record))) (demo_world demo_record) in
  load demo_uid None "op-1" w' = load demo_uid None "op-1" (demo_world demo_record) ∨
  (∀ cur, load demo_uid None "op-1" (demo_world demo_record) = Ok cur →
          load demo_uid None "op-1" w' = Ok demo_record).
Proof.
  apply (write_crash_atomic demo_uid None demo_env "op-1" demo_record (demo_world demo_record) 3).
  - apply demo_env_valid.
  - apply demo_record_wf.
  - reflexivity.
Defined.

Theorem create_is_idempotent_witness :
  ∃ w' r', create demo_uid None demo_env demo_record (demo_world demo_record) = Ok (w', r') ∧
    record_fingerprint r' = record_fingerprint demo_record.
Proof.
  destruct (create demo_uid None demo_env demo_record (demo_world demo_record)) as [[w' r']|] eqn:E;
    [|vm_compute in E; discriminate E].
  exists w', r'. split; [reflexivity|].
  refine (proj1 (proj2 (proj1 (create_is_idempotent demo_uid None demo_env demo_record
    (demo_world demo_record) _ demo_env_valid _) w' r' E))).
  vm_compute. reflexivity.
Defined.

(** Three processes load the same version of a queued operation.  Process 0
    commits its claim first, so the compare-and-swap refuses the one of
    process 1, and process 2 dies in the middle of its write.  Process 1 then
    reloads and commits a cancel request, and process 0, whose next write had
    been loaded before that, is refused, reloads and commits the cancellation
    checkpoint. *)
Definition demo_writer (hex : string) : write_env :=
  WriteEnv demo_now 42 hex (λ n, (1, Z.of_nat n)).
Definition demo_claiming := claim_and_start_transform demo_clock demo_claim false.
Definition demo_advancing := apply_step_result_transform demo_clock demo_claim "staging"
  (StepResult [("bytes", 7)] true JNull).
Definition demo_interleaving : list sys_command :=
  [CmdLoad 0 demo_claiming; CmdLoad 1 demo_claiming; CmdLoad 2 demo_claiming;
   CmdCommit 0 (demo_writer "00000000"); CmdRetry 1 (demo_writer "11111111");
   CmdCrash 2 (demo_writer "22222222") 2;
   CmdLoad 0 demo_advancing; CmdLoad 1 (request_cancel_transform demo_clock);
   CmdCommit 1 (demo_writer "11111111"); CmdRetry 0 (demo_writer "00000000");
   CmdLoad 0 (cancel_checkpoint_transform demo_clock); CmdCommit 0 (demo_writer "00000000")].

Definition demo_sys : sys := Sys (demo_world demo_record) ∅ [demo_record].
Definition demo_sys_end : sys :=
  default demo_sys (sys_run demo_uid "op-1" None demo_interleaving demo_sys).

Lemma demo_sys_run :
  sys_run demo_uid "op-1" None demo_interleaving demo_sys = Some demo_sys_end.
Proof. vm_compute. reflexivity. Qed.

Lemma demo_interleaving_valid : Forall valid_command demo_interleaving.
Proof.
  unfold demo_interleaving, demo_claiming, demo_advancing. repeat constructor; simpl; try done;
    apply (bool_decide_eq_true_1 (Forall _ _)); vm_compute; reflexivity.
Qed.

Theorem no_update_is_lost_witness :
  map rev (s_hist demo_sys_end) = [4; 3; 2; 1] ∧
  map state (s_hist demo_sys_end) = [Running; Running; Running; Queued] ∧
  map cancel_requested (s_hist demo_sys_end) = [true; true; false; false] ∧
  map phase (s_hist demo_sys_end) = ["reopening"; "staging"; "staging"; "staging"] ∧
  chain (s_hist demo_sys_end) ∧
  (∃ r h, s_hist demo_sys_end = r :: h ∧
          read_via_dfd demo_uid "op-1" (s_world demo_sys_end) = Ok r).
Proof.
  split; [vm_compute; reflexivity|]. split; [vm_compute; reflexivity|].
  split; [vm_compute; reflexivity|]. split; [vm_compute; reflexivity|].
  destruct (no_update_is_lost demo_uid "op-1" demo_sys_end) as (Hnew&Hchain&_).
  - exists demo_sys. split.
    + split; [reflexivity|]. exists demo_record. split; [reflexivity|]. vm_compute. reflexivity.
    + apply (sys_run_sound demo_uid "op-1" None demo_interleaving);
        [exact demo_interleaving_valid|exact demo_sys_run].
  - split; [exact Hchain|exact Hnew].
Defined.

End witnesses.
