(* ===== verification/Coordinator.v ===== *)
(** * The maintenance coordinator of [src/daemon/coordinator.py]

    [MaintenanceCoordinator]: scoring requests, fact handles and builders on one
    side, and on the other a maintenance operation that must see none of them.
    The shared fields are the record [coord]; every [with self._condition] block
    is one function on it.  Threads run concurrently: a program counter per
    thread says between which of its blocks it is, and [coord_step] has one rule
    per block or external action (a handle factory, a builder, an identity read,
    which may return anything or raise).  The thread index is the lease
    identity, because [control.py] makes one thread and one lease per control
    connection, and that thread performs all the calls of its lease in order.
    [live] is the set of fact handles whose shared lease the operating system
    still holds, which is what maintenance must not meet. *)

From Stdlib Require Import Ascii String.
From stdpp Require Import base list strings gmap fin_sets functions relations.
From S2P Require Import Prelude OpRecord.
Open Scope Z_scope.

(** ** Shared state *)

Inductive coord_state := Serving | Preparing | Prepared | CatchingUp | CoordBlocked.
#[export] Instance coord_state_eq_dec : EqDecision coord_state.
Proof. solve_decision. Defined.

Record identity := Identity { store_epoch : string; hlc_physical_ms : Z; hlc_logical : Z }.

Definition valid_identity (i : identity) : bool :=
  (1 <=? String.length (store_epoch i))%nat && (String.length (store_epoch i) <=? 64)%nat &&
  bool_decide (Forall (λ c, c ∈ SAFE_ID_CHARS) (list_ascii_of_string (store_epoch i))) &&
  (0 <=? hlc_physical_ms i) && (0 <=? hlc_logical i).

(** [m_lease]: the lease identity, i.e. the control thread. *)
Record coord := Coord {
  m_state : coord_state;
  m_block_code : option string;
  m_closed : bool;
  m_prepare_active : bool;
  m_operation : option string;
  m_lease : option nat;
  m_requests : nat;
  m_opening : nat;
  m_handles : gset nat;
  m_builders : gset nat;
  m_prepared_epoch : option string;
  m_active_epoch : option string;
  m_target_epoch : option string }.

Definition with_state (s : coord_state) (c : coord) : coord :=
  let 'Coord _ b cl pa o l r op h bu pe ae te := c in Coord s b cl pa o l r op h bu pe ae te.
Definition with_requests (n : nat) (c : coord) : coord :=
  let 'Coord s b cl pa o l _ op h bu pe ae te := c in Coord s b cl pa o l n op h bu pe ae te.
Definition with_opening (n : nat) (c : coord) : coord :=
  let 'Coord s b cl pa o l r _ h bu pe ae te := c in Coord s b cl pa o l r n h bu pe ae te.
Definition with_handles (x : gset nat) (c : coord) : coord :=
  let 'Coord s b cl pa o l r op _ bu pe ae te := c in Coord s b cl pa o l r op x bu pe ae te.
Definition with_builders (x : gset nat) (c : coord) : coord :=
  let 'Coord s b cl pa o l r op h _ pe ae te := c in Coord s b cl pa o l r op h x pe ae te.
Definition with_prepare_active (v : bool) (c : coord) : coord :=
  let 'Coord s b cl _ o l r op h bu pe ae te := c in Coord s b cl v o l r op h bu pe ae te.
Definition with_lease (o : option string) (l : option nat) (c : coord) : coord :=
  let 'Coord s b cl pa _ _ r op h bu pe ae te := c in Coord s b cl pa o l r op h bu pe ae te.
Definition with_epochs (pe ae te : option string) (c : coord) : coord :=
  let 'Coord s b cl pa o l r op h bu _ _ _ := c in Coord s b cl pa o l r op h bu pe ae te.
Definition with_block (code : option string) (c : coord) : coord :=
  let 'Coord s _ cl pa o l r op h bu pe ae te := c in Coord s code cl pa o l r op h bu pe ae te.
Definition with_closed (c : coord) : coord :=
  let 'Coord s b _ pa o l r op h bu pe ae te := c in Coord s b true pa o l r op h bu pe ae te.

Definition init_coord : coord :=
  Coord Serving None false false None None 0 0 ∅ ∅ None None None.

(** [if self._closed or self._state != "serving"] *)
Definition refuses (c : coord) : bool := m_closed c || bool_decide (m_state c ≠ Serving).

(** ** Requests, handles and builders *)

Definition begin_request (c : coord) : option coord :=
  if refuses c then None else Some (with_requests (S (m_requests c)) c).

Definition complete_request (c : coord) : coord :=
  if bool_decide (m_requests c = 0%nat) then c else with_requests (m_requests c - 1) c.

Definition handle_closed (h : nat) (c : coord) : coord :=
  with_handles (m_handles c ∖ {[h]}) c.

Definition block (code : option string) (c : coord) : coord :=
  with_block code (with_state CoordBlocked c).

Definition open_begin (c : coord) : option coord :=
  if refuses c then None else Some (with_opening (S (m_opening c)) c).

Definition uncount_opening (c : coord) : coord := with_opening (m_opening c - 1) c.

(** [usable]: the factory's result is a [FactHandle] that holds its lease. *)
Definition open_register (h : nat) (usable : bool) (c : coord) : option coord :=
  if bool_decide (m_state c = Serving) && usable
  then Some (uncount_opening (with_handles ({[h]} ∪ m_handles c) c)) else None.

Definition register_builder (b : nat) (c : coord) : option coord :=
  if refuses c then None else Some (with_builders ({[b]} ∪ m_builders c) c).

Definition unregister_builder (b : nat) (c : coord) : coord :=
  with_builders (m_builders c ∖ {[b]}) c.

(** ** Prepare *)

Definition prepare_enter (op : string) (lease : nat) (c : coord) : option coord :=
  if refuses c then None
  else Some (with_prepare_active true (with_lease (Some op) (Some lease) (with_state Preparing c))).

(** The test inside the wait loops: the operation was blocked or closed. *)
Definition prepare_interrupted (c : coord) : bool :=
  bool_decide (m_state c ≠ Preparing) || m_closed c.

Definition first_wait_over (c : coord) : bool :=
  bool_decide (m_requests c = 0%nat) && bool_decide (m_opening c = 0%nat).

Definition second_wait_over (c : coord) : bool :=
  bool_decide (m_requests c = 0%nat) && bool_decide (m_opening c = 0%nat) &&
  bool_decide (m_handles c = ∅) && bool_decide (m_builders c = ∅).

(** What the identity read allows: [db] says whether the fact database exists,
    [read] is what the reader returned ([None]: absent, or it raised). *)
Definition prepare_identity (db expect_unreadable : bool) (read : option identity)
    : result string (option identity) :=
  if expect_unreadable then
    if db then Ok None else Err "epoch_unverifiable"
  else
    match read with
    | None => if db then Err "epoch_unverifiable" else Ok None
    | Some i => if valid_identity i then Ok (Some i) else Err "epoch_unverifiable"
    end.

Definition prepare_publish (i : option identity) (c : coord) : option coord :=
  if m_closed c || bool_decide (m_state c ≠ Preparing) then None
  else Some (with_state Prepared
               (with_epochs (store_epoch <$> i) (m_active_epoch c) (m_target_epoch c) c)).

Definition prepare_end (c : coord) : coord := with_prepare_active false c.

(** ** Reopening *)

(** [assert_prepared], and the guard of [reopen] and [lease_lost]. *)
Definition assert_prepared (op : string) (lease : nat) (c : coord) : bool :=
  bool_decide (m_state c = Prepared) && bool_decide (m_operation c = Some op) &&
  bool_decide (m_lease c = Some lease).

Definition recover_count (c : coord) : option coord :=
  if m_closed c then None else Some (with_opening (S (m_opening c)) c).

(** No fact database, no identity and no prepared epoch: back to serving. *)
Definition recover_pristine (c : coord) : option coord :=
  if m_closed c then None
  else Some (with_lease None None (with_state Serving
               (with_epochs (m_prepared_epoch c) None None c))).

Inductive recover_outcome := RecoverClosed | RecoverServing | RecoverCatchingUp (previous : option string).

Definition add_handle (h : option nat) (c : coord) : coord :=
  match h with Some x => with_handles ({[x]} ∪ m_handles c) c | None => c end.

Definition recover_publish (h : option nat) (target : string) (c : coord) : recover_outcome * coord :=
  if m_closed c then (RecoverClosed, c)
  else if bool_decide (m_prepared_epoch c = Some target) then
    (RecoverServing,
     with_lease None None (with_state Serving
       (with_epochs (m_prepared_epoch c) (Some target) None (add_handle h c))))
  else
    (RecoverCatchingUp (match m_active_epoch c with Some e => Some e | None => m_prepared_epoch c end),
     with_lease None None (with_state CatchingUp
       (with_epochs (m_prepared_epoch c) None (Some target) (add_handle h c)))).

(** The publishing block of [complete_recovery]: refused, failed closed, or
    served. *)
Inductive complete_outcome := CompleteRefused | CompleteBlocked | CompleteServing.

Definition complete_publish (target : string) (read : option identity) (c : coord)
    : complete_outcome * coord :=
  if m_closed c || bool_decide (m_state c ≠ CatchingUp) ||
     bool_decide (m_target_epoch c ≠ Some target) then (CompleteRefused, c)
  else
    match read with
    | Some i =>
        if valid_identity i && String.eqb (store_epoch i) target
        then (CompleteServing,
              with_state Serving (with_epochs (m_prepared_epoch c) (Some target) None c))
        else (CompleteBlocked, block (Some "epoch_changed_during_recovery") c)
    | None => (CompleteBlocked, block (Some "epoch_changed_during_recovery") c)
    end.

Definition close_enter (c : coord) : option coord :=
  if m_closed c then None
  else Some (with_lease None None (block (Some "coordinator_closed") (with_closed c))).

Definition close_wait_over (c : coord) : bool :=
  negb (m_prepare_active c) && bool_decide (m_opening c = 0%nat).

(** ** Threads *)

(** Where a thread is.  [T*]: requests and clients of fact handles; [P*]:
    [prepare]; [R*]: [_recover] up to its publishing block, started by [reopen]
    or [lease_lost]; [X*]: closing registered handles and possibly blocking;
    [C*]: [complete_recovery]; [K*]: [close]. *)
Inductive tpc :=
| TIdle
| TServe
| TOpen
| TReject (h : nat)
| TRejectDiscard (h : nat) (raises : bool)
| TRejectBlock
| TRejectEnd
| TDiscard (h : nat)
| PWait
| PBuild (bs : list nat)
| PStop (b : nat) (bs : list nat)
| PHand (hs : list nat)
| PDiscard (h : nat) (hs : list nat) (raises : bool)
| PWait2
| PIdent
| PPublish (i : option identity)
| PFail (code : option string)
| PFailHand (code : option string) (hs : list nat)
| PFailDiscard (code : option string) (h : nat) (hs : list nat)
| PFailBlock (code : option string)
| PEnd
| RStart
| ROpen
| RRead (h : nat)
| RUncount (h : option nat) (i : option identity)
| RCheck (h : nat) (i : identity)
| RNoDb
| RPublish (h : option nat) (i : identity)
| RClose (h : nat) (code : string)
| RDiscard (h : nat) (code : string)
| RBlock (code : string)
| XRebuild (target : string)
| XHand (hs : list nat) (code : option string)
| XDiscard (h : nat) (hs : list nat) (code : option string)
| XBlock (code : string)
| CRead (target : string)
| CPublish (target : string) (read : option identity)
| KWait.

Definition counted (p : tpc) : bool :=
  match p with
  | TOpen | TReject _ | TRejectDiscard _ _ | TRejectBlock | TRejectEnd
  | ROpen | RRead _ | RUncount _ _ => true
  | _ => false
  end.
Definition serves (p : tpc) : bool := match p with TServe => true | _ => false end.
Definition in_prepare (p : tpc) : bool :=
  match p with
  | PWait | PBuild _ | PStop _ _ | PHand _ | PDiscard _ _ _ | PWait2 | PIdent | PPublish _
  | PFail _ | PFailHand _ _ | PFailDiscard _ _ _ | PFailBlock _ | PEnd => true
  | _ => false
  end.
Definition in_recover (p : tpc) : bool :=
  match p with
  | RStart | ROpen | RRead _ | RUncount _ _ | RCheck _ _ | RNoDb | RPublish _ _ | RClose _ _
  | RDiscard _ _ | RBlock _ => true
  | _ => false
  end.
(** The handle a thread holds that is not registered (yet). *)
Definition holds (p : tpc) : option nat :=
  match p with
  | TReject h | RRead h | RUncount (Some h) _ | RCheck h _ | RPublish (Some h) _ | RClose h _ => Some h
  | _ => None
  end.
(** The handle whose lease a thread has released and whose registry entry it
    is about to discard. *)
Definition discards (p : tpc) : option nat :=
  match p with
  | TRejectDiscard h _ | TDiscard h | PDiscard h _ _ | PFailDiscard _ h _ | RDiscard h _
  | XDiscard h _ _ => Some h
  | _ => None
  end.

(** [live]: handles whose shared lease is held; [used]: handles ever opened. *)
Record csys := CSys { y_c : coord; y_t : nat → tpc; y_live : gset nat; y_used : gset nat }.

(** [_initialize_fact_epoch] in the constructor, when [auto_open_fact_handle] is
    set: [opened] is the handle the factory returned and whether it holds its
    lease, or the code of the exception. *)
Definition initialize_fact_epoch (db : bool) (opened : result string (nat * bool))
    (read : result string identity) (c : coord) : coord * gset nat :=
  if negb db then (c, ∅) else
  match opened with
  | Err code => (block (Some code) c, ∅)
  | Ok (_, false) => (block (Some "fact_handle_unverifiable") c, ∅)
  | Ok (h, true) =>
      match read with
      | Err code => (block (Some code) c, ∅)
      | Ok i =>
          if valid_identity i
          then (with_epochs None (Some (store_epoch i)) None (with_handles {[h]} c), {[h]})
          else (block (Some "epoch_unverifiable") c, ∅)
      end
  end.

Definition coord_init (y : csys) : Prop :=
  (∀ i, y_t y i = TIdle) ∧ y_used y = y_live y ∧
  ((y_c y = init_coord ∧ y_live y = ∅) ∨
   ∃ db opened read, initialize_fact_epoch db opened read init_coord = (y_c y, y_live y)).

(** What happens to thread [i] after its failed or finished [_block] etc. is
    told by the target program counter. *)
Definition after_block (code : option string) : tpc :=
  match code with Some c => XBlock c | None => TIdle end.

(** The rules.  Each says where the thread is, which block or external action
    it performs, and where it goes. *)
Inductive thread_step (i : nat) : tpc → coord → gset nat → gset nat →
    tpc → coord → gset nat → gset nat → Prop :=
(* scoring requests *)
| s_begin c L U c' : begin_request c = Some c' → thread_step i TIdle c L U TServe c' L U
| s_complete c L U : thread_step i TServe c L U TIdle (complete_request c) L U
(* open_fact_handle *)
| s_open c L U c' : open_begin c = Some c' → thread_step i TIdle c L U TOpen c' L U
| s_open_raises c L U : thread_step i TOpen c L U TIdle (uncount_opening c) L U
| s_open_ok c L U h c' :
    h ∉ U → open_register h true c = Some c' →
    thread_step i TOpen c L U TIdle c' ({[h]} ∪ L) ({[h]} ∪ U)
| s_open_rejected c L U h usable :
    h ∉ U → open_register h usable c = None →
    thread_step i TOpen c L U (TReject h) c ({[h]} ∪ L) ({[h]} ∪ U)
| s_reject_close c L U h raises :
    thread_step i (TReject h) c L U (TRejectDiscard h raises) c (L ∖ {[h]}) U
| s_reject_discard c L U h raises :
    thread_step i (TRejectDiscard h raises) c L U
      (if raises then TRejectBlock else TRejectEnd) (handle_closed h c) L U
| s_reject_block c L U :
    thread_step i TRejectBlock c L U TRejectEnd (block (Some "fact_handle_close_failed") c) L U
| s_reject_end c L U : thread_step i TRejectEnd c L U TIdle (uncount_opening c) L U
(* a client closes a registered handle *)
| s_client_close c L U h :
    h ∈ L → h ∈ m_handles c → thread_step i TIdle c L U (TDiscard h) c (L ∖ {[h]}) U
| s_client_discard c L U h : thread_step i (TDiscard h) c L U TIdle (handle_closed h c) L U
(* builders *)
| s_register c L U b c' : register_builder b c = Some c' → thread_step i TIdle c L U TIdle c' L U
| s_unregister c L U b : thread_step i TIdle c L U TIdle (unregister_builder b c) L U
(* prepare *)
| s_prepare c L U op c' :
    prepare_enter op i c = Some c' → thread_step i TIdle c L U PWait c' L U
| s_wait_interrupted c L U :
    first_wait_over c = false → prepare_interrupted c = true →
    thread_step i PWait c L U PEnd c L U
| s_wait_lost c L U :
    first_wait_over c = false → prepare_interrupted c = false →
    thread_step i PWait c L U (PFail (Some "control_lease_lost")) c L U
| s_wait_over c L U :
    first_wait_over c = true →
    thread_step i PWait c L U (PBuild (elements (m_builders c))) c L U
| s_build_interrupted c L U b bs :
    prepare_interrupted c = true →
    thread_step i (PBuild (b :: bs)) c L U
      (PFail (match m_block_code c with Some x => Some x | None => Some "control_lease_lost" end)) c L U
| s_build_stop c L U b bs :
    prepare_interrupted c = false → thread_step i (PBuild (b :: bs)) c L U (PStop b bs) c L U
| s_stop_fails c L U b bs code :
    code ∈ ["builder_not_quiesceable"; "builder_not_idle"; "builder_quiesce_failed"] →
    thread_step i (PStop b bs) c L U (PFail (Some code)) c L U
| s_stop_ok c L U b bs :
    thread_step i (PStop b bs) c L U (PBuild bs) (unregister_builder b c) L U
| s_build_done c L U :
    thread_step i (PBuild []) c L U (PHand (elements (m_handles c))) c L U
| s_hand_close c L U h hs raises :
    h ∈ L → thread_step i (PHand (h :: hs)) c L U (PDiscard h hs raises) c (L ∖ {[h]}) U
| s_hand_closed c L U h hs :
    h ∉ L → thread_step i (PHand (h :: hs)) c L U (PHand hs) c L U
| s_hand_discard c L U h hs raises :
    thread_step i (PDiscard h hs raises) c L U
      (if raises then PFail (Some "fact_handle_close_failed") else PHand hs) (handle_closed h c) L U
| s_hand_done c L U : thread_step i (PHand []) c L U PWait2 c L U
| s_wait2_interrupted c L U :
    second_wait_over c = false → prepare_interrupted c = true →
    thread_step i PWait2 c L U PEnd c L U
| s_wait2_lost c L U :
    second_wait_over c = false → prepare_interrupted c = false →
    thread_step i PWait2 c L U (PFail (Some "control_lease_lost")) c L U
| s_wait2_over c L U :
    second_wait_over c = true → thread_step i PWait2 c L U PIdent c L U
| s_ident c L U db eu read :
    thread_step i PIdent c L U
      (match prepare_identity db eu read with Ok x => PPublish x | Err code => PFail (Some code) end) c L U
| s_publish c L U x :
    thread_step i (PPublish x) c L U PEnd (default c (prepare_publish x c)) L U
| s_fail c L U code :
    thread_step i (PFail code) c L U (PFailHand code (elements (m_handles c))) c L U
| s_fail_close c L U code h hs :
    h ∈ L → thread_step i (PFailHand code (h :: hs)) c L U (PFailDiscard code h hs) c (L ∖ {[h]}) U
| s_fail_closed c L U code h hs :
    h ∉ L → thread_step i (PFailHand code (h :: hs)) c L U (PFailHand code hs) c L U
| s_fail_discard c L U code h hs :
    thread_step i (PFailDiscard code h hs) c L U (PFailHand code hs) (handle_closed h c) L U
| s_fail_clear c L U code :
    thread_step i (PFailHand code []) c L U (PFailBlock code) (with_builders ∅ c) L U
| s_fail_block c L U code :
    thread_step i (PFailBlock code) c L U PEnd (block code c) L U
| s_prepare_end c L U : thread_step i PEnd c L U TIdle (prepare_end c) L U
(* reopen, lease_lost *)
| s_lost_preparing c L U op :
    m_operation c = Some op → m_lease c = Some i → m_state c = Preparing →
    thread_step i TIdle c L U TIdle (block (Some "control_lease_lost") c) L U
| s_recover c L U op :
    assert_prepared op i c = true → thread_step i TIdle c L U RStart c L U
| s_recover_closed c L U :
    recover_count c = None → thread_step i RStart c L U (RBlock "coordinator_closed") c L U
| s_recover_open c L U c' : recover_count c = Some c' → thread_step i RStart c L U ROpen c' L U
| s_recover_raises c L U : thread_step i ROpen c L U (RUncount None None) c L U
| s_recover_handle c L U h :
    h ∉ U → thread_step i ROpen c L U (RRead h) c ({[h]} ∪ L) ({[h]} ∪ U)
| s_recover_read c L U h read :
    (∀ x, read = Some x → valid_identity x = true) →
    thread_step i (RRead h) c L U (RUncount (Some h) read) c L U
| s_recover_uncount c L U h read :
    thread_step i (RUncount h read) c L U
      (match h, read with
       | Some x, Some y => RCheck x y
       | Some x, None => RClose x "epoch_unverifiable"
       | None, _ => RBlock "epoch_unverifiable"
       end) (uncount_opening c) L U
| s_recover_check c L U h x :
    thread_step i (RCheck h x) c L U
      (if m_closed c then RClose h "coordinator_closed" else RPublish (Some h) x) c L U
| s_recover_nodb c L U : thread_step i RStart c L U RNoDb c L U
| s_nodb_pristine c L U c' :
    m_prepared_epoch c = None → recover_pristine c = Some c' →
    thread_step i RNoDb c L U TIdle c' L U
| s_nodb_closed c L U :
    m_prepared_epoch c = None → recover_pristine c = None →
    thread_step i RNoDb c L U (RBlock "coordinator_closed") c L U
| s_nodb_unverifiable c L U :
    thread_step i RNoDb c L U (RBlock "epoch_unverifiable") c L U
| s_nodb_identity c L U x :
    valid_identity x = true → thread_step i RNoDb c L U (RPublish None x) c L U
| s_recover_publish c L U h x :
    thread_step i (RPublish h x) c L U
      (match (recover_publish h (store_epoch x) c).1 with
       | RecoverServing => TIdle
       | RecoverCatchingUp _ => XRebuild (store_epoch x)
       | RecoverClosed =>
           match h with Some y => RClose y "coordinator_closed" | None => RBlock "coordinator_closed" end
       end) ((recover_publish h (store_epoch x) c).2) L U
| s_recover_close c L U h code :
    thread_step i (RClose h code) c L U (RDiscard h code) c (L ∖ {[h]}) U
| s_recover_discard c L U h code :
    thread_step i (RDiscard h code) c L U (RBlock code) (handle_closed h c) L U
| s_recover_block c L U code :
    thread_step i (RBlock code) c L U TIdle (block (Some code) c) L U
(* the recovery object, which may call complete_recovery from any thread *)
| s_rebuild_done c L U t : thread_step i (XRebuild t) c L U TIdle c L U
| s_rebuild_raises c L U t :
    thread_step i (XRebuild t) c L U
      (XHand (elements (m_handles c)) (Some "epoch_recovery_failed")) c L U
| s_x_close c L U h hs code :
    h ∈ L → thread_step i (XHand (h :: hs) code) c L U (XDiscard h hs code) c (L ∖ {[h]}) U
| s_x_closed c L U h hs code :
    h ∉ L → thread_step i (XHand (h :: hs) code) c L U (XHand hs code) c L U
| s_x_discard c L U h hs code :
    thread_step i (XDiscard h hs code) c L U (XHand hs code) (handle_closed h c) L U
| s_x_done c L U code : thread_step i (XHand [] code) c L U (after_block code) c L U
| s_x_block c L U code : thread_step i (XBlock code) c L U TIdle (block (Some code) c) L U
| s_complete_start c L U t :
    thread_step i TIdle c L U
      (if m_closed c then XHand (elements (m_handles c)) None else CRead t) c L U
| s_complete_raises c L U t :
    thread_step i (CRead t) c L U
      (XHand (elements (m_handles c)) (Some "epoch_unverifiable")) c L U
| s_complete_read c L U t read : thread_step i (CRead t) c L U (CPublish t read) c L U
| s_complete_publish c L U t read :
    thread_step i (CPublish t read) c L U
      (match (complete_publish t read c).1 with
       | CompleteBlocked => XHand (elements (m_handles c)) None
       | _ => TIdle
       end) ((complete_publish t read c).2) L U
(* close *)
| s_close c L U c' : close_enter c = Some c' → thread_step i TIdle c L U KWait c' L U
| s_close_over c L U :
    close_wait_over c = true →
    thread_step i KWait c L U (XHand (elements (m_handles c)) None) c L U.

(** One step of one thread. *)
Inductive coord_step : relation csys :=
| coord_thread i c T L U p' c' L' U' :
    thread_step i (T i) c L U p' c' L' U' →
    coord_step (CSys c T L U) (CSys c' (<[i:=p']> T) L' U').

(** ** Counting threads *)

(** [n] threads satisfy [f]. *)
Definition counts (f : tpc → bool) (T : nat → tpc) (n : nat) : Prop :=
  ∃ O : gset nat, (∀ i, i ∈ O ↔ f (T i) = true) ∧ size O = n.

Lemma insert_at (T : nat → tpc) i p : <[i:=p]> T i = p.
Proof. apply fn_lookup_insert. Qed.
Lemma insert_at_ne (T : nat → tpc) i j p : i ≠ j → <[i:=p]> T j = T j.
Proof. apply fn_lookup_insert_ne. Qed.

Lemma counts_same f T n i p : counts f T n → f p = f (T i) → counts f (<[i:=p]> T) n.
Proof.
  intros (O&HO&Hs) Hp. exists O. split; [|done]. intros j. rewrite HO.
  destruct (decide (i = j)) as [<-|]; [by rewrite insert_at, Hp|by rewrite insert_at_ne].
Qed.

Lemma counts_in f T n i p :
  counts f T n → f (T i) = false → f p = true → counts f (<[i:=p]> T) (S n).
Proof.
  intros (O&HO&Hs) Hi Hp. exists ({[i]} ∪ O). split.
  - intros j. rewrite elem_of_union, elem_of_singleton, HO.
    destruct (decide (i = j)) as [<-|]; [rewrite insert_at, Hp; tauto|].
    rewrite insert_at_ne by done. split; [intros [|]; [congruence|done]|by right].
  - rewrite size_union, size_singleton, Hs; [done|].
    intros j ->%elem_of_singleton. rewrite HO. congruence.
Qed.

Lemma counts_pos f T n i : counts f T n → f (T i) = true → (0 < n)%nat.
Proof.
  intros (O&HO&<-) Hi. apply HO in Hi. destruct (size O) eqn:E; [|lia].
  apply size_empty_inv in E. set_solver.
Qed.

Lemma counts_out f T n i p :
  counts f T n → f (T i) = true → f p = false → counts f (<[i:=p]> T) (n - 1).
Proof.
  intros (O&HO&Hs) Hi Hp. exists (O ∖ {[i]}). split.
  - intros j. rewrite elem_of_difference, elem_of_singleton, HO.
    destruct (decide (i = j)) as [<-|]; [rewrite insert_at, Hp; naive_solver|].
    rewrite insert_at_ne by done. split; [tauto|]. split; [done|congruence].
  - rewrite size_difference; [by rewrite size_singleton, Hs|].
    intros j ->%elem_of_singleton. by apply HO.
Qed.

Lemma counts_zero f T i : counts f T 0 → f (T i) = false.
Proof. intros Hc. destruct (f (T i)) eqn:E; [|done]. pose proof (counts_pos _ _ _ _ Hc E). lia. Qed.

(** ** The invariant *)

Definition in_pr (p : tpc) : bool := in_prepare p || in_recover p.

(** The thread will close handle [h] on behalf of [close]. *)
Definition closing (p : tpc) (h : nat) : Prop :=
  match p with KWait => True | XHand hs _ | XDiscard _ hs _ => h ∈ hs | _ => False end.

Record coord_inv (y : csys) : Prop := {
  ci_opening : counts counted (y_t y) (m_opening (y_c y));
  ci_requests : counts serves (y_t y) (m_requests (y_c y));
  ci_alone : ∀ i j, in_pr (y_t y i) = true → in_pr (y_t y j) = true → i = j;
  ci_serving : m_state (y_c y) = Serving ∨ m_state (y_c y) = CatchingUp →
    ∀ i, in_pr (y_t y i) = false;
  ci_preparing : m_state (y_c y) = Preparing →
    ∀ i, in_pr (y_t y i) = true → in_prepare (y_t y i) = true ∧ m_lease (y_c y) = Some i;
  ci_prepared : m_state (y_c y) = Prepared →
    m_requests (y_c y) = 0%nat ∧ m_builders (y_c y) = ∅ ∧ m_handles (y_c y) = ∅ ∧
    ∀ i, (in_pr (y_t y i) = true → m_lease (y_c y) = Some i) ∧
         (in_prepare (y_t y i) = true → y_t y i = PEnd) ∧
         (counted (y_t y i) = true → in_recover (y_t y i) = true);
  ci_recover : ∀ i, in_recover (y_t y i) = true →
    m_state (y_c y) = Prepared ∨ m_state (y_c y) = CoordBlocked;
  ci_ident : ∀ i, (y_t y i = PIdent ∨ ∃ x, y_t y i = PPublish x) →
    m_state (y_c y) = Preparing →
    m_requests (y_c y) = 0%nat ∧ m_opening (y_c y) = 0%nat ∧ m_handles (y_c y) = ∅ ∧
    m_builders (y_c y) = ∅;
  ci_closed : m_closed (y_c y) = true → m_state (y_c y) = CoordBlocked;
  ci_target : m_target_epoch (y_c y) ≠ None →
    m_state (y_c y) = CatchingUp ∨ m_state (y_c y) = CoordBlocked;
  ci_catching : m_state (y_c y) = CatchingUp → m_active_epoch (y_c y) = None;
  ci_live : ∀ h, h ∈ y_live y →
    h ∈ y_used y ∧ (h ∈ m_handles (y_c y) ∨ ∃ i, holds (y_t y i) = Some h) ∧
    ∀ i, discards (y_t y i) ≠ Some h;
  ci_holds : ∀ i h, holds (y_t y i) = Some h → h ∈ y_used y;
  ci_discards : ∀ i h, discards (y_t y i) = Some h → h ∈ y_used y;
  ci_registered : ∀ h, h ∈ m_handles (y_c y) → h ∈ y_used y;
  ci_release : m_closed (y_c y) = true → ∀ h, h ∈ y_live y → h ∈ m_handles (y_c y) →
    ∃ i, closing (y_t y i) h }.

Section frames.
Context (i : nat) (T : nat → tpc) (p' : tpc).

(** Facts about all threads after thread [i] moved. *)
Lemma all_threads (P : nat → tpc → Prop) :
  P i p' → (∀ j, j ≠ i → P j (T j)) → ∀ j, P j (<[i:=p']> T j).
Proof.
  intros Hi Hj j. destruct (decide (i = j)) as [<-|Hne].
  - by rewrite insert_at.
  - rewrite insert_at_ne by done. by apply Hj.
Qed.
End frames.

(** ** Each field is preserved *)

Ltac at_thread :=
  repeat match goal with
  | H : context[<[?i:=_]> ?T ?j] |- _ =>
      destruct (decide (i = j)) as [<-|?]; [rewrite insert_at in H|rewrite insert_at_ne in H by done]
  | |- context[<[?i:=_]> ?T ?j] =>
      destruct (decide (i = j)) as [<-|?]; [rewrite insert_at|rewrite insert_at_ne by done]
  end.
Ltac step_cases :=
  let Hinv := fresh in let Hstep := fresh in let Hs := fresh in
  intros Hinv Hstep; destruct Hstep as [i c T L U p' c' L' U' Hs];
  destruct Hinv as [Hop Hrq Hal Hse Hpp Hpd Hre Hid Hcl Htg Hca Hli Hho Hdi Hus Hrl]; simpl in *;
  remember (T i) as p eqn:Hp; symmetry in Hp;
  destruct Hs; destruct c as [cst cbc ccl cpa cop cle crq copn chs cbs cpe cae cte]; unfold begin_request, open_begin, open_register, register_builder, prepare_enter,
    recover_count, recover_pristine, close_enter, refuses, assert_prepared, second_wait_over,
    recover_publish, complete_publish, prepare_publish, complete_request, handle_closed, block,
    uncount_opening, unregister_builder, prepare_end, add_handle, after_block in *; simpl in *;
  repeat case_match; simplify_eq/=; bool_to_prop;
  repeat match goal with H : ¬ (_ ≠ _) |- _ => apply dec_stable in H end; simplify_eq/=.


(** Facts about the moving thread, at its old program counter. *)
Ltac mover i :=
  match goal with
  | Hal : ∀ i j, in_pr (?T i) = true → _, Hp : ?T i = _ |- _ =>
      let H := fresh "Hmv" in pose proof (Hal i) as H; rewrite Hp in H; cbn in H
  end;
  match goal with
  | Hse : _ → ∀ i, in_pr (?T i) = false, Hp : ?T i = _ |- _ =>
      let H := fresh "Hms" in pose proof (λ H, Hse H i) as H; rewrite Hp in H; cbn in H
  end.

Lemma counts_none f T n : (∀ i, f (T i) = false) → counts f T n → n = 0%nat.
Proof.
  intros Hf (O&HO&<-). apply size_empty_iff. intros i. rewrite HO, Hf. split; [done|].
  by intros ?%elem_of_empty.
Qed.

Lemma holds_move (T : nat → tpc) i j p' h :
  holds (T j) = Some h → (i = j → holds p' = Some h) → ∃ k, holds (<[i:=p']> T k) = Some h.
Proof.
  intros Hj Hi. exists j. destruct (decide (i = j)) as [<-|].
  - rewrite insert_at. auto.
  - by rewrite insert_at_ne.
Qed.

Section preservation.
Context (x y : csys).

Lemma step_opening : coord_inv x → coord_step x y → counts counted (y_t y) (m_opening (y_c y)).
Proof.
  step_cases.
  all: try (apply counts_same; [done|by rewrite Hp]).
  all: try (apply counts_in; [done|by rewrite Hp|done]).
  all: try (apply counts_out; [done|by rewrite Hp|done]).
Qed.

Lemma step_requests : coord_inv x → coord_step x y → counts serves (y_t y) (m_requests (y_c y)).
Proof.
  step_cases.
  all: try (apply counts_same; [done|by rewrite Hp]).
  all: try (apply counts_in; [done|by rewrite Hp|done]).
  all: try (apply counts_out; [done|by rewrite Hp|done]).
  all: try (pose proof (counts_zero _ _ i Hrq); by rewrite Hp in *).
Qed.

Lemma step_alone : coord_inv x → coord_step x y → ∀ i j, in_pr (y_t y i) = true → in_pr (y_t y j) = true → i = j.
Proof.
  step_cases; mover i; intros ia ib Hia Hib; at_thread; cbn in Hia, Hib; try done;
    clear Hop Hrq Hre Hid Hcl Htg Hca Hli Hho Hdi; auto using eq_sym.
  all: try (specialize (Hse (or_introl eq_refl)); congruence).
  all: destruct (Hpd eq_refl) as (_&_&_&Hown);
    first [apply (Hown ia) in Hia|apply (Hown ib) in Hib]; congruence.
Qed.

Lemma step_serving : coord_inv x → coord_step x y → m_state (y_c y) = Serving ∨ m_state (y_c y) = CatchingUp →
    ∀ i, in_pr (y_t y i) = false.
Proof.
  step_cases; mover i; intros Hst ia; at_thread; cbn; try done;
    clear Hop Hrq Hre Hid Hcl Htg Hca Hli Hho Hdi; try (by destruct Hst); auto.
  all: try (by specialize (Hms Hst)).
  all: try (destruct (in_pr (T ia)) eqn:E; [|done]; specialize (Hmv ia eq_refl E); congruence).
Qed.

Lemma step_preparing : coord_inv x → coord_step x y → m_state (y_c y) = Preparing →
    ∀ i, in_pr (y_t y i) = true → in_prepare (y_t y i) = true ∧ m_lease (y_c y) = Some i.
Proof.
  step_cases; mover i; intros Hst ia; at_thread; cbn; try done; 
    clear Hop Hrq Hre Hid Hcl Htg Hca Hli Hho Hdi; simplify_eq; intros Hia; try done; auto.
  all: try (pose proof (Hpp eq_refl i) as Hx; rewrite Hp in Hx; destruct (Hx eq_refl) as [Hx1 Hx2];
    cbn in Hx1; first [discriminate Hx1|exact (conj eq_refl Hx2)]).
  all: try (specialize (Hse (or_introl eq_refl) ia); congruence).
Qed.

Lemma step_recover : coord_inv x → coord_step x y → ∀ i, in_recover (y_t y i) = true →
    m_state (y_c y) = Prepared ∨ m_state (y_c y) = CoordBlocked.
Proof.
  step_cases; intros ia; at_thread; cbn; try done; 
    intros Hia; auto.
  all: try (pose proof (Hre i) as Hx; rewrite Hp in Hx; destruct (Hx eq_refl); simplify_eq; by auto).
  all: try exact (Hre ia Hia).
  all: assert (in_pr (T ia) = true) as Hpr by (unfold in_pr; by rewrite Hia, orb_true_r).
  all: try (rewrite Hse in Hpr; [done|by auto]).
  all: try (pose proof (Hal i ia) as Hx; rewrite Hp in Hx; specialize (Hx eq_refl Hpr); congruence).
  all: try (specialize (Hre ia Hia); destruct Hre; congruence).
Qed.

Lemma step_closed : coord_inv x → coord_step x y → m_closed (y_c y) = true → m_state (y_c y) = CoordBlocked.
Proof.
  step_cases; try done; auto; intros Hc; try (specialize (Hcl Hc)); try congruence.
Qed.

Lemma step_target : coord_inv x → coord_step x y → 
  m_target_epoch (y_c y) ≠ None →
    m_state (y_c y) = CatchingUp ∨ m_state (y_c y) = CoordBlocked.
Proof.
  step_cases; try done; auto; intros Hc; try (specialize (Htg Hc)); try congruence; auto.
  all: try (destruct Htg; congruence).
Qed.

Lemma step_catching : coord_inv x → coord_step x y → 
  m_state (y_c y) = CatchingUp → m_active_epoch (y_c y) = None.
Proof.
  step_cases; try done; auto; intros Hc; try (specialize (Hca Hc)); try congruence; auto.
Qed.

Lemma step_holds : coord_inv x → coord_step x y → ∀ i h, holds (y_t y i) = Some h → h ∈ y_used y.
Proof.
  step_cases; intros ia ih; at_thread; cbn; try done; intros Hh; 
    try (by apply (Hho ia)); try (pose proof (Hho i) as Hx; rewrite Hp in Hx; cbn in Hx; by auto); simplify_eq;
    try (apply elem_of_union; right; by eapply Hho); try (apply elem_of_union; by left; apply elem_of_singleton).
Qed.

Lemma step_discards : coord_inv x → coord_step x y → ∀ i h, discards (y_t y i) = Some h → h ∈ y_used y.
Proof.
  step_cases; intros ia ih; at_thread; cbn; try done; intros Hh; 
    try (by apply (Hdi ia)); try (pose proof (Hdi i) as Hx; rewrite Hp in Hx; cbn in Hx; by auto); simplify_eq;
    try (by apply (Hho i); rewrite Hp);
    try (apply elem_of_union; right; by eapply Hdi); try (by apply Hli).
Qed.

Lemma step_ident : coord_inv x → coord_step x y →  ∀ i, (y_t y i = PIdent ∨ ∃ x, y_t y i = PPublish x) →
    m_state (y_c y) = Preparing →
    m_requests (y_c y) = 0%nat ∧ m_opening (y_c y) = 0%nat ∧ m_handles (y_c y) = ∅ ∧
    m_builders (y_c y) = ∅.
Proof.
  step_cases; intros ia; at_thread; cbn; try (intros [[=]|[? [=]]]; fail); intros Hia Hst; simplify_eq;
   try (by eapply (Hid _ Hia)); try (by apply (Hid i); [rewrite Hp; eauto|]); try (split_and!; done).
  all: try (destruct (Hid ia Hia eq_refl) as (?&?&?&?); subst; split_and!; first [reflexivity|lia|clear; set_solver]).
  all: try (assert (in_pr (T ia) = true) as Hpr by (destruct Hia as [->|[? ->]]; done);
    rewrite Hse in Hpr; [done|by auto]).
  all: pose proof (Hre i) as Hx; rewrite Hp in Hx; destruct (Hx eq_refl); congruence.
Qed.

Lemma step_prepared : coord_inv x → coord_step x y →  m_state (y_c y) = Prepared →
    m_requests (y_c y) = 0%nat ∧ m_builders (y_c y) = ∅ ∧ m_handles (y_c y) = ∅ ∧
    ∀ i, (in_pr (y_t y i) = true → m_lease (y_c y) = Some i) ∧
         (in_prepare (y_t y i) = true → y_t y i = PEnd) ∧
         (counted (y_t y i) = true → in_recover (y_t y i) = true).
Proof.
  step_cases; intros Hst; simplify_eq.
  all: try (destruct (Hpd eq_refl) as (?&?&?&Hown); subst;
     split_and!; [first [reflexivity|lia]|first [reflexivity|clear; set_solver]|first [reflexivity|clear; set_solver]|]; pose proof (Hown i) as Hoi; rewrite Hp in Hoi; cbn in Hoi; intros ia; at_thread; [cbn|by auto]).
  all: try (destruct Hoi as (?&?&?); split_and!; intros; auto; try done; fail).
  all: try (destruct Hoi as (_&Hq&_); discriminate (Hq eq_refl)).
  (* the publishing block *)
  destruct (Hid i) as (->&->&->&->); [right; by eexists|done|].
  destruct (Hpp eq_refl i) as [_ ->]; [by rewrite Hp|]. split_and!; [done..|].
  intros ia. at_thread; [done|]. split_and!.
  - intros Hia. pose proof (Hal i ia) as Hx. rewrite Hp in Hx. by specialize (Hx eq_refl Hia).
  - intros Hia. pose proof (Hal i ia) as Hx. rewrite Hp in Hx.
    assert (in_pr (T ia) = true) as Hpr by (unfold in_pr; by rewrite Hia).
    by specialize (Hx eq_refl Hpr).
  - intros Hia. by rewrite (counts_zero _ _ ia Hop) in Hia.
Qed.

Lemma step_live : coord_inv x → coord_step x y → ∀ h, h ∈ y_live y →
    h ∈ y_used y ∧ (h ∈ m_handles (y_c y) ∨ ∃ i, holds (y_t y i) = Some h) ∧
    ∀ i, discards (y_t y i) ≠ Some h.
Proof.
  step_cases; clear Hop Hrq Hal Hse Hpp Hpd Hre Hid Hcl Htg Hca; intros ih Hih.
  all: try (apply elem_of_difference in Hih as [Hih Hne%not_elem_of_singleton]).
  all: try (apply elem_of_union in Hih as [->%elem_of_singleton|Hih]).
  all: try (destruct (Hli ih Hih) as (Hu&Hreg&Hdis); pose proof (Hdis i) as Hdi'; rewrite Hp in Hdi'; cbn in Hdi').
  all: try (split; [first [done|apply elem_of_union; by right]|]).
  all: try (split; [|intros j; at_thread; [cbn|by auto]; try done; congruence]).
  all: try (destruct Hreg as [Hreg|[j Hj]];
    [left; first [exact Hreg|apply elem_of_union; right; exact Hreg
      |apply elem_of_difference; split; [exact Hreg|apply not_elem_of_singleton; congruence]]
    |destruct (decide (i = j)) as [<-|Hij];
      [rewrite Hp in Hj; cbn in Hj; simplify_eq;
       try (right; eapply (holds_move T i i); [by rewrite Hp|done]);
       try (left; apply elem_of_union; by left; apply elem_of_singleton)
      |right; by eapply (holds_move T i j)]]).
  all: split_and!; [apply elem_of_union; by left; apply elem_of_singleton| |
    intros j; at_thread; [done|]; intros Hd; by apply Hdi in Hd].
  - left. apply elem_of_union. by left; apply elem_of_singleton.
  - right. exists i. by rewrite insert_at.
  - right. exists i. by rewrite insert_at.
Qed.

Lemma step_registered : coord_inv x → coord_step x y → ∀ h, h ∈ m_handles (y_c y) → h ∈ y_used y.
Proof.
  step_cases; clear Hop Hrq Hal Hse Hpp Hpd Hre Hid Hcl Htg Hca Hli Hdi; intros ih Hih; auto.
  all: try (apply elem_of_difference in Hih as [Hih _]; by auto).
  all: try (apply elem_of_union in Hih as [->%elem_of_singleton|Hih]).
  all: try (apply elem_of_union; by first [left; apply elem_of_singleton|right; auto]).
  all: try (apply elem_of_union; right; by apply Hus).
  all: first [by apply Hus|apply (Hho i); by rewrite Hp].
Qed.

Lemma step_release : coord_inv x → coord_step x y → m_closed (y_c y) = true → ∀ h, h ∈ y_live y → h ∈ m_handles (y_c y) →
   ∃ i, closing (y_t y i) h.
Proof.
  step_cases; clear Hop Hrq Hal Hse Hpp Hpd Hre Hid Htg Hca Hli Hdi Hho; intros Hc ih Hih Hrg; try done.
  all: try (rewrite Hc in *; done).
  all: try (apply elem_of_difference in Hih as [Hih Hne%not_elem_of_singleton]).
  all: try (apply elem_of_difference in Hrg as [Hrg _]).
  all: try (apply elem_of_union in Hih as [->%elem_of_singleton|Hih]; [by apply Hus in Hrg|]).
  all: try (destruct (Hrl Hc ih Hih Hrg) as [j Hj]; destruct (decide (i = j)) as [<-|Hij];
    [rewrite Hp in Hj; cbn in Hj; try done|exists j; by rewrite insert_at_ne]).
  - by specialize (Hcl Hc).
  - exists i. rewrite insert_at. cbn. by apply elem_of_cons in Hj as [->|].
  - exists i. rewrite insert_at. cbn. by apply elem_of_cons in Hj as [->|].
  - exists i. by rewrite insert_at.
  - by apply elem_of_nil in Hj.
  - by apply elem_of_nil in Hj.
  - exists i. by rewrite insert_at.
  - exists i. rewrite insert_at. cbn. by apply elem_of_elements.
Qed.

Lemma coord_inv_step : coord_inv x → coord_step x y → coord_inv y.
Proof.
  intros Hi Hs. split;
    [by apply step_opening|by apply step_requests|by apply step_alone|by apply step_serving
    |by apply step_preparing|by apply step_prepared|by apply step_recover|by apply step_ident
    |by apply step_closed|by apply step_target|by apply step_catching|by apply step_live
    |by apply step_holds|by apply step_discards|by apply step_registered|by apply step_release].
Qed.
End preservation.

Lemma coord_inv_init y : coord_init y → coord_inv y.
Proof.
  destruct y as [c T L U]. intros (HT&HU&Hc). simpl in *. subst U.
  assert (∀ f : tpc → bool, f TIdle = false → counts f T 0) as Hcount.
  { intros f Hf. exists ∅. split; [|done]. intros j. rewrite HT, Hf. set_solver. }
  assert (m_opening c = 0%nat ∧ m_requests c = 0%nat ∧ m_closed c = false ∧ m_target_epoch c = None ∧
    (m_state c = Serving ∨ m_state c = CoordBlocked) ∧ m_handles c = L) as (Ho&Hr&Hcl&Ht&Hs&Hh).
  { destruct Hc as [[-> ->]|(db&opened&read&Hc)]; [by split_and!; auto|].
    unfold initialize_fact_epoch in Hc.
    destruct db, opened as [[? []]|], read as [id|]; simpl in Hc; try (injection Hc as <- <-);
      try (split_and!; by auto).
    destruct (valid_identity id); injection Hc as <- <-; split_and!; by auto. }
  split; simpl; rewrite ?Ho, ?Hr, ?Hcl, ?Ht, ?Hh; try done; try (intros; by rewrite HT in * ).
  - by apply Hcount.
  - by apply Hcount.
  - intros Hp. destruct Hs; congruence.
  - intros i [Hi|[? Hi]]; by rewrite HT in Hi.
  - intros Hp. destruct Hs; congruence.
  - intros h Hh'. split; [done|]. split; [by left|]. intros i. by rewrite HT.
Qed.

Lemma coord_inv_reachable y : reachable coord_init coord_step y → coord_inv y.
Proof. apply reachable_invariant; [apply coord_inv_init|]. intros. by eapply coord_inv_step. Qed.

(** ** Properties *)

Lemma counted_holds p h : holds p = Some h → counted p = true ∨ in_recover p = true.
Proof. destruct p; try done; simpl; auto. Qed.

Lemma prepared_owner y op i :
  coord_inv y → assert_prepared op i (y_c y) = true → y_t y i = TIdle →
  m_state (y_c y) = Prepared ∧ ∀ j, in_recover (y_t y j) = false ∧ counted (y_t y j) = false.
Proof.
  intros Hi Ha Hidle. unfold assert_prepared in Ha. bool_to_prop.
  match goal with Hs : m_state _ = Prepared |- _ => pose proof Hs as Hst end. split; [done|].
  destruct (ci_prepared y Hi Hst) as (_&_&_&Hown). intros j.
  assert (in_recover (y_t y j) = false) as Hr.
  { destruct (in_recover (y_t y j)) eqn:E; [|done]. destruct (Hown j) as [Hl _].
    rewrite Hl in * by (unfold in_pr; by rewrite E, orb_true_r). simplify_eq.
    by rewrite Hidle in E. }
  split; [done|]. destruct (counted (y_t y j)) eqn:E; [|done].
  destruct (Hown j) as (_&_&Hc). rewrite Hc in Hr; done.
Qed.

Lemma closed_step x y : coord_step x y → m_closed (y_c x) = true → m_closed (y_c y) = true.
Proof.
  intros [i c T L U p' c' L' U' Hs]. simpl. intros Hc.
  destruct Hs; destruct c; simpl in *; try done; subst;
    unfold begin_request, open_begin, open_register, register_builder, prepare_enter, recover_count,
      recover_pristine, close_enter, refuses, recover_publish, complete_publish, prepare_publish,
      complete_request in *; simpl in *; repeat case_match; simplify_eq/=; done.
Qed.

(** What [prepared] means, in any state of the invariant. *)
Lemma prepared_quiet y op i :
  coord_inv y → assert_prepared op i (y_c y) = true → y_t y i = TIdle →
  m_requests (y_c y) = 0%nat ∧ m_opening (y_c y) = 0%nat ∧ m_handles (y_c y) = ∅ ∧
  m_builders (y_c y) = ∅ ∧ y_live y = ∅ ∧ ∀ j, serves (y_t y j) = false.
Proof.
  intros Hi Ha Hidle.
  destruct (prepared_owner y op i Hi Ha Hidle) as [Hst Hno].
  destruct (ci_prepared y Hi Hst) as (Hr&Hb&Hh&_).
  split_and!; [done| |done|done| |].
  - eapply counts_none; [|apply (ci_opening y Hi)]. intros j. by destruct (Hno j).
  - apply elem_of_equiv_empty_L. intros h Hl.
    destruct (ci_live y Hi h Hl) as (_&[Hreg|[j Hj]]&_); [rewrite Hh in Hreg; set_solver|].
    destruct (Hno j). apply counted_holds in Hj as [?|?]; congruence.
  - intros j. pose proof (ci_requests y Hi) as Hc. rewrite Hr in Hc. by apply counts_zero.
Qed.

(** C23: when the holder of a maintenance lease is told its operation is
    prepared, the daemon is quiet: no scoring request is in progress, no fact
    handle is registered, being opened or still holding the shared lease, and no
    builder is registered, under every interleaving of requests, handle opens
    and closes, builders, other operations and process shutdown. *)
Theorem prepared_means_quiet y op i :
  reachable coord_init coord_step y → assert_prepared op i (y_c y) = true → y_t y i = TIdle →
  m_requests (y_c y) = 0%nat ∧ m_opening (y_c y) = 0%nat ∧ m_handles (y_c y) = ∅ ∧
  m_builders (y_c y) = ∅ ∧ y_live y = ∅ ∧ ∀ j, serves (y_t y j) = false.
Proof. intros Hi%coord_inv_reachable. by apply prepared_quiet. Qed.

(** Shutdown is final and releases everything: after [close] no request,
    handle, builder or maintenance operation is ever accepted again, and once
    the threads have come to rest no shared fact lease is held. *)
Theorem close_is_final x y :
  reachable coord_init coord_step x → m_closed (y_c x) = true → rtc coord_step x y →
  begin_request (y_c y) = None ∧ open_begin (y_c y) = None ∧
  (∀ b, register_builder b (y_c y) = None) ∧ (∀ op l, prepare_enter op l (y_c y) = None) ∧
  (∀ op l, assert_prepared op l (y_c y) = false) ∧
  ((∀ i, y_t y i = TIdle) → y_live y = ∅).
Proof.
  intros Hr Hc Hxy. assert (reachable coord_init coord_step y) as Hi%coord_inv_reachable.
  { destruct Hr as (z&?&?). exists z. split; [done|]. by etrans. }
  assert (m_closed (y_c y) = true) as Hcy.
  { eapply (rtc_preserves _ (λ z, m_closed (y_c z) = true)); [|exact Hc|exact Hxy].
    intros a b Ha Hs. by eapply closed_step. }
  pose proof (ci_closed y Hi Hcy) as Hst.
  unfold begin_request, open_begin, register_builder, prepare_enter, refuses, assert_prepared.
  rewrite Hcy, Hst. simpl. split_and!; try done.
  intros Hidle. apply elem_of_equiv_empty_L. intros h Hl.
  destruct (ci_live y Hi h Hl) as (_&[Hreg|[j Hj]]&_).
  - destruct (ci_release y Hi Hcy h Hl Hreg) as [j Hj]. by rewrite Hidle in Hj.
  - by rewrite Hidle in Hj.
Qed.

(** C22: the epoch gate: scoring becomes available again only with derived state
    of the epoch that was proven on disk.  From [catching_up] it takes a
    completion that read a valid identity of exactly the target epoch; from any
    other state the epoch read back is the one seen at prepare, or there was no
    fact store and no epoch at all. *)
Theorem serving_resumes_on_proven_epoch x y :
  reachable coord_init coord_step x → coord_step x y →
  m_state (y_c x) ≠ Serving → m_state (y_c y) = Serving →
  m_target_epoch (y_c y) = None ∧
  ((∃ i t d, y_t x i = CPublish t (Some d) ∧ valid_identity d = true ∧ store_epoch d = t ∧
      m_state (y_c x) = CatchingUp ∧ m_target_epoch (y_c x) = Some t ∧ m_active_epoch (y_c x) = None ∧
      m_active_epoch (y_c y) = Some t) ∨
   (∃ i h d, y_t x i = RPublish h d ∧ m_prepared_epoch (y_c x) = Some (store_epoch d) ∧
      m_active_epoch (y_c y) = Some (store_epoch d)) ∨
   (m_prepared_epoch (y_c x) = None ∧ m_active_epoch (y_c y) = None)).
Proof.
  intros Hi%coord_inv_reachable Hs. pose proof (ci_catching x Hi) as Hcat. clear Hi.
  destruct Hs as [i c T L U p' c' L' U' Hs]. simpl in *.
  remember (T i) as p eqn:Hp. symmetry in Hp. destruct Hs;
    unfold begin_request, open_begin, open_register, register_builder, prepare_enter, recover_count,
      close_enter, refuses, prepare_publish, complete_request in *;
    destruct c; simpl in *; intros Hn Hy; try done;
    try (repeat case_match; simplify_eq/=; bool_to_prop; done).
  - unfold recover_pristine in *. simpl in *. case_match; simplify_eq/=. split; [done|].
    right. by right.
  - unfold recover_publish in *. simpl in *.
    destruct h; repeat case_match; simplify_eq/=; bool_to_prop; try done;
      (split; [done|right; left; by eexists _, _, _]).
  - unfold complete_publish in *. simpl in *. repeat case_match; simplify_eq/=; bool_to_prop; try done.
    repeat match goal with H : ¬ (_ ≠ _) |- _ => apply dec_stable in H end. subst.
    split; [done|]. left. eexists i, _, _.
    split_and!; [exact Hp|done|done|auto..].
Qed.

(** ** A concrete run *)

Section demo.

Definition demo_coord : csys := CSys init_coord (λ _, TIdle) ∅ ∅.

Lemma demo_coord_init : coord_init demo_coord.
Proof. split; [done|]. split; [done|]. left. done. Qed.

(** One step of thread [i], whose program counter is given. *)
Lemma coord_run i p c T L U p' c' L' U' z :
  T i = p → thread_step i p c L U p' c' L' U' →
  rtc coord_step (CSys c' (<[i:=p']> T) L' U') z → rtc coord_step (CSys c T L U) z.
Proof. intros <- Hs Hr. eapply rtc_l; [by apply coord_thread|done]. Qed.

  Tactic Notation "coord_go" constr(i) uconstr(rule) :=
  eapply (coord_run i); [reflexivity|eapply rule; (reflexivity || done)|].

(** A scoring request is in progress when the control thread 0 prepares; the
    request completes and the preparation goes through. *)
Lemma demo_prepared :
  ∃ y, rtc coord_step demo_coord y ∧ assert_prepared "op-1" 0 (y_c y) = true ∧ y_t y 0%nat = TIdle.
Proof.
  eexists. split.
  - unfold demo_coord. coord_go 1%nat s_begin. coord_go 0%nat (s_prepare 0 _ _ _ "op-1").
    coord_go 1%nat s_complete. coord_go 0%nat s_wait_over. coord_go 0%nat s_build_done.
    coord_go 0%nat s_hand_done. coord_go 0%nat s_wait2_over.
    coord_go 0%nat (s_ident 0 _ _ _ false false None). coord_go 0%nat s_publish.
    coord_go 0%nat s_prepare_end. apply rtc_refl.
  - split; reflexivity.
Qed.

Theorem prepared_means_quiet_witness :
  ∃ y, rtc coord_step demo_coord y ∧ m_handles (y_c y) = ∅ ∧ y_live y = ∅.
Proof.
  destruct demo_prepared as (y&Hr&Ha&Ht). exists y. split; [exact Hr|].
  destruct (prepared_means_quiet y "op-1" 0) as (_&_&Hh&_&Hl&_); try assumption.
  - exists demo_coord. split; [apply demo_coord_init|exact Hr].
  - split; assumption.
Defined.

Lemma demo_closed : ∃ y, coord_step demo_coord y ∧ m_closed (y_c y) = true.
Proof.
  eexists. split.
  - unfold demo_coord. apply (coord_thread 3). eapply s_close. reflexivity.
  - reflexivity.
Qed.

Theorem close_is_final_witness :
  ∃ y, coord_step demo_coord y ∧ begin_request (y_c y) = None.
Proof.
  destruct demo_closed as (y&Hs&Hc). exists y. split; [exact Hs|].
  refine (proj1 (close_is_final y y _ Hc _)).
  - exists demo_coord. split; [apply demo_coord_init|]. apply rtc_once, Hs.
  - apply rtc_refl.
Defined.

(** Without a fact database the reopening returns to serving. *)
Lemma demo_reopening :
  ∃ x y, rtc coord_step demo_coord x ∧ coord_step x y ∧ m_state (y_c x) ≠ Serving ∧
         m_state (y_c y) = Serving.
Proof.
  eexists. eexists. split.
  - unfold demo_coord. coord_go 0%nat (s_prepare 0 _ _ _ "op-1").
    coord_go 0%nat s_wait_over. coord_go 0%nat s_build_done.
    coord_go 0%nat s_hand_done. coord_go 0%nat s_wait2_over.
    coord_go 0%nat (s_ident 0 _ _ _ false false None). coord_go 0%nat s_publish.
    coord_go 0%nat s_prepare_end. coord_go 0%nat (s_recover 0 _ _ _ "op-1").
    coord_go 0%nat s_recover_nodb. apply rtc_refl.
  - split; [apply (coord_thread 0); eapply s_nodb_pristine; reflexivity|]. split; [discriminate|reflexivity].
Qed.

Theorem serving_resumes_on_proven_epoch_witness :
  ∃ x y, coord_step x y ∧ m_state (y_c y) = Serving ∧ m_target_epoch (y_c y) = None.
Proof.
  destruct demo_reopening as (x&y&Hr&Hs&Hx&Hy). exists x, y. split; [exact Hs|]. split; [exact Hy|].
  refine (proj1 (serving_resumes_on_proven_epoch x y _ Hs Hx Hy)).
  exists demo_coord. split; [apply demo_coord_init|exact Hr].
Defined.
End demo.
