(* ===== verification/Compat.v ===== *)
(** * The compatibility matrix of [src/daemon/compat.py]

    Which derived state may be reused when moving from the active layered
    identity to the desired one: [refuse_load_reason], the per-layer actions,
    [_collapse_union] (a loop over Python sets, whose iteration order is a
    parameter here), the vector-reuse marker and [plan_actions].  Identity
    values are JSON values compared with Python equality. *)

From Stdlib Require Import Ascii String SpecFloat.
From stdpp Require Import base list strings gmap sorting.
From S2P Require Import Prelude PyJson Demo.
Open Scope Z_scope.

(** ** Python equality and hashing of JSON values *)

Inductive number := NInt (z : Z) | NFloat (f : spec_float).

Definition as_number (j : json) : option number :=
  match j with
  | JBool b => Some (NInt (Z.b2z b))
  | JInt z => Some (NInt z)
  | JFloat f => Some (NFloat f)
  | _ => None
  end.

Definition number_eq (a b : number) : bool :=
  match a, b with
  | NInt x, NInt y => x =? y
  | NInt x, NFloat f | NFloat f, NInt x => float_eq_Z f x
  | NFloat f, NFloat g => SFeqb f g
  end.

(** [a == b] *)
Fixpoint py_eq (a b : json) : bool :=
  match as_number a, as_number b with
  | Some x, Some y => number_eq x y
  | _, _ =>
    match a, b with
    | JNull, JNull => true
    | JStr s, JStr t => String.eqb s t
    | JList l, JList m =>
        (fix go (l m : list json) := match l, m with
          | [], [] => true
          | x :: l, y :: m => py_eq x y && go l m
          | _, _ => false
          end) l m
    | JObj l, JObj m =>
        (length l =? length m)%nat &&
        (fix go (l : list (string * json)) := match l with
          | [] => true
          | (k, v) :: l =>
              match obj_get k m with Some w => py_eq v w | None => false end && go l
          end) l
    | _, _ => false
    end
  end.

(** Lists and dicts cannot be dict keys or set members. *)
Definition hashable (j : json) : bool := match j with JList _ | JObj _ => false | _ => true end.

Inductive compat_exn := TypeErrorUnhashable | ValueErrorDesired | ValueErrorMissingLayer (l : string)
  | ValueErrorBackend | CollapseDiverges.

(** ** Layers and actions *)

Definition LAYER_FACT_SCHEMA : string := "fact_schema_version".
Definition LAYER_REPRESENTATION : string := "representation_id".
Definition LAYER_VECTOR_FORMAT : string := "vector_format_version".
Definition LAYER_PROJECTION : string := "projection_version".
Definition LAYER_INDEX : string := "index_fingerprint".
Definition LAYER_STORE_EPOCH : string := "store_epoch".

Definition IDENTITY_LAYERS : list string :=
  [LAYER_STORE_EPOCH; LAYER_FACT_SCHEMA; LAYER_REPRESENTATION; LAYER_VECTOR_FORMAT;
   LAYER_PROJECTION; LAYER_INDEX].

Inductive action :=
| InvalidateAll | Reembed | RebuildProjection | ReuseVectors | ConvertVectors | RebuildIndex | Noop.
#[export] Instance action_eq_dec : EqDecision action.
Proof. solve_decision. Defined.

Definition action_name (a : action) : string :=
  match a with
  | InvalidateAll => "invalidate_all" | Reembed => "reembed"
  | RebuildProjection => "rebuild_projection" | ReuseVectors => "reuse_vectors"
  | ConvertVectors => "convert_vectors" | RebuildIndex => "rebuild_index" | Noop => "noop"
  end.

Definition _IMPLIES (a : action) : list action :=
  match a with
  | InvalidateAll => [Reembed; RebuildProjection; ReuseVectors; ConvertVectors; RebuildIndex]
  | Reembed => [RebuildProjection; ReuseVectors; ConvertVectors; RebuildIndex]
  | ConvertVectors => [ReuseVectors]
  | _ => []
  end.

Definition layer_action (layer : string) : option action :=
  if String.eqb layer LAYER_STORE_EPOCH then Some InvalidateAll
  else if String.eqb layer LAYER_REPRESENTATION then Some Reembed
  else if String.eqb layer LAYER_VECTOR_FORMAT then Some ConvertVectors
  else if String.eqb layer LAYER_PROJECTION then Some RebuildProjection
  else if String.eqb layer LAYER_INDEX then Some RebuildIndex
  else None.

Definition action_label (a : action) : string :=
  match a with
  | InvalidateAll => "store epoch changed: discard all derived state, full rebuild"
  | Reembed => "representation changed: re-embed all active events"
  | RebuildProjection => "projection changed: rebuild projection / keys / HLC metadata"
  | ReuseVectors => "reuse vectors by event_id (representation identical, checksums verified)"
  | ConvertVectors => "reuse vectors through a registered tested-equivalent converter"
  | RebuildIndex => "index fingerprint changed: no model, no projection rebuild"
  | Noop => "query parameters changed: no base rebuild"
  end.

Inductive refuse_reason :=
| MissingDeclaration | FactSchemaChanged | UnsupportedFormat | UnknownIdentity.
Definition refuse_name (r : refuse_reason) : string :=
  match r with
  | MissingDeclaration => "missing_compat_declaration"
  | FactSchemaChanged => "fact_schema_changed"
  | UnsupportedFormat => "unsupported_vector_format"
  | UnknownIdentity => "unknown_identity"
  end.

(** ** Index fingerprints *)

Definition EXACT_BACKEND : string := "exact".
Definition EXACT_METRIC : string := "cosine".
Definition FP32_ROW_MAJOR_LE : string := "fp32-row-major-little-endian".
Definition INDEX_FINGERPRINT_PREFIX : string := "index-fingerprint-v1".

Definition library_version_of (backend : string) : option string :=
  snd <$> List.find (λ kv, String.eqb kv.1 backend)
    [("exact", "oracle-exact-v1");
     ("accelerate-cblas-sgemv", "accelerate-vecLib-cblas-sgemv-v1");
     ("mlx-exact-matmul", "mlx-core-matmul-v1");
     ("usearch-hnsw", "usearch-hnsw-v1");
     ("hnswlib-hnsw", "hnswlib-hnsw-v1")].

Definition compose_index_fingerprint `{PyStdlib} (backend metric : string)
    (params : list (string * json)) (library_version serialization_abi : string) : string :=
  let payload := dumps (JObj
    [("backend", JStr backend); ("metric", JStr metric); ("build_params", JObj params);
     ("library_version", JStr library_version); ("serialization_abi", JStr serialization_abi)]) in
  INDEX_FINGERPRINT_PREFIX +:+ ":" +:+ String.substring 0 32 (sha256_hex payload).

Definition compose_backend_fingerprint `{PyStdlib} (backend : string)
    (params : list (string * json)) : result compat_exn string :=
  match library_version_of backend with
  | None => Err ValueErrorBackend
  | Some v => Ok (compose_index_fingerprint backend EXACT_METRIC params v FP32_ROW_MAJOR_LE)
  end.

(** ** Converters *)

(** What the planner reads of a [VectorFormatConverter]: its equivalence test
    is there ([verify_equivalent] is a callable, hence true). *)
Record converter := Converter { cv_name : string; cv_source : string; cv_target : string;
                                cv_verify : bool }.

Definition registry := gmap (string * string) converter.

Definition register_converter (c : converter) (r : registry) : registry :=
  <[(cv_source c, cv_target c) := c]> r.

(** [registry.get((source, target))] *)
Definition find_converter (source target : json) (r : registry)
    : result compat_exn (option converter) :=
  if negb (hashable source && hashable target) then Err TypeErrorUnhashable else
  match source, target with
  | JStr s, JStr t => Ok (r !! (s, t))
  | _, _ => Ok None
  end.

Definition identity_converter : converter :=
  Converter ("identity-" +:+ FP32_ROW_MAJOR_LE) FP32_ROW_MAJOR_LE FP32_ROW_MAJOR_LE true.
Definition CONVERTER_REGISTRY : registry := register_converter identity_converter ∅.

(** ** Identities *)

Definition ident := list (string * json).

(** [d.get(layer)] *)
Definition layer_of (l : string) (d : ident) : json := obj_get_or_null l d.

Definition layer_differs (desired active : ident) (l : string) : bool :=
  negb (py_eq (layer_of l desired) (layer_of l active)).

(** A reported mismatch; a refusal is reported with the layer [None] and no
    values. *)
Record mismatch := Mismatch { mm_layer : option string; mm_values : option (json * json);
                              mm_reason : string }.

Definition mismatch_reasons (desired active : ident) : list mismatch :=
  (λ l, Mismatch (Some l) (Some (layer_of l desired, layer_of l active))
          (match layer_action l with Some a => action_label a | None => "identity layer differs" end))
  <$> filter (λ l, layer_differs desired active l = true) IDENTITY_LAYERS.

Definition is_undeclared (v : json) : bool :=
  match v with JNull => true | JStr s => String.eqb s "" | _ => false end.

(** [active]: [None] stands for a value that is not a dict. *)
Definition refuse_load_reason (active : option ident) (facts_schema_version : option json)
    (supported_formats : list string) : result compat_exn (option refuse_reason) :=
  match active with
  | None => Ok (Some UnknownIdentity)
  | Some d =>
      if existsb (λ l, is_undeclared (layer_of l d)) IDENTITY_LAYERS then Ok (Some MissingDeclaration)
      else if match facts_schema_version with
              | Some v => negb (py_eq (layer_of LAYER_FACT_SCHEMA d) v)
              | None => false
              end then Ok (Some FactSchemaChanged)
      else
        let supported := match supported_formats with [] => [FP32_ROW_MAJOR_LE] | l => l end in
        if negb (hashable (layer_of LAYER_VECTOR_FORMAT d)) then Err TypeErrorUnhashable
        else if negb (match layer_of LAYER_VECTOR_FORMAT d with
                      | JStr f => bool_decide (f ∈ supported)
                      | _ => false
                      end) then Ok (Some UnsupportedFormat)
        else match layer_of LAYER_INDEX d with
             | JStr f =>
                 if String.prefix (INDEX_FINGERPRINT_PREFIX +:+ ":") f then Ok None
                 else Ok (Some UnknownIdentity)
             | _ => Ok None
             end
  end.

(** ** The action union *)

Definition covered_by (working : list action) (a : action) : bool :=
  existsb (λ c, negb (bool_decide (c = a)) && bool_decide (a ∈ _IMPLIES c)) working.

(** One pass of the [while] loop over a snapshot of the set: an action that
    some other member of the current set implies is discarded. *)
Fixpoint collapse_pass (snapshot working : list action) : bool * list action :=
  match snapshot with
  | [] => (false, working)
  | a :: snapshot =>
      if covered_by working a
      then let '(_, w) := collapse_pass snapshot (filter (λ b, b ≠ a) working) in (true, w)
      else collapse_pass snapshot working
  end.

(** [order n] is the iteration order of the set in the [n]-th pass. *)
Fixpoint collapse_loop (order : nat → list action → list action) (fuel n : nat)
    (working : list action) : option (list action) :=
  match fuel with
  | O => None
  | S fuel =>
      let '(changed, w) := collapse_pass (order n working) working in
      if changed then collapse_loop order fuel (S n) w else Some w
  end.

(** At most [length working] passes discard something. *)
Definition collapse_union order (working : list action) : option (list action) :=
  collapse_loop order (S (length working)) 0 working.

Inductive vector_reuse := ReuseNone | ReuseConvert | ReuseByEventId.
#[export] Instance vector_reuse_eq_dec : EqDecision vector_reuse.
Proof. solve_decision. Defined.

Definition vector_reuse_for (actions : list action) : vector_reuse :=
  if bool_decide (InvalidateAll ∈ actions) || bool_decide (Reembed ∈ actions) then ReuseNone
  else if bool_decide (ConvertVectors ∈ actions) then ReuseConvert
  else if bool_decide (ReuseVectors ∈ actions) then ReuseByEventId
  else ReuseNone.

(** ** Planning *)

Record plan := Plan {
  p_actions : list action;
  p_mismatches : list mismatch;
  p_reuse : vector_reuse;
  p_refuse : option refuse_reason;
  p_reason : option string }.

(** The plan of a refusal. *)
Definition refusal (why : refuse_reason) : plan :=
  Plan [] [Mismatch None None (refuse_name why)] ReuseNone (Some why) None.

(** The actions one differing layer adds. *)
Definition layer_raw (desired active : ident) (converters : registry) (l : string)
    : result compat_exn (list action) :=
  if negb (layer_differs desired active l) then Ok [] else
  match layer_action l with
  | Some InvalidateAll => Ok [InvalidateAll]
  | Some Reembed => Ok [Reembed]
  | Some ConvertVectors =>
      o ← find_converter (layer_of LAYER_VECTOR_FORMAT active)
            (layer_of LAYER_VECTOR_FORMAT desired) converters;
      Ok (match o with
          | Some c => if cv_verify c then [ConvertVectors] else [Reembed]
          | None => [Reembed]
          end)
  | Some RebuildProjection =>
      Ok (RebuildProjection ::
          if layer_differs desired active LAYER_REPRESENTATION then [] else [ReuseVectors])
  | Some RebuildIndex => Ok [RebuildIndex]
  | _ => Ok []
  end.

Fixpoint raw_actions (desired active : ident) (converters : registry) (ls : list string)
    : result compat_exn (list action) :=
  match ls with
  | [] => Ok []
  | l :: ls =>
      a ← layer_raw desired active converters l;
      b ← raw_actions desired active converters ls;
      Ok (a ++ b)
  end.

Definition action_le (a b : action) : Prop := String.leb (action_name a) (action_name b) = true.
#[export] Instance action_le_dec : RelDecision action_le.
Proof. intros a b. unfold action_le. apply _. Defined.

(** The set [raw] as a list without repetitions. *)
Definition as_set (l : list action) : list action := remove_dups l.

Definition plan_actions (order : nat → list action → list action) (desired active : option ident)
    (converters : registry) (facts_schema_version : option json) : result compat_exn plan :=
  match desired with
  | None => Err ValueErrorDesired
  | Some desired =>
      match List.find (λ l, negb (bool_decide (l ∈ obj_keys desired))) IDENTITY_LAYERS with
      | Some l => Err (ValueErrorMissingLayer l)
      | None =>
          refuse ← refuse_load_reason active facts_schema_version [];
          match refuse, active with
          | Some why, _ => Ok (refusal why)
          | None, None => Ok (Plan [Reembed] [] ReuseNone None None)
          | None, Some active =>
              raw ← raw_actions desired active converters IDENTITY_LAYERS;
              let raw := match raw with [] => [Noop] | _ => as_set raw end in
              match collapse_union order raw with
              | None => Err CollapseDiverges
              | Some w =>
                  let actions := merge_sort action_le w in
                  Ok (Plan actions (mismatch_reasons desired active) (vector_reuse_for actions) None
                        (if layer_differs desired active LAYER_INDEX
                         then Some "no_ann_sidecar" else None))
              end
          end
      end
  end.

(** ** The collapse *)

Lemma covered_by_true w a :
  covered_by w a = true ↔ ∃ c, c ∈ w ∧ c ≠ a ∧ a ∈ _IMPLIES c.
Proof.
  unfold covered_by. rewrite existsb_exists. split.
  - intros (c&Hc&H). bool_to_prop. exists c. by rewrite list_elem_of_In.
  - intros (c&Hc&Hne&Ha). exists c. rewrite <- list_elem_of_In. split; [done|].
    by rewrite bool_decide_eq_false_2, bool_decide_eq_true_2.
Qed.

Lemma implies_dec a c : a ∈ _IMPLIES c ↔ bool_decide (a ∈ _IMPLIES c) = true.
Proof. by rewrite bool_decide_eq_true. Qed.

(** Whatever covers an action is covered by nothing, or some other member that
    covers the action is. *)
Lemma covered_by_maximal w a :
  covered_by w a = true → ∃ c, c ∈ w ∧ c ≠ a ∧ a ∈ _IMPLIES c ∧ covered_by w c = false.
Proof.
  rewrite covered_by_true. intros (c&Hc&Hne&Ha).
  assert (∀ x, (∀ d, d ∈ w → x ∉ _IMPLIES d) → covered_by w x = false) as Hun.
  { intros x Hx. apply not_true_iff_false. rewrite covered_by_true. intros (d&Hd&_&Hxd).
    by apply (Hx d). }
  assert (covered_by w InvalidateAll = false) as Hinv.
  { apply Hun. intros d _ Hd%implies_dec. by destruct d. }
  destruct (decide (InvalidateAll ∈ w)) as [Hi|Hi].
  { exists InvalidateAll. rewrite implies_dec in *. by destruct a, c. }
  assert (covered_by w Reembed = false) as Hre.
  { apply Hun. intros d Hd Hr%implies_dec. by destruct d. }
  destruct (decide (Reembed ∈ w)) as [Hr|Hr].
  { exists Reembed. rewrite implies_dec in *. by destruct a, c. }
  exists c. split_and!; try done. apply Hun. intros d Hd Hdc%implies_dec.
  rewrite implies_dec in Ha. by destruct a, c, d.
Qed.

(** The minimal members of a set. *)
Definition uncovered (w : list action) : list action := filter (λ a, covered_by w a = false) w.

Lemma covered_by_mono w w' a : w ⊆ w' → covered_by w a = true → covered_by w' a = true.
Proof. rewrite !covered_by_true. intros Hs (c&Hc&?&?). exists c. auto. Qed.

Lemma filter_ne_length (w : list action) a :
  a ∈ w → (length (filter (λ b, b ≠ a) w) < length w)%nat.
Proof.
  intros Hin. induction w as [|x w IH]; [by apply elem_of_nil in Hin|].
  rewrite filter_cons. apply elem_of_cons in Hin as [->|Hin].
  - rewrite decide_False by (intros H; by apply H). simpl. pose proof (length_filter (λ b, b ≠ x) w). lia.
  - destruct (decide (x ≠ a)); simpl; [specialize (IH Hin); lia|].
    pose proof (length_filter (λ b, b ≠ a) w). lia.
Qed.

(** What one pass does to the set: it only loses covered members, it shrinks
    when it reports a change, and otherwise nothing is covered any more. *)
Lemma collapse_pass_spec snapshot w changed w' :
  snapshot ⊆ w → NoDup w → NoDup snapshot → collapse_pass snapshot w = (changed, w') →
  w' ⊆ w ∧ NoDup w' ∧ uncovered w ⊆ w' ∧
  (if changed then (length w' < length w)%nat
   else w' = w ∧ ∀ a, a ∈ snapshot → covered_by w a = false).
Proof.
  revert w changed w'. induction snapshot as [|a snapshot IH]; intros w changed w' Hsub Hnd Hnds; simpl.
  { intros [= <- <-]. split_and!; try done; [by intros x [_ ?]%list_elem_of_filter|].
    by intros a ?%elem_of_nil. }
  apply NoDup_cons in Hnds as [Hna Hnds].
  destruct (covered_by w a) eqn:Hc.
  - destruct (collapse_pass snapshot _) as [ch w2] eqn:Hp. intros [= <- <-].
    assert (a ∈ w) as Haw by (apply Hsub; by left).
    apply IH in Hp as (Hs&Hnd2&Hun&Hch); [| |by apply NoDup_filter|done].
    2: { intros x Hx. apply list_elem_of_filter. split; [by intros ->|]. apply Hsub. by right. }
    split_and!; [|done| |].
    + intros x [_ Hx]%Hs%list_elem_of_filter. done.
    + intros x [Hx Hxw]%list_elem_of_filter. apply Hun, list_elem_of_filter. split.
      * apply not_true_iff_false. intros Ht. apply (covered_by_mono _ w) in Ht; [congruence|].
        by intros y [_ ?]%list_elem_of_filter.
      * apply list_elem_of_filter. split; [congruence|done].
    + pose proof (filter_ne_length w a Haw). destruct ch; [lia|]. destruct Hch as [-> _]. lia.
  - intros Hp. apply IH in Hp as (Hs&Hnd2&Hun&Hch); [| |done|done].
    2: { intros x Hx. apply Hsub. by right. }
    split_and!; [done|done|done|]. destruct changed; [done|]. destruct Hch as [-> Hch].
    split; [done|]. intros x [->|Hx]%elem_of_cons; [done|auto].
Qed.

(** [order] iterates over the set: it lists its members. *)
Definition iterates (order : nat → list action → list action) : Prop :=
  ∀ n w, order n w ≡ₚ w.

Lemma collapse_loop_spec order fuel n w0 w :
  iterates order → NoDup w → w ⊆ w0 → uncovered w0 ⊆ w → (length w < fuel)%nat →
  ∃ w', collapse_loop order fuel n w = Some w' ∧ NoDup w' ∧
        ∀ a, a ∈ w' ↔ a ∈ w0 ∧ covered_by w0 a = false.
Proof.
  intros Hord. revert n w. induction fuel as [|fuel IH]; intros n w Hnd Hsub Hun Hf; [lia|]. simpl.
  destruct (collapse_pass (order n w) w) as [ch w'] eqn:Hp.
  pose proof (Hord n w) as Hperm.
  apply collapse_pass_spec in Hp as (Hs&Hnd'&Hun'&Hch); [|by rewrite Hperm|done|by rewrite Hperm].
  destruct ch.
  - apply IH; [done|by etrans| |lia]. intros a Ha. apply Hun'. apply list_elem_of_filter.
    pose proof Ha as [Hc _]%list_elem_of_filter. split; [|by apply Hun].
    apply not_true_iff_false. intros Ht. apply (covered_by_mono _ w0) in Ht; [congruence|done].
  - destruct Hch as [-> Hch]. exists w. split_and!; [done|done|]. intros a. split.
    + intros Ha. split; [by apply Hsub|]. apply not_true_iff_false. intros Ht.
      apply covered_by_maximal in Ht as (c&Hc&Hne&Hac&Hcu).
      assert (c ∈ w) as Hcw by (apply Hun, list_elem_of_filter; done).
      assert (covered_by w a = false) as Hf' by (apply Hch; by rewrite Hperm).
      apply not_true_iff_false in Hf'. apply Hf', covered_by_true. by exists c.
    + intros [Ha Hc]. by apply Hun, list_elem_of_filter.
Qed.

Lemma collapse_union_spec order w :
  iterates order → NoDup w →
  ∃ w', collapse_union order w = Some w' ∧ NoDup w' ∧ ∀ a, a ∈ w' ↔ a ∈ w ∧ covered_by w a = false.
Proof.
  intros Hord Hnd. apply collapse_loop_spec; try done; [|lia].
  by intros a [_ ?]%list_elem_of_filter.
Qed.

(** ** What a plan contains *)

#[export] Instance action_le_trans : Transitive action_le.
Proof. intros [] [] []; by vm_compute. Qed.
#[export] Instance action_le_total : Total action_le.
Proof. intros [] []; (left; by vm_compute) || (right; by vm_compute). Qed.
#[export] Instance action_le_antisymm : AntiSymm eq action_le.
Proof. intros [] []; by vm_compute. Qed.

Lemma merge_sort_actions_unique l1 l2 :
  NoDup l1 → NoDup l2 → (∀ a, a ∈ l1 ↔ a ∈ l2) → merge_sort action_le l1 = merge_sort action_le l2.
Proof.
  intros H1 H2 Heq. apply (Sorted_unique action_le); [apply Sorted_merge_sort, _..|].
  rewrite !merge_sort_Permutation. by apply NoDup_Permutation.
Qed.

Lemma merge_sort_actions_elem l a : a ∈ merge_sort action_le l ↔ a ∈ l.
Proof. by rewrite merge_sort_Permutation. Qed.

Lemma raw_actions_elem d a conv ls raw :
  raw_actions d a conv ls = Ok raw →
  ∀ x, x ∈ raw ↔ ∃ l al, l ∈ ls ∧ layer_raw d a conv l = Ok al ∧ x ∈ al.
Proof.
  revert raw. induction ls as [|l ls IH]; intros raw; simpl.
  - intros [= <-] x. split; [by intros ?%elem_of_nil|]. by intros (?&?&?%elem_of_nil&_).
  - intros (al&Hal&(bl&Hbl&[= <-])%bind_Ok)%bind_Ok x. rewrite elem_of_app, (IH bl Hbl). split.
    + intros [Hx|(l'&al'&?&?&?)]; [exists l, al|exists l', al']; (split_and!; [|done..]);
        [by left|by right].
    + intros (l'&al'&[->|Hl]%elem_of_cons&Hr&Hx); [left; congruence|right; eauto].
Qed.

Lemma raw_actions_layer d a conv ls raw l :
  raw_actions d a conv ls = Ok raw → l ∈ ls → ∃ al, layer_raw d a conv l = Ok al.
Proof.
  revert raw. induction ls as [|k ls IH]; intros raw; simpl; [by intros _ ?%elem_of_nil|].
  intros (al&Hal&(bl&Hbl&_)%bind_Ok)%bind_Ok [->|Hl]%elem_of_cons; [by exists al|by eapply IH].
Qed.

(** The raw set of a plan: what the differing layers add, or the no-op. *)
Definition raw_set (raw : list action) : list action :=
  match raw with [] => [Noop] | _ => as_set raw end.

Lemma raw_set_elem raw x : x ∈ raw_set raw ↔ x ∈ raw ∨ (raw = [] ∧ x = Noop).
Proof.
  destruct raw as [|y raw]; unfold raw_set, as_set.
  - rewrite list_elem_of_singleton. split; [by right|]. by intros [?%elem_of_nil|[_ ?]].
  - rewrite elem_of_remove_dups. split; [by left|]. by intros [?|[? _]].
Qed.

Lemma raw_set_NoDup raw : NoDup (raw_set raw).
Proof. destruct raw; [apply NoDup_singleton|apply NoDup_remove_dups]. Qed.

(** A plan is a refusal, a build from nothing, or the collapsed raw set. *)
Lemma plan_actions_inv order d active conv fsv p :
  iterates order → plan_actions order (Some d) active conv fsv = Ok p →
  (∃ why, refuse_load_reason active fsv [] = Ok (Some why) ∧ p = refusal why) ∨
  (∃ a raw, active = Some a ∧ refuse_load_reason active fsv [] = Ok None ∧
    raw_actions d a conv IDENTITY_LAYERS = Ok raw ∧
    p_refuse p = None ∧ p_reuse p = vector_reuse_for (p_actions p) ∧
    p_mismatches p = mismatch_reasons d a ∧
    ∀ x, x ∈ p_actions p ↔ x ∈ raw_set raw ∧ covered_by (raw_set raw) x = false).
Proof.
  intros Hord. unfold plan_actions. destruct (List.find _ _); [done|].
  intros (refuse&Hr&Hp)%bind_Ok. destruct refuse as [why|].
  { injection Hp as <-. left. by exists why. }
  destruct active as [a|]; [|done]. right. apply bind_Ok in Hp as (raw&Hraw&Hp).
  change (match raw with [] => [Noop] | _ :: _ => as_set raw end) with (raw_set raw) in Hp.
  destruct (collapse_union_spec order (raw_set raw) Hord (raw_set_NoDup raw)) as (w&Hw&_&Hel).
  rewrite Hw in Hp. injection Hp as <-. exists a, raw. simpl. split_and!; try done.
  intros x. by rewrite merge_sort_actions_elem, Hel.
Qed.

Lemma layer_raw_same d a conv l : layer_differs d a l = false → layer_raw d a conv l = Ok [].
Proof. unfold layer_raw. by intros ->. Qed.

(** What a layer's contribution tells. *)
Lemma layer_raw_elem d a conv l al x :
  l ∈ IDENTITY_LAYERS → layer_raw d a conv l = Ok al → x ∈ al →
  layer_differs d a l = true ∧
  match x with
  | InvalidateAll => l = LAYER_STORE_EPOCH
  | Reembed => l = LAYER_REPRESENTATION ∨ l = LAYER_VECTOR_FORMAT
  | ConvertVectors => l = LAYER_VECTOR_FORMAT ∧ ∃ s t c,
      layer_of LAYER_VECTOR_FORMAT a = JStr s ∧ layer_of LAYER_VECTOR_FORMAT d = JStr t ∧
      conv !! (s, t) = Some c ∧ cv_verify c = true
  | RebuildProjection => l = LAYER_PROJECTION
  | ReuseVectors => l = LAYER_PROJECTION ∧ layer_differs d a LAYER_REPRESENTATION = false
  | RebuildIndex => l = LAYER_INDEX
  | Noop => False
  end.
Proof.
  intros Hl. unfold layer_raw. destruct (layer_differs d a l) eqn:Hd; simpl;
    [|by intros [= <-] ?%elem_of_nil].
  unfold IDENTITY_LAYERS in Hl.
  repeat (apply elem_of_cons in Hl as [->|Hl]); [..|by apply elem_of_nil in Hl]; simpl.
  - by intros [= <-] ->%list_elem_of_singleton.
  - by intros [= <-] ?%elem_of_nil.
  - intros [= <-] ->%list_elem_of_singleton. split; [done|by left].
  - unfold find_converter. destruct (negb _) eqn:Hh; [done|]. cbn [mbind result_bind].
    destruct (layer_of LAYER_VECTOR_FORMAT a) as [| | | |s| |] eqn:Ea; cbn;
      try (intros [= <-] ->%list_elem_of_singleton; split; [done|by right]).
    destruct (layer_of LAYER_VECTOR_FORMAT d) as [| | | |t| |] eqn:Ed; cbn;
      try (intros [= <-] ->%list_elem_of_singleton; split; [done|by right]).
    destruct (conv !! (s, t)) as [c|] eqn:Ec; [destruct (cv_verify c) eqn:Ev|];
      intros [= <-] ->%list_elem_of_singleton; (split; [done|]); [|by right..].
    split; [done|]. by exists s, t, c.
  - destruct (layer_differs d a LAYER_REPRESENTATION) eqn:Hr; intros [= <-] Hx;
      repeat (apply elem_of_cons in Hx as [->|Hx]); try (by apply elem_of_nil in Hx); done.
  - by intros [= <-] ->%list_elem_of_singleton.
Qed.

(** A differing layer with an action adds something that does or implies it. *)
Lemma layer_raw_covers d a conv l al x :
  layer_differs d a l = true → layer_action l = Some x → layer_raw d a conv l = Ok al →
  ∃ y, y ∈ al ∧ (y = x ∨ x ∈ _IMPLIES y).
Proof.
  unfold layer_raw. intros -> Hx. rewrite Hx. simpl. destruct x.
  - intros [= <-]. exists InvalidateAll. split; [by left|by left].
  - intros [= <-]. exists Reembed. split; [by left|by left].
  - intros [= <-]. exists RebuildProjection. split; [by left|by left].
  - unfold layer_action in Hx. repeat case_match; done.
  - intros (o&_&[= <-])%bind_Ok.
    destruct o as [c|]; [destruct (cv_verify c)|]; eexists; (split; [by left|]); auto;
      right; apply implies_dec; done.
  - intros [= <-]. exists RebuildIndex. split; [by left|by left].
  - unfold layer_action in Hx. repeat case_match; done.
Qed.

(** Being covered by a set is being covered by its collapse. *)
Lemma collapsed_covers (w w' : list action) (x y : action) :
  (∀ z, z ∈ w' ↔ z ∈ w ∧ covered_by w z = false) → y ∈ w → y = x ∨ x ∈ _IMPLIES y →
  ∃ z, z ∈ w' ∧ (z = x ∨ x ∈ _IMPLIES z).
Proof.
  intros Hw' Hy Hyx. destruct (covered_by w y) eqn:Hc.
  - apply covered_by_maximal in Hc as (z&Hz&_&Hyz&Hcz). exists z. split; [by apply Hw'|].
    right. destruct Hyx as [->|Hx]; [done|]. rewrite implies_dec in *. by destruct x, y, z.
  - exists y. split; [by apply Hw'|done].
Qed.

Lemma prefix_append p x : String.prefix p (p +:+ x) = true.
Proof.
  induction p as [|c p IH]; [by destruct x|]. simpl. by destruct (ascii_dec c c).
Qed.

Lemma string_app_assoc (a b c : string) : a +:+ (b +:+ c) = (a +:+ b) +:+ c.
Proof.
  induction a as [|x a IH]; [done|].
  change (String x (a +:+ (b +:+ c)) = String x ((a +:+ b) +:+ c)). by rewrite IH.
Qed.

(** ** Properties *)

(** C28: vectors of the old generation are reused only when that is safe: the
    store epoch and the representation are unchanged, and either the vector
    format is unchanged too (reuse by event id), or the change of format has a
    registered converter with an equivalence test (conversion). *)
Theorem reuse_only_when_safe order d active conv fsv p :
  iterates order → plan_actions order (Some d) active conv fsv = Ok p → p_reuse p ≠ ReuseNone →
  ∃ a, active = Some a ∧ p_refuse p = None ∧
    layer_differs d a LAYER_STORE_EPOCH = false ∧ layer_differs d a LAYER_REPRESENTATION = false ∧
    match p_reuse p with
    | ReuseByEventId => layer_differs d a LAYER_VECTOR_FORMAT = false
    | _ => ∃ s t c, layer_of LAYER_VECTOR_FORMAT a = JStr s ∧
             layer_of LAYER_VECTOR_FORMAT d = JStr t ∧ conv !! (s, t) = Some c ∧ cv_verify c = true
    end.
Proof.
  intros Hord Hp Hne. apply plan_actions_inv in Hp as [(why&_&->)|(a&raw&->&_&Hraw&Hnr&Hre&_&Hel)];
    [done| |done].
  exists a. split; [done|]. split; [done|].
  (* a differing layer would have put a rebuild into the plan *)
  assert (∀ l x, l ∈ IDENTITY_LAYERS → layer_action l = Some x → layer_differs d a l = true →
    ∃ z, z ∈ p_actions p ∧ (z = x ∨ x ∈ _IMPLIES z)) as Hcov.
  { intros l x Hl Hx Hd. destruct (raw_actions_layer _ _ _ _ _ _ Hraw Hl) as [al Hal].
    destruct (layer_raw_covers _ _ _ _ _ _ Hd Hx Hal) as (y&Hy&Hyx).
    eapply collapsed_covers; [exact Hel| |exact Hyx]. apply raw_set_elem. left.
    apply (raw_actions_elem _ _ _ _ _ Hraw). eauto. }
  rewrite Hre in Hne. unfold vector_reuse_for in Hne.
  destruct (bool_decide (InvalidateAll ∈ _) || bool_decide (Reembed ∈ _)) eqn:Hfull; [done|].
  bool_to_prop.
  assert (layer_differs d a LAYER_STORE_EPOCH = false) as He.
  { destruct (layer_differs d a LAYER_STORE_EPOCH) eqn:E; [|done].
    destruct (Hcov LAYER_STORE_EPOCH InvalidateAll) as (z&Hz&[->|Hi%implies_dec]); try done; [by left|].
    by destruct z. }
  assert (layer_differs d a LAYER_REPRESENTATION = false) as Hr.
  { destruct (layer_differs d a LAYER_REPRESENTATION) eqn:E; [|done].
    destruct (Hcov LAYER_REPRESENTATION Reembed) as (z&Hz&[->|Hi%implies_dec]); try done;
      [unfold IDENTITY_LAYERS; set_solver|]. by destruct z. }
  split; [done|]. split; [done|]. rewrite Hre. unfold vector_reuse_for.
  rewrite !(bool_decide_eq_false_2 (_ ∈ p_actions p)) by done. simpl.
  assert (∀ x, x ∈ p_actions p → x ≠ Noop →
    ∃ l al, l ∈ IDENTITY_LAYERS ∧ layer_raw d a conv l = Ok al ∧ x ∈ al) as Hfrom.
  { intros x Hx Hxn. apply Hel in Hx as [[Hx|[_ ?]]%raw_set_elem _]; [|done].
    by apply (raw_actions_elem _ _ _ _ _ Hraw). }
  case_bool_decide as Hconv.
  - destruct (Hfrom ConvertVectors Hconv) as (l&al&Hl&Hal&Hx); [done|].
    by destruct (layer_raw_elem _ _ _ _ _ _ Hl Hal Hx) as (_&_&?).
  - case_bool_decide; [|done]. destruct (layer_differs d a LAYER_VECTOR_FORMAT) eqn:E; [|done].
    destruct (Hcov LAYER_VECTOR_FORMAT ConvertVectors) as (z&Hz&[->|Hi%implies_dec]); try done;
      [unfold IDENTITY_LAYERS; set_solver|]. by destruct z.
Qed.

(** A plan is complete and minimal: for every layer that differs, the plan
    contains the layer's action or one that implies it; no planned action is
    implied by another; and the plan is the no-op alone exactly when no layer
    that has an action differs. *)
Theorem plan_complete_and_minimal order d a conv fsv p :
  iterates order → plan_actions order (Some d) (Some a) conv fsv = Ok p → p_refuse p = None →
  (∀ l x, l ∈ IDENTITY_LAYERS → layer_action l = Some x → layer_differs d a l = true →
     ∃ z, z ∈ p_actions p ∧ (z = x ∨ x ∈ _IMPLIES z)) ∧
  (∀ x, x ∈ p_actions p → covered_by (p_actions p) x = false) ∧
  (Noop ∈ p_actions p ↔
     ∀ l, l ∈ IDENTITY_LAYERS → is_Some (layer_action l) → layer_differs d a l = false).
Proof.
  intros Hord Hp Hnr.
  apply plan_actions_inv in Hp as [(why&_&->)|(a'&raw&[= <-]&_&Hraw&_&_&_&Hel)]; [done| |done].
  assert (∀ l x, l ∈ IDENTITY_LAYERS → layer_action l = Some x → layer_differs d a l = true →
    ∃ y, y ∈ raw ∧ (y = x ∨ x ∈ _IMPLIES y)) as Hcov.
  { intros l x Hl Hx Hd. destruct (raw_actions_layer _ _ _ _ _ _ Hraw Hl) as [al Hal].
    destruct (layer_raw_covers _ _ _ _ _ _ Hd Hx Hal) as (y&Hy&Hyx). exists y. split; [|done].
    apply (raw_actions_elem _ _ _ _ _ Hraw). eauto. }
  split_and!.
  - intros l x Hl Hx Hd. destruct (Hcov l x Hl Hx Hd) as (y&Hy&Hyx).
    eapply collapsed_covers; [exact Hel| |exact Hyx]. apply raw_set_elem. by left.
  - intros x [_ Hx]%Hel. apply not_true_iff_false. intros Ht.
    apply (covered_by_mono _ (raw_set raw)) in Ht; [congruence|]. by intros y [? _]%Hel.
  - split.
    + intros [[Hn|[-> _]]%raw_set_elem _]%Hel.
      * apply (raw_actions_elem _ _ _ _ _ Hraw) in Hn as (l&al&Hl&Hal&Hx).
        by destruct (layer_raw_elem _ _ _ _ _ _ Hl Hal Hx).
      * intros l Hl [x Hx]. destruct (layer_differs d a l) eqn:E; [|done].
        destruct (Hcov l x Hl Hx E) as (y&Hy&_). by apply elem_of_nil in Hy.
    + intros Hsame. assert (raw = []) as ->.
      { destruct raw as [|y raw]; [done|]. exfalso.
        assert (y ∈ y :: raw) as Hy by by left.
        apply (raw_actions_elem _ _ _ _ _ Hraw) in Hy as (l&al&Hl&Hal&Hx).
        destruct (layer_raw_elem _ _ _ _ _ _ Hl Hal Hx) as [Hd Hkind].
        rewrite Hsame in Hd; [done|done|]. unfold layer_raw in Hal. rewrite Hd in Hal. simpl in Hal.
        destruct (layer_action l); [by eexists|]. injection Hal as <-. by apply elem_of_nil in Hx. }
      apply Hel. split; [by left|]. apply not_true_iff_false. rewrite covered_by_true.
      intros (c&Hc%list_elem_of_singleton&Hcn&_). done.
Qed.

(** The plan does not depend on the iteration order of Python's sets. *)
Theorem plan_order_independent o1 o2 desired active conv fsv :
  iterates o1 → iterates o2 →
  plan_actions o1 desired active conv fsv = plan_actions o2 desired active conv fsv.
Proof.
  intros H1 H2. unfold plan_actions. destruct desired as [d|]; [|done].
  destruct (List.find _ _); [done|].
  destruct (refuse_load_reason active fsv []) as [[|]|]; cbn [mbind result_bind]; try done.
  destruct active as [a|]; [|done].
  destruct (raw_actions d a conv IDENTITY_LAYERS) as [raw|]; cbn [mbind result_bind]; [|done].
  change (match raw with [] => [Noop] | _ :: _ => as_set raw end) with (raw_set raw).
  destruct (collapse_union_spec o1 (raw_set raw) H1 (raw_set_NoDup raw)) as (w1&->&Hn1&He1).
  destruct (collapse_union_spec o2 (raw_set raw) H2 (raw_set_NoDup raw)) as (w2&->&Hn2&He2).
  rewrite (merge_sort_actions_unique w1 w2); [done|done|done|]. intros x. by rewrite He1, He2.
Qed.

(** An active identity the daemon cannot vouch for is refused and nothing
    is planned: no identity at all, an undeclared layer, a foreign fact schema,
    a foreign vector format, or an index fingerprint that is not a content
    digest of this daemon. *)
Theorem unverifiable_identity_is_refused order d active conv fsv p :
  iterates order → plan_actions order (Some d) active conv fsv = Ok p →
  (active = None ∨ ∃ a, active = Some a ∧
    ((∃ l, l ∈ IDENTITY_LAYERS ∧ is_undeclared (layer_of l a) = true) ∨
     (∃ v, fsv = Some v ∧ py_eq (layer_of LAYER_FACT_SCHEMA a) v = false) ∨
     layer_of LAYER_VECTOR_FORMAT a ≠ JStr FP32_ROW_MAJOR_LE ∨
     ∃ f, layer_of LAYER_INDEX a = JStr f ∧
       String.prefix (INDEX_FINGERPRINT_PREFIX +:+ ":") f = false)) →
  p_refuse p ≠ None ∧ p_actions p = [] ∧ p_reuse p = ReuseNone.
Proof.
  intros Hord Hp Hbad.
  apply plan_actions_inv in Hp as [(why&_&->)|(a&raw&->&Hr&_)]; [done| |done]. exfalso.
  destruct Hbad as [|(a'&[= <-]&Hbad)]; [done|]. unfold refuse_load_reason in Hr.
  destruct (existsb _ _) eqn:Hu; [done|].
  assert (∀ l, l ∈ IDENTITY_LAYERS → is_undeclared (layer_of l a) = false) as Hdecl.
  { intros l Hl. apply not_true_iff_false. intros Ht. apply not_true_iff_false in Hu. apply Hu.
    apply existsb_exists. exists l. by rewrite <- list_elem_of_In. }
  destruct Hbad as [(l&Hl&Hb)|[(v&->&Hv)|[Hf|(f&Hf&Hpre)]]].
  - by rewrite Hdecl in Hb.
  - by rewrite Hv in Hr.
  - destruct (match fsv with Some _ => _ | None => _ end); [done|].
    destruct (layer_of LAYER_VECTOR_FORMAT a) as [| | | |s| |] eqn:E; simpl in Hr; try done.
    destruct (bool_decide (s ∈ [FP32_ROW_MAJOR_LE])) eqn:Hb; [|done].
    apply bool_decide_eq_true, list_elem_of_singleton in Hb. congruence.
  - destruct (match fsv with Some _ => _ | None => _ end); [done|].
    rewrite Hf, Hpre in Hr. repeat case_match; done.
Qed.

(** The fingerprint of every supported backend carries the digest prefix,
    so an identity built with it is never taken for a legacy one; any other
    backend name is refused. *)
Theorem backend_fingerprint_recognised `{PyStdlib} backend params :
  match compose_backend_fingerprint backend params with
  | Ok f => String.prefix (INDEX_FINGERPRINT_PREFIX +:+ ":") f = true ∧
            ∃ v, library_version_of backend = Some v
  | Err e => e = ValueErrorBackend ∧ library_version_of backend = None
  end.
Proof.
  unfold compose_backend_fingerprint. destruct (library_version_of backend) as [v|]; [|done].
  split; [|by exists v]. unfold compose_index_fingerprint. rewrite (string_app_assoc INDEX_FINGERPRINT_PREFIX ":"). apply prefix_append.
Qed.

(** A difference in the fact schema alone, planned without naming the
    daemon's schema version, is reported as a mismatch but planned as the
    no-op. *)
Theorem fact_schema_alone_is_noop order d a conv p :
  iterates order → plan_actions order (Some d) (Some a) conv None = Ok p → p_refuse p = None →
  (∀ l, l ∈ IDENTITY_LAYERS → l ≠ LAYER_FACT_SCHEMA → layer_differs d a l = false) →
  layer_differs d a LAYER_FACT_SCHEMA = true →
  (∀ x, x ∈ p_actions p ↔ x = Noop) ∧ Some LAYER_FACT_SCHEMA ∈ (mm_layer <$> p_mismatches p).
Proof.
  intros Hord Hp Hnr Hsame Hdiff.
  apply plan_actions_inv in Hp as [(why&_&->)|(a'&raw&[= <-]&_&Hraw&_&_&Hmm&Hel)]; [done| |done].
  assert (raw = []) as ->.
  { destruct raw as [|y raw]; [done|]. exfalso.
    assert (y ∈ y :: raw) as Hy by by left.
    apply (raw_actions_elem _ _ _ _ _ Hraw) in Hy as (l&al&Hl&Hal&Hx).
    destruct (decide (l = LAYER_FACT_SCHEMA)) as [->|Hne].
    - unfold layer_raw in Hal. rewrite Hdiff in Hal. injection Hal as <-. by apply elem_of_nil in Hx.
    - rewrite layer_raw_same in Hal by auto. injection Hal as <-. by apply elem_of_nil in Hx. }
  split.
  - intros x. rewrite Hel. simpl. rewrite list_elem_of_singleton. split; [by intros [? _]|].
    intros ->. done.
  - rewrite Hmm. unfold mismatch_reasons. apply list_elem_of_fmap. eexists.
    split; [|apply list_elem_of_fmap; eexists; split; [reflexivity|]; apply list_elem_of_filter; split;
      [exact Hdiff|unfold IDENTITY_LAYERS; set_solver]]. done.
Qed.

Section demo.
#[local] Existing Instance demo_stdlib.

(** An identity with the given representation and projection. *)
Definition demo_identity (fact rep fmt proj : string) : list (string * json) :=
  [(LAYER_STORE_EPOCH, JStr "epoch-1"); (LAYER_FACT_SCHEMA, JStr fact);
   (LAYER_REPRESENTATION, JStr rep); (LAYER_VECTOR_FORMAT, JStr fmt);
   (LAYER_PROJECTION, JStr proj);
   (LAYER_INDEX, JStr (compose_index_fingerprint EXACT_BACKEND EXACT_METRIC [] "oracle-exact-v1"
                         FP32_ROW_MAJOR_LE))].
Definition demo_active := demo_identity "1" "r1" FP32_ROW_MAJOR_LE "p1".
Definition same_order (n : nat) (l : list action) : list action := l.

Lemma same_order_iterates : iterates same_order.
Proof. intros n w. done. Qed.
Lemma reverse_order_iterates : iterates (λ _, reverse).
Proof. intros n w. apply reverse_Permutation. Qed.

(** Only the projection changed: it is rebuilt, vectors are reused. *)
Definition demo_plan : plan :=
  Eval vm_compute in
    match plan_actions same_order (Some (demo_identity "1" "r1" FP32_ROW_MAJOR_LE "p2")) (Some demo_active)
      CONVERTER_REGISTRY None with Ok p => p | Err _ => Plan [] [] ReuseNone None None end.

Lemma demo_plan_ok :
  plan_actions same_order (Some (demo_identity "1" "r1" FP32_ROW_MAJOR_LE "p2")) (Some demo_active)
    CONVERTER_REGISTRY None = Ok demo_plan.
Proof. vm_compute. reflexivity. Qed.

Theorem reuse_only_when_safe_witness :
  p_reuse demo_plan = ReuseByEventId ∧ ∃ a, Some demo_active = Some a ∧
    layer_differs (demo_identity "1" "r1" FP32_ROW_MAJOR_LE "p2") a LAYER_REPRESENTATION = false.
Proof.
  split; [reflexivity|].
  destruct (reuse_only_when_safe _ _ _ _ _ _ same_order_iterates demo_plan_ok) as (a&Ha&_&_&Hr&_);
    [discriminate|]. exists a. split; assumption.
Defined.

Theorem plan_complete_and_minimal_witness :
  p_actions demo_plan = [RebuildProjection; ReuseVectors] ∧
  covered_by (p_actions demo_plan) ReuseVectors = false.
Proof.
  split; [reflexivity|].
  apply (proj1 (proj2 (plan_complete_and_minimal _ _ _ _ _ _ same_order_iterates demo_plan_ok eq_refl))).
  apply (bool_decide_eq_true_1 (_ ∈ _)). reflexivity.
Defined.

Theorem plan_order_independent_witness :
  plan_actions (λ _, reverse) (Some (demo_identity "1" "r2" "other" "p2")) (Some demo_active)
    CONVERTER_REGISTRY None =
  plan_actions same_order (Some (demo_identity "1" "r2" "other" "p2")) (Some demo_active)
    CONVERTER_REGISTRY None.
Proof. apply plan_order_independent; [apply reverse_order_iterates|apply same_order_iterates]. Defined.

Theorem unverifiable_identity_is_refused_witness :
  ∃ p, plan_actions same_order (Some demo_active) None CONVERTER_REGISTRY None = Ok p ∧
    p_refuse p ≠ None ∧ p_actions p = [].
Proof.
  eexists. split; [vm_compute; reflexivity|].
  destruct (unverifiable_identity_is_refused same_order demo_active None CONVERTER_REGISTRY None
    (refusal UnknownIdentity)) as (Hn&Ha&_).
  - apply same_order_iterates.
  - vm_compute. reflexivity.
  - left. reflexivity.
  - split; assumption.
Defined.

Theorem fact_schema_alone_is_noop_witness :
  ∃ p, plan_actions same_order (Some (demo_identity "2" "r1" FP32_ROW_MAJOR_LE "p1")) (Some demo_active)
      CONVERTER_REGISTRY None = Ok p ∧ Noop ∈ p_actions p.
Proof.
  destruct (plan_actions same_order (Some (demo_identity "2" "r1" FP32_ROW_MAJOR_LE "p1"))
    (Some demo_active) CONVERTER_REGISTRY None) as [p|] eqn:E; [|vm_compute in E; discriminate E].
  exists p. split; [reflexivity|].
  apply (proj1 (fact_schema_alone_is_noop _ _ _ _ _ same_order_iterates E
    ltac:(vm_compute in E; injection E as <-; reflexivity)
    ltac:(intros l Hl Hne; unfold IDENTITY_LAYERS in Hl;
          repeat (apply elem_of_cons in Hl as [->|Hl]; [first [done|vm_compute; reflexivity]|]);
          by apply elem_of_nil in Hl)
    ltac:(vm_compute; reflexivity)) Noop). reflexivity.
Defined.
End demo.
