(* ===== verification/Effects.v ===== *)
(** * Effects: code that makes system calls and may fail or be stopped anywhere

    [io W E A] is a computation over a world [W] (the files it works on) that
    returns an [A] or raises an [E].  An oracle says which of its system calls
    fail, and the run records every world it goes through: a crash leaves one of
    those.  The rules of [hoare] prove pre- and postconditions together with a
    condition on all worlds in between. *)

From stdpp Require Import base list.
From S2P Require Import Prelude.

(** ** The monad *)

Section effects.
Context {W E : Type}.

Record io_state := IoState { io_count : nat; io_world : W; io_trace : list W }.

Definition io (A : Type) : Type := (nat → bool) → io_state → result E A * io_state.

#[global] Instance io_ret : MRet io := λ A a fault s, (Ok a, s).
#[global] Instance io_bind : MBind io := λ A B f m fault s,
  match m fault s with
  | (Ok a, s') => f a fault s'
  | (Err e, s') => (Err e, s')
  end.

Definition throw {A} (e : E) : io A := λ _ s, (Err e, s).

(** [try: m except: h]: [h] gives the exception handler of those exceptions the
    clause names. *)
Definition rescue {A} (m : io A) (h : E → option (io A)) : io A := λ fault s,
  match m fault s with
  | (Ok a, s') => (Ok a, s')
  | (Err e, s') => match h e with Some k => k fault s' | None => (Err e, s') end
  end.

(** [try: m finally: c]: an exception of [c] replaces that of [m]. *)
Definition finally_do {A} (m : io A) (c : io unit) : io A := λ fault s,
  let '(r, s1) := m fault s in
  match c fault s1 with
  | (Ok _, s2) => (r, s2)
  | (Err e, s2) => (Err e, s2)
  end.

(** One call to the system: it raises [e] when the oracle says so, or what [f]
    raises, and otherwise leaves the disk [f] computes, which joins the trace. *)
Definition call {A} (e : E) (f : W → result E (A * W)) : io A := λ fault s,
  let n := S (io_count s) in
  if fault (io_count s) then (Err e, IoState n (io_world s) (io_trace s))
  else
  match f (io_world s) with
  | Ok (a, k) => (Ok a, IoState n k (k :: io_trace s))
  | Err e' => (Err e', IoState n (io_world s) (io_trace s))
  end.
End effects.
Arguments io_state : clear implicits.
Arguments io : clear implicits.

(** ** A Hoare logic with a crash condition *)

Section hoare.
Context {W X : Type} (J : W → Prop).

(** From a world in [P], [m] ends in [Q] or raises in [E], and every world it
    goes through satisfies [J]. *)
Definition hoare {A} (P : W → Prop) (m : io W X A) (Q : A → W → Prop)
    (E : X → W → Prop) : Prop :=
  ∀ fault s, P (io_world s) → Forall J (io_trace s) →
    let '(r, s') := m fault s in
    Forall J (io_trace s') ∧
    match r with Ok a => Q a (io_world s') | Err e => E e (io_world s') end.

Lemma hoare_ret {A} (a : A) (P : W → Prop) Q E : (∀ k, P k → Q a k) → hoare P (mret a) Q E.
Proof. intros HQ fault s HP HJ. simpl. auto. Qed.

Lemma hoare_throw {A} e (P : W → Prop) (Q : A → W → Prop) E :
  (∀ k, P k → E e k) → hoare P (throw e) Q E.
Proof. intros HE fault s HP HJ. simpl. auto. Qed.

Lemma hoare_bind {A B} P (m : io W X A) (f : A → io W X B) R Q E :
  hoare P m R E → (∀ a, hoare (R a) (f a) Q E) → hoare P (m ≫= f) Q E.
Proof.
  intros Hm Hf fault s HP HJ. specialize (Hm fault s HP HJ). unfold mbind, io_bind.
  destruct (m fault s) as [[a|e] s']; [|done]. destruct Hm as [HJ' HR].
  by apply (Hf a fault s').
Qed.

Lemma hoare_weaken {A} (P P' : W → Prop) (m : io W X A) Q Q' E E' :
  hoare P' m Q' E' → (∀ k, P k → P' k) → (∀ a k, Q' a k → Q a k) → (∀ e k, E' e k → E e k) →
  hoare P m Q E.
Proof.
  intros Hm HP HQ HE fault s Hs HJ. specialize (Hm fault s (HP _ Hs) HJ).
  destruct (m fault s) as [[a|e] s']; destruct Hm as [? ?]; auto.
Qed.

Lemma hoare_rescue {A} P (m : io W X A) h Q E E' :
  hoare P m Q E' →
  (∀ e, match h e with
        | Some k => hoare (E' e) k Q E
        | None => ∀ k, E' e k → E e k
        end) →
  hoare P (rescue m h) Q E.
Proof.
  intros Hm Hh fault s HP HJ. specialize (Hm fault s HP HJ). unfold rescue.
  destruct (m fault s) as [[a|e] s']; [done|]. destruct Hm as [HJ' HE]. specialize (Hh e).
  destruct (h e) as [k|]; [by apply (Hh fault s')|auto].
Qed.

Lemma hoare_finally {A} P (m : io W X A) c Q E Q' E' :
  hoare P m Q' E' →
  (∀ a, hoare (Q' a) c (λ _, Q a) E) → (∀ e, hoare (E' e) c (λ _, E e) E) →
  hoare P (finally_do m c) Q E.
Proof.
  intros Hm Hq He fault s HP HJ. specialize (Hm fault s HP HJ). unfold finally_do.
  destruct (m fault s) as [[a|e] s1]; destruct Hm as [HJ1 H1].
  - specialize (Hq a fault s1 H1 HJ1). by destruct (c fault s1) as [[[]|e'] s2].
  - specialize (He e fault s1 H1 HJ1). by destruct (c fault s1) as [[[]|e'] s2].
Qed.

Lemma hoare_call {A} e f (P : W → Prop) (Q : A → W → Prop) E :
  (∀ k, P k → E e k) →
  (∀ k, P k → match f k with Ok (a, k') => J k' ∧ Q a k' | Err e' => E e' k end) →
  hoare P (call e f) Q E.
Proof.
  intros He Hf fault s HP HJ. unfold call. destruct (fault (io_count s)); [by auto|].
  specialize (Hf _ HP). destruct (f (io_world s)) as [[a k]|e']; simpl; [|by auto].
  destruct Hf as [Hk HQ]. auto.
Qed.

Lemma hoare_pure {A} (φ : Prop) P (m : io W X A) Q E :
  (φ → hoare P m Q E) → hoare (λ k, P k ∧ φ) m Q E.
Proof. intros Hm fault s [HP Hφ]. by apply (Hm Hφ). Qed.
End hoare.

(** *** Invariants

    [m] keeps [I] whether it returns or raises, and every world it goes through
    satisfies [J]. *)
Create HintDb steady.
Section steady.
Context {W X : Type} (J I : W → Prop).

Definition steady {A} (m : io W X A) : Prop := (∀ k, I k → J k) → hoare J I m (λ _, I) (λ _, I).

Lemma steady_ret {A} (a : A) : steady (mret a).
Proof. intros _. by apply hoare_ret. Qed.
Lemma steady_throw {A} e : steady (throw e : io W X A).
Proof. intros _. by apply hoare_throw. Qed.
Lemma steady_bind {A B} (m : io W X A) (f : A → io W X B) : steady m → (∀ a, steady (f a)) → steady (m ≫= f).
Proof. intros Hm Hf HJ. eapply hoare_bind; [by apply Hm|]. intros a. by apply Hf. Qed.
Lemma steady_rescue {A} (m : io W X A) h :
  steady m → (∀ e, match h e with Some k => steady k | None => True end) → steady (rescue m h).
Proof.
  intros Hm Hh HJ. eapply hoare_rescue; [by apply Hm|]. intros e. specialize (Hh e). destruct (h e); [by apply Hh|done].
Qed.
Lemma steady_finally {A} (m : io W X A) c : steady m → steady c → steady (finally_do m c).
Proof. intros Hm Hc HJ. eapply hoare_finally; [by apply Hm| |]; intros; by apply Hc. Qed.
Lemma steady_call {A} e (f : W → result X (A * W)) :
  (∀ k, I k → match f k with Ok (_, k') => I k' | Err _ => True end) → steady (call e f).
Proof.
  intros Hf HJ. apply hoare_call; [done|]. intros k Hk. specialize (Hf k Hk). destruct (f k) as [[a k']|e']; auto.
Qed.
Lemma steady_if {A} (b : bool) (m1 m2 : io W X A) : steady m1 → steady m2 → steady (if b then m1 else m2).
Proof. by destruct b. Qed.
End steady.
#[export] Hint Resolve steady_ret steady_throw : steady.

(** Takes an invariant through the structure of a computation; the hints of
    [steady] close the leaves. *)
Ltac steady_step :=
  match goal with
  | |- steady _ _ (mret _) => apply steady_ret
  | |- steady _ _ (throw _) => apply steady_throw
  | |- steady _ _ (_ ≫= _) => apply steady_bind; [|intros ?]
  | |- steady _ _ (rescue _ _) => apply steady_rescue; [|intros ?]
  | |- steady _ _ (finally_do _ _) => apply steady_finally
  | |- steady _ _ (if ?b then _ else _) => destruct b eqn:?
  | |- steady _ _ (match ?x with _ => _ end) => destruct x eqn:?
  | |- match (if ?b then _ else _) with _ => _ end => destruct b eqn:?
  | |- match (match ?x with _ => _ end) with _ => _ end => destruct x eqn:?
  | |- True => exact I
  end.
Ltac steady := repeat first [solve [eauto 3 with steady nocore] | steady_step].


(** ** Runs without faults *)

Section runs.
Context {W X : Type}.

(** With no failing call, [m] takes world [k] to [k'] and returns [a]. *)
Definition runs {A} (m : io W X A) (k : W) (a : A) (k' : W) : Prop :=
  ∀ n t, ∃ s', m (λ _, false) (IoState n k t) = (Ok a, s') ∧ io_world s' = k'.

Lemma runs_ret {A} (a : A) k : runs (mret a) k a k.
Proof. intros n t. by eexists. Qed.

Lemma runs_bind {A B} (m : io W X A) (f : A → io W X B) k a k1 b k2 :
  runs m k a k1 → runs (f a) k1 b k2 → runs (m ≫= f) k b k2.
Proof.
  intros Hm Hf n t. destruct (Hm n t) as ([n1 k1' t1]&Hr&Hw). simpl in Hw. subst k1'.
  unfold mbind, io_bind. rewrite Hr. apply Hf.
Qed.

Lemma runs_rescue {A} (m : io W X A) h k a k' : runs m k a k' → runs (rescue m h) k a k'.
Proof. intros Hm n t. destruct (Hm n t) as (s'&Hr&Hw). exists s'. unfold rescue. by rewrite Hr. Qed.

Lemma runs_call {A} e (f : W → result X (A * W)) k a k' : f k = Ok (a, k') → runs (call e f) k a k'.
Proof. intros Hf n t. unfold call. simpl. rewrite Hf. by eexists. Qed.

(** With no failing call, [m] raises [e] and leaves world [k']. *)
Definition raises {A} (m : io W X A) (k : W) (e : X) (k' : W) : Prop :=
  ∀ n t, ∃ s', m (λ _, false) (IoState n k t) = (Err e, s') ∧ io_world s' = k'.

Lemma raises_throw {A} e (k : W) : raises (throw e : io W X A) k e k.
Proof. intros n t. by eexists. Qed.

Lemma raises_bind {A B} (m : io W X A) (f : A → io W X B) k e k' : raises m k e k' → raises (m ≫= f) k e k'.
Proof. intros Hm n t. destruct (Hm n t) as (s&Hr&Hw). exists s. unfold mbind, io_bind. by rewrite Hr. Qed.

Lemma raises_call {A} e0 (f : W → result X (A * W)) k e : f k = Err e → raises (call e0 f) k e k.
Proof. intros Hf n t. unfold call. simpl. rewrite Hf. by eexists. Qed.

Lemma raises_rescue {A} (m : io W X A) h k e k' : raises m k e k' → h e = None → raises (rescue m h) k e k'.
Proof. intros Hm Hh n t. destruct (Hm n t) as (s&Hr&Hw). exists s. unfold rescue. by rewrite Hr, Hh. Qed.

Lemma runs_then_raises {A B} (m : io W X A) (f : A → io W X B) k a k1 e k2 :
  runs m k a k1 → raises (f a) k1 e k2 → raises (m ≫= f) k e k2.
Proof.
  intros Hm Hf n t. destruct (Hm n t) as ([n1 w1 t1]&Hr&Hw). simpl in Hw. subst w1.
  unfold mbind, io_bind. rewrite Hr. apply Hf.
Qed.

Lemma runs_rescued {A} (m v : io W X A) h k e k1 a k2 :
  raises m k e k1 → h e = Some v → runs v k1 a k2 → runs (rescue m h) k a k2.
Proof.
  intros Hm Hh Hv n t. destruct (Hm n t) as ([n1 w1 t1]&Hr&Hw). simpl in Hw. subst w1.
  unfold rescue. rewrite Hr, Hh. apply Hv.
Qed.
End runs.
