(* ===== verification/FactReplace.v ===== *)
(** * Replacing the fact database: [replace_fact_database] of [src/daemon/maintenance.py]

    The fact store is the file [facts.sqlite3] with its [-wal] and [-shm]
    sidecars in one directory.  A [disk] holds the directory entries, the
    inodes they name, and what a power loss may still show: the earlier states
    of the directory since it was last synced, and for each inode whether its
    content has reached the disk.  The code is written in a state-and-error
    monad [io] over a disk, a counter of system calls with an oracle that says
    which of them fail, and the list of all disks the run went through; a crash
    leaves one of those.  SQLite is a parameter: how a write-ahead log reads on
    top of a main file ([overlay]) and what a checkpoint makes of the two
    ([checkpoint]), with the two laws its documentation states. *)

From Stdlib Require Import String.
From stdpp Require Import base list strings gmap.
From S2P Require Import Prelude OpStore Effects.
Open Scope Z_scope.

(** ** The disk *)

Section disk.
Context {content : Type}.

(** [i_safe]: the content has reached the disk. *)
Record inode := Inode { i_node : fnode; i_data : content; i_safe : bool }.

(** [k_names] are the entries of the root directory and [k_repl] the entry at
    [replacement_path], which is in another directory; [k_past] are the
    entries a power loss may still show. *)
Record disk := Disk {
  k_root : option fnode;
  k_names : gmap string nat;
  k_past : list (gmap string nat);
  k_repl : option nat;
  k_inodes : gmap nat inode }.

Definition set_names (m : gmap string nat) (k : disk) : disk :=
  Disk (k_root k) m (k_names k :: k_past k) (k_repl k) (k_inodes k).
Definition set_inodes (m : gmap nat inode) (k : disk) : disk :=
  Disk (k_root k) (k_names k) (k_past k) (k_repl k) m.
Definition set_repl (o : option nat) (k : disk) : disk :=
  Disk (k_root k) (k_names k) (k_past k) o (k_inodes k).
Definition root_synced (k : disk) : disk :=
  Disk (k_root k) (k_names k) [] (k_repl k) (k_inodes k).

Definition with_data (c : content) (x : inode) : inode := Inode (i_node x) c true.
Definition synced (x : inode) : inode := Inode (i_node x) (i_data x) true.
Definition with_mode (mode : Z) (x : inode) : inode :=
  Inode (FNode (n_type (i_node x)) (n_uid (i_node x)) mode (n_openable (i_node x)) (n_ino (i_node x)))
  (i_data x) (i_safe x).

(** ** System calls, errors and the trace *)

Inductive io_exn := FileNotFoundError | OSError | SqliteError | MaintenanceError (code : string).
#[export] Instance io_exn_eq_dec : EqDecision io_exn.
Proof. solve_decision. Defined.

(** [FileNotFoundError] is an [OSError]. *)
Definition is_os_error (e : io_exn) : bool :=
  match e with FileNotFoundError | OSError => true | _ => false end.

Local Notation io := (io disk io_exn).
Definition syscall {A} (f : disk → result io_exn (A * disk)) : io A := call OSError f.

(** [os.open(..., O_RDONLY | O_NOFOLLOW)] of an entry, then [os.fstat]. *)
Definition open_nofollow (o : option fnode) : result io_exn fnode :=
  match o with
  | None => Err FileNotFoundError
  | Some n =>
    if bool_decide (n_type n = FLnk) || negb (n_openable n) then Err OSError else Ok n
  end.

Definition node_at (name : string) (k : disk) : option fnode :=
  i_node <$> (k_names k !! name ≫= λ i, k_inodes k !! i).
Definition repl_node (k : disk) : option fnode := i_node <$> (k_repl k ≫= λ i, k_inodes k !! i).
Definition main_name : string := "facts.sqlite3".
Definition wal_name : string := "facts.sqlite3-wal".
Definition shm_name : string := "facts.sqlite3-shm".

Definition sys_open_root : io fnode :=
  syscall (λ k, n ← open_nofollow (k_root k); Ok (n, k)).
Definition sys_open (name : string) : io fnode :=
  syscall (λ k, n ← open_nofollow (node_at name k); Ok (n, k)).
Definition sys_open_repl : io fnode :=
  syscall (λ k, n ← open_nofollow (repl_node k); Ok (n, k)).
Definition sys_lstat_repl : io fnode :=
  syscall (λ k, match repl_node k with Some n => Ok (n, k) | None => Err FileNotFoundError end).
Definition sys_fsync (name : string) : io unit :=
  syscall (λ k, match k_names k !! name with
              | Some i => Ok (tt, set_inodes (alter synced i (k_inodes k)) k)
              | None => Err OSError
              end).
Definition sys_fsync_repl : io unit :=
  syscall (λ k, match k_repl k with
              | Some i => Ok (tt, set_inodes (alter synced i (k_inodes k)) k)
              | None => Err OSError
              end).
Definition sys_unlink (name : string) : io unit :=
  syscall (λ k, match k_names k !! name with
              | Some _ => Ok (tt, set_names (delete name (k_names k)) k)
              | None => Err FileNotFoundError
              end).
(** [os.replace(replacement_path, main_path)] *)
Definition sys_replace : io unit :=
  syscall (λ k, match k_repl k with
              | Some i => Ok (tt, set_repl None (set_names (<[main_name:=i]> (k_names k)) k))
              | None => Err FileNotFoundError
              end).
Definition sys_chmod (name : string) (mode : Z) : io unit :=
  syscall (λ k, match k_names k !! name with
              | Some i => Ok (tt, set_inodes (alter (with_mode mode) i (k_inodes k)) k)
              | None => Err FileNotFoundError
              end).
Definition sys_fsync_root : io unit := syscall (λ k, Ok (tt, root_synced k)).

(** ** SQLite *)

(** [overlay m w] is the database that a main file [m] and a write-ahead log
    [w] hold together; [checkpoint m w] is [PRAGMA wal_checkpoint(TRUNCATE)]:
    whether it was busy and the two files it leaves. *)
Class Sqlite := {
  overlay : content → content → content;
  empty_wal : content → bool;
  checkpoint : content → content → bool * content * content }.

(** An empty log adds nothing; a checkpoint never changes the database, and a
    complete one leaves an empty log. *)
Class SqliteLaws `{Sqlite} := {
  overlay_empty m w : empty_wal w = true → overlay m w = m;
  checkpoint_overlay m w b m' w' :
  checkpoint m w = (b, m', w') → overlay m' w' = overlay m w;
  checkpoint_complete m w m' w' : checkpoint m w = (false, m', w') → empty_wal w' = true }.

Section code.
Context `{Sqlite}.
(** The user id of the process, and whether closing a connection closes the
    last one, which removes the sidecars of a log that is empty. *)
Context (uid : Z) (last_connection : bool).

Definition sys_connect : io unit := call SqliteError (λ k, Ok (tt, k)).

(** A checkpoint writes and syncs the main file before it resets the log. *)
Definition sql_checkpoint : io bool := call SqliteError (λ k,
  match k_names k !! main_name, k_names k !! wal_name with
  | Some i, Some j =>
    match k_inodes k !! i, k_inodes k !! j with
    | Some x, Some y =>
        let '(busy, m, w) := checkpoint (i_data x) (i_data y) in
        Ok (busy, set_inodes (<[j:=with_data w y]> (<[i:=with_data m x]> (k_inodes k))) k)
    | _, _ => Err SqliteError
    end
  | _, _ => Ok (false, k)
  end).

Definition sql_close : io unit := call SqliteError (λ k,
  Ok (tt,
  match k_names k !! wal_name ≫= λ j, k_inodes k !! j with
  | Some y =>
      if last_connection && empty_wal (i_data y)
      then set_names (delete shm_name (delete wal_name (k_names k))) k else k
  | None => k
  end)).

(** ** [replace_fact_database] *)

Definition replacement_failed : io_exn := MaintenanceError "replacement_failed".
Definition throw_if (b : bool) (code : string) : io unit :=
  if b then throw (MaintenanceError code) else mret tt.
Definition on_os_error {A} (code : string) (e : io_exn) : option (io A) :=
  if is_os_error e then Some (throw (MaintenanceError code)) else None.
Definition on_sqlite_error {A} (e : io_exn) : option (io A) :=
  if bool_decide (e = SqliteError) then Some (throw replacement_failed) else None.

Definition unsafe_file (n : fnode) : bool :=
  bool_decide (n_type n ≠ FReg) || negb (n_uid n =? uid) || negb (n_mode n =? FILE_MODE).
Definition unsafe_root (n : fnode) : bool :=
  bool_decide (n_type n ≠ FDir) || negb (n_uid n =? uid) || negb (n_mode n =? DIR_MODE).

(** Opening the old main file; [None] when there is none. *)
Definition open_old_store : io (option fnode) :=
  rescue (n ← sys_open main_name; mret (Some n)) (λ e,
  match e with
  | FileNotFoundError => Some (mret None)
  | OSError => Some (throw replacement_failed)
  | _ => None
  end).

Definition checkpoint_old (n : fnode) : io unit :=
  _ ← throw_if (unsafe_file n) "replacement_failed";
  _ ← rescue sys_connect on_sqlite_error;
  _ ← finally_do
      (rescue (busy ← sql_checkpoint; throw_if busy "replacement_failed") on_sqlite_error)
      sql_close;
  _ ← rescue (sys_open main_name) (on_os_error "replacement_failed");
  sys_fsync main_name.

Definition unlink_sidecar (name : string) : io unit :=
  rescue (sys_unlink name) (λ e,
  match e with
  | FileNotFoundError => Some (mret tt)
  | OSError => Some (throw replacement_failed)
  | _ => None
  end).

(** Everything after the root was opened; closing descriptors has no effect on
    the disk and is left out. *)
Definition replace_body (checkpoint_old_store : bool) (root : fnode) : io unit :=
  _ ← throw_if (unsafe_root root) "root_unsafe";
  source ← sys_lstat_repl;
  _ ← throw_if (unsafe_file source) "replacement_unsafe";
  old ← (if checkpoint_old_store then open_old_store else mret None);
  _ ← match old with Some n => checkpoint_old n | None => mret tt end;
  _ ← unlink_sidecar wal_name;
  _ ← unlink_sidecar shm_name;
  _ ← rescue sys_open_repl (on_os_error "replacement_failed");
  _ ← sys_fsync_repl;
  _ ← sys_replace;
  _ ← sys_chmod main_name FILE_MODE;
  sys_fsync_root.

Definition replace_fact_database (checkpoint_old_store : bool) : io unit :=
  root ← rescue sys_open_root (on_os_error "root_unavailable");
  rescue (replace_body checkpoint_old_store root) (on_os_error "replacement_failed").

End code.

(** ** What a crash shows *)

(** The database that directory entries and file contents amount to: none
    without a main file. *)
Definition view `{Sqlite} (names : gmap string nat) (data : nat → content) : option content :=
  match names !! main_name with
  | None => None
  | Some i =>
    Some (match names !! wal_name with
          | None => data i
          | Some j => overlay (data i) (data j)
          end)
  end.

(** A power loss on disk [k] may show [names] and [data]: entries of now or of
    any time since the last sync, and the content of every safe inode. *)
Definition power_loss (k : disk) (names : gmap string nat) (data : nat → content) : Prop :=
  names ∈ k_names k :: k_past k ∧
  ∀ i x, k_inodes k !! i = Some x → i_safe x = true → data i = i_data x.

End disk.
Arguments inode : clear implicits.
Arguments disk : clear implicits.

(** ** The proof *)

Section proof.
Context {content : Type} `{SqliteLaws content} (uid : Z) (last_connection : bool).
Local Notation disk := (disk content).

(** The database values a crash may show, and the replacement: its inode and
    its content. *)
Context (V : option content → Prop) (r : nat) (new : content).

(** Every file that [names] mention is on disk, is not the replacement file,
    and main file and log are different files. *)
Record named (k : disk) (names : gmap string nat) : Prop := {
  nm_safe : ∀ f i, names !! f = Some i → i ≠ r ∧ ∃ x, k_inodes k !! i = Some x ∧ i_safe x = true;
  nm_inj : ∀ f g i, names !! f = Some i → names !! g = Some i → f = g }.

(** The content of an inode. *)
Definition data_of (k : disk) (i : nat) : content :=
  match k_inodes k !! i with Some x => i_data x | None => new end.

Definition repl_is (k : disk) : Prop :=
  k_repl k = Some r ∧ ∃ x, k_inodes k !! r = Some x ∧ i_data x = new.

(** With and without the log the entries amount to an allowed database. *)
Definition allowed_names (k : disk) (names : gmap string nat) : Prop :=
  named k names ∧ V (view names (data_of k)) ∧ V (view (delete wal_name names) (data_of k)).

(** What a power loss shows is allowed. *)
Definition crash_ok (k : disk) : Prop := ∀ names data, power_loss k names data → V (view names data).

(** Before the first removal; after a checkpoint; after the removals. *)
Definition st_open (k : disk) : Prop :=
  repl_is k ∧ k_past k = [] ∧ named k (k_names k) ∧ V (view (k_names k) (data_of k)).
Definition st_merged (k : disk) : Prop :=
  repl_is k ∧ ∀ names, names ∈ k_names k :: k_past k → allowed_names k names.
Definition st_bare (k : disk) : Prop :=
  st_merged k ∧ k_names k !! wal_name = None ∧ k_names k !! shm_name = None.
Definition st_ready (k : disk) : Prop :=
  st_bare k ∧ ∃ x, k_inodes k !! r = Some x ∧ i_safe x = true.
(** After the rename. *)
Definition st_new (k : disk) : Prop :=
  k_names k !! main_name = Some r ∧ k_names k !! wal_name = None ∧ k_names k !! shm_name = None ∧
  (∃ x, k_inodes k !! r = Some x ∧ i_safe x = true ∧ i_data x = new) ∧
  ∀ names, names ∈ k_past k → named k names ∧ V (view names (data_of k)).

Lemma view_ext names (d d' : nat → content) :
  (∀ f i, names !! f = Some i → d i = d' i) → view names d = view names d'.
Proof.
  intros Hd. unfold view. destruct (names !! main_name) as [i|] eqn:Hm; [|done].
  rewrite (Hd _ _ Hm). destruct (names !! wal_name) as [j|] eqn:Hw; [|done].
  by rewrite (Hd _ _ Hw).
Qed.

Lemma named_view k names data :
  named k names → (∀ i x, k_inodes k !! i = Some x → i_safe x = true → data i = i_data x) →
  view names data = view names (data_of k).
Proof.
  intros [Hs _] Hd. apply view_ext. intros f i Hf. destruct (Hs f i Hf) as (_&x&Hx&Hxs).
  unfold data_of. rewrite Hx. by apply Hd.
Qed.

Lemma open_crash_ok k : st_open k → crash_ok k.
Proof.
  intros (_&Hp&Hn&HV) names data [Hin Hd]. rewrite Hp in Hin. apply list_elem_of_singleton in Hin as ->.
  by rewrite (named_view k).
Qed.

Lemma merged_crash_ok k : st_merged k → crash_ok k.
Proof.
  intros (_&Ha) names data [Hin Hd]. destruct (Ha _ Hin) as (Hn&HV&_). by rewrite (named_view k).
Qed.

Lemma new_crash_ok k : V (Some new) → st_new k → crash_ok k.
Proof.
  intros HV (Hm&Hw&_&(x&Hx&Hxs&<-)&Hp) names data [Hin Hd].
  apply elem_of_cons in Hin as [->|Hin].
  - unfold view. rewrite Hm, Hw. by rewrite (Hd _ _ Hx Hxs).
  - destruct (Hp _ Hin) as [Hn ?]. by rewrite (named_view k).
Qed.

(** Syncing a file or changing its mode changes neither names nor content. *)
Definition tame (f : inode content → inode content) : Prop :=
  ∀ x, i_data (f x) = i_data x ∧ (i_safe x = true → i_safe (f x) = true).
Lemma tame_synced : tame synced. Proof. by intros [n d s]. Qed.
Lemma tame_mode m : tame (with_mode m). Proof. by intros [n d s]. Qed.

Lemma tame_lookup f i j k x :
  tame f → k_inodes k !! j = Some x →
  ∃ y, alter f i (k_inodes k) !! j = Some y ∧ i_data y = i_data x ∧ (i_safe x = true → i_safe y = true).
Proof.
  intros Hf Hx. destruct (decide (i = j)) as [->|Hne].
  - exists (f x). rewrite lookup_alter_eq, Hx. split; [done|apply Hf].
  - exists x. by rewrite lookup_alter_ne.
Qed.

Lemma tame_named f i k names :
  tame f → named k names → named (set_inodes (alter f i (k_inodes k)) k) names.
Proof.
  intros Hf [Hs Hi]. split; [|done]. intros g j Hg. destruct (Hs g j Hg) as (Hr&x&Hx&Hxs).
  split; [done|]. destruct (tame_lookup f i j k x Hf Hx) as (y&Hy&_&Hys). eauto.
Qed.

Lemma tame_data f i k j : tame f → data_of (set_inodes (alter f i (k_inodes k)) k) j = data_of k j.
Proof.
  intros Hf. unfold data_of. simpl. destruct (decide (i = j)) as [->|Hne].
  - rewrite lookup_alter_eq. destruct (k_inodes k !! j); [apply Hf|done].
  - by rewrite lookup_alter_ne.
Qed.

Lemma tame_view f i k names :
  tame f → view names (data_of (set_inodes (alter f i (k_inodes k)) k)) = view names (data_of k).
Proof. intros Hf. apply view_ext. intros ? ? _. by apply tame_data. Qed.

Lemma tame_merged f i k :
  tame f → st_merged k → st_merged (set_inodes (alter f i (k_inodes k)) k).
Proof.
  intros Hf ((Hr&x&Hx&Hd)&Ha). split.
  - split; [done|]. destruct (tame_lookup f i r k x Hf Hx) as (y&?&?&_). exists y. by split; [|congruence].
  - intros names Hin. destruct (Ha names Hin) as (?&?&?).
    split; [by apply tame_named|]. by rewrite !tame_view.
Qed.

Lemma tame_bare f i k :
  tame f → st_bare k → st_bare (set_inodes (alter f i (k_inodes k)) k).
Proof. intros Hf (?&?&?). split; [by apply tame_merged|done]. Qed.

Lemma tame_new f i k :
  tame f → st_new k → st_new (set_inodes (alter f i (k_inodes k)) k).
Proof.
  intros Hf (?&?&?&(x&Hx&Hs&Hd)&Hp). do 3 (split; [done|]). split.
  - destruct (tame_lookup f i r k x Hf Hx) as (y&?&?&?). exists y. naive_solver congruence.
  - intros names Hin. destruct (Hp names Hin). split; [by apply tame_named|]. by rewrite tame_view.
Qed.

Lemma allowed_inodes k k' names :
  k_inodes k = k_inodes k' → allowed_names k names → allowed_names k' names.
Proof.
  intros Hk ([Hs Hi]&HV). unfold allowed_names, data_of. rewrite <- Hk. split; [|exact HV].
  split; [|done]. by rewrite <- Hk.
Qed.

(** Removing a name. *)
Lemma named_delete k f names : named k names → named k (delete f names).
Proof.
  intros [Hs Hi]. split.
  - intros g i [_ Hg]%lookup_delete_Some. eauto.
  - intros g h i [_ Hg]%lookup_delete_Some [_ Hh]%lookup_delete_Some. eauto.
Qed.

Lemma view_delete_shm names (d : nat → content) : view (delete shm_name names) d = view names d.
Proof. unfold view. by rewrite !lookup_delete_ne. Qed.

Lemma allowed_delete k f names :
  f = wal_name ∨ f = shm_name → allowed_names k names → allowed_names k (delete f names).
Proof.
  intros Hf (Hn&HV&HV'). split; [by apply named_delete|]. destruct Hf as [->| ->].
  - by rewrite delete_delete_eq.
  - by rewrite (delete_delete _ wal_name shm_name), !view_delete_shm.
Qed.

(** *** The system calls *)

(** The exceptions that reach the caller, and those inside the outer [try]. *)
Definition documented (e : io_exn) : Prop :=
  e = SqliteError ∨
  ∃ code, e = MaintenanceError code ∧
    code ∈ ["root_unavailable"; "root_unsafe"; "replacement_unsafe"; "replacement_failed"].
Definition inner_exn (e : io_exn) (k : disk) : Prop := is_os_error e = true ∨ documented e.

Lemma documented_failed : documented replacement_failed.
Proof. right. eexists. split; [done|]. set_solver. Qed.

Lemma open_nofollow_os o e : open_nofollow o = Err e → is_os_error e = true.
Proof. unfold open_nofollow. intros H1. repeat case_match; by simplify_eq. Qed.

Local Notation triple := (hoare crash_ok).

(** A call that reads the disk leaves it alone. *)
Lemma read_call {A} e (f : disk → result io_exn (A * disk)) (P : disk → Prop) (E : io_exn → disk → Prop) :
  (∀ k, P k → crash_ok k) → (∀ k, P k → E e k) →
  (∀ k, P k → match f k with Ok (_, k') => k' = k | Err e' => E e' k end) →
  triple P (call e f) (λ _, P) E.
Proof.
  intros HJ He Hf. apply hoare_call; [done|]. intros k HP. specialize (Hf k HP).
  destruct (f k) as [[a k']|e']; [|done]. subst. auto.
Qed.

Lemma open_call (o : disk → option fnode) (P : disk → Prop) (E : io_exn → disk → Prop) :
  (∀ k, P k → crash_ok k) → (∀ e k, P k → is_os_error e = true → E e k) →
  triple P (syscall (λ k, n ← open_nofollow (o k); Ok (n, k))) (λ _, P) E.
Proof.
  intros HJ HE. apply read_call; [done|auto|]. intros k HP.
  destruct (open_nofollow (o k)) eqn:Ho; [done|]. apply open_nofollow_os in Ho. simpl. auto.
Qed.

Lemma throw_if_spec b code (P : disk → Prop) (E : io_exn → disk → Prop) :
  (∀ k, P k → E (MaintenanceError code) k) → triple P (throw_if b code) (λ _, P) E.
Proof. destruct b; intros HE; [by apply hoare_throw|by apply hoare_ret]. Qed.

(** [try: m except OSError: raise MaintenanceError(code)] *)
Lemma rescue_os {A} code P (m : io disk io_exn A) Q E :
  triple P m Q (λ e k, is_os_error e = true ∨ E e k) → (∀ k, E (MaintenanceError code) k) →
  (∀ e k, is_os_error e = true → E e k → E (MaintenanceError code) k) →
  triple P (rescue m (on_os_error code)) Q E.
Proof.
  intros Hm HE _. eapply hoare_rescue; [exact Hm|]. intros e. unfold on_os_error.
  destruct (is_os_error e) eqn:He; [apply hoare_throw; auto|]. intros k [|]; [done|auto].
Qed.

(** A sidecar is gone after its removal. *)
Lemma unlink_sidecar_spec f (P Q : disk → Prop) :
  (∀ k, P k → crash_ok k) →
  (∀ k, P k → k_names k !! f = None → Q k) →
  (∀ k i, P k → k_names k !! f = Some i →
     crash_ok (set_names (delete f (k_names k)) k) ∧ Q (set_names (delete f (k_names k)) k)) →
  triple P (unlink_sidecar f) (λ _, Q) inner_exn.
Proof.
  intros HJ Hnone Hsome. unfold unlink_sidecar.
  eapply (hoare_rescue _ _ _ _ _ _ (λ e k, P k ∧
    (e = FileNotFoundError → k_names k !! f = None) ∧ is_os_error e = true)).
  - apply hoare_call; [done|]. intros k HP. destruct (k_names k !! f) as [i|] eqn:Hf.
    + by apply (Hsome k i).
    + done.
  - intros [| | |code]; simpl.
    + apply hoare_ret. intros k (HP&Hk&_). auto.
    + apply hoare_throw. intros k _. right. apply documented_failed.
    + by intros k (_&_&?).
    + by intros k (_&_&?).
Qed.

Lemma unlink_merged f k i :
  f = wal_name ∨ f = shm_name → st_merged k → k_names k !! f = Some i →
  st_merged (set_names (delete f (k_names k)) k).
Proof.
  intros Hf [Hr Ha] _. split; [done|]. intros names Hin.
  apply (allowed_inodes k); [done|]. apply elem_of_cons in Hin as [->|Hin]; [|by apply Ha].
  apply allowed_delete; [done|]. apply Ha. by left.
Qed.

(** The tail of the body, from the removed sidecars to the synced root. *)
Definition st_done (k : disk) : Prop :=
  st_new k ∧ k_past k = [] ∧ ∃ x, k_inodes k !! r = Some x ∧ n_mode (i_node x) = FILE_MODE.

Lemma publish_spec :
  V (Some new) →
  triple st_bare
    (_ ← rescue sys_open_repl (on_os_error "replacement_failed");
     _ ← sys_fsync_repl; _ ← sys_replace; _ ← sys_chmod main_name FILE_MODE; sys_fsync_root)
    (λ _, st_done) inner_exn.
Proof.
  intros HV.
  assert (∀ k, st_bare k → crash_ok k) as Hb by (intros k [Hm _]; by eapply merged_crash_ok).
  eapply hoare_bind with (R := λ _, st_bare).
  { apply rescue_os.
    - apply open_call; [done|]. by left.
    - intros ?. right. apply documented_failed.
    - intros ? ? ? ?. right. apply documented_failed. }
  intros _. eapply hoare_bind with (R := λ _, st_ready).
  { apply hoare_call; [by left|]. intros k Hk. destruct (Hk) as (((Hr&x&Hx&_)&_)&_). rewrite Hr.
    assert (st_bare (set_inodes (alter synced r (k_inodes k)) k)) as Hk'
      by (apply tame_bare; [apply tame_synced|done]).
    split; [by apply Hb|]. split; [done|]. exists (synced x). simpl. by rewrite lookup_alter_eq, Hx. }
  intros _. eapply hoare_bind with (R := λ _, st_new).
  { apply hoare_call; [by left|]. intros k ((((Hr&x&Hx&Hd)&Ha)&Hw&Hs)&y&Hy&Hys). rewrite Hr.
    assert (st_new (set_repl None (set_names (<[main_name:=r]> (k_names k)) k))) as Hn.
    { split_and!; simpl.
      - by rewrite lookup_insert_eq.
      - by rewrite lookup_insert_ne.
      - by rewrite lookup_insert_ne.
      - exists x. rewrite Hx in Hy. by simplify_eq.
      - intros names Hin. destruct (Ha names Hin) as (Hnm&?&_). split; [|done].
        destruct Hnm as [Hn1 Hn2]. by split. }
    split; [by eapply new_crash_ok|done]. }
  intros _. eapply hoare_bind with
    (R := λ _ k, st_new k ∧ ∃ x, k_inodes k !! r = Some x ∧ n_mode (i_node x) = FILE_MODE).
  { apply hoare_call; [by left|]. intros k Hk. destruct (Hk) as (Hm&_&_&(x&Hx&_)&_). rewrite Hm.
    assert (st_new (set_inodes (alter (with_mode FILE_MODE) r (k_inodes k)) k)) as Hk'
      by (apply tame_new; [apply tame_mode|done]).
    split; [by eapply new_crash_ok|]. split; [done|]. exists (with_mode FILE_MODE x). simpl.
    by rewrite lookup_alter_eq, Hx. }
  intros _. apply hoare_call; [by left|]. intros k [(Hm&Hw&Hs&Hx&Hp) Hmode].
  assert (st_new (root_synced k)) as Hk'.
  { split_and!; [done|done|done|done|]. simpl. by intros names ?%not_elem_of_nil. }
  split; [by eapply new_crash_ok|]. by split.
Qed.

(** *** The checkpoint *)

(** The log may go: the database is the same without it. *)
Definition st_ckpt (k : disk) : Prop :=
  st_open k ∧ V (view (delete wal_name (k_names k)) (data_of k)).

Lemma ckpt_merged k : st_ckpt k → st_merged k.
Proof.
  intros ((Hr&Hp&Hn&HV)&HV'). split; [done|]. rewrite Hp.
  intros names ->%list_elem_of_singleton. by split.
Qed.

Lemma ckpt_removed k :
  st_ckpt k → st_merged (set_names (delete shm_name (delete wal_name (k_names k))) k).
Proof.
  intros Hk. destruct (ckpt_merged k Hk) as [Hr Ha]. split; [done|]. intros names Hin.
  apply (allowed_inodes k); [done|]. apply elem_of_cons in Hin as [->|Hin]; [|by apply Ha].
  do 2 (apply allowed_delete; [auto|]). apply Ha. by left.
Qed.

Lemma empty_log_ckpt k j y :
  st_open k → k_names k !! wal_name = Some j → k_inodes k !! j = Some y → empty_wal (i_data y) = true →
  st_ckpt k.
Proof.
  intros Hk Hj Hy He. split; [done|]. destruct Hk as (_&_&_&HV). revert HV. unfold view.
  rewrite lookup_delete_ne, lookup_delete_eq, Hj by done.
  destruct (k_names k !! main_name) as [i|]; [|done].
  unfold data_of at 2. rewrite Hy. by rewrite overlay_empty.
Qed.

Lemma sql_close_open : triple st_open (sql_close last_connection) (λ _ _, True) (λ e _, e = SqliteError).
Proof.
  apply hoare_call; [done|]. intros k Hk. split; [|done].
  destruct (k_names k !! wal_name) as [j|] eqn:Hj; simpl; [|by apply open_crash_ok].
  destruct (k_inodes k !! j) as [y|] eqn:Hy; [|by apply open_crash_ok].
  destruct (last_connection && empty_wal (i_data y)) eqn:He; [|by apply open_crash_ok]. bool_to_prop.
  by eapply merged_crash_ok, ckpt_removed, empty_log_ckpt.
Qed.

Lemma sql_close_ckpt :
  triple st_ckpt (sql_close last_connection) (λ _, st_merged) (λ e _, e = SqliteError).
Proof.
  apply hoare_call; [done|]. intros k Hk.
  assert (∀ k', st_merged k' → crash_ok k' ∧ st_merged k') as Hm
    by (intros k' ?; split; [by apply merged_crash_ok|done]).
  destruct (k_names k !! wal_name ≫= _) as [y|]; [|by apply Hm, ckpt_merged].
  case_match; [by apply Hm, ckpt_removed|by apply Hm, ckpt_merged].
Qed.

(** A checkpoint keeps the database, and a complete one makes the log
    redundant. *)
Lemma sql_checkpoint_spec :
  triple st_open sql_checkpoint (λ busy k, st_open k ∧ (busy = false → st_ckpt k))
    (λ e k, st_open k ∧ e = SqliteError).
Proof.
  apply hoare_call; [auto|]. intros k Hk. destruct (Hk) as ((Hr&x0&Hx0&Hd0)&Hp&Hn&HV).
  destruct (k_names k !! main_name) as [i|] eqn:Hi.
  2:{ split; [by apply open_crash_ok|]. split; [done|]. intros _. split; [done|]. revert HV.
      unfold view. by rewrite lookup_delete_ne, Hi. }
  destruct (k_names k !! wal_name) as [j|] eqn:Hj.
  2:{ split; [by apply open_crash_ok|]. split; [done|]. intros _. split; [done|].
      by rewrite delete_id. }
  destruct (nm_safe k _ Hn _ _ Hi) as (Hir&x&Hx&Hxs).
  destruct (nm_safe k _ Hn _ _ Hj) as (Hjr&y&Hy&Hys). rewrite Hx, Hy.
  assert (i ≠ j) as Hij by (intros ->; by pose proof (nm_inj k _ Hn _ _ _ Hi Hj)).
  destruct (checkpoint (i_data x) (i_data y)) as [[busy m] w] eqn:Hc.
  set (k' := set_inodes _ k).
  assert (data_of k' i = m ∧ data_of k' j = w) as [Hdi Hdj].
  { unfold data_of, k'; simpl. by rewrite lookup_insert_eq, lookup_insert_ne, lookup_insert_eq. }
  assert (st_open k') as Hk'.
  { split_and!; [|done| |].
    - split; [done|]. exists x0. split; [|done]. unfold k'; simpl. by rewrite !lookup_insert_ne.
    - split; [|by apply Hn]. intros f n Hf. destruct (nm_safe k _ Hn f n Hf) as (?&z&Hz&Hzs).
      split; [done|]. unfold k'; simpl.
      destruct (decide (j = n)) as [<-|]; [rewrite lookup_insert_eq; by eexists|].
      rewrite lookup_insert_ne by done.
      destruct (decide (i = n)) as [<-|]; [rewrite lookup_insert_eq; by eexists|].
      rewrite lookup_insert_ne by done. eauto.
    - revert HV. unfold view. simpl. rewrite Hi, Hj, Hdi, Hdj, (checkpoint_overlay _ _ _ _ _ Hc).
      unfold data_of. by rewrite Hx, Hy. }
  split; [by apply open_crash_ok|]. split; [done|]. intros ->.
  eapply (empty_log_ckpt k' j (with_data w y)); [done|done| |by eapply checkpoint_complete].
  unfold k'; simpl. by rewrite lookup_insert_eq.
Qed.

Lemma checkpoint_old_spec n :
  triple st_open (checkpoint_old uid last_connection n) (λ _, st_merged) inner_exn.
Proof.
  unfold checkpoint_old.
  assert (documented SqliteError) as Hsql by by left.
  eapply hoare_bind with (R := λ _, st_open).
  { apply throw_if_spec. intros k _. right. apply documented_failed. }
  intros _. eapply hoare_bind with (R := λ _, st_open).
  { eapply (hoare_rescue _ _ _ _ _ _ (λ e _, e = SqliteError)).
    - apply read_call; [apply open_crash_ok|done|done].
    - intros e. unfold on_sqlite_error. case_bool_decide; [|by intros ? ?].
      apply hoare_throw. intros ? _. right. apply documented_failed. }
  intros _. eapply hoare_bind with (R := λ _, st_merged).
  { eapply (hoare_finally _ _ _ _ _ _ (λ _, st_ckpt) (λ e k, st_open k ∧ documented e)).
    - eapply (hoare_rescue _ _ _ _ _ _ (λ e k, st_open k ∧ (e = SqliteError ∨ documented e))).
      + eapply hoare_bind with (R := λ busy k, st_open k ∧ (busy = false → st_ckpt k)).
        * eapply hoare_weaken; [apply sql_checkpoint_spec|done|done|]. intros e k [? ?]. auto.
        * intros []; [apply hoare_throw|apply hoare_ret]; intros k [Hk Hb]; [|by apply Hb].
          split; [done|]. right. apply documented_failed.
      + intros e. unfold on_sqlite_error. case_bool_decide; [|by intros k [? [|]]].
        apply hoare_throw. intros k [? _]. split; [done|]. apply documented_failed.
    - intros _. eapply hoare_weaken; [apply sql_close_ckpt|done|done|]. intros e k ->. by right.
    - intros e. apply hoare_pure. intros He. eapply hoare_weaken; [apply sql_close_open|done| |].
      + intros _ k _. by right.
      + intros e' k ->. by right. }
  intros _. eapply hoare_bind with (R := λ _, st_merged).
  { apply rescue_os.
    - apply open_call; [apply merged_crash_ok|]. by left.
    - intros ?. right. apply documented_failed.
    - intros ? ? ? ?. right. apply documented_failed. }
  intros _. apply hoare_call; [by left|]. intros k Hk.
  destruct (k_names k !! main_name) as [i|]; [|by left].
  assert (st_merged (set_inodes (alter synced i (k_inodes k)) k)) as Hk'
    by (apply tame_merged; [apply tame_synced|done]).
  split; [by apply merged_crash_ok|done].
Qed.

Lemma no_main_merged k : st_open k → node_at main_name k = None → st_ckpt k.
Proof.
  intros Hk Hm. split; [done|]. destruct Hk as (_&_&Hn&HV). revert HV. unfold view.
  rewrite lookup_delete_ne by done. destruct (k_names k !! main_name) as [i|] eqn:Hi; [|done].
  destruct (nm_safe k _ Hn _ _ Hi) as (_&x&Hx&_). unfold node_at in Hm.
  rewrite Hi in Hm. simpl in Hm. by rewrite Hx in Hm.
Qed.

(** Opening the old store tells whether there is one to checkpoint. *)
Lemma open_old_store_spec :
  triple st_open open_old_store
    (λ old k, match old with Some _ => st_open k | None => st_merged k end) inner_exn.
Proof.
  unfold open_old_store.
  eapply (hoare_rescue _ _ _ _ _ _ (λ e k, st_open k ∧
    (e = FileNotFoundError → node_at main_name k = None) ∧ is_os_error e = true)).
  - eapply hoare_bind with (R := λ _, st_open); [|by intros n; apply hoare_ret].
    apply read_call; [apply open_crash_ok|done|]. intros k Hk.
    destruct (open_nofollow (node_at main_name k)) eqn:Ho; simpl; [done|]. split; [done|].
    split; [|by apply open_nofollow_os in Ho]. intros ->. revert Ho. unfold open_nofollow.
    repeat case_match; done.
  - intros [| | |code]; simpl.
    + apply hoare_ret. intros k (Hk&Hm&_). by apply ckpt_merged, no_main_merged, Hm.
    + apply hoare_throw. intros k _. right. apply documented_failed.
    + by intros k (_&_&?).
    + by intros k (_&_&?).
Qed.

Lemma replace_body_spec ck root :
  V (Some new) →
  triple (λ k, st_open k ∧ (ck = false → st_ckpt k)) (replace_body uid last_connection ck root)
    (λ _, st_done) inner_exn.
Proof.
  intros HV. unfold replace_body.
  assert (∀ k, st_open k ∧ (ck = false → st_ckpt k) → crash_ok k) as HJ
    by (intros k [? _]; by apply open_crash_ok).
  assert (∀ code, code ∈ ["root_unavailable"; "root_unsafe"; "replacement_unsafe"; "replacement_failed"] →
    ∀ k, inner_exn (MaintenanceError code) k) as Hdoc by (intros code Hc k; right; right; eauto).
  eapply hoare_bind with (R := λ _ k, st_open k ∧ (ck = false → st_ckpt k)).
  { apply throw_if_spec. intros k _. apply Hdoc. set_solver. }
  intros _. eapply hoare_bind with (R := λ _ k, st_open k ∧ (ck = false → st_ckpt k)).
  { apply read_call; [done|by left|]. intros k _. by destruct (repl_node k); [|left]. }
  intros src. eapply hoare_bind with (R := λ _ k, st_open k ∧ (ck = false → st_ckpt k)).
  { apply throw_if_spec. intros k _. apply Hdoc. set_solver. }
  intros _. eapply hoare_bind with
    (R := λ old k, match old with Some _ => st_open k | None => st_merged k end).
  { destruct ck.
    - eapply hoare_weaken; [apply open_old_store_spec|by intros k [? _]|done|done].
    - apply hoare_ret. intros k [_ Hk]. by apply ckpt_merged, Hk. }
  intros old. eapply hoare_bind with (R := λ _, st_merged).
  { destruct old as [n|]; [apply checkpoint_old_spec|by apply hoare_ret]. }
  intros _. eapply hoare_bind with (R := λ _ k, st_merged k ∧ k_names k !! wal_name = None).
  { apply unlink_sidecar_spec; [apply merged_crash_ok|done|]. intros k i Hk Hw.
    assert (st_merged (set_names (delete wal_name (k_names k)) k)) as Hk'
      by (eapply unlink_merged; eauto).
    split; [by apply merged_crash_ok|]. split; [done|]. simpl. apply lookup_delete_eq. }
  intros _. eapply hoare_bind with (R := λ _, st_bare).
  { apply unlink_sidecar_spec.
    - intros k [? _]. by apply merged_crash_ok.
    - by intros k [? ?].
    - intros k i [Hk Hw] Hs. assert (st_merged (set_names (delete shm_name (k_names k)) k)) as Hk'
        by (eapply unlink_merged; eauto).
      split; [by apply merged_crash_ok|]. split; [done|]. simpl. split; [|apply lookup_delete_eq].
      by rewrite lookup_delete_ne. }
  intros _. by apply publish_spec.
Qed.

Lemma replace_spec ck :
  V (Some new) →
  triple (λ k, st_open k ∧ (ck = false → st_ckpt k)) (replace_fact_database uid last_connection ck)
    (λ _, st_done) (λ e _, documented e).
Proof.
  intros HV. unfold replace_fact_database.
  eapply hoare_bind with (R := λ _ k, st_open k ∧ (ck = false → st_ckpt k)).
  { apply rescue_os.
    - apply open_call; [intros k [? _]; by apply open_crash_ok|]. by left.
    - intros ?. right. eexists. split; [done|]. set_solver.
    - intros ? ? ? Hd. right. eexists. split; [done|]. set_solver. }
  intros root. apply rescue_os; [by apply replace_body_spec|intros ?; apply documented_failed|].
  intros ? ? ? _. apply documented_failed.
Qed.
End proof.

(** ** Properties *)

(** A store at rest: no directory change is in flight, every file is on disk,
    no file has two names, and the replacement is another file. *)
Record at_rest {content} (k : disk content) (r : nat) (new : content) : Prop := {
  ar_past : k_past k = [];
  ar_repl : k_repl k = Some r;
  ar_new : i_data <$> k_inodes k !! r = Some new;
  ar_named : named r k (k_names k) }.

(** The database of the names now in the directory, with and without the log. *)
Definition current_db {content} `{Sqlite content} (k : disk content) (new : content) : option content :=
  view (k_names k) (data_of new k).
Definition main_only_db {content} `{Sqlite content} (k : disk content) (new : content) : option content :=
  view (delete wal_name (k_names k)) (data_of new k).

Lemma replace_run {content} `{SqliteLaws content} uid last ck fault (k : disk content) r new :
  at_rest k r new →
  let allowed v := v = current_db k new ∨ v = Some new ∨ (ck = false ∧ v = main_only_db k new) in
  let '(res, s) := replace_fact_database uid last ck fault (IoState 0 k [k]) in
  Forall (crash_ok allowed) (io_trace s) ∧
  match res with Ok _ => st_done allowed r new (io_world s) | Err e => documented e end.
Proof.
  intros [Hp Hr Hnew Hn] allowed. apply fmap_Some in Hnew as (x&Hx&->).
  assert (st_open allowed r (i_data x) k) as Hopen.
  { split; [by split; [|exists x]|]. do 2 (split; [done|]). by left. }
  apply (replace_spec uid last allowed r (i_data x) ck (or_intror (or_introl eq_refl)) fault).
  - split; [done|]. intros ->. split; [done|]. right. by right.
  - constructor; [by apply (open_crash_ok allowed r (i_data x))|done].
Qed.

(** C21: replacing the fact database is atomic: whichever system calls fail and
    wherever the process or the machine stops, what a restart finds is the
    complete old database or the complete new one, never a mixture and never
    the new file with the old log; only when the caller asked for the old store
    not to be checkpointed (it is in quarantine by then) may the old main file
    be found without its log. *)
Theorem replacement_crash_atomic {content} `{SqliteLaws content} uid last ck fault
    (k : disk content) r new res s k' names data :
  at_rest k r new → replace_fact_database uid last ck fault (IoState 0 k [k]) = (res, s) →
  k' ∈ io_trace s → power_loss k' names data →
  view names data = current_db k new ∨ view names data = Some new ∨
  (ck = false ∧ view names data = main_only_db k new).
Proof.
  intros Hk Hrun Hin Hloss. pose proof (replace_run uid last ck fault k r new Hk) as Hs.
  rewrite Hrun in Hs. destruct Hs as [HJ _]. rewrite Forall_forall in HJ. by apply (HJ k').
Qed.

(** When the replacement reports success, the new database is in place
    alone, with mode 0600, and survives a power loss; when it fails, it does so
    with one of the documented codes or an error of SQLite. *)
Theorem replacement_success_is_durable {content} `{SqliteLaws content} uid last ck fault
    (k : disk content) r new res s :
  at_rest k r new → replace_fact_database uid last ck fault (IoState 0 k [k]) = (res, s) →
  match res with
  | Ok _ => ∀ names data, power_loss (io_world s) names data →
      view names data = Some new ∧ names !! wal_name = None ∧ names !! shm_name = None ∧
      n_mode <$> node_at main_name (io_world s) = Some FILE_MODE
  | Err e => documented e
  end.
Proof.
  intros Hk Hrun. pose proof (replace_run uid last ck fault k r new Hk) as Hs.
  rewrite Hrun in Hs. destruct Hs as [_ Hres]. destruct res as [u|e]; [|done].
  destruct Hres as ((Hm&Hw&Hsh&(x&Hx&Hxs&<-)&_)&Hp&(y&Hy&Hmode)). simplify_eq.
  intros names data [Hin Hd]. rewrite Hp in Hin. apply list_elem_of_singleton in Hin as ->.
  split_and!; [|done|done|].
  - unfold view. rewrite Hm, Hw. by rewrite (Hd _ _ Hx Hxs).
  - unfold node_at. rewrite Hm. simpl. rewrite Hx. simpl. by rewrite Hmode.
Qed.

(** ** A run *)

Section demo.
(** Databases as lists of rows; a log holds the rows it appends. *)
#[local] Instance demo_sqlite : Sqlite := {|
  overlay m w := (m ++ w)%list;
  empty_wal w := match w with [] => true | _ => false end;
  checkpoint m w := (false, (m ++ w)%list, @nil string) |}.
#[local] Instance demo_sqlite_laws : SqliteLaws.
Proof.
  split.
  - intros m [|x w]; [intros _; apply app_nil_r|done].
  - intros m w b m' w' [= <- <- <-]. apply app_nil_r.
  - by intros m w m' w' [= <- <-].
Qed.

Definition demo_file (mode : Z) : fnode := FNode FReg 501 mode true (1, 1).
Definition demo_disk : disk (list string) :=
  Disk (Some (FNode FDir 501 DIR_MODE true (1, 0)))
    (<[main_name:=1%nat]> (<[wal_name:=2%nat]> ∅)) [] (Some 3%nat)
    (<[1%nat:=Inode (demo_file FILE_MODE) ["old row"] true]>
    (<[2%nat:=Inode (demo_file FILE_MODE) ["logged row"] true]>
    (<[3%nat:=Inode (demo_file FILE_MODE) ["new row"] false]> ∅))).
Definition demo_replace (fault : nat → bool) :=
  replace_fact_database 501 false true fault (IoState 0 demo_disk [demo_disk]).

Lemma demo_at_rest : at_rest demo_disk 3 ["new row"].
Proof.
  split; [done|done|done|]. split.
  - unfold demo_disk; simpl. intros f i [[_ <-]|[_ [[_ <-]|[_ Hf]]%lookup_insert_Some]]%lookup_insert_Some;
      [split; [done|]; by eexists..|]. by rewrite lookup_empty in Hf.
  - unfold demo_disk; simpl. intros f g i
      [[<- <-]|[_ [[<- <-]|[_ Hf]]%lookup_insert_Some]]%lookup_insert_Some
      [[<- Hg]|[_ [[<- Hg]|[_ Hg]]%lookup_insert_Some]]%lookup_insert_Some;
      try done; by rewrite lookup_empty in *.
Qed.

(** The machine stops right before the rename: the old database is found, the
    checkpointed row included. *)
Theorem replacement_crash_atomic_witness :
  view (k_names (io_world (demo_replace (λ n, (10 <=? n)%nat)).2))
    (data_of ["new row"] (io_world (demo_replace (λ n, (10 <=? n)%nat)).2)) =
    Some ["old row"; "logged row"].
Proof.
  destruct (replacement_crash_atomic 501 false true (λ n, (10 <=? n)%nat) demo_disk 3 ["new row"]
    (demo_replace (λ n, (10 <=? n)%nat)).1 (demo_replace (λ n, (10 <=? n)%nat)).2
    (io_world (demo_replace (λ n, (10 <=? n)%nat)).2)
    (k_names (io_world (demo_replace (λ n, (10 <=? n)%nat)).2))
    (data_of ["new row"] (io_world (demo_replace (λ n, (10 <=? n)%nat)).2)) demo_at_rest) as [H|[H|[H _]]].
  - apply surjective_pairing.
  - left.
  - split; [left|]. intros i x Hx _. unfold data_of. rewrite Hx. reflexivity.
  - rewrite H. vm_compute. reflexivity.
  - exfalso. vm_compute in H. discriminate H.
  - discriminate H.
Defined.

Theorem replacement_success_is_durable_witness :
  (demo_replace (λ _, false)).1 = Ok tt ∧
  ∀ names data, power_loss (io_world (demo_replace (λ _, false)).2) names data →
    view names data = Some ["new row"].
Proof.
  split; [vm_compute; reflexivity|].
  pose proof (replacement_success_is_durable 501 false true (λ _, false) demo_disk 3 ["new row"]
    (Ok tt) (demo_replace (λ _, false)).2 demo_at_rest) as H.
  intros names data Hl. apply H; [|exact Hl].
  rewrite (surjective_pairing (replace_fact_database _ _ _ _ _)). f_equal.
Defined.
End demo.
