(* ===== verification/MaintLock.v ===== *)
(** * Leases on the fact store: [src/daemon/maintenance.py]

    [MaintenanceLock] over the lock table of one file, [acquire_exclusive],
    [FactHandle] with the order in which it takes and gives back its resources,
    and [run_maintenance] over the interface of the control client.  Readers
    hold the lock shared for as long as their SQLite connection is open; a
    replacement holds it exclusively. *)

From Stdlib Require Import String.
From stdpp Require Import base list strings gmap.
From S2P Require Import Prelude PyJson OpStore.
Open Scope Z_scope.

(** ** [MaintenanceLock] *)

Definition LOCK_MODE : Z := 384.   (* 0o600 *)
Definition ROOT_MODE : Z := 448.   (* 0o700 *)

(** The root directory, the lock file in it, and which open descriptions hold
    the lock. *)
Record lock_state := LockState {
  l_root : option fnode;
  l_file : option fnode;
  l_shared : gset nat;
  l_excl : option nat }.

Definition with_lock_file (n : fnode) (s : lock_state) : lock_state :=
  LockState (l_root s) (Some n) (l_shared s) (l_excl s).
Definition with_table (sh : gset nat) (ex : option nat) (s : lock_state) : lock_state :=
  LockState (l_root s) (l_file s) sh ex.

Inductive acquired := Acquired (s : lock_state) | Refused (code : string) (s : lock_state) | Blocks.

Section lock.
(** The user id of the process. *)
Context (uid : Z).

Definition unsafe_dir (n : fnode) : bool :=
  bool_decide (n_type n ≠ FDir) || negb (n_uid n =? uid) || negb (n_mode n =? ROOT_MODE).
Definition unsafe_lock (n : fnode) : bool :=
  bool_decide (n_type n ≠ FReg) || negb (n_uid n =? uid) || negb (n_mode n =? LOCK_MODE).

(** [fcntl.flock] by the description [fd]. *)
Definition flock (exclusive nonblocking : bool) (fd : nat) (s : lock_state) : acquired :=
  if bool_decide (l_excl s = None) && (negb exclusive || bool_decide (l_shared s = ∅))
  then Acquired (if exclusive then with_table (l_shared s) (Some fd) s
                 else with_table ({[fd]} ∪ l_shared s) None s)
  else if nonblocking then Refused "maintenance_locked" s else Blocks.

(** [os.fchmod]: only the owner and root may. *)
Definition fchmod (mode : Z) (n : fnode) : option fnode :=
  if (n_uid n =? uid) || (uid =? 0)
  then Some (FNode (n_type n) (n_uid n) mode (n_openable n) (n_ino n)) else None.

(** [fresh] identifies a lock file that is created. *)
Definition acquire (exclusive nonblocking create : bool) (fresh : Z * Z) (fd : nat)
    (s : lock_state) : acquired :=
  match l_root s with
  | None => Refused "root_unavailable" s
  | Some root =>
      if bool_decide (n_type root = FLnk) || negb (n_openable root) then Refused "root_unavailable" s
      else if unsafe_dir root then Refused "root_unsafe" s
      else
        match l_file s with
        | None =>
            if create
            then flock exclusive nonblocking fd
                   (with_lock_file (FNode FReg uid LOCK_MODE true fresh) s)
            else Refused "maintenance_lock_unavailable" s
        | Some n =>
            if bool_decide (n_type n = FLnk) || bool_decide (n_type n = FDir) || negb (n_openable n)
            then Refused "maintenance_lock_unavailable" s
            else
              match (if create then fchmod LOCK_MODE n else Some n) with
              | None => Refused "maintenance_lock_unavailable" s
              | Some n' =>
                  let s' := with_lock_file n' s in
                  if unsafe_lock n' then Refused "maintenance_lock_unsafe" s'
                  else flock exclusive nonblocking fd s'
              end
        end
  end.

(** [release]: closing the description gives the lock back. *)
Definition release (fd : nat) (s : lock_state) : lock_state :=
  with_table (l_shared s ∖ {[fd]}) (if bool_decide (l_excl s = Some fd) then None else l_excl s) s.

(** ** [acquire_exclusive] *)

(** [seen n] is the lock as the [n]-th attempt finds it; [now t] is the [t]-th
    reading of the clock.  Reading 0 sets the deadline; each later attempt
    reads the clock for its test and again to bound its sleep. *)
Fixpoint acquire_loop (seen : nat → lock_state) (now : nat → Z) (deadline : Z) (fresh : Z * Z)
    (fd fuel attempt reading : nat) : option (result string (nat * lock_state)) :=
  match fuel with
  | O => None
  | S fuel =>
      match acquire true true true fresh fd (seen attempt) with
      | Acquired s => Some (Ok (attempt, s))
      | Refused code _ =>
          if negb (String.eqb code "maintenance_locked") then Some (Err code)
          else if deadline <=? now reading then Some (Err "quiesce_timeout")
          else acquire_loop seen now deadline fresh fd fuel (S attempt) (2 + reading)
      | Blocks => None
      end
  end.

Definition acquire_exclusive (seen : nat → lock_state) (now : nat → Z) (timeout : Z)
    (fresh : Z * Z) (fd fuel : nat) : option (result string (nat * lock_state)) :=
  acquire_loop seen now (now 0%nat + timeout) fresh fd fuel 0 1.

(** ** [FactHandle] *)

(** What the handle does that others can see. *)
Inductive handle_event := Leased (fd : nat) | Connected | Disconnected | Unleased (fd : nat) | Notified.

Record handle := Handle { fh_lease : option nat; fh_connection : bool; fh_closed : bool }.

Definition lease_held (h : handle) : bool := bool_decide (is_Some (fh_lease h)).

(** How the outside answers: the database file, whether the connection and its
    [PRAGMA] succeed, and whether closing the connection does. *)
Record handle_env := HandleEnv {
  he_db : option fnode; he_connect : bool; he_pragma : bool; he_close : bool }.

Definition unsafe_db (n : fnode) : bool :=
  bool_decide (n_type n ≠ FReg) || negb (n_uid n =? uid) || negb (n_mode n =? 384).

Definition close_handle (env : handle_env) (h : handle) (s : lock_state)
    : result string unit * handle * lock_state * list handle_event :=
  if fh_closed h then (Ok tt, h, s, [])
  else
    let '(s', ev) := match fh_lease h with
                     | Some fd => (release fd s, [Unleased fd])
                     | None => (s, [])
                     end in
    (if fh_connection h && negb (he_close env) then Err "db_close_failed" else Ok tt,
     Handle None false true, s',
     (if fh_connection h then [Disconnected] else []) ++ ev ++ [Notified])%list.

(** The part of [_open] inside the [try]: the code it raises, and whether it
    connected. *)
Definition open_db (env : handle_env) : result string unit * bool :=
  match he_db env with
  | None => (Err "db_unavailable", false)
  | Some n =>
      if bool_decide (n_type n = FLnk) || negb (n_openable n) then (Err "db_unavailable", false)
      else if unsafe_db n then (Err "db_unsafe", false)
      else if negb (he_connect env) then (Err "db_unavailable", false)
      else if negb (he_pragma env) then (Err "db_unavailable", true)
      else (Ok tt, true)
  end.

(** [FactHandle.open] with a fresh description [fd].  A failure after the lease
    was taken closes the handle before it is reported. *)
Definition open_handle (env : handle_env) (fd : nat) (s : lock_state)
    : result string handle * lock_state * list handle_event :=
  match acquire false true false (0, 0) fd s with
  | Refused code s' => (Err code, s', [])
  | Blocks => (Err "maintenance_locked", s, [])
  | Acquired s' =>
      let '(r, connected) := open_db env in
      let h := Handle (Some fd) connected false in
      let ev := (Leased fd :: if connected then [Connected] else [])%list in
      match r with
      | Ok _ => (Ok h, s', ev)
      | Err code =>
          let '(rc, _, s'', ev') := close_handle env h s' in
          (Err (match rc with Err c => c | Ok _ => code end), s'', (ev ++ ev')%list)
      end
  end.
End lock.

(** *** Reading the identity *)

Record fact_identity := FactIdentity {
  fi_epoch : json; fi_physical : Z; fi_logical : Z; fi_history : option json }.

Section identity.
Context `{PyInt}.

(** [read_identity] on the rows of [meta]; [None]: the query raised. *)
Definition identity_of (rows : option (list (string * json))) : result string fact_identity :=
  match rows with
  | None => Err "epoch_unverifiable"
  | Some rows =>
      match meta_int "hlc_physical_ms" rows, meta_int "hlc_logical" rows with
      | Some p, Some l =>
          let epoch := obj_get_or_null "store_epoch" rows in
          let history := obj_get_or_null "history_id" rows in
          if negb (truthy epoch) || (p <? 0) || (l <? 0) then Err "epoch_unverifiable"
          else Ok (FactIdentity epoch p l (if truthy history then Some history else None))
      | _, _ => Err "epoch_unverifiable"
      end
  end.

Definition read_identity (h : handle) (rows : option (list (string * json)))
    : result string fact_identity :=
  if fh_closed h || negb (fh_connection h) then Err "db_unavailable" else identity_of rows.

(** [read_fact_identity]: open, read, close; an exception of [close] wins. *)
Definition read_fact_identity (uid : Z) (env : handle_env) (fd : nat)
    (rows : option (list (string * json))) (s : lock_state)
    : result string fact_identity * lock_state * list handle_event :=
  match open_handle uid env fd s with
  | (Err code, s', ev) => (Err code, s', ev)
  | (Ok h, s', ev) =>
      let r := read_identity h rows in
      let '(rc, _, s'', ev') := close_handle env h s' in
      (match rc with Err c => Err c | Ok _ => r end, s'', (ev ++ ev')%list)
  end.

(** [read_identity_under_exclusive]: no lock is taken, and the history id is
    required. *)
Definition read_identity_under_exclusive (uid : Z) (root db : option fnode)
    (rows : option (list (string * json))) : result string fact_identity :=
  match root with
  | None => Err "root_unavailable"
  | Some r =>
      if bool_decide (n_type r = FLnk) || negb (n_openable r) then Err "root_unavailable"
      else if unsafe_dir uid r then Err "root_unsafe"
      else
        match db with
        | None => Err "db_unavailable"
        | Some n =>
            if bool_decide (n_type n = FLnk) || negb (n_openable n) then Err "db_unavailable"
            else if unsafe_db uid n then Err "db_unsafe"
            else
              i ← identity_of rows;
              match fi_history i with Some _ => Ok i | None => Err "epoch_unverifiable" end
        end
  end.
End identity.

(** ** [run_maintenance] *)

(** The calls, each with whether it succeeded; [prepare] also fails when the
    daemon refuses. *)
Inductive maint_event :=
| EvPreflight (ok : bool) | EvConnect (ok : bool) | EvPrepare (ok : bool) | EvAssert (ok : bool)
| EvAcquire (ok : bool) | EvReplace (ok : bool) | EvRelease | EvReopen (ok : bool) | EvDisconnect.

(** The control client, the exclusive lease and the callbacks, over a state
    [S] of everything they change.  [prepare] and [reopen] answer with [ok] and
    the response; [assert_prepared] raises unless the lease is live.  [E]: what they
    may raise. *)
Class MaintenanceEnv (S R E : Type) := {
  me_preflight : S → result E unit * S;
  me_connect : S → result E unit * S;
  me_prepare : S → result E (bool * R) * S;
  me_assert_prepared : S → result E unit * S;
  me_acquire : S → result E unit * S;
  me_replacement : S → result E unit * S;
  me_release : S → S;
  me_reopen : S → result E R * S;
  me_disconnect : S → S }.

Definition succeeded {E A} (r : result E A) : bool := match r with Ok _ => true | Err _ => false end.

Section maintenance.
Context {S R E : Type} `{MaintenanceEnv S R E}.

(** Run one call and log its event, [k] continues when it did not raise. *)
Definition step_then {A B} (ev : bool → maint_event) (call : S → result E A * S)
    (k : A → S → result E B * S * list maint_event) (s : S)
    : result E B * S * list maint_event :=
  match call s with
  | (Err e, s') => (Err e, s', [ev false])
  | (Ok a, s') => let '(r, s'', l) := k a s' in (r, s'', ev true :: l)
  end.
Definition finish {B} (b : B) (s : S) : result E B * S * list maint_event := (Ok b, s, []).

(** The [try] body up to the acquisition, and behind it. *)
Definition leased_part (s : S) : result E unit * S * list maint_event :=
  step_then EvAssert me_assert_prepared (λ _,
    step_then EvReplace me_replacement (λ _,
      step_then EvAssert me_assert_prepared finish)) s.

(** The [finally] clause: release the lease if there is one, then reopen; an
    exception of [reopen] replaces the one in flight. *)
Definition reopen_after (leased : bool) (r : result E unit) (s : S)
    : result E R * S * list maint_event :=
  let '(s1, rel) := if leased then (me_release s, [EvRelease]) else (s, []) in
  let '(rr, s2) := me_reopen s1 in
  (match rr, r with
   | Err e, _ => Err e
   | Ok recovery, Ok _ => Ok recovery
   | Ok _, Err e => Err e
   end, s2, (rel ++ [EvReopen (succeeded rr)])%list).

Definition prepared_part (s : S) : result E R * S * list maint_event :=
  match me_assert_prepared s with
  | (Err e, s1) =>
      let '(r, s2, l) := reopen_after false (Err e) s1 in (r, s2, EvAssert false :: l)
  | (Ok _, s1) =>
      match me_acquire s1 with
      | (Err e, s2) =>
          let '(r, s3, l) := reopen_after false (Err e) s2 in
          (r, s3, EvAssert true :: EvAcquire false :: l)
      | (Ok _, s2) =>
          let '(r1, s3, l1) := leased_part s2 in
          let '(r, s4, l2) := reopen_after true r1 s3 in
          (r, s4, EvAssert true :: EvAcquire true :: l1 ++ l2)%list
      end
  end.

Definition controlled (s : S) : result E R * S * list maint_event :=
  match me_prepare s with
  | (Err e, s1) => (Err e, s1, [EvPrepare false])
  | (Ok (false, response), s1) => (Ok response, s1, [EvPrepare false])
  | (Ok (true, _), s1) =>
      let '(r, s2, l) := prepared_part s1 in (r, s2, EvPrepare true :: l)
  end.

Definition run_maintenance (s : S) : result E R * S * list maint_event :=
  step_then EvPreflight me_preflight (λ _,
    step_then EvConnect me_connect (λ _ s,
      let '(r, s', l) := controlled s in (r, me_disconnect s', (l ++ [EvDisconnect])%list))) s.
End maintenance.

(** The traces [run_maintenance] may leave, as an automaton over the events:
    nothing is touched before the preflight passed; a replacement runs only
    right after a live lease was asserted under the exclusive lock; whatever
    was prepared is reopened, after the lock is released; and the connection is
    closed last. *)
Inductive maint_phase :=
| MStart | MChecked | MConnected | MPrepared | MAsserted | MLeased | MLive | MReplaced | MUnleased
| MReopened | MEnd.

Definition maint_next (p : maint_phase) (e : maint_event) : option maint_phase :=
  match p, e with
  | MStart, EvPreflight true => Some MChecked
  | MStart, EvPreflight false => Some MEnd
  | MChecked, EvConnect true => Some MConnected
  | MChecked, EvConnect false => Some MEnd
  | MConnected, EvPrepare true => Some MPrepared
  | MConnected, EvPrepare false => Some MReopened
  | MPrepared, EvAssert true => Some MAsserted
  | MPrepared, EvAssert false => Some MUnleased
  | MAsserted, EvAcquire true => Some MLeased
  | MAsserted, EvAcquire false => Some MUnleased
  | MLeased, EvAssert true => Some MLive
  | MLeased, EvAssert false => Some MReplaced
  | MLive, EvReplace _ => Some MReplaced
  | MReplaced, EvAssert _ => Some MReplaced
  | MReplaced, EvRelease => Some MUnleased
  | MUnleased, EvReopen _ => Some MReopened
  | MReopened, EvDisconnect => Some MEnd
  | _, _ => None
  end.

Fixpoint maint_run (p : maint_phase) (l : list maint_event) : option maint_phase :=
  match l with
  | [] => Some p
  | e :: l => p' ← maint_next p e; maint_run p' l
  end.

(** ** Lemmas on the lock *)

Lemma flock_acquired ex nb fd s s' :
  flock ex nb fd s = Acquired s' →
  l_excl s = None ∧
  if ex then l_shared s = ∅ ∧ s' = with_table ∅ (Some fd) s
  else s' = with_table ({[fd]} ∪ l_shared s) None s.
Proof.
  unfold flock. intros Hf. destruct (bool_decide (l_excl s = None)) eqn:He; simpl in Hf.
  2:{ by destruct nb. }
  bool_to_prop. split; [done|]. destruct ex; simpl in Hf.
  - case_bool_decide as Hs; [|by destruct nb]. injection Hf as <-. by rewrite Hs.
  - by injection Hf as <-.
Qed.

(** Acquiring changes the table as [flock] does and otherwise at most the lock
    file; a refusal leaves the table alone. *)
Definition acquire_post (ex nb : bool) (fd : nat) (s : lock_state) (r : acquired) : Prop :=
  match r with
  | Acquired s' =>
      l_excl s = None ∧
      if ex then l_shared s = ∅ ∧ l_shared s' = ∅ ∧ l_excl s' = Some fd
      else l_shared s' = {[fd]} ∪ l_shared s ∧ l_excl s' = None
  | Refused code s' =>
      l_shared s' = l_shared s ∧ l_excl s' = l_excl s ∧
      code ≠ "quiesce_timeout" ∧
      (code = "maintenance_locked" → l_excl s ≠ None ∨ l_shared s ≠ ∅)
  | Blocks => nb = false
  end.

Lemma flock_table ex nb fd n s : acquire_post ex nb fd s (flock ex nb fd (with_lock_file n s)).
Proof.
  destruct (flock ex nb fd (with_lock_file n s)) as [s'|code s'|] eqn:Hf.
  - apply flock_acquired in Hf as [? Hf]. split; [done|].
    destruct ex; [destruct Hf as [? ->]|rewrite Hf]; done.
  - unfold flock in Hf. destruct (bool_decide (l_excl (with_lock_file n s) = None)) eqn:He; simpl in Hf.
    + destruct ex; simpl in Hf; [|done]. case_bool_decide as Hs; [done|]. destruct nb; [|done].
      injection Hf as <- <-. bool_to_prop. split_and!; [done..|]. by right.
    + destruct nb; [|done]. injection Hf as <- <-. bool_to_prop. split_and!; [done..|]. by left.
  - unfold flock in Hf. simpl. repeat case_match; done.
Qed.

Lemma acquire_table uid ex nb cr fresh fd s :
  acquire_post ex nb fd s (acquire uid ex nb cr fresh fd s).
Proof.
  unfold acquire.
  repeat match goal with
  | |- acquire_post _ _ _ _ (flock _ _ _ _) => apply flock_table
  | |- acquire_post _ _ _ _ (Refused _ _) => split_and!; done
  | |- acquire_post _ _ _ _ (let _ := _ in _) => cbv zeta
  | |- acquire_post _ _ _ _ (match ?x with _ => _ end) => destruct x
  end.
Qed.

(** ** Properties *)

(** Lock operations of any process through the description [fd]. *)
Inductive lock_step (uid : Z) (fd : nat) : relation lock_state :=
| ls_acquire ex nb cr fresh s s' : acquire uid ex nb cr fresh fd s = Acquired s' → lock_step uid fd s s'
| ls_refused ex nb cr fresh s code s' :
    acquire uid ex nb cr fresh fd s = Refused code s' → lock_step uid fd s s'
| ls_release s : lock_step uid fd s (release fd s).
Definition lock_free (s : lock_state) : Prop := l_shared s = ∅ ∧ l_excl s = None.

(** While the exclusive lease is held no fact handle is open and none can
    be opened, whatever the other processes do, until the holder releases it. *)
Theorem exclusive_lease_excludes_readers uid s s' fd :
  reachable lock_free (λ a b, ∃ f, lock_step uid f a b) s → l_excl s = Some fd →
  rtc (λ a b, ∃ f, f ≠ fd ∧ lock_step uid f a b) s s' →
  l_shared s' = ∅ ∧ l_excl s' = Some fd ∧
  ∀ env f, ∃ code s'' ev, open_handle uid env f s' = (Err code, s'', ev).
Proof.
  intros Hr Hx Hrun.
  assert (l_shared s = ∅) as Hs.
  { revert Hx. enough (l_excl s = None ∨ l_shared s = ∅) as [->|?] by done. revert s Hr Hrun.
    intros s Hr _. revert s Hr. apply reachable_invariant; [by intros s [_ ?]; left|].
    intros a b _ Ha [f Hst]. destruct Hst as [ex nb cr fresh a b E|ex nb cr fresh a code b E|a].
    - pose proof (acquire_table uid ex nb cr fresh f a) as Ht. rewrite E in Ht.
      destruct Ht as [_ Ht]. destruct ex; [destruct Ht as (_&?&_); by right|destruct Ht as [_ ?]; by left].
    - pose proof (acquire_table uid ex nb cr fresh f a) as Ht. rewrite E in Ht.
      destruct Ht as (Ht1&Ht2&_); by rewrite Ht1, Ht2.
    - simpl. destruct Ha as [Ha| ->]; [left; rewrite Ha; by case_bool_decide|right; set_solver]. }
  assert (l_shared s' = ∅ ∧ l_excl s' = Some fd) as [Hs' Hx'].
  { eapply (rtc_preserves _ (λ z, l_shared z = ∅ ∧ l_excl z = Some fd)); [|by split|exact Hrun].
    intros a b [Ha Hae] (f&Hne&Hst). destruct Hst as [ex nb cr fresh a b E|ex nb cr fresh a code b E|a].
    - pose proof (acquire_table uid ex nb cr fresh f a) as Ht. rewrite E in Ht. destruct Ht; congruence.
    - pose proof (acquire_table uid ex nb cr fresh f a) as Ht. rewrite E in Ht.
      destruct Ht as (Ht1&Ht2&_); by rewrite Ht1, Ht2.
    - simpl. rewrite Ha, Hae, bool_decide_eq_false_2 by congruence. split; [set_solver|done]. }
  split; [done|]. split; [done|]. intros env f. unfold open_handle.
  pose proof (acquire_table uid false true false (0, 0) f s') as Ht.
  destruct (acquire uid false true false (0, 0) f s') as [z|code z|]; [|by repeat eexists..].
  destruct Ht; congruence.
Qed.

(** Acquiring the exclusive lease ends as soon as the clock passes the
    deadline: with the lease held alone, with the code of a fault, or with
    [quiesce_timeout], which is reported only when the deadline has passed and
    every attempt found the lease taken. *)
Theorem acquire_exclusive_bounded uid seen now timeout fresh fd N :
  (∀ t, (N ≤ t)%nat → now 0%nat + timeout ≤ now t) →
  ∃ r, acquire_exclusive uid seen now timeout fresh fd (S N) = Some r ∧
    match r with
    | Ok (n, s) => l_excl s = Some fd ∧ l_shared s = ∅ ∧ l_excl (seen n) = None ∧ l_shared (seen n) = ∅
    | Err code =>
        code ≠ "maintenance_locked" ∧
        (code = "quiesce_timeout" → ∃ n t, now 0%nat + timeout ≤ now t ∧
           ∀ m, (m ≤ n)%nat → l_excl (seen m) ≠ None ∨ l_shared (seen m) ≠ ∅)
    end.
Proof.
  intros Hclock. unfold acquire_exclusive. set (deadline := now 0%nat + timeout) in *.
  assert (∀ fuel a t, (N < fuel + a)%nat → (a ≤ N)%nat → (a ≤ t)%nat →
    (∀ m, (m < a)%nat → l_excl (seen m) ≠ None ∨ l_shared (seen m) ≠ ∅) →
    ∃ r, acquire_loop uid seen now deadline fresh fd fuel a t = Some r ∧
      match r with
      | Ok (n, s) => l_excl s = Some fd ∧ l_shared s = ∅ ∧ l_excl (seen n) = None ∧ l_shared (seen n) = ∅
      | Err code =>
          code ≠ "maintenance_locked" ∧
          (code = "quiesce_timeout" → ∃ n t, deadline ≤ now t ∧
             ∀ m, (m ≤ n)%nat → l_excl (seen m) ≠ None ∨ l_shared (seen m) ≠ ∅)
      end) as Hloop.
  { intros fuel. induction fuel as [|fuel IH]; intros a t Hf Ha Hat Hpast; [lia|]. simpl.
    pose proof (acquire_table uid true true true fresh fd (seen a)) as Ht.
    destruct (acquire uid true true true fresh fd (seen a)) as [s|code s|]; simpl in Ht; [|destruct Ht as (_&_&Hq&Ht)|done].
    - eexists. split; [done|]. simpl. tauto.
    - destruct (String.eqb_spec code "maintenance_locked") as [->|Hne]; simpl.
      2:{ eexists. split; [done|]. simpl. split; [done|]. by intros ->. }
      assert (∀ m, (m < S a)%nat → l_excl (seen m) ≠ None ∨ l_shared (seen m) ≠ ∅) as Hpast'.
      { intros m Hm. destruct (decide (m = a)) as [->|]; [auto|]. apply Hpast. lia. }
      destruct (Z.leb_spec deadline (now t)) as [Hd|Hd].
      + eexists. split; [done|]. simpl. split; [done|]. intros _. exists a, t. split; [done|].
        intros m Hm. apply Hpast'. lia.
      + assert (t < N)%nat by (destruct (decide (N ≤ t)%nat) as [Hn|]; [specialize (Hclock t Hn); lia|lia]).
        apply IH; [lia|lia|lia|done]. }
  apply Hloop; [lia|lia|lia|intros m Hm; lia].
Qed.

(** The order a handle must keep: connect only under the lease, give the lease
    back only after the connection is closed, notify the registry last. *)
Definition handle_next (st : bool * bool) (e : handle_event) : option (bool * bool) :=
  match st, e with
  | (false, false), Leased _ => Some (true, false)
  | (true, false), Connected => Some (true, true)
  | (true, true), Disconnected => Some (true, false)
  | (true, false), Unleased _ => Some (false, false)
  | (false, false), Notified => Some (false, false)
  | _, _ => None
  end.
Fixpoint handle_run (st : bool * bool) (l : list handle_event) : option (bool * bool) :=
  match l with
  | [] => Some st
  | e :: l => st' ← handle_next st e; handle_run st' l
  end.

(** A fact handle holds its shared lease exactly as long as it is open: a
    failed [open] leaves no lease and no connection behind; an open handle has
    both; [close] ends both in the right order even when SQLite fails to close,
    and closing again does nothing. *)
Theorem handle_lease_covers_connection uid env fd s r s1 ev :
  open_handle uid env fd s = (r, s1, ev) → fd ∉ l_shared s → l_excl s ≠ Some fd →
  match r with
  | Err _ => l_shared s1 = l_shared s ∧ l_excl s1 = l_excl s ∧ handle_run (false, false) ev = Some (false, false)
  | Ok h =>
      lease_held h = true ∧ fh_connection h = true ∧ fh_closed h = false ∧
      l_shared s1 = {[fd]} ∪ l_shared s ∧ handle_run (false, false) ev = Some (true, true) ∧
      ∀ env', ∃ rc h2 s2 ev2, close_handle env' h s1 = (rc, h2, s2, ev2) ∧
        l_shared s2 = l_shared s ∧ lease_held h2 = false ∧ fh_closed h2 = true ∧
        handle_run (true, true) ev2 = Some (false, false) ∧
        (∀ env'', close_handle env'' h2 s2 = (Ok tt, h2, s2, [])) ∧
        (rc = Ok tt ↔ he_close env' = true)
  end.
Proof.
  intros Hopen Hfd Hex. unfold open_handle in Hopen.
  pose proof (acquire_table uid false true false (0, 0) fd s) as Ht.
  destruct (acquire uid false true false (0, 0) fd s) as [s'|code s'|]; simpl in Ht; [| |done].
  2:{ injection Hopen as <- <- <-. by destruct Ht as (-> & -> & _). }
  destruct Ht as (Hnone&Hsh&Hnone').
  assert ({[fd]} ∪ l_shared s ∖ {[fd]} = {[fd]} ∪ l_shared s) as Hadd
    by (apply set_eq; intros x; destruct (decide (x = fd)); set_solver).
  assert (l_shared s' ∖ {[fd]} = l_shared s) as Hback by (rewrite Hsh; set_solver).
  assert (l_shared (release fd s') = l_shared s) as Hr1 by done.
  assert (l_excl (release fd s') = l_excl s) as Hr2
    by (simpl; rewrite Hnone', Hnone; by rewrite bool_decide_eq_false_2).
  destruct (open_db uid env) as [[u|code] connected] eqn:Hdb.
  - assert (connected = true) as -> by (unfold open_db in Hdb; repeat case_match; by simplify_eq).
    injection Hopen as <- <- <-. split_and!; [done..|]. intros env'.
    do 4 eexists. split; [reflexivity|]. simpl. split_and!; [done..|]. by destruct (he_close env').
  - unfold close_handle in Hopen. destruct connected; injection Hopen as <- <- <-; by split_and!.
Qed.

Lemma maint_run_app p l l' : maint_run p (l ++ l') = maint_run p l ≫= λ q, maint_run q l'.
Proof. revert p. induction l as [|e l IH]; intros p; [done|]. simpl. destruct (maint_next p e); [apply IH|done]. Qed.

Definition full_trace : list maint_event :=
  [EvPreflight true; EvConnect true; EvPrepare true; EvAssert true; EvAcquire true; EvAssert true;
   EvReplace true; EvAssert true; EvRelease; EvReopen true; EvDisconnect].

Lemma leased_part_trace {S R E} `{MaintenanceEnv S R E} s r s' l :
  leased_part s = (r, s', l) →
  maint_run MLeased l = Some MReplaced ∧ (r = Ok tt → l = [EvAssert true; EvReplace true; EvAssert true]).
Proof.
  unfold leased_part, step_then, finish. intros Hw. repeat case_match; by simplify_eq/=.
Qed.

(** [run_maintenance] brackets the replacement, whatever its callees do:
    nothing happens before the preflight passed; the replacement runs at most
    once, right after the control lease was proven live under the exclusive
    lock; once the daemon accepted [prepare], the lock is released and then
    [reopen] is sent, on success and on every failure; the connection is closed
    last.  A result is reported only when the daemon refused or every step
    succeeded. *)
Theorem maintenance_brackets_replacement {S R E} `{MaintenanceEnv S R E} (s : S) :
  let '(r, _, l) := run_maintenance s in
  maint_run MStart l = Some MEnd ∧
  (succeeded r = true → l = full_trace ∨ l = [EvPreflight true; EvConnect true; EvPrepare false; EvDisconnect]).
Proof.
  unfold run_maintenance, step_then, controlled, prepared_part, reopen_after.
  destruct (me_preflight s) as [[u|e] s1]; [|done].
  destruct (me_connect s1) as [[u'|e] s2]; [|done].
  destruct (me_prepare s2) as [[[[] resp]|e] s3]; [| |done].
  2:{ split; [done|]. auto. }
  destruct (me_assert_prepared s3) as [[u2|e] s4].
  2:{ by destruct (me_reopen s4) as [[rec|e'] s5]. }
  destruct (me_acquire s4) as [[u3|e] s5].
  2:{ by destruct (me_reopen s5) as [[rec|e'] s6]. }
  destruct (leased_part s5) as [[r1 s6] l1] eqn:Hw. apply leased_part_trace in Hw as [Hl Hok].
  destruct (me_reopen (me_release s6)) as [rr s7]. split.
  - simpl. by rewrite !maint_run_app, Hl.
  - destruct rr as [rec|e]; [|done]. destruct r1 as [[]|e]; [|done]. intros _. left. by rewrite (Hok eq_refl).
Qed.

(** ** Runs *)

Definition demo_lock : lock_state :=
  LockState (Some (FNode FDir 501 ROOT_MODE true (1, 1))) (Some (FNode FReg 501 LOCK_MODE true (1, 2))) ∅ None.
Definition demo_env : handle_env := HandleEnv (Some (FNode FReg 501 384 true (1, 3))) true true true.
Definition demo_exclusive : lock_state := with_table ∅ (Some 7%nat) demo_lock.

Theorem exclusive_lease_excludes_readers_witness :
  ∃ code s'' ev, open_handle 501 demo_env 3 demo_exclusive = (Err code, s'', ev).
Proof.
  apply (exclusive_lease_excludes_readers 501 demo_exclusive demo_exclusive 7).
  - exists demo_lock. split; [split; reflexivity|]. apply rtc_once. exists 7%nat.
    apply (ls_acquire _ _ true true true (0, 0)). vm_compute. reflexivity.
  - reflexivity.
  - apply rtc_refl.
Defined.

(** The lock is taken for three attempts, the deadline is 100 readings away. *)
Definition demo_seen (n : nat) : lock_state := if (n <? 3)%nat then demo_exclusive else demo_lock.

Theorem acquire_exclusive_bounded_witness :
  (∃ r, acquire_exclusive 501 demo_seen Z.of_nat 100 (0, 0) 9 101 = Some r) ∧
  acquire_exclusive 501 demo_seen Z.of_nat 100 (0, 0) 9 101 = Some (Ok (3%nat, with_table ∅ (Some 9%nat) demo_lock)).
Proof.
  split; [|vm_compute; reflexivity].
  destruct (acquire_exclusive_bounded 501 demo_seen Z.of_nat 100 (0, 0) 9 100) as (r&Hr&_).
  - intros t Ht. lia.
  - exists r. exact Hr.
Defined.

Theorem handle_lease_covers_connection_witness :
  ∃ h s1 ev, open_handle 501 demo_env 5 demo_lock = (Ok h, s1, ev) ∧ lease_held h = true ∧
    handle_run (false, false) ev = Some (true, true).
Proof.
  do 3 eexists. split; [vm_compute; reflexivity|].
  pose proof (handle_lease_covers_connection 501 demo_env 5 demo_lock _ _ _ eq_refl) as H.
  destruct H as (Hl&_&_&_&Hev&_).
  - apply (bool_decide_eq_true_1 (_ ∉ _)). vm_compute. reflexivity.
  - discriminate.
  - split; [exact Hl|exact Hev].
Defined.
