(* ===== verification/RecordingGap.v ===== *)
(** * The recording gap: [read_recording_gap] of [src/daemon/maintenance.py]

    The plugin records lost events in a gap record, which it publishes under a
    lock and announces with an intent file; every recorder process holds a
    marker file.  The reader takes no part in this protocol but the shared lock,
    so each of its looks at the root may see another state: the model gives it
    a view per look, [obs t] for the [t]-th, and nothing relates the views.
    Each file is examined at one instant.  [_validate_gap] brings the older
    record formats to the current one. *)

From Stdlib Require Import String.
From stdpp Require Import base list strings gmap.
From S2P Require Import Prelude PyJson OpRecord OpStore.
Open Scope Z_scope.

(** ** Validation *)

Definition _GAP_FIELDS : list string :=
  ["gap_version"; "state"; "reason"; "store_epoch"; "dropped_batches"; "dropped_events";
   "dropped_retractions"; "dropped_bytes"; "updated_at_ms"].
Definition _PRESENT_GAP_REASONS : list string :=
  ["buffer_overflow_batches"; "buffer_overflow_bytes"; "recording_gap"; "shutdown_unpersisted";
   "store_write_failed"].
Definition _UNKNOWN_GAP_REASONS : list string := ["gap_persistence_failed"; "gap_update_in_progress"].
Definition drop_counters : list string :=
  ["dropped_batches"; "dropped_events"; "dropped_retractions"; "dropped_bytes"].

Definition gap_object := list (string * json).

(** [{**value, k: v}] *)
Fixpoint obj_set (k : string) (v : json) (m : gap_object) : gap_object :=
  match m with
  | [] => [(k, v)]
  | (k', v') :: m => if String.eqb k k' then (k, v) :: m else (k', v') :: obj_set k v m
  end.

(** [type(value.get(k)) is int and value.get(k) == n] *)
Definition is_version (n : Z) (m : gap_object) : bool :=
  match strict_int (obj_get_or_null "gap_version" m) with Some z => z =? n | None => false end.

Definition v2_legacy_required : list string := filter (λ k, k ≠ "store_epoch") _GAP_FIELDS.
Definition v1_required : list string := filter (λ k, k ≠ "state") v2_legacy_required.

(** The upgrade of the two legacy layouts. *)
Definition upgrade_gap (m : gap_object) : gap_object :=
  if same_key_set m v1_required && is_version 1 m
  then obj_set "store_epoch" (JStr "unknown") (obj_set "state" (JStr "present")
         (obj_set "gap_version" (JInt 2) m))
  else if same_key_set m v2_legacy_required && is_version 2 m
  then obj_set "store_epoch" (JStr "unknown") m
  else m.

Definition valid_epoch_name (s : string) : bool :=
  negb (String.eqb s "") && (String.length s <=? 64)%nat &&
  forallb (λ c, bool_decide (c ∈ SAFE_ID_CHARS)) (String.list_ascii_of_string s).

Definition counter_ok (m : gap_object) (k : string) : bool :=
  match strict_int (obj_get_or_null k m) with Some z => 0 <=? z | None => false end.
Definition counter_zero (m : gap_object) (k : string) : bool :=
  match strict_int (obj_get_or_null k m) with Some z => z =? 0 | None => false end.

(** The state of a record and its reason fit. *)
Definition gap_reason_ok (m : gap_object) (state reason : string) : bool :=
  if String.eqb state "none" then String.eqb reason "none" && forallb (counter_zero m) drop_counters
  else if String.eqb state "present" then bool_decide (reason ∈ _PRESENT_GAP_REASONS)
  else if String.eqb state "unknown" then bool_decide (reason ∈ _UNKNOWN_GAP_REASONS)
  else false.

(** The checks on a record in the current layout. *)
Definition gap_ok (m : gap_object) : bool :=
  same_key_set m _GAP_FIELDS && is_version 2 m &&
  match obj_get_or_null "state" m, obj_get_or_null "reason" m, obj_get_or_null "store_epoch" m with
  | JStr state, JStr reason, JStr epoch =>
      valid_epoch_name epoch && forallb (counter_ok m) (drop_counters ++ ["updated_at_ms"]) &&
      gap_reason_ok m state reason
  | _, _, _ => false
  end.

Definition validate_gap (v : json) : option gap_object :=
  match v with
  | JObj m => let m := upgrade_gap m in if gap_ok m then Some m else None
  | _ => None
  end.

(** ** What the reader sees *)

Inductive flock_answer := Granted | WouldBlock | FlockError.
#[export] Instance flock_answer_eq_dec : EqDecision flock_answer.
Proof. solve_decision. Defined.

(** A marker or the gap lock: the entry, what the non-blocking [flock] answers
    and what reading yields ([None]: an [OSError]). *)
Record locked_file := LockedFile { lf_node : fnode; lf_flock : flock_answer; lf_read : option string }.

(** [v_names]: [os.listdir], [None] if it raises. *)
Record gap_view := GapView {
  v_root : option fnode;
  v_names : option (list string);
  v_marker : string → option locked_file;
  v_lock : option locked_file;
  v_json : option (fnode * payload) }.

Definition GAP_INTENT_PREFIX : string := ".recording_gap_intent.".
Definition PROCESS_MARKER_PREFIX : string := ".recording_process.".
Definition newline : string := String (Ascii.ascii_of_nat 10) EmptyString.
Definition _GAP_LOCK_SAFE : string := "safe" +:+ newline.
Definition _GAP_LOCK_PRESENT : string := "present" +:+ newline.

Section reader.
Context (uid : Z).

Definition unreadable_node (n : fnode) : bool := bool_decide (n_type n = FLnk) || negb (n_openable n).
Definition unsafe_private (n : fnode) : bool :=
  bool_decide (n_type n ≠ FReg) || negb (n_uid n =? uid) || negb (n_mode n =? 384).

(** [_gap_intent_exists] *)
Definition gap_intent_exists (v : gap_view) : bool :=
  match v_names v with
  | Some names => existsb (String.prefix GAP_INTENT_PREFIX) names
  | None => true
  end.

(** One marker: [Some reason] ends the scan. *)
Definition marker_reason (o : option locked_file) : option string :=
  match o with
  | None => Some "recording_marker_unreadable"
  | Some f =>
      if unreadable_node (lf_node f) then Some "recording_marker_unreadable"
      else if unsafe_private (lf_node f) then Some "recording_marker_unsafe"
      else
        match lf_read f, lf_flock f with
        | None, _ | _, FlockError => Some "recording_marker_unreadable"
        | Some state, lock =>
            if negb (bool_decide (state ∈ ["clean" +:+ newline; "pending" +:+ newline; "unknown" +:+ newline]))
            then Some "recording_marker_invalid"
            else if bool_decide (lock = Granted) then Some "recorder_process_crashed"
            else if String.eqb state ("clean" +:+ newline) then None
            else Some "recording_gap_unpublished"
        end
  end.

(** The markers in [names], each seen at its own instant; the next free
    instant. *)
Fixpoint scan_markers (obs : nat → gap_view) (t : nat) (names : list string) : option string * nat :=
  match names with
  | [] => (None, t)
  | name :: names =>
      match marker_reason (v_marker (obs t) name) with
      | Some r => (Some r, S t)
      | None => scan_markers obs (S t) names
      end
  end.

(** [_recording_process_marker_status]: [None] is [(False, None)]. *)
Definition marker_status (obs : nat → gap_view) (t : nat) : option string * nat :=
  match v_names (obs t) with
  | None => (Some "recording_marker_unreadable", S t)
  | Some names => scan_markers obs (S t) (filter (λ n, String.prefix PROCESS_MARKER_PREFIX n = true) names)
  end.

(** [_open_gap_lock]: absent, unusable with a reason, or held with its state. *)
Inductive gap_lock := LockAbsent | LockRefused (reason : string) | LockHeld (state : string).

Definition open_gap_lock (v : gap_view) : gap_lock :=
  match v_lock v with
  | None => LockAbsent
  | Some f =>
      if unreadable_node (lf_node f) then LockRefused "gap_lock_unreadable"
      else if unsafe_private (lf_node f) then LockRefused "gap_lock_unsafe"
      else
        match lf_flock f, lf_read f with
        | WouldBlock, _ => LockRefused "gap_update_in_progress"
        | FlockError, _ | _, None => LockRefused "gap_lock_unreadable"
        | Granted, Some s =>
            if (32 <? String.length s)%nat then LockRefused "gap_lock_invalid" else LockHeld s
        end
  end.

(** [_read_gap_json] *)
Definition read_gap_json (v : gap_view) : result string json :=
  match v_json v with
  | None => Err "gap_missing"
  | Some (n, p) =>
      if unreadable_node n then Err "gap_unreadable"
      else if unsafe_private n then Err "gap_unsafe"
      else match p with Unreadable => Err "gap_invalid" | Parsed j => Ok j end
  end.

(** What [read_recording_gap] returns: unknown with a reason, no gap because
    nothing was ever recorded, or the record. *)
Inductive gap_report := GapUnknown (reason : string) | GapPristine | GapRecord (m : gap_object).

(** The dicts they stand for. *)
Definition report_object (r : gap_report) : gap_object :=
  match r with
  | GapUnknown reason => [("state", JStr "unknown"); ("reason", JStr reason)]
  | GapPristine =>
      [("state", JStr "none"); ("reason", JStr "none"); ("store_epoch", JNull); ("dropped_batches", JInt 0);
       ("dropped_events", JInt 0); ("dropped_retractions", JInt 0); ("dropped_bytes", JInt 0);
       ("updated_at_ms", JNull)]
  | GapRecord m => m
  end.

(** The decision on a validated record. *)
Definition gap_decision (marker : option string) (lock : gap_lock) (m : gap_object) : gap_report :=
  match obj_get_or_null "state" m with
  | JStr "none" =>
      match lock with
      | LockHeld s =>
          if String.eqb s _GAP_LOCK_SAFE
          then match marker with Some r => GapUnknown r | None => GapRecord m end
          else GapUnknown "gap_lock_unverifiable"
      | _ => GapUnknown "gap_lock_unverifiable"
      end
  | JStr "present" =>
      match lock with
      | LockHeld s =>
          if bool_decide (s ∈ [_GAP_LOCK_SAFE; _GAP_LOCK_PRESENT]) then GapRecord m
          else GapUnknown "gap_update_in_progress"
      | _ => GapRecord m
      end
  | _ => GapRecord m
  end.

(** From the first scan for intents, at instant [t]. *)
Definition read_gap_from (obs : nat → gap_view) (marker : option string) (t : nat) : gap_report :=
  if gap_intent_exists (obs t) then GapUnknown "gap_update_in_progress"
  else
    let lock := open_gap_lock (obs (1 + t)%nat) in
    match lock with
    | LockRefused reason => GapUnknown reason
    | _ =>
        if gap_intent_exists (obs (2 + t)%nat) then GapUnknown "gap_update_in_progress"
        else
          match read_gap_json (obs (3 + t)%nat) with
          | Err e =>
              if negb (String.eqb e "gap_missing") then GapUnknown e
              else
                match lock with
                | LockHeld _ => GapUnknown "gap_missing_after_initialization"
                | _ =>
                    if gap_intent_exists (obs (4 + t)%nat) then GapUnknown "gap_update_in_progress"
                    else match marker with Some r => GapUnknown r | None => GapPristine end
                end
          | Ok v =>
              match validate_gap v with
              | None => GapUnknown "gap_invalid"
              | Some m =>
                  if gap_intent_exists (obs (4 + t)%nat) then GapUnknown "gap_update_in_progress"
                  else gap_decision marker lock m
              end
          end
    end.

Definition read_recording_gap (obs : nat → gap_view) : gap_report :=
  match v_root (obs 0%nat) with
  | None => GapUnknown "root_unavailable"
  | Some root =>
      if unreadable_node root then GapUnknown "root_unavailable"
      else if bool_decide (n_type root ≠ FDir) || negb (n_uid root =? uid) || negb (n_mode root =? 448)
      then GapUnknown "root_unsafe"
      else
        let '(marker, t) := marker_status obs 1 in
        match marker with
        | Some r => if String.eqb r "recorder_process_crashed" then read_gap_from obs marker t else GapUnknown r
        | None => read_gap_from obs marker t
        end
  end.
End reader.

(** ** Lemmas *)

Lemma obj_get_set k v m k' : obj_get k' (obj_set k v m) = if String.eqb k' k then Some v else obj_get k' m.
Proof.
  induction m as [|[k0 v0] m IH]; simpl.
  - by destruct (String.eqb_spec k' k).
  - destruct (String.eqb_spec k k0) as [->|Hne]; simpl.
    + by destruct (String.eqb_spec k' k0).
    + rewrite IH. destruct (String.eqb_spec k' k0) as [->|]; [|done].
      by destruct (String.eqb_spec k0 k).
Qed.

Lemma same_key_set_keys m l : same_key_set m l = true ↔ ∀ k, k ∈ obj_keys m ↔ k ∈ l.
Proof.
  unfold same_key_set. rewrite andb_true_iff, !bool_decide_eq_true, !Forall_forall. naive_solver.
Qed.

(** A record in the current layout is not upgraded again. *)
Lemma upgrade_current m : same_key_set m _GAP_FIELDS = true → upgrade_gap m = m.
Proof.
  rewrite same_key_set_keys. intros Hk. unfold upgrade_gap.
  assert (∀ l k, k ∈ _GAP_FIELDS → k ∉ l → same_key_set m l = false) as Hne.
  { intros l k Hin Hout. apply not_true_iff_false. rewrite same_key_set_keys. intros Hl.
    apply Hout, Hl, Hk, Hin. }
  rewrite (Hne v1_required "state"), (Hne v2_legacy_required "store_epoch"); [done|..];
    apply (bool_decide_eq_true_1 _); reflexivity.
Qed.

Lemma upgrade_keeps m k :
  k ∈ drop_counters ++ ["reason"; "updated_at_ms"] → obj_get k (upgrade_gap m) = obj_get k m.
Proof.
  intros Hk. assert (String.eqb k "store_epoch" = false ∧ String.eqb k "state" = false ∧
    String.eqb k "gap_version" = false) as (H1&H2&H3).
  { repeat (apply elem_of_cons in Hk as [->|Hk]; [done|]). by apply elem_of_nil in Hk. }
  unfold upgrade_gap. repeat case_match; rewrite ?obj_get_set, ?H1, ?H2, ?H3; done.
Qed.

Lemma scan_markers_crashed uid obs t names r t' :
  scan_markers uid obs t names = (r, t') → (t ≤ t')%nat.
Proof.
  revert t. induction names as [|n names IH]; intros t; simpl; [by intros [= _ <-]|].
  case_match; [intros [= _ <-]; lia|]. intros Hs%IH. lia.
Qed.

Lemma read_gap_json_Ok uid v j :
  read_gap_json uid v = Ok j → ∃ n, v_json v = Some (n, Parsed j) ∧ unsafe_private uid n = false.
Proof.
  unfold read_gap_json. intros Hr. repeat case_match; simplify_eq. eauto.
Qed.

Lemma read_gap_json_missing uid v : read_gap_json uid v = Err "gap_missing" → v_json v = None.
Proof. unfold read_gap_json. intros Hr. by repeat case_match; simplify_eq. Qed.

Lemma open_gap_lock_absent uid v : open_gap_lock uid v = LockAbsent → v_lock v = None.
Proof. unfold open_gap_lock. intros Hr. by repeat case_match; simplify_eq. Qed.

Lemma gap_decision_record marker lock m :
  (∃ r, gap_decision marker lock m = GapUnknown r) ∨
  (gap_decision marker lock m = GapRecord m ∧
   (obj_get_or_null "state" m = JStr "none" → marker = None ∧ lock = LockHeld _GAP_LOCK_SAFE) ∧
   (obj_get_or_null "state" m = JStr "present" →
      ∀ s, lock = LockHeld s → s ∈ [_GAP_LOCK_SAFE; _GAP_LOCK_PRESENT])).
Proof.
  unfold gap_decision. repeat (case_match; bool_to_prop; subst; try (by left; eauto)); right;
    (split; [done|]); split; intros ?; simplify_eq; naive_solver.
Qed.

(** ** Properties *)

(** Validation brings every record it accepts to the current layout: the
    result is complete and well-typed, its reason fits its state, validating it
    again changes nothing, the counters, the reason and the time stamp are
    those of the input, and a record of the first version always counts as a
    gap that is present. *)
Theorem gap_validation_normalises v :
  match validate_gap v with
  | None => True
  | Some m =>
      ∃ m0, v = JObj m0 ∧ gap_ok m = true ∧ validate_gap (JObj m) = Some m ∧
        (∀ k, k ∈ drop_counters ++ ["reason"; "updated_at_ms"] → obj_get k m = obj_get k m0) ∧
        (is_version 2 m0 = false → obj_get "state" m = Some (JStr "present"))
  end.
Proof.
  destruct v as [| | | | | |m0]; try done. simpl. destruct (gap_ok (upgrade_gap m0)) eqn:Hok; [|done].
  exists m0. split_and!; [done|done| |by apply upgrade_keeps|].
  - assert (same_key_set (upgrade_gap m0) _GAP_FIELDS = true) as Hk
      by (unfold gap_ok in Hok; by bool_to_prop).
    by rewrite (upgrade_current (upgrade_gap m0) Hk), Hok.
  - intros Hv. unfold gap_ok in Hok. bool_to_prop. unfold upgrade_gap in *.
    destruct (same_key_set m0 v1_required && is_version 1 m0); [by rewrite !obj_get_set|].
    rewrite Hv, andb_false_r in *. congruence.
Qed.

(** C40: the reader never reports less than was lost: "no gap" and "gap present"
    are reported only when none of its scans saw an update in progress; "no
    gap" moreover only when no recorder crashed, and then either nothing was
    ever recorded or the record says so under a lock that is marked safe. *)
Theorem reported_gap_is_proven uid obs :
  match read_recording_gap uid obs with
  | GapUnknown _ => True
  | r =>
      ∃ marker t, marker_status uid obs 1 = (marker, t) ∧
        (marker = None ∨ marker = Some "recorder_process_crashed") ∧
        gap_intent_exists (obs t) = false ∧ gap_intent_exists (obs (2 + t)%nat) = false ∧
        gap_intent_exists (obs (4 + t)%nat) = false ∧
        match r with
        | GapRecord m =>
            ∃ n v, v_json (obs (3 + t)%nat) = Some (n, Parsed v) ∧ unsafe_private uid n = false ∧
              validate_gap v = Some m ∧
              (obj_get_or_null "state" m = JStr "none" →
                 marker = None ∧ open_gap_lock uid (obs (1 + t)%nat) = LockHeld _GAP_LOCK_SAFE) ∧
              (obj_get_or_null "state" m = JStr "present" →
                 open_gap_lock uid (obs (1 + t)%nat) ∈
                   [LockAbsent; LockHeld _GAP_LOCK_SAFE; LockHeld _GAP_LOCK_PRESENT])
        | _ => marker = None ∧ v_lock (obs (1 + t)%nat) = None ∧ v_json (obs (3 + t)%nat) = None
        end
  end.
Proof.
  unfold read_recording_gap. destruct (v_root (obs 0%nat)) as [root|]; [|done].
  destruct (unreadable_node root); [done|]. destruct (_ || _); [done|].
  destruct (marker_status uid obs 1) as [marker t] eqn:Hm.
  assert (match marker with
    | Some r => if String.eqb r "recorder_process_crashed" then read_gap_from uid obs marker t else GapUnknown r
    | None => read_gap_from uid obs marker t
    end = read_gap_from uid obs marker t ∧ (marker = None ∨ marker = Some "recorder_process_crashed") ∨
    ∃ r, match marker with
    | Some r => if String.eqb r "recorder_process_crashed" then read_gap_from uid obs marker t else GapUnknown r
    | None => read_gap_from uid obs marker t
    end = GapUnknown r) as [[-> Hmk]|[r ->]]; [|clear Hm|done].
  { destruct marker as [r|]; [|auto]. destruct (String.eqb_spec r "recorder_process_crashed") as [->|]; eauto. }
  unfold read_gap_from. destruct (gap_intent_exists (obs t)) eqn:Hi1; [done|].
  destruct (open_gap_lock uid (obs (1 + t)%nat)) as [|why|ls] eqn:Hl; [|done|].
  all: destruct (gap_intent_exists (obs (2 + t)%nat)) eqn:Hi2; [done|].
  all: destruct (read_gap_json uid (obs (3 + t)%nat)) as [v|e] eqn:Hj;
    [destruct (validate_gap v) as [m|] eqn:Hv; [|done]
    |destruct (String.eqb_spec e "gap_missing") as [->|]; cbn [negb]; try done].
  - destruct (gap_intent_exists (obs (4 + t)%nat)) eqn:Hi3; [done|].
    destruct (gap_decision_record marker LockAbsent m) as [[r ->]|(->&Hn&Hp)]; [done|].
    apply read_gap_json_Ok in Hj as (n&Hjson&Hpriv). exists marker, t. do 5 (split; [done|]).
    exists n, v. split_and!; [done..| |].
    + intros Hs. by destruct (Hn Hs).
    + intros _. rewrite Hl. by left.
  - destruct (gap_intent_exists (obs (4 + t)%nat)) eqn:Hi3; [done|].
    destruct marker as [r|]; [done|]. exists None, t. do 5 (split; [done|]).
    split_and!; [done|by eapply open_gap_lock_absent|by eapply read_gap_json_missing].
  - destruct (gap_intent_exists (obs (4 + t)%nat)) eqn:Hi3; [done|].
    destruct (gap_decision_record marker (LockHeld ls) m) as [[r ->]|(->&Hn&Hp)]; [done|].
    apply read_gap_json_Ok in Hj as (n&Hjson&Hpriv). exists marker, t. do 5 (split; [done|]).
    exists n, v. rewrite Hl. split_and!; [done..|].
    intros Hs. specialize (Hp Hs ls eq_refl).
    apply elem_of_cons in Hp as [->|Hp%list_elem_of_singleton]; [by right; left|subst; by right; right; left].
Qed.
