(* ===== verification/Facts.v ===== *)
(** * The fact store: [src/src/fact_store.cc] as its writer, and the readers of
    [src/daemon/delta.py] and [src/daemon/oracle.py]

    One SQLite database holds the commits, the selection events and the
    retractions of one store epoch, each stamped by a hybrid logical clock whose
    high-water mark is in the [meta] table.  The writer is modelled as the step
    relation its two transactions give, and the readers as functions of the
    database they see; what the state machines of the daemon assume of the facts
    is the invariant [wf_facts], which every sequence of writes preserves. *)

From Stdlib Require Import String.
From stdpp Require Import base list strings gmap pretty sorting.
From S2P Require Import Prelude PyJson.
Open Scope Z_scope.

(** ** Hybrid logical clocks *)

(** [(physical, logical)], compared as Python compares tuples. *)
Definition hlc : Type := Z * Z.
Definition hlc_leb (a b : hlc) : bool := (a.1 <? b.1) || ((a.1 =? b.1) && (a.2 <=? b.2)).
Definition hlc_ltb (a b : hlc) : bool := negb (hlc_leb b a).

(** The order of the fact store: clock first, then the id. *)
Definition stamp : Type := hlc * string.
Definition stamp_le (a b : stamp) : Prop :=
  hlc_ltb a.1 b.1 = true ∨ (a.1 = b.1 ∧ String.le a.2 b.2).
#[export] Instance stamp_le_dec : RelDecision stamp_le.
Proof. intros a b. unfold stamp_le. apply _. Defined.

Lemma hlc_leb_spec a b : hlc_leb a b = true ↔ a.1 < b.1 ∨ (a.1 = b.1 ∧ a.2 <= b.2).
Proof. unfold hlc_leb. rewrite orb_true_iff, andb_true_iff, Z.ltb_lt, Z.eqb_eq, Z.leb_le. done. Qed.

Lemma hlc_leb_spec_false a b : hlc_leb a b = false ↔ b.1 < a.1 ∨ (a.1 = b.1 ∧ b.2 < a.2).
Proof. rewrite <- not_true_iff_false, hlc_leb_spec. lia. Qed.

Lemma hlc_ltb_spec a b : hlc_ltb a b = true ↔ a.1 < b.1 ∨ (a.1 = b.1 ∧ a.2 < b.2).
Proof. unfold hlc_ltb. rewrite negb_true_iff, hlc_leb_spec_false. lia. Qed.

Lemma hlc_eq (a b : hlc) : a = b ↔ a.1 = b.1 ∧ a.2 = b.2.
Proof. destruct a, b. simpl. naive_solver. Qed.

(** Arithmetic on clocks. *)
Ltac hlc_solve :=
  repeat match goal with
  | H : hlc_leb _ _ = true |- _ => apply hlc_leb_spec in H
  | H : hlc_leb _ _ = false |- _ => apply hlc_leb_spec_false in H
  | H : hlc_ltb _ _ = true |- _ => apply hlc_ltb_spec in H
  | H : hlc_ltb _ _ = false |- _ => apply negb_false_iff, hlc_leb_spec in H
  | H : @eq hlc _ _ |- _ => apply hlc_eq in H
  | H : ¬ (@eq hlc _ _) |- _ => rewrite hlc_eq in H
  end;
  try apply hlc_leb_spec; try apply hlc_leb_spec_false; try apply hlc_ltb_spec; try apply hlc_eq; simpl in *; lia.

#[export] Instance stamp_le_trans : Transitive stamp_le.
Proof.
  intros a b c [H1|[H1 H2]] [H3|[H3 H4]]; [left; hlc_solve|left; by rewrite <- H3|left; by rewrite H1|].
  right. split; [congruence|]. by transitivity b.2.
Qed.
#[export] Instance stamp_le_antisymm : AntiSymm (=) stamp_le.
Proof.
  intros [a i] [b j] [H1|[H1 H2]] [H3|[H3 H4]]; simpl in *; try (exfalso; subst; hlc_solve).
  subst. f_equal. by apply (anti_symm String.le).
Qed.
#[export] Instance stamp_le_total : Total stamp_le.
Proof.
  intros [a i] [b j]. unfold stamp_le. simpl. destruct (hlc_ltb a b) eqn:E1; [by left; left|].
  destruct (hlc_ltb b a) eqn:E2; [by right; left|]. assert (a = b) as -> by hlc_solve.
  destruct (total String.le i j); [left|right]; right; done.
Qed.

(** Sorting by a stamp. *)
Section by_stamp.
Context {A : Type} (stamp_of : A → stamp).
Definition by_stamp (a b : A) : Prop := stamp_le (stamp_of a) (stamp_of b).
#[global] Instance by_stamp_dec : RelDecision by_stamp.
Proof. intros a b. unfold by_stamp. apply _. Defined.
#[global] Instance by_stamp_trans : Transitive by_stamp.
Proof. intros a b c. apply stamp_le_trans. Qed.
#[global] Instance by_stamp_total : Total by_stamp.
Proof. intros a b. apply stamp_le_total. Qed.

Definition sort_by : list A → list A := merge_sort by_stamp.

Lemma sort_by_elem l a : a ∈ sort_by l ↔ a ∈ l.
Proof. unfold sort_by. by rewrite merge_sort_Permutation. Qed.

(** Two lists of the same elements, with different stamps, sort alike. *)
Lemma sort_by_unique l1 l2 :
  NoDup (stamp_of <$> l1) → l1 ≡ₚ l2 → sort_by l1 = sort_by l2.
Proof.
  intros Hnd Hp. apply (Sorted_unique_strong by_stamp).
  - intros a b Ha Hb H1 H2. rewrite sort_by_elem in Ha, Hb. rewrite <- Hp in Hb.
    assert (stamp_of a = stamp_of b) as E by by apply (anti_symm stamp_le).
    apply list_elem_of_lookup in Ha as [i Hi]. apply list_elem_of_lookup in Hb as [j Hj].
    assert (i = j) as ->; [|congruence]. eapply NoDup_lookup; [done| |].
    + rewrite list_lookup_fmap, Hi. done.
    + rewrite list_lookup_fmap, Hj. simpl. by rewrite E.
  - apply (Sorted_merge_sort _).
  - apply (Sorted_merge_sort _).
  - unfold sort_by. by rewrite !merge_sort_Permutation.
Qed.
End by_stamp.

Lemma sort_by_ext {A} (st : A → stamp) l1 l2 :
  NoDup (st <$> l1) → NoDup (st <$> l2) → (∀ x, x ∈ l1 ↔ x ∈ l2) → sort_by st l1 = sort_by st l2.
Proof.
  intros H1 H2 Hx. apply sort_by_unique; [done|].
  apply NoDup_Permutation; [by eapply NoDup_fmap_1..|done].
Qed.

Lemma sort_by_nodup {A B} (st : A → stamp) (f : A → B) l : NoDup (f <$> l) → NoDup (f <$> sort_by st l).
Proof. unfold sort_by. by rewrite merge_sort_Permutation. Qed.

(** Sorting commutes with a function that keeps the stamps. *)
Lemma sort_by_fmap {A B} (f : A → B) (st : A → stamp) (st' : B → stamp) l :
  (∀ a, st' (f a) = st a) → NoDup (st <$> l) → f <$> sort_by st l = sort_by st' (f <$> l).
Proof.
  intros Hst Hnd. rewrite <- (sort_by_unique st' (f <$> sort_by st l) (f <$> l)).
  - symmetry. apply (Sorted_unique_strong (by_stamp st')).
    + intros a b Ha Hb Hab Hba. rewrite sort_by_elem in Ha.
      apply list_elem_of_fmap in Ha as (x&->&Hx). apply list_elem_of_fmap in Hb as (y&->&Hy).
      assert (st x = st y) as E by (rewrite <- !Hst; by apply (anti_symm stamp_le)).
      rewrite sort_by_elem in Hx, Hy.
      apply list_elem_of_lookup in Hx as [i Hi]. apply list_elem_of_lookup in Hy as [j Hj].
      assert (i = j) as ->; [|congruence].
      eapply NoDup_lookup; [done| |]; rewrite list_lookup_fmap; [by rewrite Hi|rewrite Hj; simpl; by rewrite E].
    + apply (Sorted_merge_sort _).
    + apply (Sorted_fmap _ (by_stamp st)).
      * intros a b. unfold by_stamp. by rewrite !Hst.
      * apply (Sorted_merge_sort _).
    + unfold sort_by. by rewrite merge_sort_Permutation.
  - rewrite <- list_fmap_compose.
    assert (st' ∘ f <$> sort_by st l = st <$> sort_by st l) as -> by (apply list_fmap_ext; intros; apply Hst).
    by apply sort_by_nodup.
  - unfold sort_by. by rewrite merge_sort_Permutation.
Qed.

(** ** The database *)

Record stored_event := StoredEvent {
  ev_id : string; ev_commit : string; ev_schema : string; ev_input : string;
  ev_category : string; ev_text : string; ev_hlc : hlc; ev_preceding : string }.
#[export] Instance stored_event_eq_dec : EqDecision stored_event.
Proof. solve_decision. Defined.

Definition ev_stamp (e : stored_event) : stamp := (ev_hlc e, ev_id e).
Definition set_ev_hlc (h : hlc) (c : string) (e : stored_event) : stored_event :=
  StoredEvent (ev_id e) c (ev_schema e) (ev_input e) (ev_category e) (ev_text e) h (ev_preceding e).

(** [f_retractions]: the retracted commit and the clock of its retraction.  The
    columns are declared [NOT NULL]; candidates are read by no code here. *)
Record facts_db := FactsDb {
  f_meta : list (string * json); f_commits : list string;
  f_events : list stored_event; f_retractions : list (string * hlc) }.

Definition retr_stamp (r : string * hlc) : stamp := (r.2, r.1).

(** What the two sides make of the text of a clock: [ParseInt64] and [int]. *)
Definition int64_max : Z := 2 ^ 63 - 1.
Class IntText := {
  int_text_py :: PyInt;
  parse_int64 : string → option Z;
  parse_int64_pretty z : 0 <= z <= int64_max → parse_int64 (pretty z) = Some z;
  py_int_pretty z : py_int (JStr (pretty z)) = Some z }.

Section store.
Context `{IntText}.

(** ** The writer *)

(** [GiveTick]; signed overflow of the logical component is excluded by
    [in_range] below. *)
Definition give_tick (now : Z) (c : hlc) : hlc := if c.1 <? now then (now, 0) else (c.1, c.2 + 1).

(** [ReadMetaText] and [ParseInt64] of the two clock rows. *)
Definition meta_text (key : string) (m : list (string * json)) : option Z :=
  match obj_get key m with Some (JStr s) => parse_int64 s | _ => None end.
Definition read_clock (db : facts_db) : option hlc :=
  match meta_text "hlc_physical_ms" (f_meta db), meta_text "hlc_logical" (f_meta db) with
  | Some p, Some l => if (p <? 0) || (l <? 0) then None else Some (p, l)
  | _, _ => None
  end.

(** [RecordMetaClock]: an [UPDATE] of the rows that exist. *)
Definition record_meta_clock (c : hlc) (m : list (string * json)) : list (string * json) :=
  (λ kv, if String.eqb kv.1 "hlc_physical_ms" then (kv.1, JStr (pretty c.1))
         else if String.eqb kv.1 "hlc_logical" then (kv.1, JStr (pretty c.2)) else kv) <$> m.

(** The loop of [PersistBatch]: each event comes with the wall clock its tick
    reads. *)
Fixpoint tick_events (commit : string) (c : hlc) (evs : list (Z * stored_event))
    : list stored_event * hlc :=
  match evs with
  | [] => ([], c)
  | (now, e) :: evs =>
      let c := give_tick now c in
      let '(l, c') := tick_events commit c evs in (set_ev_hlc c commit e :: l, c')
  end.

(** [PersistBatch]; [None]: it returned [false] and nothing was stored.  An
    insertion fails on a primary key that is taken. *)
Definition persist_batch (commit : string) (evs : list (Z * stored_event)) (db : facts_db)
    : option facts_db :=
  match evs, read_clock db with
  | _ :: _, Some c =>
      let '(l, c') := tick_events commit c evs in
      if bool_decide (commit ∈ f_commits db) then None
      else if negb (bool_decide (NoDup (ev_id <$> (f_events db ++ l)))) then None
      else Some (FactsDb (record_meta_clock c' (f_meta db)) (commit :: f_commits db)
                         (f_events db ++ l) (f_retractions db))
  | _, _ => None
  end.

(** [AppendRetraction]: retracting an unknown or retracted commit changes
    nothing. *)
Definition append_retraction (commit : string) (now : Z) (db : facts_db) : option facts_db :=
  match read_clock db with
  | None => None
  | Some c =>
      if negb (bool_decide (commit ∈ f_commits db)) || bool_decide (commit ∈ (f_retractions db).*1)
      then Some db
      else
        let c' := give_tick now c in
        Some (FactsDb (record_meta_clock c' (f_meta db)) (f_commits db) (f_events db)
                      (f_retractions db ++ [(commit, c')]))
  end.

(** The meta rows hold the clock [c]. *)
Definition clock_is (db : facts_db) (c : hlc) : Prop :=
  obj_get "hlc_physical_ms" (f_meta db) = Some (JStr (pretty c.1)) ∧
  obj_get "hlc_logical" (f_meta db) = Some (JStr (pretty c.2)) ∧
  0 <= c.1 <= int64_max ∧ 0 <= c.2 <= int64_max.
Definition in_range (db : facts_db) : Prop := ∃ c, clock_is db c.

(** One committed transaction. *)
Inductive facts_step : facts_db → facts_db → Prop :=
| step_persist commit evs db db' :
    persist_batch commit evs db = Some db' → in_range db' → facts_step db db'
| step_retract commit now db db' :
    append_retraction commit now db = Some db' → in_range db' → facts_step db db'.

(** A store as it is created. *)
Definition new_store (epoch : string) (now : Z) (rest : list (string * json)) : facts_db :=
  FactsDb (("store_epoch", JStr epoch) :: ("hlc_physical_ms", JStr (pretty now)) ::
           ("hlc_logical", JStr (pretty 0)) :: rest) [] [] [].
Definition facts_init (db : facts_db) : Prop :=
  ∃ epoch now rest, epoch ≠ "" ∧ 0 <= now <= int64_max ∧ db = new_store epoch now rest.

Definition store_epoch_of (db : facts_db) : string :=
  match obj_get "store_epoch" (f_meta db) with Some (JStr s) => s | _ => "" end.

(** ** Well-formed stores *)

(** Every change is stamped at most the clock and no two alike; a commit is
    retracted once and after all of its events; and the last change carries the
    clock, so that the clock never runs ahead of what readers can see. *)
Record wf_facts (db : facts_db) : Prop := {
  wf_epoch : obj_get "store_epoch" (f_meta db) = Some (JStr (store_epoch_of db)) ∧ store_epoch_of db ≠ "";
  wf_clock : ∃ c, clock_is db c ∧
                  (∀ e, e ∈ f_events db → hlc_leb (ev_hlc e) c = true) ∧
                  (∀ r, r ∈ f_retractions db → hlc_leb r.2 c = true) ∧
                  ((f_events db = [] ∧ f_retractions db = []) ∨
                   (∃ e, e ∈ f_events db ∧ ev_hlc e = c) ∨ (∃ r, r ∈ f_retractions db ∧ r.2 = c));
  wf_ids : NoDup (ev_id <$> f_events db);
  wf_retracted : NoDup (f_retractions db).*1;
  wf_commits : (∀ e, e ∈ f_events db → ev_commit e ∈ f_commits db) ∧
               (∀ r, r ∈ f_retractions db → r.1 ∈ f_commits db);
  wf_order : ∀ e r, e ∈ f_events db → r ∈ f_retractions db → ev_commit e = r.1 →
             hlc_ltb (ev_hlc e) r.2 = true }.
End store.

Section writer_lemmas.
Context `{IntText}.

Lemma obj_get_record_meta_clock c k m :
  obj_get k (record_meta_clock c m) =
  (λ v, if String.eqb k "hlc_physical_ms" then JStr (pretty c.1)
        else if String.eqb k "hlc_logical" then JStr (pretty c.2) else v) <$> obj_get k m.
Proof.
  induction m as [|[k' v] m IH]; [done|].
  change (record_meta_clock c ((k', v) :: m)) with
    ((if String.eqb k' "hlc_physical_ms" then (k', JStr (pretty c.1))
      else if String.eqb k' "hlc_logical" then (k', JStr (pretty c.2)) else (k', v)) :: record_meta_clock c m).
  simpl. destruct (String.eqb_spec k k') as [<-|Hne].
  - destruct (String.eqb k "hlc_physical_ms"); simpl; [by rewrite String.eqb_refl|].
    destruct (String.eqb k "hlc_logical"); simpl; by rewrite String.eqb_refl.
  - rewrite <- IH. apply String.eqb_neq in Hne.
    destruct (String.eqb k' "hlc_physical_ms"), (String.eqb k' "hlc_logical"); simpl; by rewrite Hne.
Qed.

Lemma clock_is_inj db c c' : clock_is db c → clock_is db c' → c = c'.
Proof.
  intros (H1&H2&_) (H3&H4&_). apply hlc_eq. split; [|]; apply (inj (pretty (A:=Z))); congruence.
Qed.

Lemma clock_is_read db c : clock_is db c → read_clock db = Some c.
Proof.
  intros (H1&H2&H3&H4). unfold read_clock, meta_text. rewrite H1, H2, !parse_int64_pretty by done.
  assert ((c.1 <? 0) || (c.2 <? 0) = false) as -> by (apply orb_false_iff; lia). by destruct c.
Qed.

Lemma give_tick_lt now c : 0 <= c.1 → 0 <= c.2 →
  hlc_ltb c (give_tick now c) = true ∧ 0 <= (give_tick now c).1 ∧ 0 <= (give_tick now c).2.
Proof.
  intros H1 H2. unfold give_tick. destruct (c.1 <? now) eqn:E; bool_to_prop; (split; [hlc_solve|simpl; lia]).
Qed.

Lemma tick_events_spec commit evs c l c' :
  0 <= c.1 → 0 <= c.2 → tick_events commit c evs = (l, c') →
  hlc_leb c c' = true ∧ (∀ e, e ∈ l → ev_commit e = commit ∧ hlc_ltb c (ev_hlc e) = true ∧ hlc_leb (ev_hlc e) c' = true) ∧
  (evs ≠ [] → ∃ e, e ∈ l ∧ ev_hlc e = c').
Proof.
  revert c l. induction evs as [|[now e] evs IH]; intros c l H1 H2; simpl.
  - intros [= <- <-]. split_and!; [hlc_solve| |done]. by intros e ?%elem_of_nil.
  - destruct (tick_events commit (give_tick now c) evs) as [l0 c0] eqn:E. intros [= <- <-].
    destruct (give_tick_lt now c H1 H2) as (Hlt&H1'&H2'). destruct (IH _ _ H1' H2' E) as (Hle&Hall&Hlast).
    split_and!.
    + hlc_solve.
    + intros e' [->|He']%elem_of_cons; [split_and!; [done|done|done]|].
      destruct (Hall e' He') as (?&?&?). split_and!; [done|hlc_solve|done].
    + intros _. destruct evs as [|x evs].
      * simpl in E. injection E as <- <-. eexists. split; [by left|done].
      * destruct Hlast as (e'&He'&Hc); [done|]. exists e'. split; [by right|done].
Qed.
End writer_lemmas.

(** ** What a transaction changes *)

Section growth.
Context `{IntText}.

(** The later store holds exactly the changes of the earlier one up to the
    clock of the earlier one. *)
Record facts_ext (db db' : facts_db) : Prop := {
  ext_epoch : store_epoch_of db' = store_epoch_of db;
  ext_clock : ∃ c c', clock_is db c ∧ clock_is db' c' ∧ hlc_leb c c' = true ∧
    (∀ e, e ∈ f_events db ↔ e ∈ f_events db' ∧ hlc_leb (ev_hlc e) c = true) ∧
    (∀ r, r ∈ f_retractions db ↔ r ∈ f_retractions db' ∧ hlc_leb r.2 c = true) }.

Lemma facts_ext_refl db : wf_facts db → facts_ext db db.
Proof.
  intros Hwf. split; [done|]. destruct (wf_clock _ Hwf) as (c&Hc&He&Hr&_). exists c, c.
  split_and!; [done|done|hlc_solve|naive_solver|naive_solver].
Qed.

Lemma facts_ext_trans a b c : facts_ext a b → facts_ext b c → facts_ext a c.
Proof.
  intros [He1 (c1&c2&H1&H2&H12&Hev1&Hr1)] [He2 (c2'&c3&H2'&H3&H23&Hev2&Hr2)].
  assert (c2' = c2) as -> by by eapply clock_is_inj. split; [congruence|].
  exists c1, c3. split_and!; [done|done|hlc_solve| |].
  - intros e. rewrite Hev1, Hev2. split; [naive_solver|]. intros [? ?]. split_and!; [done|hlc_solve|done].
  - intros r. rewrite Hr1, Hr2. split; [naive_solver|]. intros [? ?]. split_and!; [done|hlc_solve|done].
Qed.

Lemma clock_is_recorded db db' c' :
  in_range db → f_meta db' = record_meta_clock c' (f_meta db) → in_range db' → clock_is db' c'.
Proof.
  intros (c&Hc1&Hc2&_) Hm (c''&H1&H2&H3&H4). assert (c'' = c') as ->; [|done].
  rewrite Hm, obj_get_record_meta_clock, Hc1 in H1. rewrite Hm, obj_get_record_meta_clock, Hc2 in H2.
  injection H1 as H1. injection H2 as H2. apply hlc_eq. split; by apply (inj (pretty (A:=Z))).
Qed.

Lemma epoch_recorded c m : obj_get "store_epoch" (record_meta_clock c m) = obj_get "store_epoch" m.
Proof. rewrite obj_get_record_meta_clock. simpl. by destruct (obj_get _ _). Qed.

(** One transaction that adds the commits [cs], the events [l] and the
    retractions [rs]. *)
Lemma wf_grow db c c' cs l rs :
  let db' := FactsDb (record_meta_clock c' (f_meta db)) (cs ++ f_commits db) (f_events db ++ l)
                     (f_retractions db ++ rs) in
  wf_facts db → clock_is db c → clock_is db' c' → hlc_leb c c' = true →
  (∀ x, x ∈ cs → x ∉ f_commits db) →
  (∀ e, e ∈ l → hlc_ltb c (ev_hlc e) = true ∧ hlc_leb (ev_hlc e) c' = true ∧ ev_commit e ∈ cs) →
  (∀ r, r ∈ rs → hlc_ltb c r.2 = true ∧ hlc_leb r.2 c' = true ∧ r.1 ∈ f_commits db) →
  NoDup (ev_id <$> (f_events db ++ l)) → NoDup (f_retractions db ++ rs).*1 →
  (∃ e, e ∈ l ∧ ev_hlc e = c') ∨ (∃ r, r ∈ rs ∧ r.2 = c') →
  wf_facts db' ∧ facts_ext db db'.
Proof.
  intros db' [[Hep Hne] (c0&Hc0&Hev&Hre&_) Hids Hret [Hco1 Hco2] Hord] Hc Hc' Hle Hfresh Hl Hrs Hnd1 Hnd2 Hlast.
  assert (c0 = c) as -> by by eapply clock_is_inj.
  assert (store_epoch_of db' = store_epoch_of db) as Hepoch.
  { unfold store_epoch_of, db'. simpl. by rewrite epoch_recorded. }
  split; split; simpl.
  - by rewrite epoch_recorded, Hepoch.
  - exists c'. split_and!; [done| | |].
    + intros e [He|He]%elem_of_app; [specialize (Hev e He); hlc_solve|by apply Hl].
    + intros r [Hr|Hr]%elem_of_app; [specialize (Hre r Hr); hlc_solve|by apply Hrs].
    + right. destruct Hlast as [(e&?&?)|(r&?&?)]; [left; exists e|right; exists r]; (split; [|done]); apply elem_of_app; by right.
  - done.
  - done.
  - split.
    + intros e [He|He]%elem_of_app; apply elem_of_app; [right; by apply Hco1|left; by apply Hl].
    + intros r [Hr|Hr]%elem_of_app; apply elem_of_app; right; [by apply Hco2|by apply Hrs].
  - intros e r [He|He]%elem_of_app [Hr|Hr]%elem_of_app Heq.
    + by apply Hord.
    + specialize (Hev e He). destruct (Hrs r Hr) as (?&_). hlc_solve.
    + exfalso. apply (Hfresh (ev_commit e)); [by apply Hl|]. rewrite Heq. by apply Hco2.
    + exfalso. apply (Hfresh (ev_commit e)); [by apply Hl|]. rewrite Heq. by apply Hrs.
  - done.
  - exists c, c'. split_and!; [done|done|done| |].
    + intros e. rewrite elem_of_app. split; [naive_solver|]. intros [[He|He] Hh]; [done|].
      destruct (Hl e He) as (?&_). exfalso. hlc_solve.
    + intros r. rewrite elem_of_app. split; [naive_solver|]. intros [[Hr|Hr] Hh]; [done|].
      destruct (Hrs r Hr) as (?&_). exfalso. hlc_solve.
Qed.

Lemma facts_step_wf db db' : facts_step db db' → wf_facts db → wf_facts db' ∧ facts_ext db db'.
Proof.
  intros Hstep Hwf. destruct (wf_clock _ Hwf) as (c&Hc&_). pose proof (clock_is_read _ _ Hc) as Hread.
  assert (0 <= c.1 ∧ 0 <= c.2) as [Hp Hl] by (destruct Hc as (_&_&?&?); lia).
  destruct Hstep as [commit evs db db' Hrun Hin|commit now db db' Hrun Hin].
  - unfold persist_batch in Hrun. rewrite Hread in Hrun. destruct evs as [|e0 evs']; [done|].
    destruct (tick_events commit c (e0 :: evs')) as [l c'] eqn:Ht.
    case_bool_decide as Hfresh; [done|]. case_bool_decide as Hnd; [|done]. injection Hrun as <-.
    destruct (tick_events_spec _ _ _ _ _ Hp Hl Ht) as (Hle&Hall&Hlast).
    apply (wf_grow db c c' [commit] l []) in Hwf; rewrite ?app_nil_r in *; try done.
    + eapply clock_is_recorded; [by exists c| |done]. done.
    + by intros x ->%list_elem_of_singleton.
    + intros e He. destruct (Hall e He) as (?&?&?). split_and!; [done|done|]. by apply list_elem_of_singleton.
    + by intros r ?%elem_of_nil.
    + apply Hwf.
    + left. by apply Hlast.
  - unfold append_retraction in Hrun. rewrite Hread in Hrun.
    destruct (_ || _) eqn:Hret; [injection Hrun as <-; split; [done|by apply facts_ext_refl]|].
    bool_to_prop. injection Hrun as <-. destruct (give_tick_lt now c Hp Hl) as (Hlt&_&_).
    apply (wf_grow db c (give_tick now c) [] [] [(commit, give_tick now c)]) in Hwf; rewrite ?app_nil_r in *; try done.
    + eapply clock_is_recorded; [by exists c| |done]. done.
    + hlc_solve.
    + by intros x ?%elem_of_nil.
    + by intros e ?%elem_of_nil.
    + intros r ->%list_elem_of_singleton. split_and!; [done|hlc_solve|done].
    + apply Hwf.
    + rewrite fmap_app. simpl. apply NoDup_app. split_and!; [apply Hwf| |apply NoDup_singleton].
      by intros x Hx ->%list_elem_of_singleton.
    + right. eexists. split; [by apply list_elem_of_singleton|done].
Qed.

Lemma facts_steps db db' : rtc facts_step db db' → wf_facts db → wf_facts db' ∧ facts_ext db db'.
Proof.
  induction 1 as [db|db db1 db2 Hs _ IH]; intros Hwf; [split; [done|by apply facts_ext_refl]|].
  destruct (facts_step_wf _ _ Hs Hwf) as [Hwf1 Hext]. destruct (IH Hwf1) as [? ?]. split; [done|].
  by eapply facts_ext_trans.
Qed.

Lemma facts_init_wf db : facts_init db → wf_facts db.
Proof.
  intros (epoch&now&rest&Hne&Hnow&->). split; simpl.
  - done.
  - exists (now, 0). split_and!; try (by intros ? ?%elem_of_nil); [|by left].
    split_and!; simpl; try done; unfold int64_max in *; simpl; lia.
  - constructor.
  - constructor.
  - split; by intros ? ?%elem_of_nil.
  - by intros ? ? ?%elem_of_nil.
Qed.
End growth.

(** ** The readers *)

(** What opening the store for one read finds: no file, a failing open or query,
    or a database.  A read transaction sees one state of it. *)
Inductive facts_view := NoStore | StoreFault | Store (db : facts_db).

(** [DeltaError], and its subclasses [DeltaRejected] and [DeltaBlocked] with the
    events it names. *)
Inductive delta_exn := EDelta | ERejected | EBlocked (events : list string) (phase : string).

Section readers.
Context `{IntText}.

(** The identity in the [meta] rows, a column of texts. *)
Definition meta_identity (db : facts_db) : result delta_exn (string * hlc) :=
  match @meta_int int_text_py "hlc_physical_ms" (f_meta db), @meta_int int_text_py "hlc_logical" (f_meta db) with
  | Some p, Some l =>
      match obj_get "store_epoch" (f_meta db) with
      | Some (JStr epoch) =>
          if String.eqb epoch "" || (p <? 0) || (l <? 0) then Err EDelta else Ok (epoch, (p, l))
      | _ => Err EDelta
      end
  | _, _ => Err EDelta
  end.

Definition open_facts (v : facts_view) : result delta_exn facts_db :=
  match v with Store db => Ok db | _ => Err EDelta end.

Definition read_facts_identity (v : facts_view) : result delta_exn (option (string * hlc)) :=
  match v with
  | NoStore => Ok None
  | _ => db ← open_facts v; i ← meta_identity db; Ok (Some i)
  end.

Definition read_facts_schema_version (v : facts_view) : result delta_exn (option string) :=
  match v with
  | NoStore => Ok None
  | _ =>
      db ← open_facts v;
      match obj_get "fact_schema_version" (f_meta db) with
      | Some (JStr s) => if String.eqb s "" then Err EDelta else Ok (Some s)
      | _ => Err EDelta
      end
  end.

Definition in_window (lower upper : hlc) (h : hlc) : bool := hlc_ltb lower h && hlc_leb h upper.

(** [_read_fact_changes]: the changes in [(lower, upper]], in fact order; the
    identity is read again at the end of the transaction. *)
Definition read_fact_changes (v : facts_view) (lower : hlc) (upper : option hlc)
    : result delta_exn (list stored_event * list (string * hlc)) :=
  db ← open_facts v;
  i ← meta_identity db;
  let '(epoch, clock) := i in
  let upper := default clock upper in
  _ ← guard_err (negb (hlc_leb upper clock)) EDelta;
  let events := sort_by ev_stamp (filter (λ e, in_window lower upper (ev_hlc e) = true) (f_events db)) in
  let retractions := sort_by retr_stamp (filter (λ r, in_window lower upper r.2 = true) (f_retractions db)) in
  after ← meta_identity db;
  _ ← guard_err (negb (bool_decide (after = (epoch, clock)))) EDelta;
  Ok (events, retractions).

(** [_read_base_commit_ids] *)
Definition read_base_commit_ids (v : facts_view) (upper : hlc) : result delta_exn (gmap string string) :=
  db ← open_facts v;
  Ok (list_to_map ((λ e, (ev_id e, ev_commit e)) <$> filter (λ e, hlc_leb (ev_hlc e) upper = true) (f_events db))).

(** [FactReader.read_active_events]: no retraction of the commit at or before
    the query point. *)
Definition active_at (db : facts_db) (as_of : hlc) (e : stored_event) : Prop :=
  hlc_leb (ev_hlc e) as_of = true ∧
  Forall (λ r : string * hlc, ¬ (r.1 = ev_commit e ∧ hlc_leb r.2 as_of = true)) (f_retractions db).
#[global] Instance active_at_dec db as_of e : Decision (active_at db as_of e).
Proof. unfold active_at. apply _. Defined.

Definition read_active_events (db : facts_db) (as_of : hlc) : list stored_event :=
  sort_by ev_stamp (filter (active_at db as_of) (f_events db)).

(** [_facts_active_event_ids] *)
Definition facts_active_event_ids (v : facts_view) (as_of : hlc) : result delta_exn (gset string) :=
  db ← open_facts v;
  Ok (list_to_set (ev_id <$> read_active_events db as_of)).

(** [_validate_event]; the types of the columns are those of the model. *)
Definition validate_event (e : stored_event) : option string :=
  if String.eqb (ev_id e) "" then Some "empty event_id"
  else
    match List.find (λ kv : string * string, String.eqb kv.2 "")
            [("commit_id", ev_commit e); ("schema_id", ev_schema e); ("canonical_segment_input", ev_input e);
             ("category", ev_category e); ("final_selection_text", ev_text e)] with
    | Some (label, _) => Some ("empty or non-string " +:+ label)
    | None => if (0 <=? (ev_hlc e).1) && (0 <=? (ev_hlc e).2) then None else Some "invalid HLC"
    end.
End readers.

Section reader_lemmas.
Context `{IntText}.

Lemma meta_identity_clock db c :
  wf_facts db → clock_is db c → meta_identity db = Ok (store_epoch_of db, c).
Proof.
  intros Hwf (H1&H2&H3&H4). destruct (wf_epoch _ Hwf) as [He Hne].
  unfold meta_identity, meta_int. rewrite H1, H2. simpl. rewrite !py_int_pretty, He.
  apply String.eqb_neq in Hne. rewrite Hne. simpl.
  assert ((c.1 <? 0) || (c.2 <? 0) = false) as -> by (apply orb_false_iff; lia). by destruct c.
Qed.

Lemma read_identity_wf db c :
  wf_facts db → clock_is db c → read_facts_identity (Store db) = Ok (Some (store_epoch_of db, c)).
Proof. intros Hwf Hc. simpl. by rewrite (meta_identity_clock _ _ Hwf Hc). Qed.

Lemma active_at_spec db w e :
  active_at db w e ↔ hlc_leb (ev_hlc e) w = true ∧
    ∀ r, r ∈ f_retractions db → r.1 = ev_commit e → hlc_leb r.2 w = false.
Proof.
  unfold active_at. rewrite Forall_forall. split; intros [? Hr]; (split; [done|]).
  - intros r Hin Heq. apply not_true_is_false. intros Hle. by apply (Hr r).
  - intros r Hin [Heq Hle]. specialize (Hr r Hin Heq). congruence.
Qed.

(** The events active at a point are the same in every later store. *)
Lemma facts_ext_active db db' c w e :
  facts_ext db db' → clock_is db c → hlc_leb w c = true →
  (e ∈ f_events db ∧ active_at db w e) ↔ (e ∈ f_events db' ∧ active_at db' w e).
Proof.
  intros [_ (c0&c'&Hc&_&_&Hev&Hre)] Hc' Hw. assert (c0 = c) as -> by by eapply clock_is_inj.
  rewrite !active_at_spec, Hev. setoid_rewrite Hre. split.
  - intros [[? ?] [? Hr]]. split_and!; [done|done|]. intros r Hin Heq.
    destruct (hlc_leb r.2 w) eqn:E; [|done]. rewrite <- E. apply Hr; [|done]. split; [done|hlc_solve].
  - intros [? [? Hr]]. split_and!; [done|hlc_solve|done|]. intros r [Hin _] Heq. by apply Hr.
Qed.
End reader_lemmas.

(** ** Events by their ids *)

Section ids.
Context `{IntText}.

Lemma wf_id_inj db e e' :
  wf_facts db → e ∈ f_events db → e' ∈ f_events db → ev_id e = ev_id e' → e = e'.
Proof.
  intros Hwf [i Hi]%list_elem_of_lookup [j Hj]%list_elem_of_lookup Heq.
  assert (i = j) as ->; [|congruence].
  eapply (NoDup_lookup _ _ _ (ev_id e) (wf_ids _ Hwf)); rewrite list_lookup_fmap.
  - by rewrite Hi.
  - rewrite Hj. simpl. by rewrite Heq.
Qed.

Lemma nodup_ids_stamps l : NoDup (ev_id <$> l) → NoDup (ev_stamp <$> l).
Proof.
  intros Hnd. apply (NoDup_fmap_1 snd). by rewrite <- list_fmap_compose.
Qed.

Lemma nodup_ids_filter (Q : stored_event → Prop) `{∀ e, Decision (Q e)} l :
  NoDup (ev_id <$> l) → NoDup (ev_id <$> filter Q l).
Proof.
  induction l as [|e l IH]; [done|]. rewrite filter_cons, fmap_cons, NoDup_cons, list_elem_of_fmap. intros [Hn Hnd].
  case_decide; [|by apply IH]. rewrite fmap_cons, NoDup_cons. split; [|by apply IH].
  intros (e'&Heq&[_ He']%list_elem_of_filter)%list_elem_of_fmap. apply Hn. eauto.
Qed.

Lemma wf_ids_filter db (Q : stored_event → Prop) `{∀ e, Decision (Q e)} :
  wf_facts db → NoDup (ev_id <$> filter Q (f_events db)).
Proof. intros Hwf. by apply nodup_ids_filter, wf_ids. Qed.

Lemma read_active_elem db w e : e ∈ read_active_events db w ↔ e ∈ f_events db ∧ active_at db w e.
Proof. unfold read_active_events. rewrite sort_by_elem, list_elem_of_filter. tauto. Qed.

Lemma read_active_nodup db w : wf_facts db → NoDup (ev_id <$> read_active_events db w).
Proof. intros Hwf. by apply sort_by_nodup, wf_ids_filter. Qed.

(** The same projection in every later store. *)
Lemma facts_ext_read_active db db' c w :
  wf_facts db → wf_facts db' → facts_ext db db' → clock_is db c → hlc_leb w c = true →
  read_active_events db' w = read_active_events db w.
Proof.
  intros H1 H2 Hext Hc Hw. apply sort_by_ext.
  - by apply nodup_ids_stamps, wf_ids_filter.
  - by apply nodup_ids_stamps, wf_ids_filter.
  - intros e. rewrite !list_elem_of_filter. pose proof (facts_ext_active _ _ _ _ e Hext Hc Hw). tauto.
Qed.

Lemma wf_retr_filter db (Q : string * hlc → Prop) `{∀ r, Decision (Q r)} :
  wf_facts db → NoDup ((filter Q (f_retractions db)).*1).
Proof.
  intros Hwf. pose proof (wf_retracted _ Hwf) as Hnd. induction (f_retractions db) as [|r l IH]; [done|].
  rewrite fmap_cons, NoDup_cons in Hnd. destruct Hnd as [Hn Hnd]. rewrite filter_cons. case_decide; [|by apply IH].
  rewrite fmap_cons, NoDup_cons. split; [|by apply IH]. intros (r'&Heq&[_ Hr]%list_elem_of_filter)%list_elem_of_fmap.
  apply Hn. rewrite Heq. by apply list_elem_of_fmap_2.
Qed.

Lemma wf_retr_stamps db (Q : string * hlc → Prop) `{∀ r, Decision (Q r)} :
  wf_facts db → NoDup (retr_stamp <$> filter Q (f_retractions db)).
Proof. intros Hwf. apply (NoDup_fmap_1 snd). rewrite <- list_fmap_compose. by apply (wf_retr_filter db Q). Qed.

Lemma wf_retraction_inj db r r' :
  wf_facts db → r ∈ f_retractions db → r' ∈ f_retractions db → r.1 = r'.1 → r = r'.
Proof.
  intros Hwf [i Hi]%list_elem_of_lookup [j Hj]%list_elem_of_lookup Heq. assert (i = j) as ->; [|congruence].
  eapply (NoDup_lookup _ _ _ r.1 (wf_retracted _ Hwf)); rewrite list_lookup_fmap; [by rewrite Hi|].
  rewrite Hj. simpl. by rewrite Heq.
Qed.
End ids.
