(* ===== verification/TextMatch.v ===== *)
(** * Text matching of the oracle: [src/daemon/oracle.py]

    Candidates and segment inputs are compared after Unicode normalization, the
    first also after a conversion to simplified characters that takes the longest
    phrase of a dictionary at each position.  This file holds the loader of the
    dictionary lines, the conversion, and the key of a choice problem; the theorem
    is that the bucketed, sorted search finds the longest match. *)

From Stdlib Require Import Ascii String.
From stdpp Require Import base list strings gmap sorting.
From S2P Require Import Prelude PyJson.
Open Scope Z_scope.

(** [unicodedata.normalize("NFC", s)] *)
Class Unicode := { nfc : string → string }.

(** ** Characters *)

(** Strings hold UTF-8; a byte [10xxxxxx] continues a character. *)
Definition is_continuation (c : ascii) : bool :=
  match c with Ascii _ _ _ _ _ _ b6 b7 => b7 && negb b6 end.

(** The characters of a text, each as its bytes. *)
Fixpoint chars (s : string) : list string :=
  match s with
  | EmptyString => []
  | String c s' =>
      let rest := chars s' in
      match s', rest with
      | String d _, w :: ws => if is_continuation d then String c w :: ws else String c "" :: rest
      | _, _ => String c "" :: rest
      end
  end.

(** ["".join(l)] *)
Definition concat_str (l : list string) : string := foldr append "" l.

(** ** The dictionaries *)

Inductive dict_error := MalformedLine | NotOneChar | NotMultiChar.

(** [line.partition("\t")] with a separator. *)
Definition tab : ascii := ascii_of_nat 9.
Fixpoint partition (c : ascii) (s : string) : option (string * string) :=
  match s with
  | EmptyString => None
  | String d s =>
      if Ascii.eqb c d then Some (EmptyString, s)
      else (λ kv, (String d kv.1, kv.2)) <$> partition c s
  end.

(** [values.split(" ")[0]] *)
Definition first_word (s : string) : string := default s (fst <$> partition " "%char s).

(** The key and the first alternative of a line. *)
Definition parse_line (line : string) : result dict_error (string * string) :=
  match partition tab line with
  | Some (k, v) => if String.eqb k "" || String.eqb v "" then Err MalformedLine else Ok (k, first_word v)
  | None => Err MalformedLine
  end.

(** Both tables: phrases, by their first character, as lists of characters. *)
Record t2s := T2s { phrase_by_first : gmap string (list (list string * string)); char_map : gmap string string }.

(** [setdefault(key[0], []).append((key, first))] *)
Definition add_phrase (key : list string) (value : string) (m : gmap string (list (list string * string)))
    : gmap string (list (list string * string)) :=
  match key with
  | [] => m
  | c :: _ => <[c := default [] (m !! c) ++ [(key, value)]]> m
  end.

Fixpoint load_phrases (lines : list string) (m : gmap string (list (list string * string)))
    : result dict_error (gmap string (list (list string * string))) :=
  match lines with
  | [] => Ok m
  | line :: lines =>
      if String.eqb line "" then load_phrases lines m
      else
        kv ← parse_line line;
        let key := chars kv.1 in
        if (length key <? 2)%nat then Err NotMultiChar else load_phrases lines (add_phrase key kv.2 m)
  end.

Fixpoint load_chars (lines : list string) (m : gmap string string) : result dict_error (gmap string string) :=
  match lines with
  | [] => Ok m
  | line :: lines =>
      if String.eqb line "" then load_chars lines m
      else
        kv ← parse_line line;
        if (length (chars kv.1) =? 1)%nat then load_chars lines (<[kv.1 := kv.2]> m) else Err NotOneChar
  end.

(** [bucket.sort(key=len, reverse=True)]: stable, the longest first. *)
Fixpoint insert_longest (x : list string * string) (l : list (list string * string)) : list (list string * string) :=
  match l with
  | [] => [x]
  | y :: l => if (length y.1 <? length x.1)%nat then x :: y :: l else y :: insert_longest x l
  end.
Definition sort_longest (l : list (list string * string)) : list (list string * string) :=
  foldl (λ acc x, insert_longest x acc) [] l.

(** [_load_t2s] of the lines of [TSPhrases.txt] and [TSCharacters.txt]. *)
Definition load_t2s (phrase_lines char_lines : list string) : result dict_error t2s :=
  p ← load_phrases phrase_lines ∅;
  c ← load_chars char_lines ∅;
  Ok (T2s (sort_longest <$> p) c).

(** ** Conversion *)

(** [text.startswith(phrase, position)] *)
Fixpoint starts_with (phrase text : list string) : bool :=
  match phrase, text with
  | [], _ => true
  | p :: phrase, c :: text => String.eqb p c && starts_with phrase text
  | _ :: _, [] => false
  end.

(** The loop of [simplify] at one position; [skip]: characters that the last
    phrase still covers.  Phrases have two characters or more. *)
Fixpoint simplify_from (d : t2s) (skip : nat) (text : list string) : string :=
  match text with
  | [] => ""
  | c :: rest =>
      match skip with
      | S k => simplify_from d k rest
      | O =>
          match List.find (λ pv, starts_with pv.1 text) (default [] (phrase_by_first d !! c)) with
          | Some (phrase, converted) => converted +:+ simplify_from d (pred (length phrase)) rest
          | None => default c (char_map d !! c) +:+ simplify_from d 0 rest
          end
      end
  end.
Definition simplify (d : t2s) (text : string) : string := simplify_from d 0 (chars text).

(** [canonicalize_segment_input]: ASCII letters to lower case, then NFC. *)
Definition lower_ascii (c : ascii) : ascii :=
  let n := nat_of_ascii c in if (65 <=? n)%nat && (n <=? 90)%nat then ascii_of_nat (n + 32) else c.
Fixpoint lowered (s : string) : string :=
  match s with EmptyString => EmptyString | String c s => String (lower_ascii c) (lowered s) end.
Definition canonicalize_segment_input `{Unicode} (s : string) : string :=
  if String.eqb s "" then s else nfc (lowered s).

(** [match_text] *)
Definition match_text `{Unicode} (d : t2s) (s : string) : string := simplify d (nfc s).

(** [choice_problem_key] *)
Definition choice_problem_key `{Unicode} (schema category input : string) : string * string * string :=
  (schema, category, canonicalize_segment_input input).

(** ** The conversion takes the longest phrase everywhere *)

(** The phrases and the table the lines define: of two lines with the same key,
    the first phrase and the last character count. *)
Definition phrase_entries (lines : list string) : list (list string * string) :=
  omap (λ line, if String.eqb line "" then None
                else match parse_line line with Ok (k, v) => Some (chars k, v) | Err _ => None end) lines.

(** The first entry of a phrase. *)
Definition entry_of (phrase : list string) (l : list (list string * string)) : option (list string * string) :=
  head (filter (λ e, e.1 = phrase) l).

(** [out] converts [text] by the longest phrase at each position, and by single
    characters where none starts. *)
Inductive converts (phrases : list (list string * string)) (table : gmap string string) : list string → string → Prop :=
| converts_nil : converts phrases table [] ""
| converts_phrase phrase value text out :
    entry_of phrase phrases = Some (phrase, value) →
    (∀ longer w, (longer, w) ∈ phrases → longer `prefix_of` (phrase ++ text) → (length longer <= length phrase)%nat) →
    converts phrases table text out → converts phrases table (phrase ++ text) (value +:+ out)
| converts_char c text out :
    (∀ phrase w, (phrase, w) ∈ phrases → ¬ phrase `prefix_of` (c :: text)) →
    converts phrases table text out → converts phrases table (c :: text) (default c (table !! c) +:+ out).

Lemma chars_String c s : chars (String c s) =
  match s, chars s with
  | String d _, w :: ws => if is_continuation d then String c w :: ws else String c "" :: chars s
  | _, _ => String c "" :: chars s
  end.
Proof. by destruct s. Qed.

Lemma concat_chars s : concat_str (chars s) = s.
Proof.
  induction s as [|c s IH]; [done|]. rewrite chars_String. destruct s as [|d s]; [done|].
  destruct (chars (String d s)) as [|w ws]; [done|]. rewrite <- IH. by destruct (is_continuation d).
Qed.

Lemma starts_with_spec phrase text : starts_with phrase text = true ↔ phrase `prefix_of` text.
Proof.
  revert text. induction phrase as [|p phrase IH]; intros [|c text]; simpl.
  - split; [intros _; apply prefix_nil|done].
  - split; [intros _; apply prefix_nil|done].
  - split; [done|]. by intros ?%prefix_nil_not.
  - rewrite andb_true_iff, String.eqb_eq, IH. split; [intros [-> ?]; by apply prefix_cons|].
    intros Hp. split; [by eapply prefix_cons_inv_1|by eapply prefix_cons_inv_2].
Qed.

(** *** Loading *)

Lemma load_phrases_spec lines m m' c : load_phrases lines m = Ok m' →
  default [] (m' !! c) = default [] (m !! c) ++ filter (λ e, head e.1 = Some c) (phrase_entries lines) ∧
  Forall (λ e, (2 <= length e.1)%nat) (phrase_entries lines).
Proof.
  revert m. induction lines as [|line lines IH]; intros m Hload; simpl in Hload.
  - injection Hload as ->. by rewrite app_nil_r.
  - unfold phrase_entries. simpl. destruct (String.eqb line ""); [by apply IH|].
    destruct (parse_line line) as [[k v]|]; simpl in Hload; [|done].
    destruct (Nat.ltb_spec (length (chars k)) 2); [done|]. destruct (IH _ Hload) as [Heq Hall].
    split; [|by constructor]. rewrite Heq, filter_cons. destruct (chars k) as [|x key] eqn:Ek; [simpl in *; lia|].
    simpl. destruct (decide (x = c)) as [->|Hne].
    + rewrite lookup_insert_eq, decide_True by done. simpl. by rewrite <- app_assoc.
    + rewrite lookup_insert_ne, decide_False by congruence. done.
Qed.

(** *** Sorting *)

Lemma filter_none {A} (P : A → Prop) `{∀ x, Decision (P x)} l : Forall (λ x, ¬ P x) l → filter P l = [].
Proof. induction 1; [done|]. by rewrite filter_cons_False. Qed.

Definition longer_first (a b : list string * string) : Prop := (length b.1 <= length a.1)%nat.

Lemma insert_longest_perm x l : insert_longest x l ≡ₚ x :: l.
Proof.
  induction l as [|y l IH]; [done|]. simpl. destruct (_ <? _)%nat; [done|]. by rewrite IH, Permutation_swap.
Qed.

Lemma insert_longest_sorted x l : StronglySorted longer_first l → StronglySorted longer_first (insert_longest x l).
Proof.
  induction 1 as [|y l Hs IH Hall]; [by repeat constructor|]. simpl.
  destruct (Nat.ltb_spec (length y.1) (length x.1)) as [Hlt|Hge].
  - constructor; [by constructor|]. constructor; [unfold longer_first; lia|].
    eapply Forall_impl; [exact Hall|]. unfold longer_first. intros. lia.
  - constructor; [done|]. rewrite insert_longest_perm. by constructor.
Qed.

(** Insertion keeps the order of the entries of one phrase. *)
Lemma insert_longest_entry phrase x l : StronglySorted longer_first l →
  filter (λ e, e.1 = phrase) (insert_longest x l) = filter (λ e, e.1 = phrase) l ++ filter (λ e, e.1 = phrase) [x].
Proof.
  induction 1 as [|y l Hs IH Hall]; [done|]. simpl.
  destruct (Nat.ltb_spec (length y.1) (length x.1)) as [Hlt|Hge]; [|rewrite !filter_cons, IH; by case_decide].
  rewrite (filter_cons _ x (y :: l)), (filter_cons _ x []). destruct (decide (x.1 = phrase)) as [<-|Hne].
  - assert (filter (λ e, e.1 = x.1) (y :: l) = []) as ->; [|done].
    apply filter_none. constructor; [intros Hy; rewrite Hy in Hlt; lia|].
    eapply Forall_impl; [exact Hall|]. unfold longer_first. intros z Hz Heq. rewrite Heq in Hz. lia.
  - by rewrite filter_nil, app_nil_r.
Qed.

Lemma sort_longest_spec l : sort_longest l ≡ₚ l ∧ StronglySorted longer_first (sort_longest l) ∧
  ∀ phrase, entry_of phrase (sort_longest l) = entry_of phrase l.
Proof.
  unfold sort_longest, entry_of.
  assert (∀ acc, StronglySorted longer_first acc →
    foldl (λ acc x, insert_longest x acc) acc l ≡ₚ acc ++ l ∧
    StronglySorted longer_first (foldl (λ acc x, insert_longest x acc) acc l) ∧
    ∀ phrase, filter (λ e, e.1 = phrase) (foldl (λ acc x, insert_longest x acc) acc l) =
              filter (λ e, e.1 = phrase) acc ++ filter (λ e, e.1 = phrase) l) as Hgen.
  { induction l as [|x l IH]; intros acc Hacc; simpl; [by rewrite !app_nil_r; setoid_rewrite app_nil_r|].
    destruct (IH (insert_longest x acc)) as (H1&H2&H3); [by apply insert_longest_sorted|]. split_and!; [|done|].
    - rewrite H1, insert_longest_perm. simpl. by rewrite Permutation_middle.
    - intros phrase. rewrite H3, insert_longest_entry by done. rewrite <- app_assoc, <- filter_app. done. }
  destruct (Hgen []) as (H1&H2&H3); [constructor|]. split_and!; [done|done|]. intros phrase. by rewrite H3.
Qed.

(** *** Searching *)

Lemma find_sorted_longest l text x : StronglySorted longer_first l →
  List.find (λ pv, starts_with pv.1 text) l = Some x →
  x.1 `prefix_of` text ∧ entry_of x.1 l = Some x ∧
  ∀ e, e ∈ l → e.1 `prefix_of` text → (length e.1 <= length x.1)%nat.
Proof.
  unfold entry_of. induction 1 as [|y l Hs IH Hall]; [done|]. simpl. destruct (starts_with y.1 text) eqn:Ey.
  - intros [= ->]. split; [by apply starts_with_spec|]. split; [by rewrite filter_cons_True|].
    intros e [->|He]%elem_of_cons _; [done|]. by rewrite Forall_forall in Hall; apply Hall.
  - intros Hf. destruct (IH Hf) as (H1&H2&H3). split; [done|]. split.
    + rewrite filter_cons_False; [done|]. intros Heq. rewrite Heq in Ey. apply starts_with_spec in H1. congruence.
    + intros e [->|He]%elem_of_cons Hp; [apply starts_with_spec in Hp; congruence|by apply H3].
Qed.

Lemma simplify_skip d k text : simplify_from d k text = simplify_from d 0 (drop k text).
Proof. revert text. induction k as [|k IH]; intros [|c text]; [done..|]. simpl. apply IH. Qed.

Lemma entry_of_filter phrase c l : head phrase = Some c →
  entry_of phrase (filter (λ e, head e.1 = Some c) l) = entry_of phrase l.
Proof.
  intros Hc. unfold entry_of. f_equal. induction l as [|e l IH]; [done|]. rewrite filter_cons.
  destruct (decide (head e.1 = Some c)) as [He|He]; rewrite !filter_cons; [by rewrite IH|].
  rewrite decide_False; [done|]. by intros <-.
Qed.

Lemma prefix_head phrase c (text : list string) : (2 <= length phrase)%nat → phrase `prefix_of` (c :: text) → head phrase = Some c.
Proof. destruct phrase as [|p phrase]; simpl; [lia|]. intros _ Hp. by apply prefix_cons_inv_1 in Hp as ->. Qed.

(** C33: the simplified text is the conversion that takes, at every position, the
    longest phrase of the dictionary file that starts there (the first line of it)
    and a single character only where no phrase starts; every character of the
    text is consumed, so the loop ends. *)
Theorem simplify_takes_longest phrase_lines char_lines d text :
  load_t2s phrase_lines char_lines = Ok d →
  converts (phrase_entries phrase_lines) (char_map d) (chars text) (simplify d text).
Proof.
  unfold load_t2s. intros Hload. ok_inv. rename Hok into Hp. unfold simplify. set (d := T2s _ _).
  destruct (load_phrases_spec _ _ _ "" Hp) as [_ Hlen]. rewrite Forall_forall in Hlen.
  assert (∀ c, ∃ l, default [] (phrase_by_first d !! c) = sort_longest l ∧
    l = filter (λ e, head e.1 = Some c) (phrase_entries phrase_lines)) as Hbucket.
  { intros c. destruct (load_phrases_spec _ _ _ c Hp) as [Heq _]. rewrite lookup_empty in Heq. simpl in Heq.
    exists (default [] (x !! c)). split; [|done]. simpl. rewrite lookup_fmap. by destruct (x !! c). }
  generalize (chars text). intros l. remember (length l) as n eqn:Hn. revert l Hn.
  induction n as [n IH] using lt_wf_ind. intros [|c rest] ->; [constructor|].
  destruct (Hbucket c) as (b&Hb&Hbe). destruct (sort_longest_spec b) as (Hperm&Hsorted&Hentry).
  cbn [simplify_from]. rewrite Hb. destruct (List.find _ (sort_longest b)) as [[phrase value]|] eqn:Hf.
  - destruct (find_sorted_longest _ _ _ Hsorted Hf) as ([tl Htl]&Hfirst&Hlongest). simpl in *.
    rewrite Hentry, Hbe in Hfirst.
    assert ((phrase, value) ∈ b) as Hin by (rewrite <- Hperm; apply list_elem_of_In, (List.find_some _ _ Hf)).
    rewrite Hbe in Hin. apply list_elem_of_filter in Hin as [Hhead Hin]. pose proof (Hlen _ Hin) as Hlen1. simpl in *.
    rewrite simplify_skip, Htl. destruct phrase as [|p phrase]; [done|]. injection Htl as -> ->. simpl.
    rewrite drop_app_length. change (p :: phrase ++ tl) with ((p :: phrase) ++ tl). constructor.
    + by rewrite <- Hfirst, entry_of_filter.
    + intros longer w Hlw Hpre. apply (Hlongest (longer, w)); [|done]. rewrite Hperm, Hbe.
      apply list_elem_of_filter. split; [|done]. eapply prefix_head, Hpre. apply (Hlen (longer, w) Hlw).
    + apply (IH (length tl)); [|done]. simpl. rewrite length_app. lia.
  - constructor; [|by apply (IH (length rest)); simpl; [lia|]].
    intros phrase w Hin Hpre. apply starts_with_spec in Hpre as Hs.
    assert (In (phrase, w) (sort_longest b)) as Hb'.
    { apply list_elem_of_In. rewrite Hperm, Hbe. apply list_elem_of_filter.
      split; [|done]. eapply prefix_head, Hpre. apply (Hlen (phrase, w) Hin). }
    pose proof (List.find_none _ _ Hf _ Hb'). simpl in *. congruence.
Qed.
