(* ===== verification/Oracle.v ===== *)
(** * The evidence oracle: [src/daemon/oracle.py]

    For one group of candidates the oracle turns the active facts with the same
    choice-problem key into evidence: the cosine of each event's vector with the
    query, a relevance above a threshold, a decay by how many later events of the
    key there are, the [K] heaviest events, and from their weights the mass and
    the bounded score of every candidate.  Vectors come from the caller, cosines
    from the scalar loop or from an engine; the arithmetic is binary64 ([Float64]),
    with [2.0 ** x] a parameter. *)

From Stdlib Require Import SpecFloat String.
From stdpp Require Import base list strings gmap sorting.
From S2P Require Import Prelude Float64 PyJson Facts TextMatch.
Open Scope Z_scope.

(** [2.0 ** x] of the C library. *)
Class Libm := { exp2 : float → float }.

(** ** Parameters and queries *)

Record oracle_params := OracleParams {
  tau : float; k_evidence : Z; half_life : float; saturation_k : float }.

(** [OracleParams.__post_init__] *)
Definition params_ok (p : oracle_params) : bool :=
  fleb fzero (tau p) && fltb (tau p) fone &&
  (1 <=? k_evidence p) &&
  fltb fzero (half_life p) &&
  is_finite (saturation_k p) && fltb fzero (saturation_k p).

Record oracle_query := OracleQuery {
  q_schema : string; q_input : string; q_candidates : list string; q_vector : list float;
  q_category : string; q_as_of : option hlc; q_exclude : gset string;
  q_candidate_vectors : option (list (list float)) }.

(** [OracleQuery.__post_init__] *)
Definition query_ok (q : oracle_query) : bool :=
  negb (String.eqb (q_schema q) "") && negb (String.eqb (q_category q) "") &&
  negb (bool_decide (q_candidates q = [])) &&
  negb (bool_decide (q_vector q = []) && bool_decide (q_candidate_vectors q = None)) &&
  match q_as_of q with Some h => (0 <=? h.1) && (0 <=? h.2) | None => true end &&
  forallb is_finite (q_vector q) &&
  match q_candidate_vectors q with
  | None => true
  | Some vs =>
      (length vs =? length (q_candidates q))%nat &&
      forallb (λ v, negb (bool_decide (v = [])) && forallb is_finite v) vs
  end.

(** ** Faults *)

(** [OracleError], and what is no [OracleError]: the [ZeroDivisionError] of the
    scalar cosine, the [sqlite3.Error] that [default_as_of] lets through. *)
Inductive oracle_error :=
| StoreUnreadable | ClockMissing | VectorMissing (id : string) | VectorNotFinite | VectorEmpty
| DimensionMismatch (id : string) | ZeroVector | EngineFailed | EngineCosine (id : string)
| DivisionByZero | SqliteError.

(** [_as_float_vector] *)
Definition as_float_vector (v : list float) : result oracle_error (list float) :=
  if negb (forallb is_finite v) then Err VectorNotFinite
  else match v with [] => Err VectorEmpty | _ => Ok v end.

(** [_cosine]; [zip] stops at the shorter vector. *)
Record cosine_sums := CosineSums { cs_dot : float; cs_query : float; cs_event : float }.
Definition cosine_step (s : cosine_sums) (p : float * float) : cosine_sums :=
  CosineSums (fadd (cs_dot s) (fmul p.1 p.2)) (fadd (cs_query s) (fmul p.1 p.1)) (fadd (cs_event s) (fmul p.2 p.2)).
Definition cosine (q v : list float) : result oracle_error float :=
  let s := foldl cosine_step (CosineSums fzero fzero fzero) (zip q v) in
  if feqb (cs_query s) fzero || feqb (cs_event s) fzero then Err ZeroVector
  else
    let d := fsqrt (fmul (cs_query s) (cs_event s)) in
    if feqb d fzero then Err DivisionByZero else Ok (fdiv (cs_dot s) d).

(** [_age_factor] *)
Definition age_factor `{Libm} (usage_age : Z) (half_life : float) : float :=
  if is_inf half_life then fone else exp2 (fdiv (float_of_Z (- usage_age)) half_life).

(** ** Readers and engines *)

(** A reader gives the active events at a query point and its own clock. *)
Record fact_reader := FactReader {
  fr_active : hlc → result oracle_error (list stored_event);
  fr_default_as_of : result oracle_error hlc }.

(** [FactReader] of the store [db]. *)
Definition store_reader `{IntText} (db : facts_db) : fact_reader :=
  FactReader (λ as_of, Ok (read_active_events db as_of))
    match obj_get "hlc_physical_ms" (f_meta db), obj_get "hlc_logical" (f_meta db) with
    | Some p, Some l =>
        match @py_int int_text_py p, @py_int int_text_py l with
        | Some p, Some l => if (p <? 0) || (l <? 0) then Err ClockMissing else Ok (p, l)
        | _, _ => Err ClockMissing
        end
    | _, _ => Err ClockMissing
    end.

(** [_ProjectionReader] of [src/daemon/generation.py]. *)
Definition projection_reader (events : list stored_event) : fact_reader :=
  FactReader (λ _, Ok events) (Err ClockMissing).

(** [CosineEngine.batch_cosines]: [None] when it raises or returns no mapping; a
    value that [float] refuses is [None] in the mapping. *)
Definition engine : Type := list float → list string → option (gmap string (option float)).

(** ** Contributions *)

Record contribution := Contribution {
  ct_event : stored_event; ct_cosine : float; ct_relevance : float; ct_age : Z; ct_factor : float;
  ct_weight : float; ct_matched : option nat }.

Definition set_matched (m : option nat) (c : contribution) : contribution :=
  Contribution (ct_event c) (ct_cosine c) (ct_relevance c) (ct_age c) (ct_factor c) (ct_weight c) m.

Record oracle_result := OracleResult {
  or_query_point : hlc; or_same_key : nat; or_kept : list contribution;
  or_candidates : list (float * float); or_total_mass : float; or_key : string * string * string }.

Section oracle.
Context `{Unicode} `{Libm} (dict : t2s).
Context (vector_for : string → option (list float)) (eng : option engine).

Definition event_key (e : stored_event) : string * string * string :=
  choice_problem_key (ev_schema e) (ev_category e) (ev_input e).
Definition query_key (q : oracle_query) : string * string * string :=
  choice_problem_key (q_schema q) (q_category q) (q_input q).

(** [same_key], sorted by clock and id. *)
Definition same_key (q : oracle_query) (events : list stored_event) : list stored_event :=
  sort_by ev_stamp (filter (λ e, ev_id e ∉ q_exclude q ∧ event_key e = query_key q) events).

(** [next(i for i, c in enumerate(candidates) if c == selected)] *)
Definition matched_candidate (candidates : list string) (e : stored_event) : option nat :=
  list_index (match_text dict (ev_text e)) candidates.

(** Relevance, age factor and weight of the [i]-th of [n] events. *)
Definition contribute (p : oracle_params) (n : nat) (i : nat) (e : stored_event) (cos : float) (m : option nat)
    : contribution :=
  let relevance := py_min (py_max (fdiv (fsub cos (tau p)) (fsub fone (tau p))) fzero) fone in
  let age := Z.of_nat n - 1 - Z.of_nat i in
  let factor := age_factor age (half_life p) in
  Contribution e cos relevance age factor (fmul relevance factor) m.

(** One cosine of an engine's answer. *)
Definition engine_cosine (batch : gmap string (option float)) (id : string) : result oracle_error float :=
  match batch !! id with
  | Some (Some c) => if is_finite c then Ok c else Err (EngineCosine id)
  | _ => Err (EngineCosine id)
  end.
Definition ask_engine (g : engine) (q : list float) (ids : list string)
    : result oracle_error (gmap string (option float)) :=
  match g q ids with Some b => Ok b | None => Err EngineFailed end.

(** The scalar cosine of one event. *)
Definition scalar_cosine (q : list float) (e : stored_event) : result oracle_error float :=
  match vector_for (ev_id e) with
  | None => Err (VectorMissing (ev_id e))
  | Some v =>
      v ← as_float_vector v;
      if negb (length v =? length q)%nat then Err (DimensionMismatch (ev_id e)) else cosine q v
  end.

Definition cosines_of (q : list float) (events : list stored_event) : result oracle_error (list float) :=
  match eng with
  | Some g =>
      batch ← ask_engine g q (ev_id <$> events);
      mapM (λ e, engine_cosine batch (ev_id e)) events
  | None => mapM (scalar_cosine q) events
  end.

(** The context-only path: every event of the key contributes. *)
Definition plain_contributions (p : oracle_params) (q : list float) (keyed : list stored_event)
    : result oracle_error (list contribution) :=
  cosines ← cosines_of q keyed;
  Ok (imap (λ i ec, contribute p (length keyed) i ec.1 ec.2 None) (zip keyed cosines)).

(** [events_by_candidate.setdefault(matched, []).append(...)] *)
Fixpoint group_add (i : nat) (e : stored_event) (groups : list (nat * list stored_event))
    : list (nat * list stored_event) :=
  match groups with
  | [] => [(i, [e])]
  | (j, es) :: groups => if decide (i = j) then (j, es ++ [e]) :: groups else (j, es) :: group_add i e groups
  end.
Definition events_by_candidate (candidates : list string) (keyed : list stored_event)
    : list (nat * list stored_event) :=
  foldl (λ groups e, match matched_candidate candidates e with Some i => group_add i e groups | None => groups end)
    [] keyed.

(** The cosines of the matched events, group by group. *)
Fixpoint grouped_cosines (vectors : list (list float)) (groups : list (nat * list stored_event))
    (cosines : gmap string float) : result oracle_error (gmap string float) :=
  match groups with
  | [] => Ok cosines
  | (i, es) :: groups =>
      cs ← cosines_of (default [] (vectors !! i)) es;
      grouped_cosines vectors groups (foldl (λ m ec, <[ev_id ec.1 := ec.2]> m) cosines (zip es cs))
  end.

(** The candidate-conditioned path: an event is compared with the vector of the
    candidate it selected, and contributes only when there is one. *)
Definition conditioned_contributions (p : oracle_params) (candidates : list string) (vectors : list (list float))
    (keyed : list stored_event) : result oracle_error (list contribution) :=
  cosines ← grouped_cosines vectors (events_by_candidate candidates keyed) ∅;
  Ok (omap (λ ie, (λ c, contribute p (length keyed) ie.1 ie.2 c (matched_candidate candidates ie.2)) <$>
                    cosines !! ev_id ie.2) (imap pair keyed)).

(** The order of [kept]: the larger weight first, then fact order. *)
Definition kept_le (a b : contribution) : Prop :=
  fltb (ct_weight b) (ct_weight a) = true ∨
  (fltb (ct_weight a) (ct_weight b) = false ∧ stamp_le (ev_stamp (ct_event a)) (ev_stamp (ct_event b))).
#[global] Instance kept_le_dec : RelDecision kept_le.
Proof. intros a b. unfold kept_le. apply _. Defined.

(** Above the threshold, the heaviest [k_evidence]. *)
Definition keep (p : oracle_params) (contributions : list contribution) : list contribution :=
  take (Z.to_nat (k_evidence p))
    (merge_sort kept_le (filter (λ c, fltb fzero (ct_weight c) = true) contributions)).

(** [m[entry[6]] += entry[5]] *)
Definition masses (n : nat) (kept : list contribution) : list float :=
  foldl (λ m c, match ct_matched c with Some i => alter (λ x, fadd x (ct_weight c)) i m | None => m end)
    (replicate n fzero) kept.

(** [sum(m)], from the integer zero on, without the compensation of Python 3.12. *)
Definition py_sum (l : list float) : float := foldl fadd fzero l.

(** The score of a candidate of mass [x]. *)
Definition score (p : oracle_params) (total x : float) : float :=
  if fltb fzero total then fmul (fdiv x total) (fdiv x (fadd x (saturation_k p))) else fzero.

Definition aggregate (p : oracle_params) (n : nat) (kept : list contribution) : list (float * float) * float :=
  let m := masses n kept in
  let total := py_sum m in
  ((λ x, (x, score p total x)) <$> m, total).

(** [compute_evidence] of parameters and a query that their constructors
    accepted. *)
Definition compute_evidence (reader : fact_reader) (p : oracle_params) (q : oracle_query)
    : result oracle_error oracle_result :=
  as_of ← match q_as_of q with Some h => Ok h | None => fr_default_as_of reader end;
  let candidates := match_text dict <$> q_candidates q in
  prepared ← match q_candidate_vectors q with
             | Some vs => vs ← mapM as_float_vector vs; Ok (inr vs)
             | None => v ← as_float_vector (q_vector q); Ok (inl v)
             end;
  events ← fr_active reader as_of;
  let keyed := same_key q events in
  contributions ← match prepared with
                  | inl v => plain_contributions p v keyed
                  | inr vs => conditioned_contributions p candidates vs keyed
                  end;
  let kept := keep p contributions in
  let kept := match prepared with
              | inl _ => (λ c, set_matched (matched_candidate candidates (ct_event c)) c) <$> kept
              | inr _ => kept
              end in
  let '(cs, total) := aggregate p (length candidates) kept in
  Ok (OracleResult as_of (length keyed) kept cs total (query_key q)).
End oracle.
