(* ===== verification/OracleTheorems.v ===== *)
(** * What the oracle promises

    The evidence is bounded, in binary64 arithmetic: no mass exceeds the total and
    every score lies between 0 and 1.  The kept events are the heaviest ones, each
    decayed by exactly the number of later events of its key; an engine that
    returns the scalar cosines gives the same evidence; and a replay at a past
    point sees nothing that was recorded since. *)

From Stdlib Require Import SpecFloat String.
From stdpp Require Import base list strings gmap sorting.
From S2P Require Import Prelude Float64 PyJson Facts TextMatch Oracle.
Open Scope Z_scope.

(** ** [mapM] over results *)

Lemma mapM_Forall2 {E A B} (f : A → result E B) l k : mapM f l = Ok k ↔ Forall2 (λ a b, f a = Ok b) l k.
Proof.
  revert k. induction l as [|a l IH]; intros k; simpl.
  - split; [intros [= <-]; constructor|by intros ->%Forall2_nil_inv_l].
  - split.
    + intros (b&Hb&(k'&Hk&[= <-])%bind_Ok)%bind_Ok. constructor; [done|by apply IH].
    + intros (b&k'&Hb&Hk&->)%Forall2_cons_inv_l. apply IH in Hk. by rewrite Hb; simpl; rewrite Hk.
Qed.

Lemma mapM_congr {E A B} (f g : A → result E B) l : (∀ a, a ∈ l → f a = g a) → mapM f l = mapM g l.
Proof.
  induction l as [|a l IH]; intros Hfg; [done|]. simpl. rewrite Hfg by (by left).
  rewrite IH; [done|]. intros b Hb. apply Hfg. by right.
Qed.

Lemma as_float_vector_id v v' : as_float_vector v = Ok v' → v' = v.
Proof. unfold as_float_vector. destruct (negb _); [done|]. destruct v; [done|]. by intros [= ->]. Qed.

Lemma as_float_vectors_id vs vs' : mapM as_float_vector vs = Ok vs' → vs' = vs.
Proof. rewrite mapM_Forall2. induction 1 as [|v v' vs vs' Hv _ IH]; [done|]. by rewrite IH, (as_float_vector_id _ _ Hv). Qed.

(** ** Masses and scores *)

(** Contributions with weights between 0 and 1. *)
Definition good_weight (c : contribution) : Prop := unsigned (ct_weight c) ∧ at_most 1 0 (ct_weight c).

Definition bounded (n c : Z) (x : float) : Prop := unsigned x ∧ at_most n c x.

Lemma bounded_mono n n' c x : n <= n' → bounded n c x → bounded n' c x.
Proof. intros Hn [Hu Ha]. split; [done|by eapply at_most_mono]. Qed.

Lemma masses_bounded n kept : Forall good_weight kept → Z.of_nat (length kept) <= 2 ^ 53 →
  Forall (bounded (Z.of_nat (length kept)) 0) (masses n kept) ∧ length (masses n kept) = n.
Proof.
  unfold masses. induction kept as [|c kept IH] using rev_ind; intros Hall Hlen.
  - simpl. split; [|apply length_replicate]. by apply Forall_replicate.
  - rewrite foldl_app, length_app in *. simpl in *. apply Forall_app in Hall as [Hall [[Hu Ha] _]%Forall_cons].
    destruct IH as [Hm Hl]; [done|lia|]. set (m := foldl _ _ kept) in *.
    assert (Forall (bounded (Z.of_nat (length kept + 1)) 0) m) as Hm'.
    { eapply Forall_impl; [exact Hm|]. intros x. apply bounded_mono. lia. }
    destruct (ct_matched c) as [i|]; [|done]. split; [|by rewrite length_alter].
    apply Forall_lookup. intros j x Hx. destruct (decide (i = j)) as [<-|Hne].
    + rewrite list_lookup_alter_eq in Hx. destruct (m !! i) as [y|] eqn:Hy; [|done]. injection Hx as <-.
      eapply Forall_lookup in Hm as [Hyu Hya]; [|done]. split; [by apply fadd_ge|].
      replace (Z.of_nat (length kept + 1)) with (Z.of_nat (length kept) + 1) by lia. apply fadd_at_most; try done; lia.
    + rewrite list_lookup_alter_ne in Hx by done. by eapply Forall_lookup in Hm'.
Qed.

(** A sum of bounded numbers is bounded and no smaller than any of them. *)
Lemma py_sum_bounded l : Forall (bounded 1 53) l → Z.of_nat (length l) <= 2 ^ 53 →
  bounded (Z.of_nat (length l)) 53 (py_sum l) ∧ Forall (λ x, fleb x (py_sum l) = true) l.
Proof.
  unfold py_sum. induction l as [|x l IH] using rev_ind; intros Hall Hlen.
  - by split.
  - rewrite foldl_app, length_app in *. simpl in *. apply Forall_app in Hall as [Hall [[Hu Ha] _]%Forall_cons].
    destruct IH as [[Hsu Hsa] Hge]; [done|lia|]. destruct (fadd_ge _ _ Hsu Hu) as (Hfu&Hf1&Hf2). split.
    + split; [done|]. replace (Z.of_nat (length l + 1)) with (Z.of_nat (length l) + 1) by lia.
      apply fadd_at_most; try done; lia.
    + apply Forall_app. split; [|by constructor]. rewrite Forall_forall in *. intros y Hy.
      eapply fleb_trans; [apply (Hall y Hy)|exact Hsu|exact Hfu|by apply Hge|done].
Qed.

Lemma unsigned_in_unit x : unsigned x → fleb x fone = true → in_unit x.
Proof. by destruct x. Qed.

(** The score of one mass out of a total. *)
Lemma score_in_unit p total x :
  unsigned total → unsigned x → is_finite x = true → fleb x total = true →
  unsigned (saturation_k p) → is_finite (saturation_k p) = true → fltb fzero (saturation_k p) = true →
  in_unit (score p total x).
Proof.
  intros Ht Hx Hfin Hle Hk Hkf Hkp. unfold score. destruct (fltb fzero total) eqn:Hpos; [|done].
  destruct (fadd_ge _ _ Hx Hk) as (Hsu&Hs1&Hs2).
  assert (fltb fzero (fadd x (saturation_k p)) = true) as Hsp.
  { destruct (saturation_k p) as [s|s| |s m e]; try done. simpl in Hk. destruct Hk as [-> ?].
    destruct (fadd x _) as [t|t| |t m' e']; simpl in Hsu; destruct_and?; subst; done. }
  destruct (fdiv_unit x total) as [H1 H2]; [done..|].
  destruct (fdiv_unit x (fadd x (saturation_k p))) as [H3 H4]; [done..|].
  apply fmul_in_unit; by apply unsigned_in_unit.
Qed.

(** ** Contributions *)

Section contributions.
Context `{Unicode} `{Libm} (dict : t2s) (p : oracle_params).
Hypothesis params : params_ok p = true.
Hypothesis tau_valid : valid (tau p).
Hypothesis life_valid : valid (half_life p).
Hypothesis k_valid : valid (saturation_k p).
(** Powers of two with exponents that are not positive lie between 0 and 1. *)
Hypothesis exp2_unit : ∀ x, fleb x fzero = true → in_unit (exp2 x).

Lemma age_factor_unit age : 0 <= age → in_unit (age_factor age (half_life p)).
Proof using params life_valid exp2_unit.
  intros Hage. unfold age_factor. unfold params_ok in params. bool_to_prop.
  destruct (is_inf _) eqn:Hinf; [by apply unsigned_in_unit, fleb_refl; try apply one_unsigned|].
  by apply exp2_unit, negated_quotient.
Qed.

Lemma contribute_good n i e cos m : valid cos → (i < n)%nat →
  fltb fzero (ct_weight (contribute p n i e cos m)) = true → good_weight (contribute p n i e cos m).
Proof using params tau_valid life_valid exp2_unit.
  intros Hv Hi Hpos. unfold good_weight, contribute in *. simpl in *.
  apply positive_in_unit; [|done].
  set (x := fdiv (fsub cos (tau p)) (fsub fone (tau p))) in *.
  assert (valid x) as Hx by (apply fdiv_valid; apply fsub_valid; try done; apply unsigned_valid, one_unsigned).
  destruct x as [s|s| |s mm ee] eqn:Ex; try done.
  all: apply fmul_in_unit; [by apply clamp_in_unit|apply age_factor_unit; lia].
Qed.
End contributions.

(** ** Where contributions come from *)

Section evidence.
Context `{Unicode} `{Libm} (dict : t2s).
Context (vector_for : string → option (list float)) (eng : option engine).

(** A contribution of the [i]-th event of the key, matched as [match_of] says. *)
Definition built (Q : float → Prop) (match_of : stored_event → option nat) (p : oracle_params)
    (keyed : list stored_event) (c : contribution) : Prop :=
  ∃ i e cos, keyed !! i = Some e ∧ Q cos ∧ c = contribute p (length keyed) i e cos (match_of e).

Lemma plain_built Q p q keyed cs :
  (∀ es cos, cosines_of vector_for eng q es = Ok cos → length cos = length es ∧ Forall Q cos) →
  plain_contributions vector_for eng p q keyed = Ok cs → Forall (built Q (λ _, None) p keyed) cs.
Proof.
  intros HQ Hp. unfold plain_contributions in Hp. ok_inv. destruct (HQ _ _ Hok) as [Hlen HQ'].
  apply Forall_lookup. intros i c. rewrite list_lookup_imap. intros ([e cos]&Hec&->)%fmap_Some.
  apply lookup_zip_Some in Hec as [He Hc]. exists i, e, cos. split_and!; [done| |done].
  by eapply Forall_lookup in HQ'.
Qed.

Lemma cosines_inserted (Q : float → Prop) (m : gmap string float) (l : list (stored_event * float)) :
  map_Forall (λ _, Q) m → Forall (λ ec, Q ec.2) l →
  map_Forall (λ _, Q) (foldl (λ m ec, <[ev_id ec.1 := ec.2]> m) m l).
Proof.
  revert m. induction l as [|ec l IH]; intros m Hm Hl; [done|]. apply Forall_cons in Hl as [Hec Hl]. simpl.
  apply IH; [|done]. by apply map_Forall_insert_2.
Qed.

Lemma grouped_built (Q : float → Prop) vectors groups (m m' : gmap string float) :
  (∀ q es cos, (q = [] ∨ q ∈ vectors) → cosines_of vector_for eng q es = Ok cos → length cos = length es ∧ Forall Q cos) →
  map_Forall (λ _, Q) m → grouped_cosines vector_for eng vectors groups m = Ok m' → map_Forall (λ _, Q) m'.
Proof.
  intros HQ. revert m. induction groups as [|[i es] groups IH]; intros m Hm; simpl; [by intros [= <-]|].
  intros (cos&Hcos&Hrest)%bind_Ok. eapply IH, Hrest. apply cosines_inserted; [done|].
  apply HQ in Hcos as [Hlen Hall].
  - apply Forall_lookup. intros j [e c] [_ Hc]%lookup_zip_Some. by eapply Forall_lookup in Hall.
  - destruct (vectors !! i) as [v|] eqn:E; [right; by eapply list_elem_of_lookup_2|by left].
Qed.

Lemma conditioned_built (Q : float → Prop) p candidates vectors keyed cs :
  (∀ q es cos, (q = [] ∨ q ∈ vectors) → cosines_of vector_for eng q es = Ok cos → length cos = length es ∧ Forall Q cos) →
  conditioned_contributions dict vector_for eng p candidates vectors keyed = Ok cs → Forall (built Q (matched_candidate dict candidates) p keyed) cs.
Proof.
  intros HQ Hc. unfold conditioned_contributions in Hc. ok_inv.
  apply (grouped_built Q) in Hok; [|done|apply map_Forall_empty].
  apply Forall_forall. intros c ([i e]&Hie&Hc)%list_elem_of_omap. simpl in Hc.
  apply fmap_Some in Hc as (cos&Hcos&->). apply list_elem_of_lookup in Hie as [j Hj].
  rewrite list_lookup_imap in Hj. apply fmap_Some in Hj as (e'&He'&[= -> ->]).
  exists j, e', cos. split_and!; [done| |done]. by apply (Hok _ _ Hcos).
Qed.

(** *** Cosines are canonical floats *)

Lemma sums_valid l s :
  Forall (λ xy : float * float, valid xy.1 ∧ valid xy.2) l → valid (cs_dot s) ∧ valid (cs_query s) ∧ valid (cs_event s) →
  let s' := foldl cosine_step s l in valid (cs_dot s') ∧ valid (cs_query s') ∧ valid (cs_event s').
Proof.
  revert s. induction l as [|[x y] l IH]; intros s Hl Hs; [done|]. apply Forall_cons in Hl as [[Hx Hy] Hl]. simpl.
  apply IH; [done|]. simpl in *. destruct Hs as (?&?&?). auto with s2m.
Qed.

Lemma cosine_valid q v c : Forall valid q → Forall valid v → cosine q v = Ok c → valid c.
Proof.
  intros Hq Hv. unfold cosine. destruct (_ || _); [done|]. destruct (feqb _ _); [done|]. intros [= <-].
  destruct (sums_valid (zip q v) (CosineSums fzero fzero fzero)) as (H1&H2&H3); [|done|auto with s2m].
  apply Forall_lookup. intros i [x y] [Hx Hy]%lookup_zip_Some. simpl.
  split; [by eapply Forall_lookup in Hq|by eapply Forall_lookup in Hv].
Qed.

(** Vectors and engine answers are canonical floats. *)
Record canonical_sources : Prop := {
  vectors_canonical : ∀ id v, vector_for id = Some v → Forall valid v;
  engine_canonical : ∀ g q ids b id c, eng = Some g → g q ids = Some b → b !! id = Some (Some c) → valid c }.

Lemma cosines_of_valid q es cos : canonical_sources → Forall valid q →
  cosines_of vector_for eng q es = Ok cos → length cos = length es ∧ Forall valid cos.
Proof.
  intros [Hvec Heng] Hq. unfold cosines_of. destruct eng as [g|].
  - unfold ask_engine. destruct (g q _) as [b|] eqn:Hg; simpl; [|done]. rewrite mapM_Forall2. intros Hall.
    split; [by eapply eq_sym, Forall2_length|]. eapply Forall2_Forall_r; [exact Hall|]. apply Forall_forall.
    intros e _ c. unfold engine_cosine. destruct (b !! ev_id e) as [[x|]|] eqn:Hb; try done.
    destruct (is_finite x); [|done]. intros [= <-]. by eapply Heng.
  - rewrite mapM_Forall2. intros Hall. split; [by eapply eq_sym, Forall2_length|].
    eapply Forall2_Forall_r; [exact Hall|]. apply Forall_forall. intros e _ c. unfold scalar_cosine.
    destruct (vector_for (ev_id e)) as [v|] eqn:Hv; [|done]. intros (v'&Hv'&Hc)%bind_Ok.
    destruct (negb _); [done|]. eapply cosine_valid, Hc; [done|]. unfold as_float_vector in Hv'.
    destruct (negb _); [done|]. destruct v; [done|]. injection Hv' as <-. by eapply Hvec.
Qed.
End evidence.

(** ** The evidence as a whole *)

Section results.
Context `{Unicode} `{Libm} (dict : t2s).
Context (vector_for : string → option (list float)) (eng : option engine).

(** A successful computation: the events of the key, their contributions, and
    what is kept of them. *)
Lemma evidence_inv rd p q r : compute_evidence dict vector_for eng rd p q = Ok r →
  ∃ events cs,
    fr_active rd (or_query_point r) = Ok events ∧
    (q_as_of q = Some (or_query_point r) ∨ (q_as_of q = None ∧ fr_default_as_of rd = Ok (or_query_point r))) ∧
    or_same_key r = length (same_key q events) ∧ or_key r = query_key q ∧
    ((q_candidate_vectors q = None ∧ as_float_vector (q_vector q) = Ok (q_vector q) ∧
      plain_contributions vector_for eng p (q_vector q) (same_key q events) = Ok cs ∧
      or_kept r = (λ c, set_matched (matched_candidate dict (match_text dict <$> q_candidates q) (ct_event c)) c) <$> keep p cs) ∨
     (∃ vs, q_candidate_vectors q = Some vs ∧ mapM as_float_vector vs = Ok vs ∧
      conditioned_contributions dict vector_for eng p (match_text dict <$> q_candidates q) vs (same_key q events) = Ok cs ∧
      or_kept r = keep p cs)) ∧
    (or_candidates r, or_total_mass r) = aggregate p (length (q_candidates q)) (or_kept r).
Proof.
  unfold compute_evidence. intros Hrun. destruct (match q_as_of q with Some h => Ok h | None => _ end) as [as_of|] eqn:Has; [|done].
  cbn [mbind result_bind] in Hrun.
  assert (q_as_of q = Some as_of ∨ (q_as_of q = None ∧ fr_default_as_of rd = Ok as_of)) as Hpoint.
  { destruct (q_as_of q); [injection Has as ->; by left|by right]. }
  destruct (q_candidate_vectors q) as [vs|] eqn:Hcv.
  - destruct (mapM as_float_vector vs) as [vs'|] eqn:Hvs; [|done]. pose proof (as_float_vectors_id _ _ Hvs) as ->. cbn [mbind result_bind] in Hrun.
    destruct (fr_active rd as_of) as [events|] eqn:Hev; [|done]. cbn [mbind result_bind] in Hrun.
    destruct (conditioned_contributions _ _ _ _ _ _ _) as [cs|] eqn:Hcs; [|done]. cbn [mbind result_bind] in Hrun.
    destruct (aggregate _ _ _) as [cands total] eqn:Hagg. injection Hrun as <-. rewrite length_fmap in Hagg.
    exists events, cs. simpl. split_and!; try done. right. by exists vs.
  - destruct (as_float_vector (q_vector q)) as [v|] eqn:Hv; [|done]. pose proof (as_float_vector_id _ _ Hv) as ->. cbn [mbind result_bind] in Hrun.
    destruct (fr_active rd as_of) as [events|] eqn:Hev; [|done]. cbn [mbind result_bind] in Hrun.
    destruct (plain_contributions _ _ _ _ _) as [cs|] eqn:Hcs; [|done]. cbn [mbind result_bind] in Hrun.
    destruct (aggregate _ _ _) as [cands total] eqn:Hagg. injection Hrun as <-. rewrite length_fmap in Hagg.
    exists events, cs. simpl. split_and!; try done. by left.
Qed.

Lemma keep_elem p cs c : c ∈ keep p cs → c ∈ cs ∧ fltb fzero (ct_weight c) = true.
Proof.
  unfold keep. intros [i [Hi _]%lookup_take_Some]%list_elem_of_lookup. apply list_elem_of_lookup_2 in Hi.
  rewrite merge_sort_Permutation, list_elem_of_filter in Hi. tauto.
Qed.

Lemma keep_length p cs : 0 <= k_evidence p → Z.of_nat (length (keep p cs)) <= k_evidence p.
Proof. intros Hk. unfold keep. rewrite length_take. lia. Qed.

(** The parameters as the constructor accepts them, the inputs canonical, and
    powers of two with an exponent that is not positive between 0 and 1. *)
Record sound_inputs (p : oracle_params) (q : oracle_query) : Prop := {
  si_params : params_ok p = true;
  si_tau : valid (tau p); si_life : valid (half_life p); si_k : valid (saturation_k p);
  si_exp2 : ∀ x, fleb x fzero = true → in_unit (exp2 x);
  si_query : Forall valid (q_vector q) ∧ ∀ vs v, q_candidate_vectors q = Some vs → v ∈ vs → Forall valid v;
  si_sources : canonical_sources vector_for eng }.

(** Contributions above the threshold have weights between 0 and 1. *)
Lemma plain_good p q keyed cs : sound_inputs p q →
  plain_contributions vector_for eng p (q_vector q) keyed = Ok cs →
  ∀ c, c ∈ cs → fltb fzero (ct_weight c) = true → good_weight c.
Proof.
  intros [Hp Ht Hl Hk He [Hq _] Hs] Hcs c Hc Hpos.
  apply (plain_built _ _ valid) in Hcs; [|intros es cos; by apply cosines_of_valid].
  rewrite Forall_forall in Hcs. destruct (Hcs c Hc) as (i&e&cos&Hi&Hv&->).
  eapply contribute_good; try done. by eapply lookup_lt_Some.
Qed.

Lemma conditioned_good p q candidates vs keyed cs : sound_inputs p q → q_candidate_vectors q = Some vs →
  conditioned_contributions dict vector_for eng p candidates vs keyed = Ok cs →
  ∀ c, c ∈ cs → fltb fzero (ct_weight c) = true → good_weight c.
Proof.
  intros [Hp Ht Hl Hk He [_ Hq] Hs] Hcv Hcs c Hc Hpos.
  apply (conditioned_built _ _ _ valid) in Hcs.
  - rewrite Forall_forall in Hcs. destruct (Hcs c Hc) as (i&e&cos&Hi&Hv&->).
    eapply contribute_good; try done. by eapply lookup_lt_Some.
  - intros v es cos Hv. apply cosines_of_valid; [done|].
    destruct Hv as [->|Hv]; [constructor|by eapply Hq].
Qed.

Lemma kept_good rd p q r : sound_inputs p q → compute_evidence dict vector_for eng rd p q = Ok r →
  Forall good_weight (or_kept r) ∧ Z.of_nat (length (or_kept r)) <= k_evidence p.
Proof.
  intros Hin Hrun. destruct (evidence_inv _ _ _ _ Hrun) as (events&cs&_&_&_&_&Hkept&_).
  assert (0 <= k_evidence p) as Hk0 by (pose proof (si_params _ _ Hin) as Hp; unfold params_ok in Hp; bool_to_prop; lia).
  pose proof (keep_length p cs Hk0) as Hlen. destruct Hkept as [(_&_&Hcs&->)|(vs&Hvs&_&Hcs&->)].
  - rewrite length_fmap. split; [|done]. apply Forall_fmap, Forall_forall. intros c [Hc Hpos]%keep_elem.
    by apply (plain_good _ _ _ _ Hin Hcs c Hc).
  - split; [|done]. apply Forall_forall. intros c [Hc Hpos]%keep_elem. by eapply conditioned_good.
Qed.
End results.

Lemma evidence_bounded `{Unicode} `{Libm} dict vector_for eng rd p q r :
  sound_inputs vector_for eng p q → k_evidence p <= 2 ^ 53 → Z.of_nat (length (q_candidates q)) <= 2 ^ 53 →
  compute_evidence dict vector_for eng rd p q = Ok r →
  length (or_candidates r) = length (q_candidates q) ∧ unsigned (or_total_mass r) ∧
  Forall (λ ms, unsigned ms.1 ∧ is_finite ms.1 = true ∧ fleb ms.1 (or_total_mass r) = true ∧ in_unit ms.2 ∧
                (fltb fzero (or_total_mass r) = false → ms.2 = fzero)) (or_candidates r).
Proof.
  intros Hin Hk Hn Hrun. destruct (kept_good _ _ _ _ _ _ _ Hin Hrun) as [Hgood Hlen].
  destruct (evidence_inv _ _ _ _ _ _ _ Hrun) as (_&_&_&_&_&_&_&Hagg). unfold aggregate in Hagg.
  injection Hagg as Hc Ht. destruct (masses_bounded (length (q_candidates q)) (or_kept r)) as [Hm Hml]; [done|lia|].
  set (m := masses _ _) in *.
  assert (Forall (bounded 1 53) m) as Hm1.
  { eapply Forall_impl; [exact Hm|]. intros x [Hu Ha]. split; [done|]. destruct x as [| | |s mm e]; try done.
    simpl in Ha |- *. eapply scaled_le_trans; [exact Ha|]. unfold scaled_le. rewrite Z.min_l by lia. lia. }
  destruct (py_sum_bounded m Hm1 ltac:(lia)) as [[Htu Hta] Hge]. rewrite <- Ht in *.
  split_and!; [by rewrite Hc, length_fmap|done|]. rewrite Hc. apply Forall_fmap, Forall_forall. intros x Hx. simpl.
  rewrite Forall_forall in Hm1, Hge. destruct (Hm1 x Hx) as [Hxu Hxa]. specialize (Hge x Hx).
  pose proof (at_most_finite _ _ _ Hxa). destruct Hin as [Hp _ _ Hkv _ _ _]. unfold params_ok in Hp. bool_to_prop.
  split_and!; [done..| |].
  - apply score_in_unit; try done. destruct (saturation_k p) as [s|s| |s mm e]; try done; destruct s; try done.
    split; [done|]. by apply valid_finite in Hkv.
  - intros Hz. unfold score. by rewrite Hz.
Qed.

(** The evidence is bounded in floating-point arithmetic: every candidate gets
    a mass that is not negative, finite and at most the total, and a score between
    0 and 1, which is zero when the total is. *)
Theorem evidence_is_bounded `{Unicode} `{Libm} dict vector_for eng rd p q r :
  sound_inputs vector_for eng p q → k_evidence p <= 2 ^ 53 → Z.of_nat (length (q_candidates q)) <= 2 ^ 53 →
  compute_evidence dict vector_for eng rd p q = Ok r →
  length (or_candidates r) = length (q_candidates q) ∧ unsigned (or_total_mass r) ∧
  Forall (λ ms, unsigned ms.1 ∧ is_finite ms.1 = true ∧ fleb ms.1 (or_total_mass r) = true ∧ in_unit ms.2 ∧
                (fltb fzero (or_total_mass r) = false → ms.2 = fzero)) (or_candidates r).
Proof. apply evidence_bounded. Qed.

(** ** The heaviest events *)

(** [a] comes before [b] among weights that are positive numbers. *)
Definition heavier (a b : contribution) : Prop :=
  kept_le a b ∧ unsigned (ct_weight a) ∧ unsigned (ct_weight b).

Lemma not_lighter x y : unsigned x → unsigned y → fltb y x = false → fleb x y = true.
Proof. intros Hx Hy Hlt. destruct (fleb x y) eqn:E; [done|]. apply fleb_total in E; [congruence|done..]. Qed.

Lemma fltb_not_fleb x y : unsigned x → unsigned y → fltb x y = true → fleb y x = false.
Proof.
  intros Hx Hy Hlt. destruct (fleb y x) eqn:E; [|done]. exfalso.
  destruct x as [s|s| |s p e], y as [t|t| |t p' e']; simpl in Hx, Hy; destruct_and?; subst; try done.
  unfold fltb, SFltb, fleb, SFleb, SFcompare in *. change (Pos.compare_cont Eq ?a ?b) with (Pos.compare a b) in *.
  rewrite (Z.compare_antisym e e') in E. rewrite (Pos.compare_antisym p p') in E.
  destruct (e ?= e'); try done. by destruct (p ?= p')%positive.
Qed.

Lemma kept_le_weight a b : heavier a b → fleb (ct_weight b) (ct_weight a) = true.
Proof.
  intros ([Hlt|[Hlt _]]&Ha&Hb); [by apply fltb_fleb|]. by apply not_lighter.
Qed.

#[export] Instance heavier_trans : Transitive heavier.
Proof.
  intros a b c Hab Hbc. pose proof (kept_le_weight _ _ Hab) as H1. pose proof (kept_le_weight _ _ Hbc) as H2.
  destruct Hab as (Hab&Ha&Hb), Hbc as (Hbc&_&Hc). split; [|done].
  pose proof (fleb_trans _ _ _ Hc Hb Ha H2 H1) as Hca.
  unfold kept_le in *. destruct (fltb (ct_weight c) (ct_weight a)) eqn:E; [by left|right].
  assert (fleb (ct_weight a) (ct_weight c) = true) as Hac by by apply not_lighter.
  split; [destruct (fltb (ct_weight a) (ct_weight c)) eqn:E'; [|done]; apply fltb_not_fleb in E'; [congruence|done..]|].
  destruct Hab as [Hlt|[_ Hs1]]; [apply fltb_not_fleb in Hlt; [|done..]|destruct Hbc as [Hlt|[_ Hs2]]].
  - rewrite (fleb_trans _ _ _ Ha Hc Hb Hac H2) in Hlt. done.
  - apply fltb_not_fleb in Hlt; [|done..]. rewrite (fleb_trans _ _ _ Hb Ha Hc H1 Hac) in Hlt. done.
  - by transitivity (ev_stamp (ct_event b)).
Qed.

#[export] Instance kept_le_total : Total kept_le.
Proof.
  intros a b. unfold kept_le. destruct (fltb (ct_weight b) (ct_weight a)) eqn:E1; [by left; left|].
  destruct (fltb (ct_weight a) (ct_weight b)) eqn:E2; [by right; left|].
  destruct (total stamp_le (ev_stamp (ct_event a)) (ev_stamp (ct_event b))); [left|right]; by right.
Qed.

Lemma positive_unsigned x : valid x → fltb fzero x = true → unsigned x.
Proof. intros Hv. destruct x as [s|s| |s p e]; try done; destruct s; try done. intros _. split; [done|]. by apply valid_finite in Hv. Qed.

(** [kept] are the [k] heaviest of the contributions above the threshold: all of
    them when there are no more than [k], that many otherwise, in order, and none
    that was cut precedes one that was kept. *)
Definition heaviest (k : nat) (cs kept : list contribution) : Prop :=
  let passed := filter (λ c, fltb fzero (ct_weight c) = true) cs in
  ∃ cut, passed ≡ₚ kept ++ cut ∧ length kept = Nat.min k (length passed) ∧
    StronglySorted heavier kept ∧ ∀ a b, a ∈ kept → b ∈ cut → heavier a b.

Lemma keep_heaviest p cs :
  (∀ c, c ∈ cs → fltb fzero (ct_weight c) = true → unsigned (ct_weight c)) →
  heaviest (Z.to_nat (k_evidence p)) cs (keep p cs).
Proof.
  intros Hv. unfold heaviest. set (passed := filter _ cs). set (l := merge_sort kept_le passed).
  assert (StronglySorted heavier l) as Hs.
  { assert (Forall (λ c, unsigned (ct_weight c)) l) as Hu.
    { unfold l. rewrite merge_sort_Permutation. apply Forall_forall.
      intros c [Hpos Hc]%list_elem_of_filter. by apply Hv. }
    apply Sorted_StronglySorted; [apply _|]. pose proof (Sorted_merge_sort kept_le passed) as Hsort.
    fold l in Hsort. clearbody l. induction Hsort as [|c l Hs IH Hh]; [constructor|].
    apply Forall_cons in Hu as [Hc Hu]. constructor; [by apply IH|].
    destruct Hh as [|d l Hcd]; constructor. apply Forall_cons in Hu as [Hd _]. done. }
  exists (drop (Z.to_nat (k_evidence p)) l). unfold keep. fold passed l. split_and!.
  - rewrite take_drop. unfold l. by rewrite merge_sort_Permutation.
  - rewrite length_take. unfold l. by rewrite merge_sort_Permutation.
  - rewrite <- (take_drop (Z.to_nat (k_evidence p)) l) in Hs. by apply StronglySorted_app_1_l in Hs.
  - intros a b Ha Hb. rewrite <- (take_drop (Z.to_nat (k_evidence p)) l) in Hs.
    by eapply (StronglySorted_app_1_elem_of heavier).
Qed.

Lemma heavier_set_matched (f : contribution → option nat) a b :
  heavier a b → heavier (set_matched (f a) a) (set_matched (f b) b).
Proof. done. Qed.

Lemma heaviest_set_matched (f : contribution → option nat) k cs kept :
  heaviest k cs kept →
  heaviest k ((λ c, set_matched (f c) c) <$> cs) ((λ c, set_matched (f c) c) <$> kept).
Proof.
  set (g := λ c, set_matched (f c) c). unfold heaviest.
  assert (filter (λ c, fltb fzero (ct_weight c) = true) (g <$> cs) =
          g <$> filter (λ c, fltb fzero (ct_weight c) = true) cs) as ->.
  { induction cs as [|c cs IH]; [done|]. rewrite fmap_cons, !filter_cons, IH. simpl. by case_decide. }
  intros (cut&Hp&Hl&Hs&Hc). exists (g <$> cut). split_and!.
  - by rewrite Hp, fmap_app.
  - by rewrite !length_fmap.
  - clear -Hs. induction Hs as [|c l _ IH Hall]; [constructor|]. rewrite fmap_cons.
    constructor; [done|]. by apply Forall_fmap.
  - intros a b (a'&->&Ha)%list_elem_of_fmap (b'&->&Hb)%list_elem_of_fmap.
    by apply heavier_set_matched, Hc.
Qed.

(** What is kept are the heaviest events above the threshold; each weight is
    computed before the cut. *)
Theorem kept_are_the_heaviest p cs :
  Forall (λ c, valid (ct_weight c)) cs → heaviest (Z.to_nat (k_evidence p)) cs (keep p cs).
Proof.
  intros Hv. apply keep_heaviest. intros c Hc Hpos. rewrite Forall_forall in Hv.
  by apply positive_unsigned; [apply Hv|].
Qed.

(** ** The formula *)

(** The number of elements after position [i] of a strictly sorted list. *)
Lemma later_count (l : list stored_event) i e :
  StronglySorted (by_stamp ev_stamp) l → NoDup (ev_id <$> l) → l !! i = Some e →
  length (filter (λ e', ¬ stamp_le (ev_stamp e') (ev_stamp e)) l) = (length l - 1 - i)%nat.
Proof.
  intros Hs. revert i. induction Hs as [|x l Hs IH Hall]; intros i Hnd Hi; [done|].
  rewrite fmap_cons, NoDup_cons in Hnd. destruct Hnd as [Hx Hnd]. destruct i as [|i]; simpl in Hi.
  - injection Hi as ->. rewrite filter_cons_False by (intros Hn; by apply Hn; right).
    simpl. rewrite Nat.sub_0_r, Nat.sub_0_r.
    assert (filter (λ e', ¬ stamp_le (ev_stamp e') (ev_stamp e)) l = l) as ->; [|done].
    clear IH Hs Hnd. induction l as [|y l IH]; [done|]. apply Forall_cons in Hall as [Hy Hall].
    rewrite fmap_cons, not_elem_of_cons in Hx. destruct Hx as [Hxy Hx].
    rewrite filter_cons_True; [by rewrite IH|]. intros Hle. apply Hxy.
    assert (ev_stamp e = ev_stamp y) as Heq by by apply (anti_symm stamp_le). by injection Heq.
  - rewrite Forall_forall in Hall. apply list_elem_of_lookup_2 in Hi as Hin. specialize (Hall _ Hin).
    rewrite filter_cons_False by (intros Hn; by apply Hn). rewrite (IH i); [|done..]. simpl. lia.
Qed.

Lemma masses_length n kept : length (masses n kept) = n.
Proof.
  unfold masses. induction kept as [|c kept IH] using rev_ind; [apply length_replicate|].
  rewrite foldl_app. simpl. destruct (ct_matched c); [by rewrite length_alter|done].
Qed.

Lemma masses_lookup n kept i x : masses n kept !! i = Some x →
  x = py_sum (ct_weight <$> filter (λ c, ct_matched c = Some i) kept).
Proof.
  unfold masses, py_sum. revert x. induction kept as [|c kept IH] using rev_ind; intros x.
  - simpl. by intros [-> _]%lookup_replicate.
  - rewrite foldl_app, filter_app, fmap_app, foldl_app. simpl. rewrite filter_cons, filter_nil.
    destruct (ct_matched c) as [j|]; [|rewrite decide_False by done; by apply IH].
    destruct (decide (j = i)) as [->|Hne].
    + rewrite decide_True, list_lookup_alter_eq by done. intros (y&Hy&->)%fmap_Some. simpl. by rewrite <- (IH y).
    + rewrite decide_False by congruence. rewrite list_lookup_alter_ne by done. by apply IH.
Qed.

Lemma same_key_sorted `{Unicode} q events : StronglySorted (by_stamp ev_stamp) (same_key q events).
Proof. apply (StronglySorted_merge_sort _). Qed.

(** The active events of the key that are later than [e] in fact order. *)
Definition later_events `{Unicode} (q : oracle_query) (events : list stored_event) (e : stored_event)
    : list stored_event :=
  filter (λ e', ¬ stamp_le (ev_stamp e') (ev_stamp e))
    (filter (λ e', ev_id e' ∉ q_exclude q ∧ event_key e' = query_key q) events).

(** *** The cosines *)

(** [c] is the cosine of the event [e] with [v]: the scalar one, or what the
    engine answered for the event when asked with [v]. *)
Definition measured vector_for (eng : option engine) (v : list float) (e : stored_event) (c : float) : Prop :=
  match eng with
  | None => scalar_cosine vector_for v e = Ok c
  | Some g => ∃ ids b, ev_id e ∈ ids ∧ g v ids = Some b ∧ engine_cosine b (ev_id e) = Ok c
  end.

(** The same, said of the event's own vector. *)
Definition own_cosine (vector_for : string → option (list float)) (eng : option engine) (v : list float)
    (e : stored_event) (c : float) : Prop :=
  match eng with
  | None => ∃ v', vector_for (ev_id e) = Some v' ∧ length v' = length v ∧ cosine v v' = Ok c
  | Some g => ∃ ids b, ev_id e ∈ ids ∧ g v ids = Some b ∧ b !! ev_id e = Some (Some c) ∧ is_finite c = true
  end.

Lemma measured_own vector_for eng v e c : measured vector_for eng v e c → own_cosine vector_for eng v e c.
Proof.
  destruct eng as [g|]; simpl.
  - intros (ids&b&Hin&Hg&Hb). exists ids, b. unfold engine_cosine in Hb.
    destruct (b !! ev_id e) as [[x|]|] eqn:E; try done. destruct (is_finite x) eqn:Hf; [|done]. by injection Hb as <-.
  - unfold scalar_cosine. destruct (vector_for (ev_id e)) as [v'|]; [|done].
    intros (v2&Hv2%as_float_vector_id&Hc)%bind_Ok. subst v2.
    destruct (Nat.eqb_spec (length v') (length v)); [|done]. by exists v'.
Qed.

Lemma cosines_measured vector_for eng v es cos :
  cosines_of vector_for eng v es = Ok cos → Forall2 (measured vector_for eng v) es cos.
Proof.
  unfold cosines_of. destruct eng as [g|]; [|by rewrite mapM_Forall2].
  unfold ask_engine. destruct (g v _) as [b|] eqn:Hg; simpl; [|done]. rewrite mapM_Forall2. intros Hall.
  apply Forall2_same_length_lookup_2; [by apply Forall2_length in Hall|].
  intros i e c He Hc. exists (ev_id <$> es), b. split_and!; [|done|].
  - apply list_elem_of_fmap_2. by eapply list_elem_of_lookup_2.
  - by apply (Forall2_lookup_lr _ _ _ _ _ _ Hall He Hc).
Qed.

Lemma cosines_of_length vector_for eng v es cos :
  cosines_of vector_for eng v es = Ok cos → length cos = length es ∧ Forall (λ _, True) cos.
Proof. intros Hc%cosines_measured%Forall2_length. split; [done|by apply Forall_true]. Qed.

(** *** Groups of matched events *)

Section groups.
Context `{Unicode} `{Libm} (dict : t2s) (vector_for : string → option (list float)) (eng : option engine).

Lemma group_add_flat i e g : concat (group_add i e g).*2 ≡ₚ e :: concat g.*2.
Proof.
  induction g as [|[j es] g IH]; [done|]. simpl. case_decide as Hij; rewrite !fmap_cons; cbn [fst snd concat].
  - rewrite <- app_assoc. symmetry. apply Permutation_middle.
  - rewrite IH. symmetry. apply Permutation_middle.
Qed.

Lemma group_add_elem i e g j x :
  (∃ es, (j, es) ∈ group_add i e g ∧ x ∈ es) ↔ (j = i ∧ x = e) ∨ ∃ es, (j, es) ∈ g ∧ x ∈ es.
Proof.
  induction g as [|[k es] g IH]; simpl.
  { split.
    - intros (es&[= -> ->]%list_elem_of_singleton&->%list_elem_of_singleton). by left.
    - intros [[-> ->]|(es&[]%not_elem_of_nil&_)]. exists [e]. by split; left. }
  case_decide as Hik; [subst k|].
  - setoid_rewrite elem_of_cons. split.
    + intros (es'&[[= -> ->]|Hin]&Hx); [|right; exists es'; tauto].
      apply elem_of_app in Hx as [Hx| ->%list_elem_of_singleton]; [right; exists es; tauto|by left].
    + intros [[-> ->]|(es'&[[= -> ->]|Hin]&Hx)]; [exists (es ++ [e])|exists (es ++ [e])|exists es'; tauto].
      * split; [by left|]. apply elem_of_app. right. by left.
      * split; [by left|]. apply elem_of_app. by left.
  - setoid_rewrite elem_of_cons. split.
    + intros (es'&[[= -> ->]|Hin]&Hx); [right; exists es; tauto|].
      destruct (proj1 IH) as [?|(es0&?&?)]; [by exists es'|by left|right; exists es0; tauto].
    + intros [Heq|(es'&[[= -> ->]|Hin]&Hx)]; [|exists es; tauto|].
      * destruct (proj2 IH (or_introl Heq)) as (es0&?&?). exists es0. tauto.
      * destruct (proj2 IH) as (es0&?&?); [right; by exists es'|]. exists es0. tauto.
Qed.

Lemma events_by_candidate_spec candidates l :
  let g := events_by_candidate dict candidates l in
  (∀ j x, (∃ es, (j, es) ∈ g ∧ x ∈ es) ↔ x ∈ l ∧ matched_candidate dict candidates x = Some j) ∧
  concat g.*2 ≡ₚ filter (λ e, is_Some (matched_candidate dict candidates e)) l.
Proof.
  unfold events_by_candidate. induction l as [|e l [IH1 IH2]] using rev_ind; [split; [set_solver|done]|].
  rewrite foldl_app. simpl. rewrite filter_app, filter_cons, filter_nil. destruct (matched_candidate dict candidates e) as [i|] eqn:Hm.
  - rewrite decide_True by done. split.
    + intros j x. rewrite group_add_elem, IH1, elem_of_app, list_elem_of_singleton. naive_solver.
    + rewrite group_add_flat, IH2. by rewrite Permutation_app_comm.
  - rewrite decide_False by (intros [? ?]; done). rewrite app_nil_r. split; [|done].
    intros j x. rewrite IH1, elem_of_app, list_elem_of_singleton. naive_solver.
Qed.

(** A fold of inserts over distinct ids: the ids inserted, and no others. *)
Lemma inserted_lookup (l : list (stored_event * float)) (m : gmap string float) :
  NoDup (ev_id ∘ fst <$> l) →
  let m' := foldl (λ m ec, <[ev_id ec.1 := ec.2]> m) m l in
  (∀ e c, (e, c) ∈ l → m' !! ev_id e = Some c) ∧ (∀ id, id ∉ ev_id ∘ fst <$> l → m' !! id = m !! id).
Proof.
  revert m. induction l as [|[e c] l IH]; intros m; [set_solver|]. rewrite fmap_cons, NoDup_cons. intros [Hni Hnd].
  destruct (IH (<[ev_id e := c]> m) Hnd) as [IH1 IH2]. simpl in *. split.
  - intros e' c' [[= -> ->]|Hin]%elem_of_cons; [|by apply IH1]. rewrite IH2 by done. apply lookup_insert_eq.
  - intros id Hid. rewrite not_elem_of_cons in Hid. destruct Hid. rewrite IH2 by done. by apply lookup_insert_ne.
Qed.

Lemma grouped_lookup vs groups m0 m :
  grouped_cosines vector_for eng vs groups m0 = Ok m → NoDup (ev_id <$> concat groups.*2) →
  (∀ j es e, (j, es) ∈ groups → e ∈ es → ∃ c, measured vector_for eng (default [] (vs !! j)) e c ∧ m !! ev_id e = Some c) ∧
  (∀ id, id ∉ ev_id <$> concat groups.*2 → m !! id = m0 !! id).
Proof.
  revert m0. induction groups as [|[i es] groups IH]; intros m0; simpl.
  { intros [= ->] _. split; [by intros ??? ?%not_elem_of_nil|done]. }
  intros (cos&Hcos&Hrest)%bind_Ok. rewrite fmap_app, NoDup_app. intros (Hnd1&Hdis&Hnd2).
  destruct (IH _ Hrest Hnd2) as [IH1 IH2]. apply cosines_measured in Hcos.
  assert (ev_id ∘ fst <$> zip es cos = ev_id <$> es) as Hids.
  { rewrite list_fmap_compose. f_equal. apply fst_zip. by rewrite (Forall2_length _ _ _ Hcos). }
  destruct (inserted_lookup (zip es cos) m0) as [Hin Hout]; [by rewrite Hids|]. rewrite Hids in Hout. split.
  - intros j es' e [[= -> ->]|Hj]%elem_of_cons He; [|by eapply IH1].
    apply list_elem_of_lookup in He as [k Hk]. destruct (Forall2_lookup_l _ _ _ _ _ Hcos Hk) as (c&Hc&Hs).
    exists c. split; [done|]. rewrite IH2.
    + apply Hin, (list_elem_of_lookup_2 _ k). by rewrite lookup_zip_with, Hk, Hc.
    + intros Hbad. eapply Hdis, Hbad. apply list_elem_of_fmap. exists e. split; [done|]. by eapply list_elem_of_lookup_2.
  - intros id. rewrite not_elem_of_app. intros [? ?]. by rewrite IH2, Hout.
Qed.

(** On the conditioned path an event has the cosine with the vector of the
    candidate it selected. *)
Lemma conditioned_cosines candidates vs keyed m :
  NoDup (ev_id <$> keyed) →
  grouped_cosines vector_for eng vs (events_by_candidate dict candidates keyed) ∅ = Ok m →
  ∀ e, e ∈ keyed →
    match matched_candidate dict candidates e with
    | Some i => ∃ c, measured vector_for eng (default [] (vs !! i)) e c ∧ m !! ev_id e = Some c
    | None => m !! ev_id e = None
    end.
Proof.
  intros Hnd Hm e He. destruct (events_by_candidate_spec candidates keyed) as [Hg Hflat].
  assert (NoDup (ev_id <$> concat (events_by_candidate dict candidates keyed).*2)) as Hndg.
  { rewrite Hflat. by apply nodup_ids_filter. }
  destruct (grouped_lookup _ _ _ _ Hm Hndg) as [Hin Hout].
  destruct (matched_candidate dict candidates e) as [i|] eqn:Hi.
  - destruct (proj2 (Hg i e) (conj He Hi)) as (es&Hes&Hx). by eapply Hin.
  - rewrite Hout, lookup_empty; [done|]. rewrite Hflat. intros (e'&Hid&[[? Hs] He']%list_elem_of_filter)%list_elem_of_fmap.
    assert (e = e') as ->; [|congruence]. apply list_elem_of_lookup in He as [a Ha], He' as [b Hb].
    assert (a = b) as ->; [|congruence]. eapply (NoDup_lookup (ev_id <$> keyed)); [done|rewrite list_lookup_fmap, Ha; done|].
    rewrite list_lookup_fmap, Hb. simpl. by rewrite Hid.
Qed.

(** A contribution of the [i]-th event of the key, with that event's cosine. *)
Definition made (Q : stored_event → float → Prop) (match_of : stored_event → option nat)
    (p : oracle_params) (keyed : list stored_event) (c : contribution) : Prop :=
  ∃ i e cos, keyed !! i = Some e ∧ Q e cos ∧ c = contribute p (length keyed) i e cos (match_of e).

Lemma plain_made p v keyed cs :
  plain_contributions vector_for eng p v keyed = Ok cs →
  ct_event <$> cs = keyed ∧ Forall (made (measured vector_for eng v) (λ _, None) p keyed) cs.
Proof.
  unfold plain_contributions. intros (cos&Hcos%cosines_measured&[= <-])%bind_Ok. split.
  - apply list_eq. intros i. rewrite list_lookup_fmap, list_lookup_imap, lookup_zip_with.
    destruct (keyed !! i) as [e|] eqn:He; [|done]. simpl.
    by destruct (Forall2_lookup_l _ _ _ _ _ Hcos He) as (c&->&_).
  - apply Forall_lookup. intros i c. rewrite list_lookup_imap. intros ([e cos']&Hec&->)%fmap_Some.
    apply lookup_zip_Some in Hec as [He Hc]. exists i, e, cos'. split_and!; [done| |done].
    by apply (Forall2_lookup_lr _ _ _ _ _ _ Hcos He Hc).
Qed.

Lemma contributions_events p n (match_of : stored_event → option nat) (m : gmap string float) (l : list (nat * stored_event)) :
  (∀ ie, ie ∈ l → is_Some (m !! ev_id ie.2) ↔ is_Some (match_of ie.2)) →
  ct_event <$> omap (λ ie, (λ c, contribute p n ie.1 ie.2 c (match_of ie.2)) <$> m !! ev_id ie.2) l =
  filter (λ e, is_Some (match_of e)) l.*2.
Proof.
  induction l as [|[i e] l IH]; intros Hm; [done|]. cbn [omap list_omap]. rewrite fmap_cons, filter_cons. simpl.
  assert (is_Some (m !! ev_id e) ↔ is_Some (match_of e)) as He by (apply (Hm (i, e)); by left).
  rewrite <- IH by (intros ie Hie; apply Hm; by right).
  destruct (m !! ev_id e) as [c|]; simpl.
  - rewrite decide_True by (apply He; eauto). done.
  - rewrite decide_False; [done|]. by intros [? ?]%He.
Qed.

Lemma conditioned_made p candidates vs keyed cs :
  NoDup (ev_id <$> keyed) →
  conditioned_contributions dict vector_for eng p candidates vs keyed = Ok cs →
  let match_of := matched_candidate dict candidates in
  ct_event <$> cs = filter (λ e, is_Some (match_of e)) keyed ∧
  Forall (made (λ e cos, ∃ i, match_of e = Some i ∧ measured vector_for eng (default [] (vs !! i)) e cos)
            match_of p keyed) cs.
Proof.
  intros Hnd Hcs match_of. unfold conditioned_contributions in Hcs. apply bind_Ok in Hcs as (m&Hm&[= <-]).
  pose proof (conditioned_cosines _ _ _ _ Hnd Hm) as Hcos.
  assert (∀ i e, (i, e) ∈ imap pair keyed → keyed !! i = Some e) as Hpair.
  { intros i e [j Hj]%list_elem_of_lookup. rewrite list_lookup_imap in Hj.
    by apply fmap_Some in Hj as (x&Hx&[= -> ->]). }
  split.
  - rewrite contributions_events.
    + f_equal. apply list_eq. intros i. rewrite list_lookup_fmap, list_lookup_imap. by destruct (keyed !! i).
    + intros [i e] Hie%Hpair%list_elem_of_lookup_2. specialize (Hcos e Hie). simpl. unfold match_of.
      destruct (matched_candidate dict candidates e) as [k|]; [|by rewrite Hcos].
      destruct Hcos as (c&_&->). split; eauto.
  - apply Forall_forall. intros c ([i e]&Hie%Hpair&Hc)%list_elem_of_omap. simpl in Hc.
    apply fmap_Some in Hc as (cos&Hcos'&->). specialize (Hcos e (list_elem_of_lookup_2 _ _ _ Hie)).
    exists i, e, cos. split_and!; [done| |done]. unfold match_of.
    destruct (matched_candidate dict candidates e) as [k|]; [|congruence].
    destruct Hcos as (c&Hmc&Hc). exists k. split; [done|]. congruence.
Qed.
End groups.

(** *** The specification *)

Section formula.
Context `{Unicode} `{Libm} (dict : t2s) (vector_for : string → option (list float)) (eng : option engine).

Definition match_of (q : oracle_query) (e : stored_event) : option nat :=
  matched_candidate dict (match_text dict <$> q_candidates q) e.

(** The vector an event is compared with: the one of the query, or that of the
    candidate the event selected. *)
Definition compared_with (q : oracle_query) (e : stored_event) : option (list float) :=
  match q_candidate_vectors q with
  | None => Some (q_vector q)
  | Some vs => (λ i, default [] (vs !! i)) <$> match_of q e
  end.

(** The events that are evidence: not excluded, of the key of the query, and
    compared with a vector. *)
Definition is_evidence (q : oracle_query) (e : stored_event) : Prop :=
  ev_id e ∉ q_exclude q ∧ event_key e = query_key q ∧ is_Some (compared_with q e).
#[global] Instance is_evidence_dec q e : Decision (is_evidence q e).
Proof. unfold is_evidence. apply _. Defined.

Record follows_formula (p : oracle_params) (q : oracle_query) (events : list stored_event) (c : contribution) : Prop := {
  ff_cosine : ∃ v, compared_with q (ct_event c) = Some v ∧ own_cosine vector_for eng v (ct_event c) (ct_cosine c);
  ff_relevance : ct_relevance c = py_min (py_max (fdiv (fsub (ct_cosine c) (tau p)) (fsub fone (tau p))) fzero) fone;
  ff_age : ct_age c = Z.of_nat (length (later_events q events (ct_event c)));
  ff_factor : ct_factor c = age_factor (ct_age c) (half_life p);
  ff_weight : ct_weight c = fmul (ct_relevance c) (ct_factor c);
  ff_matched : ct_matched c = match_of q (ct_event c) }.

Lemma later_age q events i e : NoDup (ev_id <$> events) → same_key q events !! i = Some e →
  Z.of_nat (length (same_key q events)) - 1 - Z.of_nat i = Z.of_nat (length (later_events q events e)).
Proof.
  intros Hnd Hi. pose proof (lookup_lt_Some _ _ _ Hi).
  pose proof (later_count _ i e (same_key_sorted q events) ltac:(by apply sort_by_nodup, nodup_ids_filter) Hi) as Hcount.
  assert (length (filter (λ e', ¬ stamp_le (ev_stamp e') (ev_stamp e)) (same_key q events)) =
          length (later_events q events e)) as Hl.
  { unfold same_key, sort_by, later_events. by rewrite merge_sort_Permutation. }
  lia.
Qed.

Lemma made_follows (Q : stored_event → float → Prop) f p q events c :
  NoDup (ev_id <$> events) →
  (∀ e cos, Q e cos → ∃ v, compared_with q e = Some v ∧ measured vector_for eng v e cos) →
  made Q f p (same_key q events) c → follows_formula p q events (set_matched (match_of q (ct_event c)) c).
Proof.
  intros Hnd HQ (i&e&cos&Hi&Hcos&->). split; simpl; try done.
  - destruct (HQ _ _ Hcos) as (v&?&?%measured_own). by exists v.
  - by apply later_age.
Qed.

Lemma filter_everything {A} (P : A → Prop) `{∀ x, Decision (P x)} (l : list A) : (∀ x, P x) → filter P l = l.
Proof. intros HP. induction l as [|x l IH]; [done|]. by rewrite filter_cons_True, IH. Qed.

Lemma evidence_events q events :
  filter (λ e, is_Some (compared_with q e)) (same_key q events) ≡ₚ filter (is_evidence q) events.
Proof.
  unfold same_key, sort_by. rewrite merge_sort_Permutation, list_filter_filter.
  rewrite (list_filter_iff _ (is_evidence q)); [done|]. intros e. unfold is_evidence. tauto.
Qed.

(** The contributions of a successful computation, matched, and what is kept of
    them. *)
Lemma evidence_contributions rd p q r events :
  sound_inputs vector_for eng p q → fr_active rd (or_query_point r) = Ok events → NoDup (ev_id <$> events) →
  compute_evidence dict vector_for eng rd p q = Ok r →
  ∃ cs, ct_event <$> cs ≡ₚ filter (is_evidence q) events ∧
    Forall (follows_formula p q events) cs ∧ heaviest (Z.to_nat (k_evidence p)) cs (or_kept r).
Proof.
  intros Hin Hev Hnd Hrun.
  destruct (evidence_inv _ _ _ _ _ _ _ Hrun) as (events'&cs&Hev'&_&_&_&Hkept&_).
  rewrite Hev in Hev'. injection Hev' as <-. destruct Hkept as [(Hcv&_&Hcs&Hk)|(vs&Hcv&_&Hcs&Hk)].
  - assert (heaviest (Z.to_nat (k_evidence p)) cs (keep p cs)) as Hheavy.
    { apply keep_heaviest. intros c Hc Hpos. by eapply plain_good. }
    apply plain_made in Hcs as [Hce Hmade].
    exists ((λ c, set_matched (match_of q (ct_event c)) c) <$> cs). split_and!.
    + rewrite <- evidence_events, <- list_fmap_compose. change (_ ∘ _) with ct_event. rewrite Hce.
      rewrite filter_everything; [done|]. intros e. unfold compared_with. rewrite Hcv. eauto.
    + apply Forall_fmap. eapply Forall_impl; [exact Hmade|]. intros c. apply made_follows; [done|].
      intros e cos Hcos. exists (q_vector q). unfold compared_with. by rewrite Hcv.
    + rewrite Hk. by apply heaviest_set_matched.
  - assert (heaviest (Z.to_nat (k_evidence p)) cs (keep p cs)) as Hheavy.
    { apply keep_heaviest. intros c Hc Hpos. by eapply (conditioned_good dict). }
    apply conditioned_made in Hcs as [Hce Hmade]; [|by apply sort_by_nodup, nodup_ids_filter].
    exists cs. split_and!.
    + rewrite <- evidence_events, Hce.
      rewrite (list_filter_iff _ (λ e, is_Some (compared_with q e))); [done|].
      intros e. unfold compared_with. rewrite Hcv. by rewrite fmap_is_Some.
    + rewrite Forall_forall in Hmade. apply Forall_forall. intros c Hc. specialize (Hmade c Hc).
      assert (c = set_matched (match_of q (ct_event c)) c) as -> by (by destruct Hmade as (i&e&cos&_&_&->)).
      eapply made_follows, Hmade; [done|]. intros e cos (i&Hi&Hcos). exists (default [] (vs !! i)).
      unfold compared_with, match_of. by rewrite Hcv, Hi.
    + by rewrite Hk.
Qed.

(** C10: the evidence is the formula of the specification.  The contributing
    events are exactly the active events of the key that are not excluded and (with
    candidate vectors) select one of the candidates; each is given the cosine of its
    own vector with the query's, or with the vector of the candidate it selected (or
    what the engine answered for that event), the relevance and weight computed from
    it, decayed by the number of active events of the key that are later in fact
    order, and the candidate its selection equals after simplification.  Kept are the
    [k_evidence] heaviest of positive weight; the mass of a candidate is the sum of
    the weights of its kept events, the total is the sum of the masses, and the
    score is the one of the formula. *)
Theorem evidence_follows_the_formula rd p q r events :
  sound_inputs vector_for eng p q → fr_active rd (or_query_point r) = Ok events → NoDup (ev_id <$> events) →
  compute_evidence dict vector_for eng rd p q = Ok r →
  (∃ cs, ct_event <$> cs ≡ₚ filter (is_evidence q) events ∧
    Forall (follows_formula p q events) cs ∧ heaviest (Z.to_nat (k_evidence p)) cs (or_kept r)) ∧
  length (or_candidates r) = length (q_candidates q) ∧ or_total_mass r = py_sum (or_candidates r).*1 ∧
  ∀ i m s, or_candidates r !! i = Some (m, s) →
    m = py_sum (ct_weight <$> filter (λ c, ct_matched c = Some i) (or_kept r)) ∧
    s = if fltb fzero (or_total_mass r)
        then fmul (fdiv m (or_total_mass r)) (fdiv m (fadd m (saturation_k p))) else fzero.
Proof.
  intros Hin Hev Hnd Hrun. split; [by eapply evidence_contributions|].
  destruct (evidence_inv _ _ _ _ _ _ _ Hrun) as (_&_&_&_&_&_&_&Hagg). injection Hagg as -> ->. split_and!.
  - rewrite length_fmap. by apply masses_length.
  - rewrite <- list_fmap_compose. change (_ ∘ _) with (λ x : float, x). by rewrite list_fmap_id.
  - intros i m s (x&[= -> ->]&Hx)%list_lookup_fmap_Some. split; [by eapply masses_lookup|done].
Qed.
End formula.

(** ** Engines *)

Section engines.
Context `{Unicode} `{Libm} (dict : t2s) (vector_for : string → option (list float)).

(** The vectors an engine is asked with. *)
Definition queries_of (q : oracle_query) : list (list float) :=
  match q_candidate_vectors q with Some vs => [] :: vs | None => [q_vector q] end.

(** The scalar cosines of the query are finite, and the engine answers with
    them. *)
Record faithful_engine (q : oracle_query) (g : engine) : Prop := {
  fe_finite : ∀ v e c, v ∈ queries_of q → scalar_cosine vector_for v e = Ok c → is_finite c = true;
  fe_answers : ∀ v es, v ∈ queries_of q → ∃ b, g v (ev_id <$> es) = Some b ∧
    ∀ e c, e ∈ es → scalar_cosine vector_for v e = Ok c → b !! ev_id e = Some (Some c) }.

Lemma engine_cosines q g v es cos : faithful_engine q g → v ∈ queries_of q →
  cosines_of vector_for None v es = Ok cos → cosines_of vector_for (Some g) v es = Ok cos.
Proof.
  intros [Hfin Hans] Hv. unfold cosines_of. rewrite mapM_Forall2. intros Hall.
  destruct (Hans v es Hv) as (b&Hb&Hsame). unfold ask_engine. rewrite Hb. simpl. rewrite mapM_Forall2.
  assert (∀ e c, e ∈ es → scalar_cosine vector_for v e = Ok c → engine_cosine b (ev_id e) = Ok c) as Heq.
  { intros e c He Hc. unfold engine_cosine. rewrite (Hsame e c He Hc). by rewrite (Hfin v e c Hv Hc). }
  clear Hb Hsame. induction Hall as [|e c es cos Hc _ IH]; constructor; [by apply Heq; [left|]|].
  apply IH. intros e' c' He'. apply Heq. by right.
Qed.

Lemma engine_grouped q g vs groups m m' : faithful_engine q g → q_candidate_vectors q = Some vs →
  grouped_cosines vector_for None vs groups m = Ok m' → grouped_cosines vector_for (Some g) vs groups m = Ok m'.
Proof.
  intros Hg Hq. revert m. induction groups as [|[i es] groups IH]; intros m; [done|]. cbn [grouped_cosines].
  intros (cos&Hcos&Hrest)%bind_Ok. apply bind_Ok. exists cos. split; [|by apply IH]. apply (engine_cosines q); [done| |done].
  unfold queries_of. rewrite Hq. destruct (vs !! i) as [v|] eqn:E; [right; by eapply list_elem_of_lookup_2|by left].
Qed.

(** A retrieval backend that returns the cosines of the scalar loop gives
    exactly its evidence: contributions, order, cut, masses and scores. *)
Theorem engine_gives_the_same_evidence rd p q g r : faithful_engine q g →
  compute_evidence dict vector_for None rd p q = Ok r → compute_evidence dict vector_for (Some g) rd p q = Ok r.
Proof.
  intros Hg. unfold compute_evidence. destruct (match q_as_of q with Some h => Ok h | None => _ end) as [as_of|]; [|done].
  cbn [mbind result_bind]. destruct (q_candidate_vectors q) as [vs|] eqn:Hq.
  - destruct (mapM as_float_vector vs) as [vs'|] eqn:Hvs; [|done]. cbn [mbind result_bind].
    destruct (fr_active rd as_of) as [events|]; [|done]. cbn [mbind result_bind]. unfold conditioned_contributions.
    rewrite (as_float_vectors_id _ _ Hvs).
    destruct (grouped_cosines vector_for None vs _ ∅) as [m|] eqn:Hm; [|done]. by rewrite (engine_grouped _ _ _ _ _ _ Hg Hq Hm).
  - destruct (as_float_vector (q_vector q)) as [v|] eqn:Hv; [|done]. rewrite (as_float_vector_id _ _ Hv). cbn [mbind result_bind].
    destruct (fr_active rd as_of) as [events|]; [|done]. cbn [mbind result_bind]. unfold plain_contributions.
    destruct (cosines_of vector_for None (q_vector q) (same_key q events)) as [cos|] eqn:Hc; [|done].
    rewrite (engine_cosines q g _ _ cos); [done|done| |done]. unfold queries_of. rewrite Hq. by left.
Qed.
End engines.

(** ** Replay *)

(** A replay at a past point sees nothing that was recorded since: whatever the
    writer commits or retracts after the clock of [db], the evidence at a point up
    to that clock is the same. *)
Theorem replay_sees_no_later_facts `{IntText} `{Unicode} `{Libm} dict vector_for eng p q db db' c w :
  wf_facts db → clock_is db c → rtc facts_step db db' → q_as_of q = Some w → hlc_leb w c = true →
  compute_evidence dict vector_for eng (store_reader db') p q = compute_evidence dict vector_for eng (store_reader db) p q.
Proof.
  intros Hwf Hc Hsteps Hq Hw. destruct (facts_steps _ _ Hsteps Hwf) as [Hwf' Hext].
  unfold compute_evidence. rewrite Hq. cbn [mbind result_bind]. simpl fr_active.
  by rewrite (facts_ext_read_active db db' c w).
Qed.

(** A query whose key no event has, or whose events are all below the threshold,
    is answered with zero evidence. *)
Lemma zero_evidence p n : aggregate p n [] = (replicate n (fzero, fzero), fzero).
Proof.
  unfold aggregate, masses. simpl. assert (py_sum (replicate n fzero) = fzero) as Hs.
  { unfold py_sum. induction n as [|n IH]; [done|]. simpl. by rewrite (eq_refl : fadd fzero fzero = fzero). }
  rewrite Hs. f_equal. unfold score. rewrite fmap_replicate. done.
Qed.
