(* ===== verification/Ann.v ===== *)
(** * Approximate retrieval: [src/daemon/ann.py]

    A neighbour index proposes event ids for a query vector; the events of the key
    among them, and those the index does not hold yet, are compared exactly and
    then aggregated as in the oracle.  The indexes of the libraries (USearch,
    hnswlib) are values of [neighbor_index] whose search may return anything or
    raise; [BruteForceIndex] is defined.  The theorems: a proposed event counts
    exactly as in the exact evidence, and full recall gives the exact evidence. *)

From Stdlib Require Import SpecFloat String.
From stdpp Require Import base list strings gmap sorting.
From S2P Require Import Prelude Float64 PyJson Facts TextMatch Oracle OracleTheorems.
Open Scope Z_scope.

(** [AnnError] with its code, and the exceptions of the oracle. *)
Inductive ann_exn := AnnError (code : string) | AnnOracle (e : oracle_error).

Definition of_oracle {A} (r : result oracle_error A) : result ann_exn A :=
  match r with Ok a => Ok a | Err e => Err (AnnOracle e) end.

Definition OVERFETCH_FLOOR : Z := 32.
Definition OVERFETCH_MULTIPLIERS : list Z := [2; 4; 8].

Definition overfetch_count (k_evidence multiplier : Z) : result ann_exn Z :=
  if k_evidence <? 1 then Err (AnnError "ann_config")
  else if negb (bool_decide (multiplier ∈ OVERFETCH_MULTIPLIERS)) then Err (AnnError "ann_config")
  else Ok (Z.max OVERFETCH_FLOOR (multiplier * k_evidence)).

(** ** Indexes *)

(** [NeighborIndex]; a search raises [AnnError] with a code, or anything else. *)
Record neighbor_index := NeighborIndex {
  ni_event_ids : list string;
  ni_search : list float → Z → option Z → result (option string) (list string) }.

(** [BruteForceIndex] *)
Record brute_force := BruteForce { bf_ids : list string; bf_vectors : list (list float); bf_dimension : nat }.

Definition make_brute_force (ids : list string) (vectors : list (list float)) (dimension : option nat)
    : result ann_exn brute_force :=
  if negb (length ids =? length vectors)%nat then Err (AnnError "ann_index")
  else
    vs ← of_oracle (mapM as_float_vector vectors);
    let dimension := match dimension with
                     | Some d => d
                     | None => match vs with v :: _ => length v | [] => 0%nat end
                     end in
    if forallb (λ v, (length v =? dimension)%nat) vs then Ok (BruteForce ids vs dimension) else Err (AnnError "ann_index").

(** [(-item[0], item[1])] *)
Definition rank_le (a b : float * string) : Prop :=
  fltb (fopp a.1) (fopp b.1) = true ∨
  (feqb (fopp a.1) (fopp b.1) = true ∧ String.leb a.2 b.2 = true).
#[export] Instance rank_le_dec : RelDecision rank_le.
Proof. intros a b. unfold rank_le. apply _. Defined.

Definition brute_force_search (x : brute_force) (query : list float) (count : Z) : result ann_exn (list string) :=
  if count <? 1 then Ok []
  else
    q ← of_oracle (as_float_vector query);
    if negb (bf_dimension x =? 0)%nat && negb (length q =? bf_dimension x)%nat then Err (AnnError "ann_index")
    else
      ranked ← mapM (λ iv, c ← of_oracle (cosine q iv.2); Ok (c, iv.1)) (zip (bf_ids x) (bf_vectors x));
      Ok (take (Z.to_nat count) (merge_sort rank_le ranked).*2).

Definition brute_force_index (x : brute_force) : neighbor_index :=
  NeighborIndex (bf_ids x) (λ q n _,
    match brute_force_search x q n with
    | Ok ids => Ok ids
    | Err (AnnError code) => Err (Some code)
    | Err (AnnOracle _) => Err None
    end).

(** ** The evidence *)

Section ann.
Context `{Unicode} `{Libm} (dict : t2s) (vector_for : string → option (list float)).

(** One search; every other exception is an [ann_index] fault. *)
Definition search_index (index : neighbor_index) (v : list float) (overfetch : Z) (query_search : option Z)
    : result ann_exn (list string) :=
  match ni_search index v overfetch query_search with
  | Ok hits => Ok hits
  | Err (Some code) => Err (AnnError code)
  | Err None => Err (AnnError "ann_index")
  end.

(** The hits of all query vectors. *)
Definition search_all (index : neighbor_index) (vs : list (list float)) (overfetch : Z) (query_search : option Z)
    : result ann_exn (gset string) :=
  hits ← mapM (λ v, search_index index v overfetch query_search) vs; Ok (list_to_set (concat hits)).

(** [allowed]: the hits that are not in the delta, and the delta, of this key. *)
Definition allowed_ids (hits delta keyed : gset string) : gset string := ((hits ∖ delta) ∪ (delta ∩ keyed)) ∩ keyed.

(** [_as_float_vector(vector_for(...))] and [_cosine]; any failure of the lookup
    is one error. *)
Definition ann_cosine (q : list float) (e : stored_event) : result oracle_error float :=
  match vector_for (ev_id e) ≫= (λ v, match as_float_vector v with Ok v => Some v | Err _ => None end) with
  | None => Err (VectorMissing (ev_id e))
  | Some v => if negb (length v =? length q)%nat then Err (DimensionMismatch (ev_id e)) else cosine q v
  end.

(** The allowed events with their positions, the vector each is compared with and
    the candidate it counts for. *)
Definition ann_pairs (prepared : list float + list (list float)) (candidates : list string) (allowed : gset string)
    (keyed : list stored_event) : list (nat * stored_event * list float * option nat) :=
  omap (λ ie, if bool_decide (ev_id ie.2 ∈ allowed)
              then match prepared with
                   | inl v => Some (ie, v, None)
                   | inr vs => (λ i, (ie, default [] (vs !! i), Some i)) <$> matched_candidate dict candidates ie.2
                   end
              else None) (imap pair keyed).

Definition ann_contributions (p : oracle_params) (prepared : list float + list (list float)) (candidates : list string)
    (allowed : gset string) (keyed : list stored_event) : result oracle_error (list contribution) :=
  mapM (λ j : nat * stored_event * list float * option nat, let '(i, e, v, m) := j in
          c ← ann_cosine v e; Ok (contribute p (length keyed) i e c m))
    (ann_pairs prepared candidates allowed keyed).

(** [compute_ann_evidence] of parameters and a query that their constructors
    accepted. *)
Definition compute_ann_evidence (reader : fact_reader) (p : oracle_params) (q : oracle_query) (index : neighbor_index)
    (overfetch : Z) (query_search : option Z) (delta_ids : list string) : result ann_exn oracle_result :=
  _ ← guard_err (overfetch <? 1) (AnnError "ann_config");
  as_of ← of_oracle match q_as_of q with Some h => Ok h | None => fr_default_as_of reader end;
  let candidates := match_text dict <$> q_candidates q in
  prepared ← of_oracle match q_candidate_vectors q with
                       | Some vs => vs ← mapM as_float_vector vs; Ok (inr vs)
                       | None => v ← as_float_vector (q_vector q); Ok (inl v)
                       end;
  events ← of_oracle (fr_active reader as_of);
  let keyed := same_key q events in
  hits ← search_all index match prepared with inl v => [v] | inr vs => vs end overfetch query_search;
  let allowed := allowed_ids hits (list_to_set delta_ids) (list_to_set (ev_id <$> keyed)) in
  contributions ← of_oracle (ann_contributions p prepared candidates allowed keyed);
  let kept := keep p contributions in
  let kept := match prepared with
              | inl _ => (λ c, set_matched (matched_candidate dict candidates (ct_event c)) c) <$> kept
              | inr _ => kept
              end in
  let '(cs, total) := aggregate p (length candidates) kept in
  Ok (OracleResult as_of (length keyed) kept cs total (query_key q)).
End ann.

(** ** Exactness *)

Section exactness.
Context `{Unicode} `{Libm} (dict : t2s) (vector_for : string → option (list float)).

Lemma ann_cosine_scalar q e c : scalar_cosine vector_for q e = Ok c → ann_cosine vector_for q e = Ok c.
Proof.
  unfold scalar_cosine, ann_cosine. destruct (vector_for (ev_id e)) as [v|]; [|done]. simpl.
  destruct (as_float_vector v) as [v'|]; [|done]. done.
Qed.

(** The contributions of the proposed events. *)
Definition proposed (allowed : gset string) (cs : list contribution) : list contribution :=
  filter (λ c, ev_id (ct_event c) ∈ allowed) cs.

Lemma plain_proposed p n (g : nat → nat) v candidates allowed l cos :
  mapM (scalar_cosine vector_for v) l = Ok cos →
  mapM (λ j : nat * stored_event * list float * option nat, let '(i, e, v, m) := j in
          c ← ann_cosine vector_for v e; Ok (contribute p n i e c m))
    (omap (λ ie, if bool_decide (ev_id ie.2 ∈ allowed)
                 then match inl v : list float + list (list float) with
                      | inl v => Some (ie, v, None)
                      | inr vs => (λ i, (ie, default [] (vs !! i), Some i)) <$> matched_candidate dict candidates ie.2
                      end
                 else None) (imap (λ i e, (g i, e)) l)) =
  Ok (proposed allowed (imap (λ i ec, contribute p n (g i) ec.1 ec.2 None) (zip l cos))).
Proof.
  rewrite mapM_Forall2. intros Hall. revert g. induction Hall as [|e c l cos Hc _ IH]; intros g; [done|].
  rewrite imap_cons. simpl zip. rewrite imap_cons. specialize (IH (g ∘ S)). cbn [omap list_omap].
  change ((λ i e, (g i, e)) ∘ S) with (λ i (e : stored_event), ((g ∘ S) i, e)).
  change ((λ i (ec : stored_event * float), contribute p n (g i) ec.1 ec.2 None) ∘ S)
    with (λ i (ec : stored_event * float), contribute p n ((g ∘ S) i) ec.1 ec.2 None).
  unfold proposed in *. rewrite filter_cons. cbn [fst snd]. simpl ct_event.
  destruct (decide (ev_id e ∈ allowed)) as [Hin|Hout].
  - rewrite bool_decide_true by done. cbn [mapM]. rewrite (ann_cosine_scalar _ _ _ Hc). cbn [mbind result_bind].
    by rewrite IH.
  - by rewrite bool_decide_false by done.
Qed.

Lemma conditioned_proposed p n (g : nat → nat) vs candidates allowed (m : gmap string float) l :
  (∀ e, e ∈ l →
    match matched_candidate dict candidates e with
    | Some i => ∃ c, scalar_cosine vector_for (default [] (vs !! i)) e = Ok c ∧ m !! ev_id e = Some c
    | None => m !! ev_id e = None
    end) →
  mapM (λ j : nat * stored_event * list float * option nat, let '(i, e, v, m) := j in
          c ← ann_cosine vector_for v e; Ok (contribute p n i e c m))
    (omap (λ ie, if bool_decide (ev_id ie.2 ∈ allowed)
                 then match inr vs : list float + list (list float) with
                      | inl v => Some (ie, v, None)
                      | inr vs => (λ i, (ie, default [] (vs !! i), Some i)) <$> matched_candidate dict candidates ie.2
                      end
                 else None) (imap (λ i e, (g i, e)) l)) =
  Ok (proposed allowed (omap (λ ie, (λ c, contribute p n ie.1 ie.2 c (matched_candidate dict candidates ie.2)) <$>
                                 m !! ev_id ie.2) (imap (λ i e, (g i, e)) l))).
Proof.
  revert g. induction l as [|e l IH]; intros g Hm; [done|]. rewrite !imap_cons.
  assert (IH' := IH (g ∘ S) (λ x Hx, Hm x (list_elem_of_further x e l Hx))). clear IH. cbn [omap list_omap fst snd].
  change ((λ i e, (g i, e)) ∘ S) with (λ i (e : stored_event), ((g ∘ S) i, e)). specialize (Hm e (list_elem_of_here _ _)).
  unfold proposed in *. destruct (matched_candidate dict candidates e) as [i|].
  - destruct Hm as (c&Hc&Hm). rewrite Hm. cbn [fmap option_fmap option_map]. rewrite filter_cons. simpl ct_event.
    destruct (decide (ev_id e ∈ allowed)) as [Hin|Hout].
    + rewrite bool_decide_true by done. cbn [mapM]. rewrite (ann_cosine_scalar _ _ _ Hc). cbn [mbind result_bind].
      by rewrite IH'.
    + by rewrite bool_decide_false by done.
  - rewrite Hm. cbn [fmap option_fmap option_map]. by case_bool_decide.
Qed.

(** All contributions of the exact evidence, and the matching after the cut. *)
Definition exact_contributions (p : oracle_params) (q : oracle_query) (keyed : list stored_event)
    : result oracle_error (list contribution) :=
  match q_candidate_vectors q with
  | Some vs => conditioned_contributions dict vector_for None p (match_text dict <$> q_candidates q) vs keyed
  | None => plain_contributions vector_for None p (q_vector q) keyed
  end.
Definition settle (q : oracle_query) (kept : list contribution) : list contribution :=
  match q_candidate_vectors q with
  | Some _ => kept
  | None => (λ c, set_matched (matched_candidate dict (match_text dict <$> q_candidates q) (ct_event c)) c) <$> kept
  end.
Definition query_vectors (q : oracle_query) : list (list float) :=
  match q_candidate_vectors q with Some vs => vs | None => [q_vector q] end.

Lemma ann_contributions_proposed p q allowed keyed cs :
  NoDup (ev_id <$> keyed) → exact_contributions p q keyed = Ok cs →
  ann_contributions dict vector_for p match q_candidate_vectors q with Some vs => inr vs | None => inl (q_vector q) end
    (match_text dict <$> q_candidates q) allowed keyed = Ok (proposed allowed cs).
Proof.
  unfold exact_contributions, ann_contributions, ann_pairs. intros Hnd. destruct (q_candidate_vectors q) as [vs|].
  - unfold conditioned_contributions. intros (m&Hm&[= <-])%bind_Ok.
    apply (conditioned_proposed p (length keyed) (λ i, i) vs _ allowed m keyed).
    exact (conditioned_cosines dict vector_for None _ _ _ _ Hnd Hm).
  - unfold plain_contributions. intros (cos&Hcos&[= <-])%bind_Ok.
    exact (plain_proposed p (length keyed) (λ i, i) (q_vector q) (match_text dict <$> q_candidates q) allowed keyed cos Hcos).
Qed.

Lemma proposed_all allowed keyed p q cs :
  exact_contributions p q keyed = Ok cs → (∀ e, e ∈ keyed → ev_id e ∈ allowed) → proposed allowed cs = cs.
Proof.
  intros Hcs Hall. assert (Forall (λ c, ev_id (ct_event c) ∈ allowed) cs) as Hf.
  { apply Forall_forall. intros c Hc. apply Hall. unfold exact_contributions in Hcs. destruct (q_candidate_vectors q) as [vs|].
    - eapply (conditioned_built _ _ _ (λ _, True)) in Hcs; [|intros ???? Hx; by eapply cosines_of_length].
      rewrite Forall_forall in Hcs. destruct (Hcs _ Hc) as (i&e&cos&Hi&_&->). by eapply list_elem_of_lookup_2.
    - eapply (plain_built _ _ (λ _, True)) in Hcs; [|intros ?? Hx; by eapply cosines_of_length].
      rewrite Forall_forall in Hcs. destruct (Hcs _ Hc) as (i&e&cos&Hi&_&->). by eapply list_elem_of_lookup_2. }
  unfold proposed. clear Hcs. induction Hf as [|c cs Hc _ IH]; [done|]. rewrite filter_cons, decide_True by done. by rewrite IH.
Qed.
End exactness.

(** C12: Approximate retrieval is exact on what it proposes: when the exact
    evidence exists and the searches answer, the approximate evidence exists, has
    the same query point, key and age clock, and keeps the heaviest of the exact
    contributions of the proposed events, with their exact cosines, ages and
    weights; the events that the index does not hold yet are always proposed; and
    when every event of the key is proposed, it is the exact evidence. *)
Theorem ann_is_exact_on_hits `{Unicode} `{Libm} dict vector_for rd p q index overfetch query_search delta r events hits :
  1 <= overfetch → fr_active rd (or_query_point r) = Ok events → NoDup (ev_id <$> events) →
  compute_evidence dict vector_for None rd p q = Ok r →
  search_all index (query_vectors q) overfetch query_search = Ok hits →
  let keyed := same_key q events in
  let allowed := allowed_ids hits (list_to_set delta) (list_to_set (ev_id <$> keyed)) in
  ∃ r' cs,
    compute_ann_evidence dict vector_for rd p q index overfetch query_search delta = Ok r' ∧
    exact_contributions dict vector_for p q keyed = Ok cs ∧ or_kept r = settle dict q (keep p cs) ∧
    or_kept r' = settle dict q (keep p (proposed allowed cs)) ∧
    (or_candidates r', or_total_mass r') = aggregate p (length (q_candidates q)) (or_kept r') ∧
    or_query_point r' = or_query_point r ∧ or_same_key r' = or_same_key r ∧ or_key r' = or_key r ∧
    (∀ e, e ∈ keyed → ev_id e ∈ delta → ev_id e ∈ allowed) ∧
    ((∀ e, e ∈ keyed → ev_id e ∈ hits ∨ ev_id e ∈ delta) → r' = r).
Proof.
  intros Ho Hev Hnd Hrun Hhits keyed allowed.
  destruct (evidence_inv _ _ _ _ _ _ _ Hrun) as (events'&cs&Hev'&Hpoint&Hsame&Hkey&Hkept&Hagg).
  rewrite Hev in Hev'. injection Hev' as <-. fold keyed in Hsame, Hkept.
  assert (NoDup (ev_id <$> keyed)) as Hndk by (unfold keyed, same_key; by apply sort_by_nodup, nodup_ids_filter).
  assert (exact_contributions dict vector_for p q keyed = Ok cs ∧ or_kept r = settle dict q (keep p cs) ∧
    match q_candidate_vectors q with
    | Some vs => vs ← mapM as_float_vector vs; Ok (inr vs)
    | None => v ← as_float_vector (q_vector q); Ok (inl v)
    end = Ok match q_candidate_vectors q with Some vs => inr vs | None => inl (q_vector q) end) as (Hcs&Hk&Hprep).
  { unfold exact_contributions, settle. destruct Hkept as [(->&Hv&Hcs&->)|(vs&->&Hvs&Hcs&->)]; [by rewrite Hv|by rewrite Hvs]. }
  pose proof (ann_contributions_proposed dict vector_for p q allowed keyed cs Hndk Hcs) as Hann.
  set (kept' := settle dict q (keep p (proposed allowed cs))).
  destruct (aggregate p (length (q_candidates q)) kept') as [cands total] eqn:Hagg'.
  exists (OracleResult (or_query_point r) (length keyed) kept' cands total (query_key q)), cs. split_and!; try done.
  - unfold compute_ann_evidence. rewrite (proj2 (Z.ltb_ge overfetch 1)) by done. cbn [guard_err mbind result_bind].
    assert (match q_as_of q with Some h => Ok h | None => fr_default_as_of rd end = Ok (or_query_point r)) as ->.
    { destruct Hpoint as [->|[-> ->]]; done. }
    cbn [of_oracle mbind result_bind]. rewrite Hprep. cbn [of_oracle mbind result_bind]. rewrite Hev.
    cbn [of_oracle mbind result_bind]. fold keyed.
    assert (match match q_candidate_vectors q with Some vs => inr vs | None => inl (q_vector q) end with
            | inl v => [v] | inr vs => vs end = query_vectors q) as -> by (unfold query_vectors; by destruct (q_candidate_vectors q)).
    rewrite Hhits. cbn [of_oracle mbind result_bind]. fold allowed. rewrite Hann. cbn [of_oracle mbind result_bind].
    rewrite length_fmap. unfold kept', settle in *.
    destruct (q_candidate_vectors q); by rewrite Hagg'.
  - intros e He Hd. unfold allowed, allowed_ids. rewrite elem_of_intersection, elem_of_union, elem_of_intersection.
    assert (ev_id e ∈ (list_to_set (ev_id <$> keyed) : gset string)).
    { apply elem_of_list_to_set, list_elem_of_fmap. by exists e. }
    split; [right; split; [by apply elem_of_list_to_set|done]|done].
  - intros Hall. assert (proposed allowed cs = cs) as Heq.
    { eapply proposed_all; [exact Hcs|]. intros e He. unfold allowed, allowed_ids.
      rewrite elem_of_intersection, elem_of_union, elem_of_intersection, elem_of_difference.
      assert (ev_id e ∈ (list_to_set (ev_id <$> keyed) : gset string)).
      { apply elem_of_list_to_set, list_elem_of_fmap. by exists e. }
      rewrite !elem_of_list_to_set in *. destruct (decide (ev_id e ∈ delta)); [tauto|]. destruct (Hall e He); tauto. }
    assert (kept' = or_kept r) as Hkk by (unfold kept'; by rewrite Heq).
    rewrite Hkk, <- Hagg in Hagg'. injection Hagg' as <- <-. rewrite Hkk, <- Hsame, <- Hkey. by destruct r.
Qed.

(** The brute-force index proposes every event it holds when it is asked for as
    many. *)
Lemma brute_force_recalls x q n qs hits :
  length (bf_ids x) = length (bf_vectors x) → 1 <= n → Z.of_nat (length (bf_ids x)) <= n →
  ni_search (brute_force_index x) q n qs = Ok hits → hits ≡ₚ bf_ids x.
Proof.
  intros Hlen H1 Hn. simpl. unfold brute_force_search. rewrite (proj2 (Z.ltb_ge n 1)) by done.
  destruct (as_float_vector q) as [v|]; [|done]. cbn [of_oracle mbind result_bind]. destruct (_ && _); [done|].
  destruct (mapM _ _) as [ranked|[]] eqn:Hr; [|done..]. cbn [mbind result_bind]. intros [= <-].
  rewrite mapM_Forall2 in Hr.
  assert (ranked.*2 = bf_ids x) as Hids.
  { rewrite <- (fst_zip (bf_ids x) (bf_vectors x)) by lia. clear Hlen H1 Hn.
    induction Hr as [|[i w] [c j] l k Hc _ IH]; [done|]. rewrite !fmap_cons. f_equal; [|exact IH].
    destruct (of_oracle (cosine v _)); [|done]. by injection Hc as _ ->. }
  rewrite take_ge.
  - by rewrite merge_sort_Permutation, Hids.
  - rewrite merge_sort_Permutation, Hids. lia.
Qed.
