(* ===== verification/OracleProjection.v ===== *)
(** * What the oracle sees of an event

    The evidence depends on an event through its id, its clock, its selected text
    and its choice-problem key only: replacing every event by another one with the
    same four gives the same evidence.  This is why a container, which records
    just these, can recompute its probes without the fact store. *)

From Stdlib Require Import SpecFloat String.
From stdpp Require Import base list strings gmap sorting.
From S2P Require Import Prelude Float64 PyJson Facts TextMatch Oracle OracleTheorems.
Open Scope Z_scope.

(** ** Lists under a map *)

Lemma filter_fmap {A B} (f : A → B) (P : B → Prop) (Q : A → Prop) `{∀ x, Decision (P x)} `{∀ x, Decision (Q x)} (l : list A) :
  (∀ a, P (f a) ↔ Q a) → filter P (f <$> l) = f <$> filter Q l.
Proof.
  intros HPQ. induction l as [|a l IH]; [done|]. rewrite fmap_cons, !filter_cons, IH.
  repeat case_decide; naive_solver.
Qed.

Section sort.
Context {A B} (f : A → B) (R : relation A) (S : relation B) `{!RelDecision R} `{!RelDecision S}.
Hypothesis same : ∀ a b, S (f a) (f b) ↔ R a b.

Lemma list_merge_fmap l1 l2 : list_merge S (f <$> l1) (f <$> l2) = f <$> list_merge R l1 l2.
Proof.
  revert l2. induction l1 as [|a l1 IH1]; intros l2; [by rewrite fmap_nil, !list_merge_nil_l|].
  induction l2 as [|b l2 IH2]; [by rewrite fmap_nil, !list_merge_nil_r|].
  rewrite !fmap_cons, !list_merge_cons, <- !fmap_cons, IH1, IH2. repeat case_decide; naive_solver.
Qed.

Definition fmap_stack (st : list (option (list A))) : list (option (list B)) := (fmap (M:=option) (fmap (M:=list) f)) <$> st.

Lemma merge_stack_fmap st : merge_stack S (fmap_stack st) = f <$> merge_stack R st.
Proof.
  induction st as [|[l|] st IH]; [done| |done]. simpl. by rewrite IH, list_merge_fmap.
Qed.

Lemma merge_to_stack_fmap st l :
  merge_list_to_stack S (fmap_stack st) (f <$> l) =
  fmap_stack (merge_list_to_stack R st l).
Proof.
  revert l. induction st as [|[l'|] st IH]; intros l; [done| |done].
  simpl. by rewrite list_merge_fmap, IH.
Qed.

Lemma merge_sort_fmap l : merge_sort S (f <$> l) = f <$> merge_sort R l.
Proof.
  unfold merge_sort. change (@nil (option (list B))) with (fmap_stack []).
  generalize (@nil (option (list A))). induction l as [|a l IH]; intros st; simpl; [apply merge_stack_fmap|].
  change [f a] with (f <$> [a]). by rewrite merge_to_stack_fmap, IH.
Qed.
End sort.

Lemma mapM_fmap_result {E A B C} (g : B → result E C) (f : A → B) l : mapM g (f <$> l) = mapM (λ a, g (f a)) l.
Proof. induction l as [|a l IH]; [done|]. rewrite fmap_cons. simpl. by rewrite IH. Qed.

Lemma zip_fmap_l {A B C} (f : A → B) (l : list A) (k : list C) : zip (f <$> l) k = (λ p, (f p.1, p.2)) <$> zip l k.
Proof. revert k. induction l as [|a l IH]; intros [|c k]; try done. rewrite fmap_cons. simpl. by rewrite IH. Qed.

(** ** The evidence of mapped events *)

Section projection.
Context `{Unicode} `{Libm} (dict : t2s) (vector_for : string → option (list float)) (eng : option engine).
Context (f : stored_event → stored_event).
Hypothesis f_id : ∀ e, ev_id (f e) = ev_id e.
Hypothesis f_hlc : ∀ e, ev_hlc (f e) = ev_hlc e.
Hypothesis f_text : ∀ e, ev_text (f e) = ev_text e.
Hypothesis f_key : ∀ e, event_key (f e) = event_key e.

Lemma f_stamp e : ev_stamp (f e) = ev_stamp e.
Proof. unfold ev_stamp. by rewrite f_id, f_hlc. Qed.

Lemma same_key_fmap q es : NoDup (ev_stamp <$> es) → same_key q (f <$> es) = f <$> same_key q es.
Proof.
  intros Hnd. unfold same_key.
  rewrite (filter_fmap f _ (λ e, ev_id e ∉ q_exclude q ∧ event_key e = query_key q)) by (intros e; by rewrite f_id, f_key).
  symmetry. apply sort_by_fmap; [apply f_stamp|].
  eapply sublist_NoDup; [exact Hnd|]. apply fmap_sublist, sublist_filter.
Qed.

Lemma cosines_fmap q es : cosines_of vector_for eng q (f <$> es) = cosines_of vector_for eng q es.
Proof.
  unfold cosines_of. destruct eng as [g|].
  - rewrite <- list_fmap_compose. assert (ev_id ∘ f <$> es = ev_id <$> es) as -> by (apply list_fmap_ext; intros; apply f_id).
    destruct (ask_engine _ _ _) as [b|]; [|done]. cbn [mbind result_bind]. rewrite mapM_fmap_result.
    apply mapM_congr. intros e _. by rewrite f_id.
  - rewrite mapM_fmap_result. apply mapM_congr. intros e _. unfold scalar_cosine. by rewrite f_id.
Qed.

Definition f_contribution (c : contribution) : contribution :=
  Contribution (f (ct_event c)) (ct_cosine c) (ct_relevance c) (ct_age c) (ct_factor c) (ct_weight c) (ct_matched c).

Definition on_ok {E A B} (g : A → B) (r : result E A) : result E B := match r with Ok a => Ok (g a) | Err e => Err e end.

Lemma plain_fmap p q es :
  plain_contributions vector_for eng p q (f <$> es) = on_ok (fmap f_contribution) (plain_contributions vector_for eng p q es).
Proof.
  unfold plain_contributions. rewrite cosines_fmap. destruct (cosines_of _ _ q es) as [cs|]; [|done].
  cbn [mbind result_bind on_ok]. f_equal. rewrite zip_fmap_l, imap_fmap, fmap_imap, length_fmap. done.
Qed.

Lemma matched_fmap cands e : matched_candidate dict cands (f e) = matched_candidate dict cands e.
Proof. unfold matched_candidate. by rewrite f_text. Qed.

Definition f_group (p : nat * list stored_event) : nat * list stored_event := (p.1, f <$> p.2).
Definition f_groups (g : list (nat * list stored_event)) : list (nat * list stored_event) := f_group <$> g.

Lemma group_add_fmap i e g : group_add i (f e) (f_groups g) = f_groups (group_add i e g).
Proof.
  induction g as [|[j es] g IH]; [done|]. unfold f_groups in *. rewrite fmap_cons. simpl. case_decide.
  - rewrite fmap_cons. unfold f_group. simpl. by rewrite fmap_app.
  - rewrite fmap_cons. simpl. by rewrite IH.
Qed.

Lemma groups_fmap cands es : events_by_candidate dict cands (f <$> es) = f_groups (events_by_candidate dict cands es).
Proof.
  unfold events_by_candidate. change (@nil (nat * list stored_event)) with (f_groups []) at 1. generalize (@nil (nat * list stored_event)).
  induction es as [|e es IH]; intros g; [done|]. rewrite fmap_cons. simpl. rewrite matched_fmap.
  destruct (matched_candidate dict cands e); [|apply IH]. by rewrite group_add_fmap.
Qed.

Lemma grouped_fmap vectors g m : grouped_cosines vector_for eng vectors (f_groups g) m = grouped_cosines vector_for eng vectors g m.
Proof.
  revert m. induction g as [|[i es] g IH]; intros m; [done|]. unfold f_groups in *. rewrite fmap_cons. simpl.
  rewrite cosines_fmap. destruct (cosines_of _ _ _ es) as [cs|]; [|done]. cbn [mbind result_bind]. rewrite IH. f_equal.
  rewrite zip_fmap_l. clear IH. revert m. induction (zip es cs) as [|[e c] l IHl]; intros m; [done|].
  rewrite fmap_cons. simpl. by rewrite f_id, IHl.
Qed.

Lemma conditioned_fmap p cands vectors es :
  conditioned_contributions dict vector_for eng p cands vectors (f <$> es) =
  on_ok (fmap f_contribution) (conditioned_contributions dict vector_for eng p cands vectors es).
Proof.
  unfold conditioned_contributions. rewrite groups_fmap, grouped_fmap. destruct (grouped_cosines _ _ _ _ _) as [m|]; [|done].
  cbn [mbind result_bind on_ok]. f_equal. rewrite length_fmap, imap_fmap.
  rewrite list_fmap_omap. assert (imap (λ n, pair n ∘ f) es = (λ ie, (ie.1, f ie.2)) <$> imap pair es) as ->.
  { by rewrite fmap_imap. }
  induction (imap pair es) as [|[i e] l IH]; [done|]. rewrite fmap_cons. simpl. rewrite f_id, matched_fmap.
  destruct (m !! ev_id e); simpl; [f_equal|]; apply IH.
Qed.

Lemma keep_fmap p cs : keep p (f_contribution <$> cs) = f_contribution <$> keep p cs.
Proof.
  unfold keep. rewrite (filter_fmap f_contribution _ (λ c, fltb fzero (ct_weight c) = true)) by done.
  rewrite (merge_sort_fmap f_contribution kept_le kept_le), fmap_take; [done|].
  intros a b. unfold kept_le. simpl. by rewrite !f_stamp.
Qed.

Lemma aggregate_fmap p n cs : aggregate p n (f_contribution <$> cs) = aggregate p n cs.
Proof.
  unfold aggregate. assert (masses n (f_contribution <$> cs) = masses n cs) as ->; [|done]. unfold masses.
  generalize (replicate n fzero). induction cs as [|c cs IH]; intros m; [done|]. rewrite fmap_cons. simpl. apply IH.
Qed.

Definition f_result (r : oracle_result) : oracle_result :=
  OracleResult (or_query_point r) (or_same_key r) (f_contribution <$> or_kept r) (or_candidates r) (or_total_mass r) (or_key r).

(** The evidence over the mapped events is the mapped evidence. *)
Lemma evidence_fmap es p q :
  NoDup (ev_stamp <$> es) →
  compute_evidence dict vector_for eng (projection_reader (f <$> es)) p q =
  on_ok f_result (compute_evidence dict vector_for eng (projection_reader es) p q).
Proof.
  intros Hnd. unfold compute_evidence, projection_reader. cbn [fr_active fr_default_as_of].
  destruct (q_as_of q) as [as_of|]; [|done]. cbn [mbind result_bind].
  set (mark := λ c, set_matched (matched_candidate dict (match_text dict <$> q_candidates q) (ct_event c)) c).
  assert (∀ kept : list contribution, mark <$> (f_contribution <$> kept) = f_contribution <$> (mark <$> kept)) as Hset.
  { unfold mark. intros kept. rewrite <- !list_fmap_compose. apply list_fmap_ext. intros i c _. unfold compose, set_matched, f_contribution.
    simpl. by rewrite matched_fmap. }
  destruct (q_candidate_vectors q) as [vs|].
  - destruct (mapM as_float_vector vs) as [vs'|]; [|done]. cbn [mbind result_bind]. rewrite same_key_fmap by done.
    rewrite conditioned_fmap. destruct (conditioned_contributions _ _ _ _ _ _ _) as [cs|]; [|done].
    cbn [mbind result_bind on_ok]. rewrite keep_fmap, aggregate_fmap, !length_fmap.
    by destruct (aggregate _ _ _).
  - destruct (as_float_vector (q_vector q)) as [v|]; [|done]. cbn [mbind result_bind]. rewrite same_key_fmap by done.
    rewrite plain_fmap. destruct (plain_contributions _ _ _ _ _) as [cs|]; [|done].
    cbn [mbind result_bind on_ok]. rewrite keep_fmap, Hset, aggregate_fmap, !length_fmap.
    by destruct (aggregate _ _ _).
Qed.
End projection.
