(* ===== verification/Delta.v ===== *)
(** * The delta state machine: [src/daemon/delta.py]

    [DeltaStateMachine] keeps, next to one immutable generation built from the
    facts up to its watermark, the changes since then: durably in a SQLite
    checkpoint, mirrored in memory, and projected into the snapshot queries read.
    The file holds the checkpoint with its writer and loader, the projection, the
    catch-up batch, the query gate and the publish switch; the theorems show that
    the served events are the facts' own projection at the consumed watermark.

    Vectors are opaque: the representation provider, FP32 packing and the norm
    checks are the parameters of [Vectors]. *)

From Stdlib Require Import String.
From stdpp Require Import base list strings gmap pretty sorting.
From S2P Require Import Prelude PyJson Facts.
Open Scope Z_scope.

(** ** Data *)

(** [P]: representation providers; [V]: vectors; [B]: their FP32 blobs. *)
Class Vectors (P V B : Type) := {
  representation_id : P → string;
  provider_dimension : P → Z;
  event_vector : P → stored_event → option V;
  pack_vector : V → B;
  unpack_vector : B → V;
  vector_problem : V → Z → bool;
  blob_problem : B → Z → bool }.

Definition DELTA_SCHEMA_VERSION : string := "delta-schema-v1".

(** A row of a generation, and the generation as the machine sees it. *)
Record gen_row := GenRow {
  gr_id : string; gr_schema : string; gr_category : string; gr_input : string;
  gr_candidate : string; gr_hlc : hlc }.
Record gen := Gen {
  g_id : string; g_epoch : string; g_repr : string; g_dim : Z; g_hlc : hlc; g_rows : list gen_row }.

(** An event without its preceding text, as the delta and snapshots hold it. *)
Definition strip (e : stored_event) : stored_event :=
  StoredEvent (ev_id e) (ev_commit e) (ev_schema e) (ev_input e) (ev_category e) (ev_text e) (ev_hlc e) "".

Section delta.
Context {P V B : Type} `{Vectors P V B} `{IntText}.

Record delta_item := Item { it_event : stored_event; it_vector : B }.

(** The absorbed changes: the mirror of the checkpoint; [None] as the consumed
    watermark after an invalidation. *)
Record mirror := Mirror {
  mi_events : list delta_item; mi_retractions : list (string * hlc);
  mi_consumed : option hlc; mi_seq : Z }.

Record snapshot := Snapshot {
  sn_epoch : string; sn_base : string; sn_repr : string; sn_dim : Z; sn_consumed : option hlc;
  sn_events : list stored_event; sn_source : gmap string bool; sn_vectors : gmap string V;
  sn_seq : Z; sn_provider : P }.

(** ** The checkpoint *)

(** The tables of the checkpoint; a row of [delta_events] or [retractions] with
    its change sequence. *)
Record ckpt := Ckpt {
  ck_meta : gmap string string; ck_events : list (delta_item * Z);
  ck_retractions : list (string * hlc * Z) }.

(** No file, one that SQLite or its checks refuse (unreadable, empty, wrong
    pragmas, [quick_check]), or a database. *)
Inductive ckpt_file := CkAbsent | CkBroken | CkDb (c : ckpt).

Definition empty_ckpt : ckpt := Ckpt ∅ [] [].

(** [_create_delta_schema]: [None] is its [DeltaError]. *)
Definition create_delta_schema (f : ckpt_file) : option ckpt :=
  match f with CkAbsent => Some empty_ckpt | CkBroken => None | CkDb c => Some c end.

(** [_write_delta_meta], one upsert for each pair. *)
Definition write_delta_meta (values : list (string * string)) (m : gmap string string) : gmap string string :=
  foldl (λ m kv, <[kv.1 := kv.2]> m) m values.

(** The ten values of the batch and of the staging checkpoint. *)
Definition delta_meta (gid epoch repr : string) (dim : Z) (h0 upper : hlc) (seq : Z) : list (string * string) :=
  [("delta_schema_version", DELTA_SCHEMA_VERSION); ("base_generation_id", gid); ("store_epoch", epoch);
   ("representation_id", repr); ("vector_dimension", pretty dim);
   ("base_hlc_physical_ms", pretty h0.1); ("base_hlc_logical", pretty h0.2);
   ("consumed_hlc_physical_ms", pretty upper.1); ("consumed_hlc_logical", pretty upper.2);
   ("change_seq", pretty seq)].

(** A change to be written, with its vector when it is an event. *)
Inductive change := CEvent (e : stored_event) (v : V) | CRetract (commit : string) (h : hlc).
Definition change_stamp (c : change) : stamp :=
  match c with CEvent e _ => ev_stamp e | CRetract k h => (h, k) end.
Definition change_kind (c : change) : nat := match c with CEvent _ _ => 0 | CRetract _ _ => 1 end.

(** [merged.sort(key=lambda item: (item[0], item[1], item[2]))] *)
Definition change_le (a b : change) : Prop :=
  (change_stamp a = change_stamp b ∧ (change_kind a <= change_kind b)%nat) ∨
  (change_stamp a ≠ change_stamp b ∧ stamp_le (change_stamp a) (change_stamp b)).
#[global] Instance change_le_dec : RelDecision change_le.
Proof. intros a b. unfold change_le. apply _. Defined.

(** One [INSERT]: the primary key and the change sequence are unique in their
    table. *)
Definition insert_change (c : ckpt) (seq : Z) (x : change) : option ckpt :=
  match x with
  | CEvent e v =>
      if bool_decide (ev_id e ∈ (λ r, ev_id (it_event r.1)) <$> ck_events c) || bool_decide (seq ∈ (ck_events c).*2)
      then None
      else Some (Ckpt (ck_meta c) (ck_events c ++ [(Item (strip e) (pack_vector v), seq)]) (ck_retractions c))
  | CRetract k h =>
      if bool_decide (k ∈ (λ r, r.1.1) <$> ck_retractions c) || bool_decide (seq ∈ (ck_retractions c).*2)
      then None
      else Some (Ckpt (ck_meta c) (ck_events c) (ck_retractions c ++ [(k, h, seq)]))
  end.

(** The loop over the merged changes from the sequence [seq] on. *)
Fixpoint insert_changes (c : ckpt) (seq : Z) (l : list change) : option (ckpt * Z) :=
  match l with
  | [] => Some (c, seq)
  | x :: l => match insert_change c (seq + 1) x with Some c => insert_changes c (seq + 1) l | None => None end
  end.

(** The events whose commit is retracted in the same window carry no vector. *)
Definition surviving (events : list stored_event) (retractions : list (string * hlc)) : list stored_event :=
  filter (λ e, ev_commit e ∉ retractions.*1) events.

(** [_validate_event] on every event in turn, and the vectors of those that
    survive: a first pass and a second, as in [_catch_up_batch]. *)
Definition parse_events (events : list stored_event) : result delta_exn unit :=
  match List.find (λ e, match validate_event e with Some _ => true | None => false end) events with
  | Some e => Err (EBlocked [ev_id e] "parse")
  | None => Ok tt
  end.

Definition embed_vector (p : P) (dim : Z) (e : stored_event) : result delta_exn V :=
  match event_vector p e with
  | None => Err (EBlocked [ev_id e] "vector")
  | Some v => if vector_problem v dim then Err (EBlocked [ev_id e] "vector") else Ok v
  end.

Fixpoint embed_all (p : P) (dim : Z) (l : list stored_event) : result delta_exn (list (stored_event * V)) :=
  match l with
  | [] => Ok []
  | e :: l => v ← embed_vector p dim e; rest ← embed_all p dim l; Ok ((e, v) :: rest)
  end.

(** The changes of one window in the order they are written. *)
Definition merge_changes (embedded : list (stored_event * V)) (retractions : list (string * hlc)) : list change :=
  merge_sort change_le (((λ ev, CEvent ev.1 ev.2) <$> embedded) ++ ((λ r, CRetract r.1 r.2) <$> retractions)).

(** Where SQLite fails: while the file is created, or inside the transaction,
    which is rolled back. *)
Inductive write_fault := NoFault | FaultCreating | FaultInside.

(** The transaction [_write_batch] and [_build_staging_delta] share: all changes,
    then the meta rows.  The new change sequence, and the file that is left. *)
Definition delta_transaction (fault : write_fault) (f : ckpt_file) (seq : Z) (l : list change)
    (meta : Z → list (string * string)) : result delta_exn Z * ckpt_file :=
  match fault, create_delta_schema f with
  | FaultCreating, _ | _, None => (Err EDelta, f)
  | FaultInside, Some c => (Err EDelta, CkDb c)
  | NoFault, Some c =>
      match insert_changes c seq l with
      | None => (Err EDelta, CkDb c)
      | Some (c', seq') =>
          (Ok seq', CkDb (Ckpt (write_delta_meta (meta seq') (ck_meta c')) (ck_events c') (ck_retractions c')))
      end
  end.

(** *** Loading *)

Definition _META_KEYS : list string :=
  ["delta_schema_version"; "base_generation_id"; "store_epoch"; "representation_id"; "vector_dimension";
   "base_hlc_physical_ms"; "base_hlc_logical"; "consumed_hlc_physical_ms"; "consumed_hlc_logical"; "change_seq"].

(** [int(meta[key])] *)
Definition ckpt_int (c : ckpt) (key : string) : result delta_exn Z :=
  match ck_meta c !! key with
  | Some s => match @py_int int_text_py (JStr s) with Some z => Ok z | None => Err ERejected end
  | None => Err ERejected
  end.
Definition ckpt_is (c : ckpt) (key value : string) : bool := bool_decide (ck_meta c !! key = Some value).

(** [max([...] + [-1])] *)
Definition max_row_seq (c : ckpt) : Z := foldr Z.max (-1) ((ck_events c).*2 ++ (ck_retractions c).*2).

Record loaded := Loaded { ld_mirror : mirror; ld_blocked : bool }.

Definition by_seq {A} (a b : A * Z) : Prop := a.2 <= b.2.
#[global] Instance by_seq_dec {A} : RelDecision (@by_seq A).
Proof. intros a b. unfold by_seq. apply _. Defined.

(** [open_delta_checkpoint]; the facts are read once, in the middle. *)
Definition open_delta_checkpoint (f : ckpt_file) (g : gen) (p : P) (v : facts_view) : result delta_exn loaded :=
  match f with
  | CkAbsent | CkBroken => Err ERejected
  | CkDb c =>
      _ ← guard_err (negb (forallb (λ k, bool_decide (is_Some (ck_meta c !! k))) _META_KEYS)) ERejected;
      _ ← guard_err (negb (ckpt_is c "delta_schema_version" DELTA_SCHEMA_VERSION)) ERejected;
      _ ← guard_err (negb (ckpt_is c "base_generation_id" (g_id g))) ERejected;
      _ ← guard_err (negb (ckpt_is c "store_epoch" (g_epoch g))) ERejected;
      _ ← guard_err (negb (ckpt_is c "representation_id" (representation_id p))) ERejected;
      dim ← ckpt_int c "vector_dimension";
      b1 ← ckpt_int c "base_hlc_physical_ms"; b2 ← ckpt_int c "base_hlc_logical";
      c1 ← ckpt_int c "consumed_hlc_physical_ms"; c2 ← ckpt_int c "consumed_hlc_logical";
      seq ← ckpt_int c "change_seq";
      _ ← guard_err (negb (dim =? g_dim g)) ERejected;
      _ ← guard_err (negb (bool_decide ((b1, b2) = g_hlc g))) ERejected;
      i ← read_facts_identity v;
      match i with
      | None => Err ERejected
      | Some (epoch, facts_max) =>
          _ ← guard_err (negb (String.eqb epoch (g_epoch g))) ERejected;
          _ ← guard_err (hlc_ltb (c1, c2) (b1, b2) || hlc_ltb facts_max (c1, c2)) ERejected;
          _ ← guard_err (seq <? -1) ERejected;
          _ ← guard_err (negb (max_row_seq c =? seq)) ERejected;
          let rows := merge_sort by_seq (ck_events c) in
          let tombstones := merge_sort by_seq (ck_retractions c) in
          _ ← guard_err (existsb (λ r, blob_problem (it_vector r.1) dim ||
                                       hlc_leb (ev_hlc (it_event r.1)) (b1, b2)) rows) ERejected;
          Ok (Loaded (Mirror rows.*1 tombstones.*1 (Some (c1, c2)) seq) (ckpt_is c "blocked" "1"))
      end
  end.

(** ** The projection *)

(** [_project_active] on the events with their vectors; [None]: a base row. *)
Definition project_active (items : list (stored_event * option B)) (retractions : list (string * hlc))
    : list (stored_event * option B) :=
  sort_by (λ i, ev_stamp i.1) (filter (λ i, ev_commit i.1 ∉ retractions.*1) items).

(** The item of a base row. *)
Definition base_item (commits : gmap string string) (r : gen_row) : result delta_exn (stored_event * option B) :=
  match commits !! gr_id r with
  | None => Err ERejected
  | Some commit =>
      Ok (StoredEvent (gr_id r) commit (gr_schema r) (gr_input r) (gr_category r) (gr_candidate r) (gr_hlc r) "", None)
  end.

Fixpoint base_items (commits : gmap string string) (rows : list gen_row)
    : result delta_exn (list (stored_event * option B)) :=
  match rows with
  | [] => Ok []
  | r :: rows => i ← base_item commits r; rest ← base_items commits rows; Ok (i :: rest)
  end.

(** A dict filled in a loop: a later pair wins. *)
Definition dict_of {A} (l : list (string * A)) : gmap string A := foldl (λ m kv, <[kv.1 := kv.2]> m) ∅ l.

(** [_build_snapshot] *)
Definition build_snapshot (g : gen) (p : P) (commits : gmap string string) (m : mirror) : result delta_exn snapshot :=
  base ← base_items commits (g_rows g);
  let active : list (stored_event * option B) := project_active (base ++ ((λ i, (it_event i, Some (it_vector i))) <$> mi_events m)) (mi_retractions m) in
  Ok (Snapshot (g_epoch g) (g_id g) (g_repr g) (g_dim g) (mi_consumed m) active.*1
        (dict_of ((λ i, (ev_id i.1, match i.2 with Some _ => true | None => false end)) <$> active))
        (dict_of (omap (λ i, b ← i.2; Some (ev_id i.1, unpack_vector b)) active))
        (mi_seq m) p).

(** [_verify_snapshot_vs_facts] *)
Definition verify_snapshot_vs_facts (v : facts_view) (s : snapshot) : result delta_exn unit :=
  match sn_consumed s with
  | None => Err EDelta
  | Some as_of =>
      expected ← facts_active_event_ids v as_of;
      guard_err (negb (bool_decide (list_to_set (ev_id <$> sn_events s) = expected))) ERejected
  end.

(** ** The machine *)

(** [(generation_id, checkpoint, provider, expected_epoch)] of a queued switch. *)
Record pending_publish := PendingPublish { pp_id : string; pp_provider : P; pp_epoch : string }.

(** Why a switch failed. *)
Inductive switch_error :=
| EpochChanged | SwitchRejected | MachineClosed | PublishInvalidated.

(** The checkpoint of the machine is the file of the generation [m_path]; the
    list of opened generations is kept for [close] and left out. *)
Record machine := Machine {
  m_declared : string; m_path : string; m_generation : option gen; m_provider : P;
  m_commits : gmap string string; m_mirror : mirror; m_snapshot : option snapshot;
  m_blocked : option (list string); m_refuse : option string; m_force_rebuild : bool;
  m_pending_rebuild : option string; m_pending_publish : option pending_publish;
  m_publish_result : option (option switch_error); m_stopped : bool; m_closed : bool }.

Definition set_mirror (x : mirror) (m : machine) : machine :=
  Machine (m_declared m) (m_path m) (m_generation m) (m_provider m) (m_commits m) x (m_snapshot m) (m_blocked m)
    (m_refuse m) (m_force_rebuild m) (m_pending_rebuild m) (m_pending_publish m) (m_publish_result m) (m_stopped m) (m_closed m).
Definition set_snapshot (x : option snapshot) (m : machine) : machine :=
  Machine (m_declared m) (m_path m) (m_generation m) (m_provider m) (m_commits m) (m_mirror m) x (m_blocked m)
    (m_refuse m) (m_force_rebuild m) (m_pending_rebuild m) (m_pending_publish m) (m_publish_result m) (m_stopped m) (m_closed m).
Definition set_blocked (x : option (list string)) (m : machine) : machine :=
  Machine (m_declared m) (m_path m) (m_generation m) (m_provider m) (m_commits m) (m_mirror m) (m_snapshot m) x
    (m_refuse m) (m_force_rebuild m) (m_pending_rebuild m) (m_pending_publish m) (m_publish_result m) (m_stopped m) (m_closed m).
Definition set_pending (r : option string) (p : option pending_publish) (res : option (option switch_error)) (m : machine)
    : machine :=
  Machine (m_declared m) (m_path m) (m_generation m) (m_provider m) (m_commits m) (m_mirror m) (m_snapshot m) (m_blocked m)
    (m_refuse m) (m_force_rebuild m) r p res (m_stopped m) (m_closed m).
Definition set_stopped (x : bool) (m : machine) : machine :=
  Machine (m_declared m) (m_path m) (m_generation m) (m_provider m) (m_commits m) (m_mirror m) (m_snapshot m) (m_blocked m)
    (m_refuse m) (m_force_rebuild m) (m_pending_rebuild m) (m_pending_publish m) (m_publish_result m) x (m_closed m).

(** [_publish_snapshot_locked] *)
Definition publish_snapshot (m : machine) : result delta_exn machine :=
  match m_generation m with
  | None => Err EDelta
  | Some g => s ← build_snapshot g (m_provider m) (m_commits m) (m_mirror m); Ok (set_snapshot (Some s) m)
  end.

Definition new_items (l : list change) : list delta_item :=
  omap (λ c, match c with CEvent e v => Some (Item (strip e) (pack_vector v)) | _ => None end) l.
Definition new_retractions (l : list change) : list (string * hlc) :=
  omap (λ c, match c with CRetract k h => Some (k, h) | _ => None end) l.

(** [_write_batch]: the changes of one window, durably and then in the mirror. *)
Definition write_batch (fault : write_fault) (f : ckpt_file) (m : machine) (g : gen)
    (embedded : list (stored_event * V)) (retractions : list (string * hlc)) (epoch : string) (upper : hlc)
    : result delta_exn machine * ckpt_file :=
  let merged := merge_changes embedded retractions in
  let '(r, f) := delta_transaction fault f (mi_seq (m_mirror m)) merged
                   (delta_meta (g_id g) epoch (g_repr g) (g_dim g) (g_hlc g) upper) in
  match r with
  | Err e => (Err e, f)
  | Ok seq =>
      (Ok (set_mirror (Mirror (mi_events (m_mirror m) ++ new_items merged)
                         (mi_retractions (m_mirror m) ++ new_retractions merged) (Some upper) seq) m), f)
  end.

(** [_catch_up_batch] for the identity just read: embed, one transaction, one
    snapshot.  A machine is returned also when an exception is raised. *)
Definition catch_up_batch (fault : write_fault) (v : facts_view) (f : ckpt_file) (epoch : string) (clock : hlc)
    (m : machine) : result delta_exn unit * machine * ckpt_file :=
  match mi_consumed (m_mirror m), m_generation m with
  | Some consumed, Some g =>
      if hlc_leb clock consumed then (Ok tt, m, f)
      else
        match read_fact_changes v consumed (Some clock) with
        | Err e => (Err e, m, f)
        | Ok (events, retractions) =>
            if bool_decide (events = []) && bool_decide (retractions = []) then (Ok tt, m, f)
            else
              match (_ ← parse_events events; embed_all (m_provider m) (g_dim g) (surviving events retractions)) with
              | Err e => (Err e, m, f)
              | Ok embedded =>
                  let '(r, f) := write_batch fault f m g embedded retractions epoch clock in
                  match r with
                  | Err e => (Err e, m, f)
                  | Ok m => match publish_snapshot m with Ok m => (Ok tt, m, f) | Err e => (Err e, m, f) end
                  end
              end
        end
  | _, _ => (Ok tt, m, f)
  end.

(** [ensure_caught_up] looks at the machine each time the condition wakes it;
    [EvidenceError] with its code. *)
Inductive gate_answer := Serve (s : snapshot) | NotCaughtUp | RepresentationFault | IdentityRefused | FactStoreFault.

Definition gate_look (epoch : string) (max : hlc) (m : machine) (expired : bool) : option gate_answer :=
  if m_closed m then Some NotCaughtUp
  else
    match m_blocked m with
    | Some _ => Some RepresentationFault
    | None =>
        match m_snapshot m with
        | Some s =>
            if String.eqb (sn_epoch s) epoch && match sn_consumed s with Some c => hlc_leb max c | None => false end
            then Some (Serve s)
            else if m_stopped m || expired then Some NotCaughtUp else None
        | None => if m_stopped m || expired then Some NotCaughtUp else None
        end
    end.

(** The wait loop over the machine and the clock at each wake-up. *)
Fixpoint gate_wait (epoch : string) (max : hlc) (deadline : Z) (wakes : list (machine * Z)) : option gate_answer :=
  match wakes with
  | [] => None
  | (m, now) :: wakes =>
      match gate_look epoch max m (deadline <=? now) with
      | Some a => Some a
      | None => gate_wait epoch max deadline wakes
      end
  end.

(** [DeltaError] of the fact read passes through as [Err]. *)
Definition ensure_caught_up (refuse : option string) (v : facts_view) (deadline : Z) (wakes : list (machine * Z))
    : result delta_exn (option gate_answer) :=
  match refuse with
  | Some _ => Ok (Some IdentityRefused)
  | None =>
      i ← read_facts_identity v;
      match i with
      | None => Ok (Some FactStoreFault)
      | Some (epoch, max) => Ok (gate_wait epoch max deadline wakes)
      end
  end.

(** ** The worker *)

(** The checkpoints by the generation they are kept for. *)
Local Notation disk := (gmap string ckpt_file).
Definition file_at (d : disk) (id : string) : ckpt_file := default CkAbsent (d !! id).

(** [_drop_delta_checkpoint], best effort: the file stays when it cannot be
    unlinked. *)
Definition drop_checkpoint (fails : bool) (id : string) (d : disk) : disk :=
  if fails then d else <[id := CkAbsent]> d.

Definition empty_mirror : mirror := Mirror [] [] None (-1).
Definition fresh_mirror (h0 : hlc) : mirror := Mirror [] [] (Some h0) (-1).

(** The identity, the mirror and the snapshot are replaced together. *)
Definition adopt (declared path : string) (g : gen) (p : P) (commits : gmap string string) (x : mirror)
    (s : option snapshot) (m : machine) : machine :=
  Machine declared path (Some g) p commits x s (m_blocked m) (m_refuse m) (m_force_rebuild m)
    (m_pending_rebuild m) (m_pending_publish m) (m_publish_result m) (m_stopped m) (m_closed m).
Definition clear_faults (m : machine) : machine :=
  Machine (m_declared m) (m_path m) (m_generation m) (m_provider m) (m_commits m) (m_mirror m) (m_snapshot m) None
    None (m_force_rebuild m) (m_pending_rebuild m) (m_pending_publish m) (m_publish_result m) (m_stopped m) (m_closed m).

(** [_finish_publish]; [None] is success. *)
Definition finish_publish (r : option switch_error) (m : machine) : machine :=
  set_pending (m_pending_rebuild m) None (Some r) m.

(** Where the facts are looked at during one cycle, in this order. *)
Record looks := Looks { lk_identity : facts_view; lk_changes : facts_view; lk_commits : facts_view; lk_verify : facts_view }.

(** The verifications of [_perform_publish_switch]: the generation that
    [open_generation] returned, its checkpoint, the fact commits of its rows, and
    the event set of the projection. *)
Definition switch_checks (lk : looks) (opened : option gen) (f : ckpt_file) (pp : pending_publish)
    : result delta_exn (gen * gmap string string * mirror * snapshot) :=
  match opened with
  | None => Err ERejected
  | Some g =>
      ck ← open_delta_checkpoint f g (pp_provider pp) (lk_changes lk);
      commits ← read_base_commit_ids (lk_commits lk) (g_hlc g);
      _ ← guard_err (existsb (λ r, bool_decide (commits !! gr_id r = None)) (g_rows g)) ERejected;
      s ← build_snapshot g (pp_provider pp) commits (ld_mirror ck);
      _ ← verify_snapshot_vs_facts (lk_verify lk) s;
      Ok (g, commits, ld_mirror ck, s)
  end.

(** [_perform_publish_switch]: nothing is swapped until every check has passed. *)
Definition perform_publish_switch (lk : looks) (opened : option gen) (d : disk) (pp : pending_publish) (m : machine)
    : result delta_exn unit * machine :=
  match read_facts_identity (lk_identity lk) with
  | Err _ => (Ok tt, finish_publish (Some SwitchRejected) m)
  | Ok i =>
      if negb match i with Some (epoch, _) => String.eqb epoch (pp_epoch pp) | None => false end
      then (Ok tt, finish_publish (Some EpochChanged) m)
      else
        match switch_checks lk opened (file_at d (pp_id pp)) pp with
        | Err _ => (Ok tt, finish_publish (Some SwitchRejected) m)
        | Ok (g, commits, x, s) =>
            if m_closed m then (Ok tt, finish_publish (Some MachineClosed) m)
            else (Ok tt, finish_publish None
                           (clear_faults (adopt (pp_id pp) (pp_id pp) g (pp_provider pp) commits x (Some s) m)))
        end
  end.

(** The epoch to rebuild for: the one that was asked for or that of the facts. *)
Definition rebuild_target (v : facts_view) (target : option string) : result delta_exn (option string) :=
  match target with
  | Some e => Ok (Some e)
  | None => match read_facts_identity v with Ok i => Ok (fst <$> i) | Err e => Err e end
  end.

(** The declared generation when it opens and is of that epoch, else a new one,
    with the commits of its rows. *)
Definition rebuild_generation (lk : looks) (opened : option gen) (built : result delta_exn gen) (target : option string)
    : result delta_exn (gen * gmap string string) :=
  let usable := match opened, target with
                | Some g, Some e => String.eqb (g_epoch g) e
                | Some _, None => true
                | None, _ => false
                end in
  let r : result delta_exn gen := match opened with Some g => if usable then Ok g else built | None => built end in
  g ← r;
  commits ← read_base_commit_ids (lk_commits lk) (g_hlc g);
  Ok (g, commits).

(** [_perform_rebuild]; [opened] is what [open_generation] gives for the declared
    id, and [built] what the builder returns when it is asked.  The result names the
    epoch the completion callback is called with; the retention sweep that follows
    is [rebuild_sweep] of [Recovery]. *)
Definition perform_rebuild (lk : looks) (unlink_fails : bool) (opened : option gen) (built : result delta_exn gen)
    (asked : option string) (d : disk) (m : machine) : result delta_exn (option string) * machine * disk :=
  if m_closed m then (Ok None, m, d)
  else
    let m := set_pending None None
               (match m_pending_publish m with Some _ => Some (Some EpochChanged) | None => m_publish_result m end)
               (set_blocked None (set_snapshot None m)) in
    match rebuild_target (lk_identity lk) asked with
    | Err e => (Err e, m, d)
    | Ok target =>
        let d := drop_checkpoint unlink_fails (m_path m) d in
        let m := set_mirror empty_mirror m in
        match rebuild_generation lk opened built target with
        | Err e => (Err e, m, d)
        | Ok (g, commits) =>
            let m := adopt (m_declared m) (g_id g) g (m_provider m) commits (fresh_mirror (g_hlc g)) None m in
            match publish_snapshot m with Ok m => (Ok asked, m, d) | Err e => (Err e, m, d) end
        end
    end.

(** [_record_blocked]: the diagnosis next to the mirror's watermark; SQLite
    errors are swallowed.  Of the three rows of the diagnosis the file keeps
    [blocked]; its events and its message are only shown to the operator, like
    the [blocked_reason] that a restart reads back. *)
Definition record_blocked (fault : write_fault) (d : disk) (m : machine) : disk :=
  match m_generation m, mi_consumed (m_mirror m) with
  | Some g, Some w =>
      match fault, create_delta_schema (file_at d (m_path m)) with
      | FaultCreating, _ | _, None => d
      | FaultInside, Some c => <[m_path m := CkDb c]> d
      | NoFault, Some c =>
          let meta := delta_meta (g_id g) (g_epoch g) (g_repr g) (g_dim g) (g_hlc g) w (mi_seq (m_mirror m)) in
          <[m_path m := CkDb (Ckpt (write_delta_meta (meta ++ [("blocked", "1")]) (ck_meta c)) (ck_events c)
                                   (ck_retractions c))]> d
      end
  | _, _ => d
  end.

(** What the worker meets in one cycle: the looks at the facts, the answers of
    [open_generation] and of the builder, and the faults of SQLite and [unlink]. *)
Record weather := Weather {
  we_looks : looks; we_opened : option gen; we_built : result delta_exn gen;
  we_write : write_fault; we_diagnosis : write_fault; we_unlink_fails : bool }.

(** [_cycle] up to the compaction request. *)
Definition cycle (we : weather) (d : disk) (m : machine) : result delta_exn (option string) * machine * disk :=
  match m_pending_publish m with
  | Some pp => let '(r, m) := perform_publish_switch (we_looks we) (we_opened we) d pp m in (_ ← r; Ok None, m, d)
  | None =>
      if match m_refuse m with Some _ => true | None => false end then (Ok None, m, d)
      else
        match m_pending_rebuild m, m_blocked m with
        | Some target, _ =>
            perform_rebuild (we_looks we) (we_unlink_fails we) (we_opened we) (we_built we) (Some target) d m
        | None, Some _ => (Ok None, m, d)
        | None, None =>
            match read_facts_identity (lk_identity (we_looks we)) with
            | Err e => (Err e, m, d)
            | Ok None => (Ok None, m, d)
            | Ok (Some (epoch, clock)) =>
                if match m_snapshot m with Some s => String.eqb (sn_epoch s) epoch | None => false end
                then
                  let path := m_path m in
                  let '(r, m, f) := catch_up_batch (we_write we) (lk_changes (we_looks we)) (file_at d path) epoch clock m in
                  let d := <[path := f]> d in
                  match r with
                  | Err e => (Err e, m, d)
                  | Ok _ =>
                      if match m_snapshot m with
                         | Some s => bool_decide (sn_consumed s = mi_consumed (m_mirror m)) &&
                                     (sn_seq s =? mi_seq (m_mirror m))
                         | None => false
                         end
                      then (Ok None, m, d)
                      else match publish_snapshot m with Ok m => (Ok None, m, d) | Err e => (Err e, m, d) end
                  end
                else
                  (* the rebuild reads the identity once more *)
                  let lk := Looks (lk_verify (we_looks we)) (lk_changes (we_looks we)) (lk_commits (we_looks we))
                              (lk_verify (we_looks we)) in
                  perform_rebuild lk (we_unlink_fails we) (we_opened we) (we_built we) None d m
            end
        end
  end.

(** One turn of [_run]: a [DeltaBlocked] is recorded and blocks the machine, any
    other exception is only noted. *)
Definition run_cycle (we : weather) (d : disk) (m : machine) : option string * machine * disk :=
  if m_stopped m || m_closed m then (None, m, d)
  else
    match cycle we d m with
    | (Err (EBlocked events _), m, d) => (None, set_blocked (Some events) m, record_blocked (we_diagnosis we) d m)
    | (Err _, m, d) => (None, m, d)
    | (Ok completed, m, d) => (completed, m, d)
    end.

(** *** The seams of the other components *)

(** [publish_switch] queues the switch unless one is in flight. *)
Definition queue_publish (pp : pending_publish) (m : machine) : machine :=
  if m_closed m then m
  else match m_pending_publish m with
       | Some _ => m
       | None => set_pending (m_pending_rebuild m) (Some pp) None m
       end.

(** [invalidate] *)
Definition invalidate (unlink_fails : bool) (d : disk) (m : machine) : machine * disk :=
  let m' := set_pending (m_pending_rebuild m) None
              (match m_pending_publish m with Some _ => Some (Some PublishInvalidated) | None => None end)
              (set_blocked None (set_snapshot None m)) in
  (set_mirror empty_mirror m', drop_checkpoint unlink_fails (m_path m) d).

(** [rebuild] *)
Definition rebuild (target : string) (m : machine) : machine :=
  if m_closed m then m
  else set_stopped false
         (set_pending (Some (default target (m_pending_rebuild m))) (m_pending_publish m) (m_publish_result m) m).

Definition request_stop (m : machine) : machine := set_stopped true m.
Definition start (m : machine) : machine := set_stopped false m.

(** [retry]: the diagnosis is deleted, then the block is cleared, unless the
    machine is closed. *)
Definition retry (fault : write_fault) (d : disk) (m : machine) : machine * disk :=
  let d' := match fault, file_at d (m_path m) with
            | NoFault, CkDb c =>
                <[m_path m := CkDb (Ckpt (delete "blocked" (ck_meta c)) (ck_events c) (ck_retractions c))]> d
            | _, _ => d
            end in
  (if m_closed m then m else set_blocked None m, d').

(** [close] *)
Definition close (m : machine) : machine :=
  if m_closed m then m
  else
    Machine (m_declared m) (m_path m) (m_generation m) (m_provider m) (m_commits m) (m_mirror m) None (m_blocked m)
      (m_refuse m) (m_force_rebuild m) (m_pending_rebuild m) (m_pending_publish m) (m_publish_result m) true true.

(** [dirty_state]; [soft_min], [hard_changes] and [hard_bytes] are configured,
    [ratio_rows] is [int(ratio * base_rows)]. *)
Record dirty := Dirty { dirty_soft : bool; dirty_hard : bool }.
Definition dirty_state (soft_min hard_changes hard_bytes ratio_rows checkpoint_bytes : Z) (m : machine) : dirty :=
  let changes := Z.of_nat (length (mi_events (m_mirror m)) + length (mi_retractions (m_mirror m))) in
  Dirty (Z.max soft_min ratio_rows <=? changes) ((hard_changes <=? changes) || (hard_bytes <=? checkpoint_bytes)).

(** [_maybe_request_compaction]: whether the trigger is called. *)
Definition maybe_request_compaction (wired : bool) (st : dirty) (facts_max : hlc) (m : machine) : bool :=
  match wired, m_snapshot m with
  | true, Some s =>
      dirty_hard st || (dirty_soft st && match sn_consumed s with Some c => hlc_leb facts_max c | None => false end)
  | _, _ => false
  end.

(** ** Starting a machine *)

Definition new_machine (declared path : string) (p : P) (g : option gen) (commits : gmap string string) (x : mirror)
    (blocked : option (list string)) (refuse : option string) (force : bool) : machine :=
  Machine declared path g p commits x None blocked refuse force None None None false false.

(** [__init__] once the base generation is loaded, built or refused: [None] with
    the reason of the refusal or the events of the block.  The machine or the
    [DeltaError] it raises, and the checkpoints it leaves. *)
Definition start_machine (lk : looks) (unlink_fails : bool) (d : disk) (declared path : string) (p : P)
    (loaded : option gen) (blocked : option (list string)) (refuse : option string) (force : bool)
    : result delta_exn machine * disk :=
  match loaded with
  | None => (Ok (new_machine declared path p None ∅ empty_mirror blocked refuse force), d)
  | Some g =>
      match
        _ ← guard_err (negb (String.eqb (g_repr g) (representation_id p))) EDelta;
        _ ← guard_err (negb (g_dim g =? provider_dimension p)) EDelta;
        i ← read_facts_identity (lk_identity lk);
        _ ← guard_err (negb match i with Some (e, _) => String.eqb e (g_epoch g) | None => false end) EDelta;
        commits ← read_base_commit_ids (lk_commits lk) (g_hlc g);
        _ ← guard_err (existsb (λ r, bool_decide (commits !! gr_id r = None)) (g_rows g)) EDelta;
        Ok commits
      with
      | Err e => (Err e, d)
      | Ok commits =>
          let fresh := new_machine declared path p (Some g) commits (fresh_mirror (g_hlc g)) None refuse force in
          let dropped := drop_checkpoint unlink_fails path d in
          match open_delta_checkpoint (file_at d path) g p (lk_changes lk) with
          | Err ERejected => (publish_snapshot fresh, dropped)
          | Err e => (Err e, d)
          | Ok ck =>
              let m := new_machine declared path p (Some g) commits (ld_mirror ck)
                         (if ld_blocked ck then Some [] else None) refuse force in
              match publish_snapshot m with
              | Err e => (Err e, d)
              | Ok m =>
                  if ld_blocked ck then (Ok m, d)
                  else
                    match m_snapshot m with
                    | None => (Err EDelta, d)
                    | Some s =>
                        match verify_snapshot_vs_facts (lk_verify lk) s with
                        | Ok _ => (Ok m, d)
                        | Err ERejected => (publish_snapshot fresh, dropped)
                        | Err e => (Err e, d)
                        end
                    end
              end
          end
      end
  end.

(** ** The checkpoint of a staged generation *)

(** [PublishBlocked], [PublishError], or an exception of a reader ([DeltaError],
    and the [TypeError] of a missing store) that the publisher does not expect. *)
Inductive staging_exn := StagingBlocked (events : list string) (phase : string) | StagingError | StagingRaised.
Definition staging_of (e : delta_exn) : staging_exn :=
  match e with EBlocked ev ph => StagingBlocked ev ph | _ => StagingRaised end.
Definition as_staging {A} (r : result delta_exn A) : result staging_exn A :=
  match r with Ok a => Ok a | Err e => Err (staging_of e) end.

Definition names_epoch (g : gen) (i : option (string * hlc)) : bool :=
  match i with Some (e, _) => String.eqb e (g_epoch g) | None => false end.

(** What is read and embedded before the file is touched. *)
Definition staging_window (lk : looks) (g : gen) (p : P) (upper : hlc)
    : result staging_exn (list (stored_event * V) * list (string * hlc)) :=
  i ← as_staging (read_facts_identity (lk_identity lk));
  _ ← guard_err (match i with None => true | Some _ => false end) StagingRaised;
  _ ← guard_err (negb (names_epoch g i)) StagingError;
  ch ← as_staging (read_fact_changes (lk_changes lk) (g_hlc g) (Some upper));
  _ ← as_staging (parse_events ch.1);
  em ← as_staging (embed_all p (g_dim g) (surviving ch.1 ch.2));
  Ok (em, ch.2).

(** The epoch is checked once more when the file is durable. *)
Definition staging_recheck (v : facts_view) (g : gen) : result staging_exn unit :=
  i ← as_staging (read_facts_identity v);
  guard_err (negb (names_epoch g i)) StagingError.

(** [_build_staging_delta] in [publish.py]: the changes in [(H0, upper]] next to
    generation [g], in a file of their own. *)
Definition build_staging_delta (lk : looks) (unlink_fails : bool) (fault : write_fault) (d : disk) (g : gen) (p : P)
    (upper : hlc) : result staging_exn unit * disk :=
  match staging_window lk g p upper with
  | Err e => (Err e, d)
  | Ok (em, rs) =>
      let f := file_at (drop_checkpoint unlink_fails (g_id g) d) (g_id g) in
      let '(r, f') := delta_transaction fault f (-1) (merge_changes em rs)
                        (delta_meta (g_id g) (g_epoch g) (g_repr g) (g_dim g) (g_hlc g) upper) in
      let d := <[g_id g := f']> d in
      match r with
      | Err _ => (Err (match fault, create_delta_schema f with
                       | FaultCreating, _ | _, None => StagingRaised
                       | _, _ => StagingError
                       end), d)
      | Ok _ => (staging_recheck (lk_verify lk) g, d)
      end
  end.
End delta.
Arguments delta_item : clear implicits.
Arguments mirror : clear implicits.
Arguments snapshot : clear implicits.
Arguments ckpt : clear implicits.
Arguments ckpt_file : clear implicits.
Arguments loaded : clear implicits.
Arguments change : clear implicits.
