(* ===== verification/DeltaProjection.v ===== *)
(** * The delta's projection is the facts' projection

    Invariants of the mirror and of the snapshot of [Delta] relative to a fact
    store, and what a catch-up batch does to them: base rows and absorbed changes,
    with the tombstones applied, are the events the facts themselves call active at
    the consumed watermark. *)

From Stdlib Require Import String.
From stdpp Require Import base list strings gmap pretty sorting.
From S2P Require Import Prelude PyJson Facts Delta.
Open Scope Z_scope.

(** ** The mirror and the facts *)

Section projection.
Context {P V B : Type} `{Vectors P V B} `{IntText}.
Local Notation mirror := (mirror B).

(** The generation row of an event. *)
Definition row_of (e : stored_event) : gen_row :=
  GenRow (ev_id e) (ev_schema e) (ev_category e) (ev_input e) (ev_text e) (ev_hlc e).

(** A generation holds the projection at its own watermark, and [commits] is right
    about the rows it knows. *)
Record gen_ok (db : facts_db) (g : gen) (commits : gmap string string) : Prop := {
  go_epoch : g_epoch g = store_epoch_of db;
  go_clock : ∃ c, clock_is db c ∧ hlc_leb (g_hlc g) c = true;
  go_rows : g_rows g = row_of <$> read_active_events db (g_hlc g);
  go_commits : ∀ e k, e ∈ read_active_events db (g_hlc g) → commits !! ev_id e = Some k → k = ev_commit e }.

(** It knows them all. *)
Definition commits_complete (g : gen) (commits : gmap string string) : Prop :=
  ∀ r, r ∈ g_rows g → is_Some (commits !! gr_id r).

(** The mirror has absorbed the changes up to [w]: every event of the window is
    there or retracted in the window, and all retractions are. *)
Record mirror_ok (db : facts_db) (h0 w : hlc) (m : mirror) : Prop := {
  mo_consumed : mi_consumed m = Some w;
  mo_range : hlc_leb h0 w = true ∧ ∃ c, clock_is db c ∧ hlc_leb w c = true;
  mo_events : ∀ i, i ∈ mi_events m →
    ∃ e, e ∈ f_events db ∧ in_window h0 w (ev_hlc e) = true ∧ it_event i = strip e;
  mo_nodup : NoDup ((λ i, ev_id (it_event i)) <$> mi_events m);
  mo_complete : ∀ e, e ∈ f_events db → in_window h0 w (ev_hlc e) = true →
    (∃ i, i ∈ mi_events m ∧ it_event i = strip e) ∨ ev_commit e ∈ (mi_retractions m).*1;
  mo_nodup_retractions : NoDup (mi_retractions m).*1;
  mo_retractions : ∀ r, r ∈ mi_retractions m ↔ r ∈ f_retractions db ∧ in_window h0 w r.2 = true }.

Lemma in_window_spec lo up h : in_window lo up h = true ↔ hlc_ltb lo h = true ∧ hlc_leb h up = true.
Proof. unfold in_window. by rewrite andb_true_iff. Qed.

Lemma base_items_inv commits l items :
  (∀ e k, e ∈ l → commits !! ev_id e = Some k → k = ev_commit e) →
  base_items (B := B) commits (row_of <$> l) = Ok items → items = (λ e, (strip e, None)) <$> l.
Proof.
  revert items. induction l as [|e l IH]; intros items Hl; cbn; [by intros [= <-]|].
  unfold base_item. cbn. destruct (commits !! ev_id e) as [k|] eqn:Hk; [|done]. cbn. intros Hok. ok_inv.
  rewrite (Hl e k) by (done || by left). rewrite (IH x) by (done || (intros; eapply Hl; [by right|done])). done.
Qed.

Lemma base_items_total commits rows :
  (∀ r, r ∈ rows → is_Some (commits !! gr_id r)) → ∃ items, base_items (B := B) commits rows = Ok items.
Proof.
  induction rows as [|r rows IH]; intros Hr; [by eexists|]. destruct IH as [items Hi]; [intros; apply Hr; by right|].
  destruct (Hr r) as [k Hk]; [by left|]. cbn. unfold base_item. rewrite Hk. cbn. rewrite Hi. by eexists.
Qed.

(** The events of the mirror next to those of the base, and the facts: the same
    active set. *)
Lemma projected_elem db g commits w m e' :
  wf_facts db → gen_ok db g commits → mirror_ok db (g_hlc g) w m →
  (e' ∈ strip <$> read_active_events db (g_hlc g) ∨ e' ∈ it_event <$> mi_events m) ∧
    ev_commit e' ∉ (mi_retractions m).*1 ↔
  e' ∈ strip <$> read_active_events db w.
Proof.
  intros Hwf Hg [_ [Hle _] Hev _ Hcomp _ Hre].
  assert (∀ c, c ∈ (mi_retractions m).*1 ↔
            ∃ r, r ∈ f_retractions db ∧ in_window (g_hlc g) w r.2 = true ∧ r.1 = c) as Hret.
  { intros c. rewrite list_elem_of_fmap. split.
    - intros (r&->&Hr). apply Hre in Hr. naive_solver.
    - intros (r&Hr&Hw&<-). exists r. split; [done|]. by apply Hre. }
  rewrite Hret, !list_elem_of_fmap. setoid_rewrite read_active_elem. setoid_rewrite active_at_spec. split.
  - intros [[(e&->&He&Hh&Hact)|(i&->&Hi)] Hn].
    + exists e. split_and!; [done|done|hlc_solve|]. intros r Hr Heq. destruct (hlc_leb r.2 w) eqn:Hrw; [|done].
      destruct (hlc_leb r.2 (g_hlc g)) eqn:Hr0; [by rewrite Hact in Hr0|]. exfalso. apply Hn. exists r.
      split_and!; [done| |done]. apply in_window_spec. unfold hlc_ltb. by rewrite Hr0.
    + destruct (Hev i Hi) as (e&He&[Hlo Hup]%in_window_spec&Heq). exists e. split_and!; [done|done|done|].
      intros r Hr Hc. destruct (hlc_leb r.2 w) eqn:Hrw; [|done]. exfalso. apply Hn. exists r.
      split_and!; [done| |by rewrite Heq]. apply in_window_spec. split; [|done].
      pose proof (wf_order _ Hwf e r He Hr (eq_sym Hc)). hlc_solve.
  - intros (e&->&He&Hh&Hact). split.
    + destruct (hlc_leb (ev_hlc e) (g_hlc g)) eqn:H0e.
      * left. exists e. split_and!; [done|done|done|]. intros r Hr Hc. specialize (Hact r Hr Hc).
        destruct (hlc_leb r.2 (g_hlc g)) eqn:E; [|done]. hlc_solve.
      * right. destruct (Hcomp e He) as [(i&Hi&Heq)|Hr].
        -- apply in_window_spec. unfold hlc_ltb. by rewrite H0e.
        -- by exists i.
        -- apply Hret in Hr as (r&Hr&[_ Hw]%in_window_spec&Hc). specialize (Hact r Hr Hc). congruence.
    + intros (r&Hr&[_ Hw]%in_window_spec&Hc). specialize (Hact r Hr Hc). congruence.
Qed.
End projection.

Section snapshots.
Context {P V B : Type} `{Vectors P V B} `{IntText}.

(** A snapshot serves the projection of the facts at its watermark. *)
Definition snapshot_ok (db : facts_db) (s : snapshot P V) : Prop :=
  sn_epoch s = store_epoch_of db ∧
  ∃ w c, sn_consumed s = Some w ∧ clock_is db c ∧ hlc_leb w c = true ∧
         sn_events s = strip <$> read_active_events db w.

Lemma strip_ids (l : list stored_event) : ev_id <$> (strip <$> l) = ev_id <$> l.
Proof. by rewrite <- list_fmap_compose. Qed.

(** Base rows and mirror rows have different ids. *)
Lemma items_nodup db g w (m : mirror B) :
  wf_facts db → mirror_ok db (g_hlc g) w m →
  NoDup (ev_id <$> ((strip <$> read_active_events db (g_hlc g)) ++ (it_event <$> mi_events m))).
Proof.
  intros Hwf [_ _ Hev Hnd _ _ _]. rewrite fmap_app, strip_ids, <- list_fmap_compose. apply NoDup_app.
  split_and!; [by apply read_active_nodup| |done].
  intros id (e&->&[He [Hle _]%active_at_spec]%read_active_elem)%list_elem_of_fmap (i&Heq&Hi)%list_elem_of_fmap.
  destruct (Hev i Hi) as (e'&He'&[Hlo _]%in_window_spec&Hs). simpl in Heq. rewrite Hs in Heq. simpl in Heq.
  assert (e = e') as -> by by eapply wf_id_inj. hlc_solve.
Qed.

Lemma project_active_events (items : list (stored_event * option B)) rs :
  NoDup (ev_id <$> items.*1) →
  (project_active items rs).*1 = sort_by ev_stamp (filter (λ e, ev_commit e ∉ rs.*1) items.*1).
Proof.
  intros Hnd. unfold project_active. rewrite (sort_by_fmap fst _ ev_stamp); [|done|].
  - f_equal. clear Hnd. induction items as [|[e b] items IH]; [done|]. rewrite filter_cons, fmap_cons, filter_cons.
    simpl. case_decide; [by rewrite fmap_cons, IH|done].
  - apply (NoDup_fmap_1 snd). rewrite <- list_fmap_compose.
    assert (NoDup (ev_id <$> (filter (λ i : stored_event * option B, ev_commit i.1 ∉ rs.*1) items).*1)) as Hn.
    { clear -Hnd. induction items as [|[e b] items IH]; [done|]. rewrite filter_cons.
      rewrite fmap_cons, fmap_cons, NoDup_cons in Hnd. destruct Hnd as [Hn Hnd]. case_decide; [|by apply IH].
      rewrite fmap_cons, fmap_cons, NoDup_cons. split; [|by apply IH]. intros Hin. apply Hn.
      rewrite list_elem_of_fmap in *. destruct Hin as (e'&Heq&Hin). exists e'. split; [done|].
      apply list_elem_of_fmap in Hin as (i&->&[_ Hi]%list_elem_of_filter). apply list_elem_of_fmap. eauto. }
    by rewrite <- list_fmap_compose in Hn.
Qed.

Lemma build_snapshot_ok db g commits p w (m : mirror B) s :
  wf_facts db → gen_ok db g commits → mirror_ok db (g_hlc g) w m → build_snapshot g p commits m = Ok s →
  snapshot_ok db s ∧ sn_consumed s = Some w.
Proof.
  intros Hwf Hg Hm. unfold build_snapshot. rewrite (go_rows _ _ _ Hg).
  destruct (base_items _ _) as [items|] eqn:Hitems; [|done]. apply base_items_inv in Hitems as ->; [|apply Hg].
  intros [= <-]. split; [|apply Hm]. split; [apply Hg|].
  destruct (mo_range _ _ _ _ Hm) as (_&c&Hc&Hw). exists w, c. split; [apply Hm|]. split; [done|]. split; [done|].
  simpl.
  assert ((((λ e, (strip e, None)) <$> read_active_events db (g_hlc g)) ++
           ((λ i, (it_event i, Some (it_vector i))) <$> mi_events m)).*1 =
          (strip <$> read_active_events db (g_hlc g)) ++ (it_event <$> mi_events m)) as Hfst.
  { by rewrite fmap_app, <- !list_fmap_compose. }
  rewrite project_active_events; rewrite Hfst; [|by eapply items_nodup].
  unfold read_active_events at 2. rewrite (sort_by_fmap strip ev_stamp ev_stamp); [|done|by apply nodup_ids_stamps, wf_ids_filter].
  apply sort_by_ext.
  - apply nodup_ids_stamps, nodup_ids_filter. by eapply items_nodup.
  - apply nodup_ids_stamps. rewrite strip_ids. by apply wf_ids_filter.
  - intros e. rewrite list_elem_of_filter, elem_of_app, (and_comm (_ ∉ _)). rewrite (projected_elem db g commits w m) by done.
    unfold read_active_events. rewrite !list_elem_of_fmap. setoid_rewrite sort_by_elem. done.
Qed.

(** A snapshot stays right while the facts grow. *)
Lemma snapshot_ok_ext db db' s :
  wf_facts db → wf_facts db' → facts_ext db db' → snapshot_ok db s → snapshot_ok db' s.
Proof.
  intros H1 H2 Hext [He (w&c&Hw&Hc&Hle&Hev)]. split; [by rewrite (ext_epoch _ _ Hext)|].
  destruct (ext_clock _ _ Hext) as (c1&c2&Hc1&Hc2&H12&_). assert (c1 = c) as -> by by eapply clock_is_inj.
  exists w, c2. split_and!; [done|done|hlc_solve|]. by erewrite facts_ext_read_active.
Qed.

Lemma gen_ok_ext db db' g commits :
  wf_facts db → wf_facts db' → facts_ext db db' → gen_ok db g commits → gen_ok db' g commits.
Proof.
  intros H1 H2 Hext [He (c&Hc&Hle) Hr Hco]. destruct (ext_clock _ _ Hext) as (c1&c2&Hc1&Hc2&H12&Hev&_).
  assert (c1 = c) as -> by by eapply clock_is_inj. split.
  - by rewrite (ext_epoch _ _ Hext).
  - exists c2. split; [done|hlc_solve].
  - by erewrite facts_ext_read_active.
  - intros e k. rewrite (facts_ext_read_active db db' c) by done. apply Hco.
Qed.

Lemma mirror_ok_ext db db' h0 w (m : mirror B) :
  facts_ext db db' → mirror_ok db h0 w m → mirror_ok db' h0 w m.
Proof.
  intros Hext [Hco [Hle (c&Hc&Hwc)] Hev Hnd Hcomp Hndr Hre]. destruct (ext_clock _ _ Hext) as (c1&c2&Hc1&Hc2&H12&He&Hr).
  assert (c1 = c) as -> by by eapply clock_is_inj. split.
  - done.
  - split; [done|]. exists c2. split; [done|hlc_solve].
  - intros i Hi. destruct (Hev i Hi) as (e&Hin&?&?). exists e. split_and!; [by apply He|done|done].
  - done.
  - intros e Hin Hwin. apply Hcomp; [|done]. apply He. split; [done|]. apply in_window_spec in Hwin as [_ ?]. hlc_solve.
  - done.
  - intros r. rewrite Hre, Hr. split; [naive_solver|]. intros [? Hwin]. split_and!; [done| |done].
    apply in_window_spec in Hwin as [_ ?]. hlc_solve.
Qed.
End snapshots.

(** ** Catching up *)

Section catch_up.
Context {P V B : Type} `{Vectors P V B} `{IntText}.

Lemma new_items_merge (em : list (stored_event * V)) rs :
  new_items (merge_changes em rs) ≡ₚ (λ ev, Item (strip ev.1) (pack_vector ev.2)) <$> em.
Proof.
  unfold new_items, merge_changes. rewrite merge_sort_Permutation, omap_app.
  assert (∀ l : list (string * hlc), omap (λ c : change V, match c with
            | CEvent e v => Some (Item (strip e) (pack_vector v)) | CRetract _ _ => None end)
            ((λ r, CRetract r.1 r.2) <$> l) = []) as -> by (by induction l).
  rewrite app_nil_r. induction em as [|[e v] em IH]; [done|]. cbn. by constructor.
Qed.

Lemma new_retractions_merge (em : list (stored_event * V)) rs :
  new_retractions (merge_changes em rs) ≡ₚ rs.
Proof.
  unfold new_retractions, merge_changes. rewrite merge_sort_Permutation, omap_app.
  assert (omap (λ c : change V, match c with CEvent _ _ => None | CRetract k h => Some (k, h) end)
            ((λ ev, CEvent ev.1 ev.2) <$> em) = []) as -> by (by induction em).
  cbn. induction rs as [|[k h] rs IH]; [done|]. cbn. by constructor.
Qed.

Lemma embed_all_fst p dim l em : embed_all p dim l = Ok em → em.*1 = l.
Proof.
  revert em. induction l as [|e l IH]; intros em; simpl; [by intros [= <-]|]. intros Hem. ok_inv.
  cbn. f_equal. by apply IH.
Qed.

(** The window of a read after the mirror's watermark. *)
Definition window_events (db : facts_db) (w w' : hlc) : list stored_event :=
  sort_by ev_stamp (filter (λ e, in_window w w' (ev_hlc e) = true) (f_events db)).
Definition window_retractions (db : facts_db) (w w' : hlc) : list (string * hlc) :=
  sort_by retr_stamp (filter (λ r, in_window w w' r.2 = true) (f_retractions db)).

Lemma window_events_elem db w w' e :
  e ∈ window_events db w w' ↔ e ∈ f_events db ∧ in_window w w' (ev_hlc e) = true.
Proof. unfold window_events. rewrite sort_by_elem, list_elem_of_filter. tauto. Qed.

Lemma window_retractions_elem db w w' r :
  r ∈ window_retractions db w w' ↔ r ∈ f_retractions db ∧ in_window w w' r.2 = true.
Proof. unfold window_retractions. rewrite sort_by_elem, list_elem_of_filter. tauto. Qed.

Lemma read_fact_changes_wf db c w :
  wf_facts db → clock_is db c →
  read_fact_changes (Store db) w (Some c) = Ok (window_events db w c, window_retractions db w c).
Proof.
  intros Hwf Hc. unfold read_fact_changes. cbn -[meta_identity].
  rewrite (meta_identity_clock _ _ Hwf Hc). cbn -[meta_identity].
  assert (hlc_leb c c = true) as -> by hlc_solve. cbn. by rewrite bool_decide_true.
Qed.

(** The changes of the window after [w] complete the mirror up to [w']. *)
Lemma mirror_absorb db h0 w w' (m : mirror B) em seq :
  wf_facts db → mirror_ok db h0 w m → hlc_leb w w' = true → clock_is db w' →
  em.*1 = surviving (window_events db w w') (window_retractions db w w') →
  let merged := merge_changes em (window_retractions db w w') in
  mirror_ok db h0 w'
    (Mirror (mi_events m ++ new_items merged) (mi_retractions m ++ new_retractions merged) (Some w') seq).
Proof.
  intros Hwf [Hco [Hle _] Hev Hnd Hcomp Hndr Hre] Hlt Hclock Hem merged.
  assert (∀ e, e ∈ em.*1 → e ∈ f_events db ∧ in_window w w' (ev_hlc e) = true) as Hin.
  { intros e. rewrite Hem. intros [_ He]%list_elem_of_filter. by apply window_events_elem. }
  assert (∀ h, in_window h0 w' h = true ↔ in_window h0 w h = true ∨ in_window w w' h = true) as Hsplit.
  { intros h. rewrite !in_window_spec. destruct (hlc_leb h w) eqn:E.
    - split; [intros [? ?]; by left|]. intros [[? _]|[? _]]; split; hlc_solve.
    - split; [intros [? ?]; right; split; [unfold hlc_ltb; by rewrite E|done]|].
      intros [[_ ?]|[? ?]]; [congruence|split; [hlc_solve|done]]. }
  split; simpl.
  - done.
  - split; [hlc_solve|]. exists w'. split; [done|hlc_solve].
  - intros i [Hi|Hi]%elem_of_app.
    + destruct (Hev i Hi) as (e&?&?&?). exists e. split_and!; [done|apply Hsplit; by left|done].
    + unfold merged in Hi. rewrite new_items_merge in Hi. apply list_elem_of_fmap in Hi as (ev&->&Hi).
      destruct (Hin ev.1) as [? ?]; [by apply list_elem_of_fmap_2|].
      exists ev.1. split_and!; [done|apply Hsplit; by right|done].
  - rewrite fmap_app. unfold merged. rewrite new_items_merge, <- list_fmap_compose. apply NoDup_app. split_and!.
    + done.
    + intros id (i&->&Hi)%list_elem_of_fmap (ev&Heq&Hv)%list_elem_of_fmap. simpl in Heq.
      destruct (Hev i Hi) as (e&He&[_ Hup]%in_window_spec&Hs). rewrite Hs in Heq. simpl in Heq.
      destruct (Hin ev.1) as [He' [Hlo _]%in_window_spec]; [by apply list_elem_of_fmap_2|].
      assert (e = ev.1) as -> by by eapply wf_id_inj. hlc_solve.
    + change (NoDup ((λ ev : stored_event * V, ev_id ev.1) <$> em)).
      change (NoDup (ev_id ∘ fst <$> em)). rewrite (list_fmap_compose fst ev_id em), Hem. unfold surviving, window_events.
      by apply nodup_ids_filter, sort_by_nodup, wf_ids_filter.
  - intros e He [Hw|Hw]%Hsplit.
    + destruct (Hcomp e He Hw) as [(i&Hi&Heq)|Hr].
      * left. exists i. split; [|done]. apply elem_of_app. by left.
      * right. rewrite fmap_app. apply elem_of_app. by left.
    + destruct (decide (ev_commit e ∈ (window_retractions db w w').*1)) as [Hr|Hr].
      * right. rewrite fmap_app, elem_of_app. right. unfold merged. by rewrite new_retractions_merge.
      * left. assert (e ∈ em.*1) as (ev&->&Hv)%list_elem_of_fmap.
        { rewrite Hem. apply list_elem_of_filter. split; [done|]. by apply window_events_elem. }
        exists (Item (strip ev.1) (pack_vector ev.2)). split; [|done]. apply elem_of_app. right. unfold merged.
        rewrite new_items_merge. apply list_elem_of_fmap. eauto.
  - unfold merged. rewrite new_retractions_merge, fmap_app. apply NoDup_app. split_and!; [done| |].
    + intros k (r&->&[Hr Hw]%Hre)%list_elem_of_fmap (r'&Heq&[Hr' Hw']%window_retractions_elem)%list_elem_of_fmap.
      assert (r = r') as -> by by eapply wf_retraction_inj.
      apply in_window_spec in Hw as [_ ?]. apply in_window_spec in Hw' as [? _]. hlc_solve.
    + unfold window_retractions. by apply sort_by_nodup, wf_retr_filter.
  - intros r. rewrite elem_of_app. unfold merged. rewrite new_retractions_merge, Hre, window_retractions_elem, Hsplit.
    tauto.
Qed.
End catch_up.

Section machine_invariant.
Context {P V B : Type} `{Vectors P V B} `{IntText}.
Local Notation machine := (machine (P := P) (V := V) (B := B)).

(** What the machine may rely on and what it serves, for the store [db]: the
    snapshot is a projection of the facts, and the mirror is the window after the
    generation.  A machine still on another epoch has to be rebuilt first. *)
Record machine_ok (db : facts_db) (m : machine) : Prop := {
  mk_snapshot : ∀ s, m_snapshot m = Some s → sn_epoch s = store_epoch_of db → snapshot_ok db s;
  mk_mirror : ∀ g, m_generation m = Some g → g_epoch g = store_epoch_of db →
    mi_consumed (m_mirror m) = None ∨ (gen_ok db g (m_commits m) ∧ ∃ w, mirror_ok db (g_hlc g) w (m_mirror m)) }.

Lemma machine_ok_ext db db' m :
  wf_facts db → wf_facts db' → facts_ext db db' → machine_ok db m → machine_ok db' m.
Proof.
  intros H1 H2 Hext [Hs Hm]. split.
  - intros s Hsn He. rewrite (ext_epoch _ _ Hext) in He. apply (snapshot_ok_ext db); auto.
  - intros g Hg He. rewrite (ext_epoch _ _ Hext) in He. destruct (Hm g Hg He) as [|[? (w&?)]]; [by left|right].
    split; [by apply (gen_ok_ext db)|]. exists w. by apply (mirror_ok_ext db).
Qed.

Lemma publish_snapshot_inv m m' :
  publish_snapshot m = Ok m' →
  ∃ g s, m_generation m = Some g ∧ build_snapshot g (m_provider m) (m_commits m) (m_mirror m) = Ok s ∧
         m' = set_snapshot (Some s) m ∧ sn_epoch s = g_epoch g ∧ sn_base s = g_id g ∧ sn_provider s = m_provider m.
Proof.
  unfold publish_snapshot. destruct (m_generation m) as [g|]; [|done]. intros Hok. ok_inv. exists g, x.
  split; [done|]. split; [done|]. split; [done|]. unfold build_snapshot in Hok0. ok_inv. done.
Qed.

Lemma publish_snapshot_total m g :
  m_generation m = Some g → commits_complete g (m_commits m) → ∃ s, publish_snapshot m = Ok (set_snapshot (Some s) m).
Proof.
  intros Hg Hc. unfold publish_snapshot. rewrite Hg. unfold build_snapshot.
  destruct (base_items_total (B := B) (m_commits m) (g_rows g) Hc) as [items ->]. by eexists.
Qed.

(** [write_batch] changes the mirror only, and only when it succeeds. *)
Lemma write_batch_ok fault f m g em rs epoch upper m' f' :
  write_batch fault f m g em rs epoch upper = (Ok m', f') →
  ∃ seq, m' = set_mirror (Mirror (mi_events (m_mirror m) ++ new_items (merge_changes em rs))
                 (mi_retractions (m_mirror m) ++ new_retractions (merge_changes em rs)) (Some upper) seq) m.
Proof.
  unfold write_batch. destruct (delta_transaction _ _ _ _ _) as [[seq|e] f0]; [|done]. intros [= <- _]. eauto.
Qed.

(** The window up to an earlier clock reads the same in a later store. *)
Lemma read_fact_changes_ext db db' c w :
  wf_facts db → wf_facts db' → facts_ext db db' → clock_is db c →
  read_fact_changes (Store db') w (Some c) = Ok (window_events db w c, window_retractions db w c).
Proof.
  intros H1 H2 Hext Hc. destruct (ext_clock _ _ Hext) as (c1&c2&Hc1&Hc2&Hle&Hev&Hre).
  assert (c1 = c) as -> by by eapply clock_is_inj.
  unfold read_fact_changes. cbn -[meta_identity]. rewrite (meta_identity_clock _ _ H2 Hc2). cbn -[meta_identity].
  rewrite Hle. cbn. rewrite bool_decide_true by done. cbn. do 2 f_equal.
  - apply sort_by_ext; [by apply nodup_ids_stamps, wf_ids_filter..|].
    intros e. rewrite !list_elem_of_filter, Hev. split; [|naive_solver]. intros [Hw He].
    split_and!; [done|done|]. by apply in_window_spec in Hw as [_ ?].
  - apply sort_by_ext; [by apply wf_retr_stamps..|].
    intros r. rewrite !list_elem_of_filter, Hre. split; [|naive_solver]. intros [Hw Hr].
    split_and!; [done|done|]. by apply in_window_spec in Hw as [_ ?].
Qed.

(** One batch on a machine of the current epoch, with the clock read in [db] and
    the changes in a later store: when it returns, it had nothing to do or serves
    the projection of the facts at that clock. *)
Lemma catch_up_batch_spec db db' c fault f m g r m' f' :
  wf_facts db → wf_facts db' → facts_ext db db' → clock_is db c → m_generation m = Some g →
  g_epoch g = store_epoch_of db → machine_ok db m →
  catch_up_batch fault (Store db') f (store_epoch_of db) c m = (r, m', f') →
  machine_ok db m' ∧
  (r = Ok tt →
    (m' = m ∧ (mi_consumed (m_mirror m) = None ∨
       ∃ w, mi_consumed (m_mirror m) = Some w ∧
         (hlc_leb c w = true ∨ window_events db w c = [] ∧ window_retractions db w c = []))) ∨
    (mi_consumed (m_mirror m') = Some c ∧ ∃ s, m_snapshot m' = Some s ∧ sn_consumed s = Some c ∧ snapshot_ok db s)).
Proof.
  intros Hwf Hwf' Hext Hc Hg He Hok. unfold catch_up_batch. rewrite Hg.
  destruct (mk_mirror _ _ Hok g Hg He) as [Hnone|[Hgen (w&Hm)]].
  { rewrite Hnone. intros [= <- <- <-]. split; [done|]. left. auto. }
  pose proof (mo_consumed _ _ _ _ Hm) as Hw. rewrite Hw.
  destruct (hlc_leb c w) eqn:Hcw; [intros [= <- <- <-]; split; [done|]; left; eauto 10|].
  rewrite (read_fact_changes_ext _ _ _ w Hwf Hwf' Hext Hc).
  destruct (bool_decide (window_events db w c = []) && bool_decide (window_retractions db w c = [])) eqn:Hempty.
  { intros [= <- <- <-]. bool_to_prop. split; [done|]. left. eauto 10. }
  destruct (mbind (M := result delta_exn) _ _) as [em|e] eqn:Hem; [|by intros [= <- <- <-]].
  ok_inv. apply embed_all_fst in Hem.
  destruct (write_batch _ _ _ _ _ _ _ _) as [[m1|e] f1] eqn:Hwr; [|by intros [= <- <- <-]].
  apply write_batch_ok in Hwr as (seq&Hm1).
  assert (mirror_ok db (g_hlc g) c (m_mirror m1)) as Hnew.
  { subst m1. apply (mirror_absorb db (g_hlc g) w c (m_mirror m) em seq); [done|done|hlc_solve|done|done]. }
  assert (m_generation m1 = Some g ∧ m_commits m1 = m_commits m ∧ m_snapshot m1 = m_snapshot m) as (Hg1&Hco1&Hs1) by by subst m1.
  assert (∀ m2 : machine, m_generation m2 = Some g → m_commits m2 = m_commits m1 → m_mirror m2 = m_mirror m1 →
            ∀ g', m_generation m2 = Some g' → g_epoch g' = store_epoch_of db →
            mi_consumed (m_mirror m2) = None ∨
            (gen_ok db g' (m_commits m2) ∧ ∃ w, mirror_ok db (g_hlc g') w (m_mirror m2))) as Hmk.
  { intros m2 Hg2 Hc2 Hm2 g' Hg' _. assert (g' = g) as -> by congruence. right. rewrite Hc2, Hco1, Hm2. eauto. }
  destruct (publish_snapshot m1) as [m2|e] eqn:Hp; intros [= <- <- <-].
  - apply publish_snapshot_inv in Hp as (g'&s&Hg'&Hb&->&_). assert (g' = g) as -> by congruence.
    rewrite Hco1 in Hb. destruct (build_snapshot_ok db g _ _ c _ s Hwf Hgen Hnew Hb) as [Hs Hsc].
    split; [|right; split; [apply Hnew|by exists s]]. split; [by intros s' [= <-] _|by apply Hmk].
  - split; [|done]. split; [rewrite Hs1; apply Hok|by apply Hmk].
Qed.
End machine_invariant.
