(* ===== verification/DeltaCheckpoint.v ===== *)
(** * Checkpoints: what a transaction stores and what the loader accepts

    The rows and the meta table after [delta_transaction], the invariant that a
    checkpoint which claims a window holds the changes of that window, and the
    agreement between the file of a machine and its mirror. *)

From Stdlib Require Import String.
From stdpp Require Import base list strings gmap pretty sorting.
From S2P Require Import Prelude PyJson Facts Delta DeltaProjection.
Open Scope Z_scope.

Section checkpoint.
Context {P V B : Type} `{Vectors P V B} `{IntText}.
Local Notation ckpt := (ckpt B).
Local Notation mirror := (mirror B).

Definition ck_seqs (c : ckpt) : list Z := (ck_events c).*2 ++ (ck_retractions c).*2.

(** The rows of the tables are those of the mirror. *)
Definition rows_match (c : ckpt) (m : mirror) : Prop :=
  (ck_events c).*1 ≡ₚ mi_events m ∧ (ck_retractions c).*1 ≡ₚ mi_retractions m ∧ max_row_seq c = mi_seq m.

(** The window a checkpoint claims: its epoch, base and watermark, with a change
    sequence that fits its rows. *)
Definition claims (c : ckpt) (epoch : string) (h0 w : hlc) : Prop :=
  ck_meta c !! "store_epoch" = Some epoch ∧
  ckpt_int c "base_hlc_physical_ms" = Ok h0.1 ∧ ckpt_int c "base_hlc_logical" = Ok h0.2 ∧
  ckpt_int c "consumed_hlc_physical_ms" = Ok w.1 ∧ ckpt_int c "consumed_hlc_logical" = Ok w.2 ∧
  ckpt_int c "change_seq" = Ok (max_row_seq c).

Definition ckpt_sound (db : facts_db) (c : ckpt) : Prop :=
  ∀ h0 w, claims c (store_epoch_of db) h0 w →
    mirror_ok db h0 w (Mirror (ck_events c).*1 (ck_retractions c).*1 (Some w) (max_row_seq c)).

Lemma mirror_ok_perm db h0 w (m m' : mirror) :
  mi_events m ≡ₚ mi_events m' → mi_retractions m ≡ₚ mi_retractions m' → mi_consumed m' = Some w →
  mirror_ok db h0 w m → mirror_ok db h0 w m'.
Proof.
  intros He Hr Hc [_ Hrange Hev Hnd Hcomp Hndr Hre]. split.
  - done.
  - done.
  - intros i Hi. apply Hev. by rewrite He.
  - by rewrite <- He.
  - intros e Hin Hw. destruct (Hcomp e Hin Hw) as [(i&Hi&?)|Hr'].
    + left. exists i. by rewrite <- He.
    + right. by rewrite <- Hr.
  - by rewrite <- Hr.
  - intros r. rewrite <- Hr. apply Hre.
Qed.

(** *** The transaction *)

Lemma insert_change_spec c seq x c' :
  insert_change c seq x = Some c' →
  ck_meta c' = ck_meta c ∧ (ck_events c').*1 = (ck_events c).*1 ++ new_items [x] ∧
  (ck_retractions c').*1 = (ck_retractions c).*1 ++ new_retractions [x] ∧
  (∀ s, s ∈ ck_seqs c' ↔ s ∈ ck_seqs c ∨ s = seq).
Proof.
  unfold insert_change, ck_seqs. destruct x as [e v|k h]; (destruct (_ || _); [done|]); intros [= <-]; cbn;
    rewrite !fmap_app, app_nil_r; cbn; (split_and!; [done..|]); intros s;
    rewrite !elem_of_app, list_elem_of_singleton; tauto.
Qed.

Lemma new_items_cons x (l : list (change V)) : new_items (B := B) (x :: l) = new_items [x] ++ new_items l.
Proof. by destruct x. Qed.
Lemma new_retractions_cons x (l : list (change V)) : new_retractions (x :: l) = new_retractions [x] ++ new_retractions l.
Proof. by destruct x. Qed.

Lemma insert_changes_spec l c seq c' seq' :
  insert_changes c seq l = Some (c', seq') →
  ck_meta c' = ck_meta c ∧ (ck_events c').*1 = (ck_events c).*1 ++ new_items l ∧
  (ck_retractions c').*1 = (ck_retractions c).*1 ++ new_retractions l ∧
  seq' = seq + Z.of_nat (length l) ∧
  (∀ s, s ∈ ck_seqs c' ↔ s ∈ ck_seqs c ∨ seq < s <= seq').
Proof.
  revert c seq. induction l as [|x l IH]; intros c seq; cbn [insert_changes].
  - intros [= <- <-]. cbn. rewrite !app_nil_r. split_and!; [done|done|done|lia|]. intros s. intuition lia.
  - destruct (insert_change c (seq + 1) x) as [c1|] eqn:Hx; [|done]. intros Hl.
    destruct (insert_change_spec _ _ _ _ Hx) as (Hm&He&Hr&Hs).
    destruct (IH _ _ Hl) as (Hm'&He'&Hr'&Hseq&Hs').
    rewrite (new_items_cons x), (new_retractions_cons x), !app_assoc, <- He, <- Hr. split_and!.
    + congruence.
    + done.
    + done.
    + cbn [length]. lia.
    + intros s. rewrite Hs', Hs. intuition lia.
Qed.

Lemma max_row_seq_spec c : (∀ s, s ∈ ck_seqs c → s <= max_row_seq c) ∧ -1 <= max_row_seq c ∧
  (max_row_seq c = -1 ∨ max_row_seq c ∈ ck_seqs c).
Proof.
  unfold max_row_seq. fold (ck_seqs c). induction (ck_seqs c) as [|x l (H1&H2&H3)]; simpl.
  - split_and!; [by intros s ?%elem_of_nil|lia|by left].
  - split_and!.
    + intros s [->|Hs]%elem_of_cons; [lia|]. specialize (H1 s Hs). lia.
    + lia.
    + destruct (Z.max_spec x (foldr Z.max (-1) l)) as [[_ ->]|[_ ->]].
      * destruct H3; [by left|right; by right].
      * right. by left.
Qed.

Lemma max_row_seq_unique c z :
  (∀ s, s ∈ ck_seqs c → s <= z) → -1 <= z → (z = -1 ∨ z ∈ ck_seqs c) → max_row_seq c = z.
Proof.
  intros H1 H2 H3. destruct (max_row_seq_spec c) as (G1&G2&G3).
  destruct H3 as [->|H3], G3 as [G3|G3]; try specialize (H1 _ G3); try specialize (G1 _ H3); lia.
Qed.

(** After a transaction the rows are those of the mirror it belongs to. *)
Lemma transaction_spec fault f c m l meta seq' f' :
  create_delta_schema f = Some c → rows_match c m →
  delta_transaction fault f (mi_seq m) l meta = (Ok seq', f') →
  ∃ c', f' = CkDb c' ∧ ck_meta c' = write_delta_meta (meta seq') (ck_meta c) ∧
    rows_match c' (Mirror (mi_events m ++ new_items l) (mi_retractions m ++ new_retractions l) None seq').
Proof.
  intros Hc (Hre&Hrr&Hmax). unfold delta_transaction. rewrite Hc. destruct fault; [|done..].
  destruct (insert_changes c (mi_seq m) l) as [[c1 s1]|] eqn:Hins; [|done]. intros [= <- <-].
  destruct (insert_changes_spec _ _ _ _ _ Hins) as (Hm&He&Hr&Hs1&Hs).
  eexists. split; [done|]. split; [by rewrite Hm|]. split_and!; simpl; [by rewrite He, Hre|by rewrite Hr, Hrr|].
  destruct (max_row_seq_spec c) as (G1&G2&G3).
  assert (ck_seqs (Ckpt (write_delta_meta (meta s1) (ck_meta c1)) (ck_events c1) (ck_retractions c1)) = ck_seqs c1) as Hq by done.
  apply max_row_seq_unique; rewrite ?Hq.
  - intros s [Hin|?]%Hs; [|lia]. specialize (G1 _ Hin). lia.
  - lia.
  - destruct l as [|x l].
    + simpl in Hs1. assert (s1 = mi_seq m) as -> by lia. rewrite <- Hmax.
      destruct G3 as [?|G3]; [by left|right]. apply Hs. by left.
    + right. apply Hs. right. simpl in Hs1. lia.
Qed.

(** A failed transaction leaves the tables as the schema statement made them. *)
Lemma transaction_fails fault f seq l meta e f' :
  delta_transaction fault f seq l meta = (Err e, f') →
  f' = f ∨ ∃ c, create_delta_schema f = Some c ∧ f' = CkDb c.
Proof.
  unfold delta_transaction. destruct fault, (create_delta_schema f) as [c|] eqn:Hc; try (intros [= _ <-]; eauto).
  destruct (insert_changes c seq l) as [[c1 s1]|]; intros [=]; subst; eauto.
Qed.

(** *** The meta rows *)

Lemma delta_meta_lookup gid epoch repr dim h0 w seq (extra : list (string * string)) m k v :
  (k, v) ∈ delta_meta gid epoch repr dim h0 w seq → k ∉ extra.*1 →
  write_delta_meta (delta_meta gid epoch repr dim h0 w seq ++ extra) m !! k = Some v.
Proof.
  intros Hin Hk. unfold write_delta_meta. rewrite foldl_app.
  assert (foldl (λ m kv, <[kv.1 := kv.2]> m) m (delta_meta gid epoch repr dim h0 w seq) !! k = Some v) as Hbase.
  { unfold delta_meta in *. repeat (apply elem_of_cons in Hin as [[= -> ->]|Hin]; [by simplify_map_eq|]).
    by apply elem_of_nil in Hin. }
  revert Hbase. generalize (foldl (λ m kv, <[kv.1 := kv.2]> m) m (delta_meta gid epoch repr dim h0 w seq)).
  clear Hin. induction extra as [|[k' v'] extra IH]; intros m' Hm; simpl; [done|].
  rewrite fmap_cons, not_elem_of_cons in Hk. destruct Hk as [Hne Hk]. apply IH; [done|].
  by rewrite lookup_insert_ne.
Qed.

Lemma ckpt_int_pretty (c : ckpt) k z : ck_meta c !! k = Some (pretty z) → ckpt_int c k = Ok z.
Proof. intros Hk. unfold ckpt_int. by rewrite Hk, py_int_pretty. Qed.

(** What a file with those meta rows claims. *)
Lemma claims_written (c : ckpt) gid epoch repr dim h0 w seq extra m0 epoch' h0' w' :
  ck_meta c = write_delta_meta (delta_meta gid epoch repr dim h0 w seq ++ extra) m0 →
  (∀ k, k ∈ extra.*1 → k ∉ _META_KEYS) →
  claims c epoch' h0' w' → epoch' = epoch ∧ h0' = h0 ∧ w' = w ∧ max_row_seq c = seq.
Proof.
  intros Hm Hx (He&Hb1&Hb2&Hc1&Hc2&Hs).
  assert (∀ k v, (k, v) ∈ delta_meta gid epoch repr dim h0 w seq → k ∈ _META_KEYS → ck_meta c !! k = Some v) as Hl.
  { intros k v Hin Hk. rewrite Hm. apply delta_meta_lookup; [done|]. intros Hex. by apply (Hx k). }
  assert (∀ k z z', (k, pretty z) ∈ delta_meta gid epoch repr dim h0 w seq → k ∈ _META_KEYS →
            ckpt_int c k = Ok z' → z' = z) as Hz.
  { intros k z z' Hin Hk Hi. rewrite (ckpt_int_pretty c k z (Hl _ _ Hin Hk)) in Hi. congruence. }
  rewrite (Hl "store_epoch" epoch) in He by set_solver. split_and!.
  - congruence.
  - apply hlc_eq. split; [apply (Hz "base_hlc_physical_ms")|apply (Hz "base_hlc_logical")]; (done || set_solver).
  - apply hlc_eq. split; [apply (Hz "consumed_hlc_physical_ms")|apply (Hz "consumed_hlc_logical")]; (done || set_solver).
  - apply (Hz "change_seq"); (done || set_solver).
Qed.

(** *** Loading *)

Lemma guard_negb_Ok {E} (b : bool) (e : E) u : guard_err (negb b) e = Ok u → b = true.
Proof. rewrite guard_err_Ok. by destruct b. Qed.

Lemma open_delta_checkpoint_inv f g p v ld :
  open_delta_checkpoint f g p v = Ok ld →
  ∃ c w, f = CkDb c ∧ claims c (g_epoch g) (g_hlc g) w ∧ rows_match c (ld_mirror ld) ∧
         mi_consumed (ld_mirror ld) = Some w.
Proof.
  unfold open_delta_checkpoint. destruct f as [| |c]; [done|done|]. intros Hok.
  repeat match type of Hok with
  | mbind _ _ = Ok _ => let H := fresh "Hs" in apply bind_Ok in Hok as (?&H&Hok); try apply guard_negb_Ok in H
  | (match ?x with _ => _ end) = Ok _ => destruct x eqn:?; [|done]
  | (match ?x with _ => _ end) = Ok _ => destruct x
  end.
  injection Hok as <-. unfold ckpt_is in *. bool_to_prop.
  match goal with Hb : (?a, ?b) = g_hlc g, H1 : ckpt_int c "consumed_hlc_physical_ms" = Ok ?x,
    H2 : ckpt_int c "consumed_hlc_logical" = Ok ?y |- _ => exists c, (x, y); rewrite <- Hb end.
  split; [done|]. split; [|split; [|done]].
  - unfold claims. split_and!; try done. congruence.
  - unfold rows_match. cbn. rewrite !merge_sort_Permutation. split_and!; done.
Qed.

(** What a checkpoint that was accepted for the generation [g] and the provider [p]
    is: a readable file of this schema for this generation, epoch, representation,
    dimension and base clock, whose watermark lies between the base clock and the
    clock of the facts of the same epoch, whose change sequence is that of its rows,
    and whose rows have vectors and are newer than the base; [x] is its content. *)
Record accepted_checkpoint (f : ckpt_file B) (g : gen) (p : P) (v : facts_view) (x : mirror) : Prop := {
  ac_facts : ∃ c w facts_max, f = CkDb c ∧ mi_consumed x = Some w ∧
    read_facts_identity v = Ok (Some (g_epoch g, facts_max)) ∧
    hlc_ltb w (g_hlc g) = false ∧ hlc_ltb facts_max w = false ∧
    claims c (g_epoch g) (g_hlc g) w ∧ rows_match c x ∧
    ck_meta c !! "delta_schema_version" = Some DELTA_SCHEMA_VERSION ∧
    ck_meta c !! "base_generation_id" = Some (g_id g) ∧
    ck_meta c !! "representation_id" = Some (representation_id p) ∧
    ckpt_int c "vector_dimension" = Ok (g_dim g);
  ac_seq : -1 <= mi_seq x;
  ac_rows : ∀ i, i ∈ mi_events x →
    blob_problem (it_vector i) (g_dim g) = false ∧ hlc_leb (ev_hlc (it_event i)) (g_hlc g) = false }.

Lemma open_delta_checkpoint_accepts f g p v ld :
  open_delta_checkpoint f g p v = Ok ld → accepted_checkpoint f g p v (ld_mirror ld).
Proof.
  intros Hopen. destruct (open_delta_checkpoint_inv _ _ _ _ _ Hopen) as (c0&w&->&Hcl&Hrows&Hw).
  revert Hopen. unfold open_delta_checkpoint. intros Hok.
  repeat match type of Hok with
  | mbind _ _ = Ok _ => let H := fresh "Hs" in apply bind_Ok in Hok as (?&H&Hok); try apply guard_negb_Ok in H
  | (match ?x with _ => _ end) = Ok _ => destruct x eqn:?; [|done]
  | (match ?x with _ => _ end) = Ok _ => destruct x
  end.
  injection Hok as <-. simpl in Hw. injection Hw as <-. unfold ckpt_is in *.
  repeat match goal with Hg : guard_err _ _ = Ok _ |- _ => apply guard_err_Ok in Hg end. bool_to_prop. subst.
  match goal with Hb : (?a, ?b) = g_hlc g |- _ => rename Hb into Hbase end.
  split; simpl; rewrite <- ?Hbase in *; [|lia|].
  - eexists c0, _, _. split_and!; done.
  - intros i (r&->&Hr)%list_elem_of_fmap. rewrite merge_sort_Permutation in Hr.
    match goal with Hx : existsb _ _ = false |- _ => rename Hx into Hex end.
    assert (r ∈ merge_sort by_seq (ck_events c0)) as Hin by (by rewrite merge_sort_Permutation).
    apply list_elem_of_In in Hin. apply Bool.orb_false_iff. apply Bool.not_true_iff_false. intros Hbad.
    apply Bool.not_true_iff_false in Hex. apply Hex, existsb_exists. by exists r.
Qed.

(** A file with the meta rows of a window is accepted for its generation. *)
Lemma open_delta_checkpoint_ok c g p db cl h seq :
  (∀ k v, (k, v) ∈ delta_meta (g_id g) (g_epoch g) (representation_id p) (g_dim g) (g_hlc g) h seq →
     ck_meta c !! k = Some v) →
  wf_facts db → clock_is db cl → g_epoch g = store_epoch_of db →
  hlc_leb (g_hlc g) h = true → hlc_leb h cl = true → max_row_seq c = seq →
  (∀ i, i ∈ (ck_events c).*1 → blob_problem (it_vector i) (g_dim g) = false ∧
                               hlc_leb (ev_hlc (it_event i)) (g_hlc g) = false) →
  open_delta_checkpoint (CkDb c) g p (Store db) =
    Ok (Loaded (Mirror (merge_sort by_seq (ck_events c)).*1 (merge_sort by_seq (ck_retractions c)).*1 (Some h) seq)
          (ckpt_is c "blocked" "1")).
Proof.
  intros Hk Hwf Hcl He Hle1 Hle2 Hmax Hrows. unfold open_delta_checkpoint.
  assert (∀ k v, (k, v) ∈ delta_meta (g_id g) (g_epoch g) (representation_id p) (g_dim g) (g_hlc g) h seq →
            ckpt_is c k v = true) as His by (intros k v Hin; apply bool_decide_eq_true; auto).
  assert (∀ k z, (k, pretty z) ∈ delta_meta (g_id g) (g_epoch g) (representation_id p) (g_dim g) (g_hlc g) h seq →
            ckpt_int c k = Ok z) as Hint by (intros k z Hin; by apply ckpt_int_pretty, Hk).
  assert (forallb (λ k, bool_decide (is_Some (ck_meta c !! k))) _META_KEYS = true) as ->.
  { apply forallb_forall. intros k Hin%list_elem_of_In. apply bool_decide_eq_true.
    change _META_KEYS with (delta_meta (g_id g) (g_epoch g) (representation_id p) (g_dim g) (g_hlc g) h seq).*1 in Hin.
    apply list_elem_of_fmap in Hin as ([k' v]&->&Hin). exists v. by apply Hk. }
  rewrite (His "delta_schema_version"), (His "base_generation_id" (g_id g)), (His "store_epoch" (g_epoch g)),
    (His "representation_id" (representation_id p)) by (unfold delta_meta; set_solver).
  rewrite (Hint "vector_dimension" (g_dim g)), (Hint "base_hlc_physical_ms" (g_hlc g).1), (Hint "base_hlc_logical" (g_hlc g).2),
    (Hint "consumed_hlc_physical_ms" h.1), (Hint "consumed_hlc_logical" h.2), (Hint "change_seq" seq)
    by (unfold delta_meta; set_solver).
  rewrite (read_identity_wf db cl Hwf Hcl). cbn -[existsb merge_sort hlc_ltb].
  rewrite <- !surjective_pairing, <- He, String.eqb_refl, Z.eqb_refl.
  rewrite bool_decide_true by done. cbn -[existsb merge_sort hlc_ltb].
  assert (hlc_ltb h (g_hlc g) || hlc_ltb cl h = false) as ->.
  { unfold hlc_ltb. by rewrite Hle1, Hle2. }
  cbn -[existsb merge_sort]. assert (seq <? -1 = false) as ->.
  { apply Z.ltb_ge. rewrite <- Hmax. apply max_row_seq_spec. }
  rewrite Hmax, Z.eqb_refl. cbn -[existsb merge_sort].
  assert (existsb (λ r : delta_item B * Z, blob_problem (it_vector r.1) (g_dim g) ||
            hlc_leb (ev_hlc (it_event r.1)) (g_hlc g)) (merge_sort by_seq (ck_events c)) = false) as ->; [|done].
  apply not_true_is_false. intros (r&Hr&Hbad)%existsb_exists. apply list_elem_of_In in Hr.
  rewrite merge_sort_Permutation in Hr. destruct (Hrows r.1) as [H1 H2]; [by apply list_elem_of_fmap_2|].
  by rewrite H1, H2 in Hbad.
Qed.

Lemma write_delta_meta_other l m k : k ∉ l.*1 → write_delta_meta l m !! k = m !! k.
Proof.
  unfold write_delta_meta. revert m. induction l as [|[k' v] l IH]; intros m; simpl; [done|].
  rewrite not_elem_of_cons. intros [Hne Hk]. rewrite IH by done. by rewrite lookup_insert_ne.
Qed.
End checkpoint.
