(* ===== verification/DeltaSystem.v ===== *)
(** * The delta machine among its neighbours

    The step relation of the fact store, the delta worker, the staging builder,
    maintenance, restarts and damaged checkpoints, and the invariant that whatever
    happens the served snapshot is the projection of the facts.  The steps state
    what is assumed of the parts that are not modelled here: an opened or built
    generation holds the projection at its own watermark. *)

From Stdlib Require Import String.
From stdpp Require Import base list strings gmap pretty sorting relations.
From S2P Require Import Prelude PyJson Facts Delta DeltaProjection DeltaCheckpoint.
Open Scope Z_scope.

Section system.
Context {P V B : Type} `{Vectors P V B} `{IntText}.
Local Notation machine := (machine (P := P) (V := V) (B := B)).
Local Notation disk := (gmap string (ckpt_file B)).

(** ** Assumptions about the neighbours *)

(** [open_generation] and the builder return generations made from these facts. *)
Definition genuine (db : facts_db) (g : gen) : Prop :=
  g_epoch g = store_epoch_of db →
  (∃ c, clock_is db c ∧ hlc_leb (g_hlc g) c = true) ∧ g_rows g = row_of <$> read_active_events db (g_hlc g).

(** A look at the facts between two states of the store. *)
Definition during (db : facts_db) (v : facts_view) (db' : facts_db) : Prop :=
  ∀ x, v = Store x → rtc facts_step db x ∧ rtc facts_step x db'.

Record looks_ok (db db' : facts_db) (lk : looks) : Prop := {
  lo_identity : during db (lk_identity lk) db';
  lo_changes : during db (lk_changes lk) db';
  lo_commits : during db (lk_commits lk) db';
  lo_verify : during db (lk_verify lk) db';
  lo_order : ∀ x y, lk_identity lk = Store x → lk_changes lk = Store y → rtc facts_step x y }.

(** A rebuild starts on a generation without a checkpoint, unless it is the one
    whose checkpoint it has just removed. *)
Definition unused (d : disk) (m : machine) (g : gen) : Prop :=
  create_delta_schema (file_at d (g_id g)) = Some empty_ckpt ∨ create_delta_schema (file_at d (g_id g)) = None ∨
  g_id g = m_path m.

Record weather_ok (db db' : facts_db) (d : disk) (m : machine) (we : weather) : Prop := {
  wo_looks : looks_ok db db' (we_looks we);
  wo_opened : ∀ g, we_opened we = Some g → genuine db' g ∧ (m_pending_publish m = None → unused d m g);
  wo_built : ∀ g, we_built we = Ok g → genuine db' g ∧ unused d m g;
  wo_unlink : we_unlink_fails we = false }.

(** ** The steps *)

Record sys := Sys { s_db : facts_db; s_machine : machine; s_disk : disk }.

(** A store that replaces the current one has an epoch nobody has seen. *)
Definition fresh_epoch (e : string) (s : sys) : Prop :=
  (∀ sn, m_snapshot (s_machine s) = Some sn → sn_epoch sn ≠ e) ∧
  (∀ g, m_generation (s_machine s) = Some g → g_epoch g ≠ e) ∧
  (∀ id c, file_at (s_disk s) id = CkDb c → ck_meta c !! "store_epoch" ≠ Some e).

Inductive sys_step : sys → sys → Prop :=
| sys_facts db db' m d : facts_step db db' → sys_step (Sys db m d) (Sys db' m d)
| sys_replace db db' m d : wf_facts db' → fresh_epoch (store_epoch_of db') (Sys db m d) →
    sys_step (Sys db m d) (Sys db' m d)
| sys_cycle db db' m d we done m' d' :
    rtc facts_step db db' → weather_ok db db' d m we → run_cycle we d m = (done, m', d') →
    sys_step (Sys db m d) (Sys db' m' d')
| sys_queue db m d pp : sys_step (Sys db m d) (Sys db (queue_publish pp m) d)
| sys_invalidate db m d m' d' : invalidate false d m = (m', d') → sys_step (Sys db m d) (Sys db m' d')
| sys_rebuild db m d target : sys_step (Sys db m d) (Sys db (rebuild target m) d)
| sys_stop db m d : sys_step (Sys db m d) (Sys db (request_stop m) d)
| sys_start db m d : sys_step (Sys db m d) (Sys db (start m) d)
| sys_retry db m d fault m' d' : retry fault d m = (m', d') → sys_step (Sys db m d) (Sys db m' d')
| sys_close db m d : sys_step (Sys db m d) (Sys db (close m) d)
| sys_stage db db' m d lk fault g p upper r d' :
    rtc facts_step db db' → looks_ok db db' lk → genuine db' g → g_id g ≠ m_path m →
    (∃ x, rtc facts_step db x ∧ rtc facts_step x db' ∧ clock_is x upper ∧
          ∀ y, lk_changes lk = Store y → rtc facts_step x y) → hlc_leb (g_hlc g) upper = true →
    build_staging_delta lk false fault d g p upper = (r, d') →
    sys_step (Sys db m d) (Sys db' m d')
| sys_restart db db' m d lk declared path p loaded blocked refuse force m' d' :
    rtc facts_step db db' → looks_ok db db' lk → (∀ g, loaded = Some g → genuine db' g) →
    start_machine lk false d declared path p loaded blocked refuse force = (Ok m', d') →
    sys_step (Sys db m d) (Sys db' m' d')
| sys_damage db m d id : sys_step (Sys db m d) (Sys db m (<[id := CkBroken]> d)).

(** Nothing loaded, nothing stored. *)
Definition sys_init (s : sys) : Prop :=
  facts_init (s_db s) ∧ s_disk s = ∅ ∧
  ∃ declared p, s_machine s = new_machine declared declared p None ∅ empty_mirror None None false.

(** ** The invariant *)

(** A snapshot belongs to the generation and to a mirror with a watermark. *)
Definition bound (m : machine) : Prop :=
  ∀ sn, m_snapshot m = Some sn →
    is_Some (mi_consumed (m_mirror m)) ∧ ∃ g, m_generation m = Some g ∧ sn_epoch sn = g_epoch g.

Record sys_ok (s : sys) : Prop := {
  so_facts : wf_facts (s_db s);
  so_machine : machine_ok (s_db s) (s_machine s);
  so_bound : bound (s_machine s);
  so_path : ∀ c, create_delta_schema (file_at (s_disk s) (m_path (s_machine s))) = Some c →
    mi_consumed (m_mirror (s_machine s)) = None ∨ rows_match c (m_mirror (s_machine s));
  so_disk : ∀ id c, file_at (s_disk s) id = CkDb c → ckpt_sound (s_db s) c }.

Lemma ckpt_sound_ext db db' (c : ckpt B) : facts_ext db db' → ckpt_sound db c → ckpt_sound db' c.
Proof.
  intros Hext Hs h0 w Hcl. rewrite (ext_epoch _ _ Hext) in Hcl. apply (mirror_ok_ext db); [done|]. by apply Hs.
Qed.

(** The facts move on. *)
Lemma sys_ok_ext db db' m d : rtc facts_step db db' → sys_ok (Sys db m d) → sys_ok (Sys db' m d).
Proof.
  intros Hr [Hwf Hm Hb Hp Hd]. simpl in *. destruct (facts_steps _ _ Hr Hwf) as [Hwf' Hext]. split; simpl.
  - done.
  - by apply (machine_ok_ext db).
  - done.
  - done.
  - intros id c Hc. apply (ckpt_sound_ext db); [done|]. by eapply Hd.
Qed.

Lemma file_at_insert (d : disk) id f id' :
  file_at (<[id := f]> d) id' = if decide (id = id') then f else file_at d id'.
Proof. unfold file_at. destruct (decide (id = id')) as [->|]; [by rewrite lookup_insert_eq|by rewrite lookup_insert_ne]. Qed.

(** ** Files *)

Definition same_or_created (f f' : ckpt_file B) : Prop := f' = f ∨ ∃ c, create_delta_schema f = Some c ∧ f' = CkDb c.

Lemma empty_sound db : ckpt_sound db (empty_ckpt (B := B)).
Proof. by intros h0 w (He&_). Qed.

(** Creating the tables changes nothing of what a file says. *)
Lemma sys_ok_created db m d id f' :
  same_or_created (file_at d id) f' → sys_ok (Sys db m d) → sys_ok (Sys db m (<[id := f']> d)).
Proof.
  intros Hf [Hwf Hm Hb Hp Hd]. simpl in *. split; simpl; [done..| |].
  - intros c. rewrite file_at_insert. case_decide as Heq; [|by apply Hp]. subst id. intros Hc. apply Hp.
    destruct Hf as [->|(c'&Hc'&->)]; [done|]. simpl in Hc. congruence.
  - intros id' c. rewrite file_at_insert. case_decide as Heq; [|by apply Hd]. subst id'. intros ->.
    destruct Hf as [Hf|(c'&Hc'&Hf)]; [by apply (Hd id)|]. injection Hf as <-.
    destruct (file_at d id) as [| |c0] eqn:Hfile; simpl in Hc'; [|done|].
    + injection Hc' as <-. apply empty_sound.
    + injection Hc' as <-. by apply (Hd id).
Qed.

(** A file with the rows of a mirror and the meta rows of its window is sound. *)
Lemma written_sound db c gid epoch repr dim h0 w extra m0 (x : mirror B) :
  ck_meta c = write_delta_meta (delta_meta gid epoch repr dim h0 w (mi_seq x) ++ extra) m0 →
  (∀ k, k ∈ extra.*1 → k ∉ _META_KEYS) →
  rows_match c x → (epoch = store_epoch_of db → mirror_ok db h0 w x) → ckpt_sound db c.
Proof.
  intros Hmeta Hextra (He&Hr&Hseq) Hx h0' w' Hcl.
  destruct (claims_written _ _ _ _ _ _ _ _ _ _ _ _ _ Hmeta Hextra Hcl) as (Hep&->&->&_).
  apply (mirror_ok_perm db h0 w x); [by symmetry..|done|]. by apply Hx.
Qed.

(** The file of the machine and its mirror change together. *)
Lemma sys_ok_written db m m' d c :
  sys_ok (Sys db m d) → machine_ok db m' → m_path m' = m_path m →
  bound m' → rows_match c (m_mirror m') → ckpt_sound db c → sys_ok (Sys db m' (<[m_path m := CkDb c]> d)).
Proof.
  intros [Hwf Hm Hb Hp Hd] Hok Hpath Hbound Hrows Hsound. simpl in *. split; simpl; [done..| |].
  - rewrite Hpath. intros c0. rewrite file_at_insert, decide_True by done. simpl. intros [= <-]. by right.
  - intros id c0. rewrite file_at_insert. case_decide; [by intros [= <-]|by apply Hd].
Qed.

(** ** Catching up *)

Lemma write_batch_file fault f m g em rs epoch upper r f' :
  (∀ c, create_delta_schema f = Some c → rows_match c (m_mirror m)) →
  write_batch fault f m g em rs epoch upper = (r, f') →
  match r with
  | Err _ => same_or_created f f'
  | Ok m' => ∃ c' m0, f' = CkDb c' ∧ rows_match c' (m_mirror m') ∧
      ck_meta c' = write_delta_meta (delta_meta (g_id g) epoch (g_repr g) (g_dim g) (g_hlc g) upper
                                       (mi_seq (m_mirror m')) ++ []) m0
  end.
Proof.
  intros Hrows. unfold write_batch.
  destruct (delta_transaction _ _ _ _ _) as [[seq|e] f0] eqn:Ht.
  - destruct (create_delta_schema f) as [c|] eqn:Hc; [|by unfold delta_transaction in Ht; rewrite Hc in Ht; destruct fault].
    destruct (transaction_spec _ _ _ _ _ _ _ _ Hc (Hrows c eq_refl) Ht) as (c'&->&Hm&Hr).
    intros [= <- <-]. exists c', (ck_meta c). by rewrite app_nil_r.
  - intros [= <- <-]. by eapply transaction_fails.
Qed.

Lemma sys_catch_up db v c fault m g d r m' f' :
  sys_ok (Sys db m d) → (∀ x, v = Store x → wf_facts x ∧ facts_ext db x) → clock_is db c →
  m_generation m = Some g → g_epoch g = store_epoch_of db →
  catch_up_batch fault v (file_at d (m_path m)) (store_epoch_of db) c m = (r, m', f') →
  sys_ok (Sys db m' (<[m_path m := f']> d)) ∧ (is_Some (m_snapshot m) → is_Some (m_snapshot m')).
Proof.
  intros Hsys Hv Hc Hg He Hrun. pose proof (so_machine _ Hsys) as Hok. pose proof (so_facts _ Hsys) as Hwf. simpl in Hok, Hwf.
  assert (∀ m0, m0 = m → sys_ok (Sys db m0 (<[m_path m := file_at d (m_path m)]> d)) ∧
            (is_Some (m_snapshot m) → is_Some (m_snapshot m0))) as Hsame.
  { intros m0 ->. split; [|done]. apply sys_ok_created; [by left|done]. }
  destruct v as [| |db2].
  1,2: (unfold catch_up_batch in Hrun; rewrite Hg in Hrun; simpl in Hrun; repeat case_match; simplify_eq; by apply Hsame).
  destruct (Hv db2 eq_refl) as [Hwf2 Hext].
  destruct (catch_up_batch_spec _ _ _ _ _ _ _ _ _ _ Hwf Hwf2 Hext Hc Hg He Hok Hrun) as [Hok' _].
  revert Hrun. unfold catch_up_batch. rewrite Hg.
  destruct (mi_consumed (m_mirror m)) as [w|] eqn:Hw; [|intros [= <- <- <-]; by apply Hsame].
  destruct (hlc_leb c w) eqn:Hcw; [intros [= <- <- <-]; by apply Hsame|].
  rewrite (read_fact_changes_ext _ _ _ w Hwf Hwf2 Hext Hc).
  destruct (_ && _); [intros [= <- <- <-]; by apply Hsame|].
  destruct (mbind (M := result delta_exn) _ _) as [em|e] eqn:Hem; [|intros [= <- <- <-]; by apply Hsame].
  destruct (write_batch _ _ _ _ _ _ _ _) as [r1 f1] eqn:Hwr.
  pose proof Hwr as Hfile. apply write_batch_file in Hfile.
  2: { intros c0 Hc0. destruct (so_path _ Hsys c0 Hc0) as [Hn|?]; [simpl in Hn; congruence|done]. }
  destruct r1 as [m1|e]; [|intros [= <- <- <-]; split; [by apply sys_ok_created|done]].
  apply write_batch_ok in Hwr as (seq&Hm1). destruct Hfile as (c'&m0&->&Hrows&Hmeta).
  intros Hend. assert (m_mirror m' = m_mirror m1 ∧ m_path m' = m_path m ∧ m_generation m' = Some g ∧ f' = CkDb c' ∧ bound m' ∧
    (is_Some (m_snapshot m) → is_Some (m_snapshot m'))) as (Hmir&Hpath&Hgen&->&Hb&Hsn).
  { destruct (publish_snapshot m1) as [m2|e] eqn:Hp; injection Hend as <- <- <-.
    - apply publish_snapshot_inv in Hp as (g'&s&Hg'&_&->&Hs&_). rewrite Hm1 in Hg'. simpl in Hg'. subst m1. simpl.
      split_and!; try done. intros sn [= <-]. eauto.
    - subst m1. simpl. split_and!; try done. intros sn Hsn. split; [done|]. by apply (so_bound _ Hsys). }
  split; [|done]. apply sys_ok_written; try done; [by rewrite Hmir|].
  eapply (written_sound _ _ _ _ _ _ _ c _ _ (m_mirror m')); [by rewrite Hmir|by intros ? ?%elem_of_nil|by rewrite Hmir|].
  intros _. destruct (mk_mirror _ _ Hok' g Hgen He) as [Hn|[_ (w'&Hw')]].
  - rewrite Hmir, Hm1 in Hn. done.
  - pose proof (mo_consumed _ _ _ _ Hw') as Hc'. rewrite Hmir, Hm1 in Hc'. simpl in Hc'. congruence.
Qed.

(** ** Publishing a snapshot *)

Lemma sys_publish_snapshot db m m' d :
  sys_ok (Sys db m d) → is_Some (mi_consumed (m_mirror m)) → publish_snapshot m = Ok m' → sys_ok (Sys db m' d).
Proof.
  intros Hsys [w Hw] Hp. destruct (publish_snapshot_inv _ _ Hp) as (g&s&Hg&Hbuild&->&Hs&_).
  pose proof Hsys as [Hwf Hok Hb Hpath Hd]. simpl in *. split; simpl; [done| |by intros sn [= <-]; eauto|done|done].
  split; simpl; [|by apply Hok]. intros sn [= <-] He. rewrite Hs in He.
  destruct (mk_mirror _ _ Hok g Hg He) as [Hn|[Hgen (w'&Hm)]]; [congruence|].
  by destruct (build_snapshot_ok db g _ _ w' _ s Hwf Hgen Hm Hbuild).
Qed.

(** ** Machines that agree on what the invariant reads *)

Definition core (m : machine) := (m_generation m, m_commits m, m_mirror m, m_snapshot m, m_path m).

Lemma sys_ok_core db m m' d : core m' = core m → sys_ok (Sys db m d) → sys_ok (Sys db m' d).
Proof.
  unfold core. intros [= Hg Hc Hm Hs Hp] [Hwf [Hok1 Hok2] Hb Hpath Hd]. simpl in *. split; simpl.
  - done.
  - split; [by rewrite Hs|]. by rewrite Hg, Hc, Hm.
  - intros sn. rewrite Hs, Hm, Hg. apply Hb.
  - by rewrite Hp, Hm.
  - done.
Qed.

(** A machine that holds nothing of the facts. *)
Lemma sys_ok_reset db m m' d :
  m_mirror m' = empty_mirror → m_snapshot m' = None → sys_ok (Sys db m d) → sys_ok (Sys db m' d).
Proof.
  intros Hm Hs [Hwf _ _ _ Hd]. simpl in *. split; simpl; [done| | |by left; rewrite Hm|done].
  - split; [by rewrite Hs|]. intros g _ _. left. by rewrite Hm.
  - intros sn. by rewrite Hs.
Qed.

Lemma sys_ok_no_snapshot db m m' d :
  core m' = (m_generation m, m_commits m, m_mirror m, None, m_path m) → sys_ok (Sys db m d) → sys_ok (Sys db m' d).
Proof.
  unfold core. intros [= Hg Hc Hm Hs Hp] [Hwf [Hok1 Hok2] Hb Hpath Hd]. simpl in *. split; simpl.
  - done.
  - split; [by rewrite Hs|]. by rewrite Hg, Hc, Hm.
  - intros sn. by rewrite Hs.
  - by rewrite Hp, Hm.
  - done.
Qed.

(** A file that holds no tables, where no mirror relies on any. *)
Lemma sys_ok_emptied db m d id f :
  (∀ c, f ≠ CkDb c) → (id = m_path m → f = CkBroken ∨ mi_consumed (m_mirror m) = None) →
  sys_ok (Sys db m d) → sys_ok (Sys db m (<[id := f]> d)).
Proof.
  intros Hf Hid [Hwf Hok Hb Hpath Hd]. simpl in *. split; simpl; [done..| |].
  - intros c. rewrite file_at_insert. case_decide as Heq; [|apply Hpath].
    destruct (Hid Heq) as [->|Hn]; [by simpl|by intros _; left].
  - intros id' c. rewrite file_at_insert. case_decide as Heq; [|apply Hd]. intros ->. by destruct (Hf c).
Qed.

(** A machine that starts over on a generation. *)
Lemma fresh_mirror_ok db h0 c : clock_is db c → hlc_leb h0 c = true → mirror_ok db h0 h0 (fresh_mirror (B := B) h0).
Proof.
  intros Hc Hle. split; simpl.
  - done.
  - split; [hlc_solve|eauto].
  - by intros i ?%elem_of_nil.
  - constructor.
  - intros e _ [? ?]%in_window_spec. hlc_solve.
  - constructor.
  - intros r. rewrite elem_of_nil, in_window_spec. split; [done|]. intros [_ [? ?]]. hlc_solve.
Qed.

Lemma sys_ok_fresh db m m' d g :
  sys_ok (Sys db m d) → m_generation m' = Some g → m_snapshot m' = None → m_mirror m' = fresh_mirror (g_hlc g) →
  (g_epoch g = store_epoch_of db → gen_ok db g (m_commits m')) →
  (∀ c, create_delta_schema (file_at d (m_path m')) = Some c → c = empty_ckpt) → sys_ok (Sys db m' d).
Proof.
  intros [Hwf _ _ _ Hd] Hg Hs Hm Hgen Hfile. simpl in *. split; simpl; [done| | | |done].
  - split; [by rewrite Hs|]. intros g' Hg' He. assert (g' = g) as -> by congruence. right. split; [by apply Hgen|].
    destruct (go_clock _ _ _ (Hgen He)) as (c&Hc&Hle). exists (g_hlc g). rewrite Hm. by eapply fresh_mirror_ok.
  - intros sn. by rewrite Hs.
  - intros c Hc%Hfile. subst c. rewrite Hm. by right.
Qed.

(** The commits a look at the facts gives for a genuine generation. *)
Lemma genuine_gen_ok db v db' g commits :
  wf_facts db → wf_facts db' → during db v db' → genuine db' g → g_epoch g = store_epoch_of db' →
  read_base_commit_ids v (g_hlc g) = Ok commits → gen_ok db' g commits.
Proof.
  intros Hwf Hwf' Hv Hgen He Hread. destruct (Hgen He) as [Hclock Hrows]. split; [done|done|done|].
  intros e k Hin Hk. destruct v as [| |x]; [done|done|]. destruct (Hv x eq_refl) as [Hx1 Hx2].
  destruct (facts_steps _ _ Hx1 Hwf) as [Hwfx _]. destruct (facts_steps _ _ Hx2 Hwfx) as [_ Hext].
  simpl in Hread. injection Hread as <-. apply elem_of_list_to_map_2, list_elem_of_fmap in Hk as (e'&[= Hid ->]&He').
  apply list_elem_of_filter in He' as [_ He']. apply read_active_elem in Hin as [Hin _].
  destruct (ext_clock _ _ Hext) as (c1&c2&_&_&_&Hev&_). apply Hev in He' as [He' _].
  assert (e = e') as -> by (by apply (wf_id_inj db')). done.
Qed.

(** ** The worker's operations *)

(** A loaded checkpoint of a genuine generation is its window of the facts. *)
Lemma loaded_mirror_ok db d id g p v ld :
  (∀ c, file_at d id = CkDb c → ckpt_sound db c) → g_epoch g = store_epoch_of db →
  open_delta_checkpoint (file_at d id) g p v = Ok ld → ∃ w, mirror_ok db (g_hlc g) w (ld_mirror ld).
Proof.
  intros Hd He Hopen. destruct (open_delta_checkpoint_inv _ _ _ _ _ Hopen) as (c&w&Hf&Hcl&(H1&H2&_)&Hw).
  exists w. rewrite He in Hcl. apply (mirror_ok_perm _ _ _ (Mirror (ck_events c).*1 (ck_retractions c).*1 (Some w) (max_row_seq c)));
    [exact H1|exact H2|exact Hw|by apply Hd].
Qed.

Lemma switch_checks_inv lk opened f pp g commits x s :
  switch_checks lk opened f pp = Ok (g, commits, x, s) →
  opened = Some g ∧ ∃ ld, open_delta_checkpoint f g (pp_provider pp) (lk_changes lk) = Ok ld ∧ x = ld_mirror ld ∧
  read_base_commit_ids (lk_commits lk) (g_hlc g) = Ok commits ∧ build_snapshot g (pp_provider pp) commits x = Ok s ∧
  verify_snapshot_vs_facts (lk_verify lk) s = Ok tt.
Proof.
  unfold switch_checks. destruct opened as [g'|]; [|done]. intros Hok. ok_inv. split; [done|].
  eexists. split_and!; try done.
  match goal with Hv : verify_snapshot_vs_facts _ _ = Ok ?u |- _ => by destruct u end.
Qed.

Lemma sys_switch db0 db lk opened pp m d r m' :
  wf_facts db0 → during db0 (lk_commits lk) db → (∀ g, opened = Some g → genuine db g) →
  perform_publish_switch lk opened d pp m = (r, m') → sys_ok (Sys db m d) → sys_ok (Sys db m' d).
Proof.
  intros Hwf0 Hco Hgen Hrun Hsys. unfold perform_publish_switch in Hrun.
  destruct (read_facts_identity _) as [i|]; [|injection Hrun as <- <-; by apply (sys_ok_core _ m)].
  destruct (negb _); [injection Hrun as <- <-; by apply (sys_ok_core _ m)|].
  destruct (switch_checks _ _ _ _) as [[[[g commits] x] s]|] eqn:Hsw; [|injection Hrun as <- <-; by apply (sys_ok_core _ m)].
  destruct (m_closed m); [injection Hrun as <- <-; by apply (sys_ok_core _ m)|]. injection Hrun as <- <-.
  apply switch_checks_inv in Hsw as (->&ld&Hopen&->&Hread&Hbuild&_).
  pose proof Hsys as [Hwf _ _ _ Hd]. simpl in Hwf, Hd.
  destruct (open_delta_checkpoint_inv _ _ _ _ _ Hopen) as (c&w&Hf&_&Hrows&Hw).
  assert (sn_epoch s = g_epoch g) as Hse by (unfold build_snapshot in Hbuild; ok_inv; done).
  split; simpl; [done| | | |done].
  - split; simpl.
    + intros s' [= <-] He. rewrite Hse in He.
      destruct (loaded_mirror_ok db d _ g _ _ _ (Hd (pp_id pp)) He Hopen) as [w' Hm].
      eapply build_snapshot_ok; [done| |done|done]. apply (genuine_gen_ok db0 (lk_commits lk)); auto.
    + intros g' [= <-] He. right. split; [apply (genuine_gen_ok db0 (lk_commits lk)); auto|].
      by apply (loaded_mirror_ok db d (pp_id pp) g (pp_provider pp) (lk_changes lk)); [apply Hd|..].
  - intros s' [= <-]. simpl. rewrite Hw. split; [done|]. eauto.
  - intros c' Hc'. rewrite Hf in Hc'. injection Hc' as <-. by right.
Qed.

Lemma rebuild_generation_inv lk opened built target g commits :
  rebuild_generation lk opened built target = Ok (g, commits) →
  (opened = Some g ∨ built = Ok g) ∧ read_base_commit_ids (lk_commits lk) (g_hlc g) = Ok commits.
Proof.
  unfold rebuild_generation. intros Hok. apply bind_Ok in Hok as (g'&Hg&Hok). apply bind_Ok in Hok as (c&Hc&Hok).
  injection Hok as <- <-. split; [|done]. destruct opened as [o|]; [|by right].
  revert Hg. destruct (match target with Some _ => _ | None => _ end); [intros [= ->]; by left|by right].
Qed.

Lemma sys_perform_rebuild db0 db lk opened built asked m d r m' d' :
  wf_facts db0 → during db0 (lk_commits lk) db →
  (∀ g, opened = Some g ∨ built = Ok g → genuine db g ∧ unused d m g) →
  perform_rebuild lk false opened built asked d m = (r, m', d') → sys_ok (Sys db m d) → sys_ok (Sys db m' d').
Proof.
  intros Hwf0 Hco Hgen Hrun Hsys. unfold perform_rebuild in Hrun.
  destruct (m_closed m); [by injection Hrun as <- <- <-|].
  match type of Hrun with context [rebuild_target _ _] => idtac end.
  set (m1 := set_pending None None _ (set_blocked None (set_snapshot None m))) in Hrun.
  assert (sys_ok (Sys db m1 d)) as H1 by by apply (sys_ok_no_snapshot db m).
  destruct (rebuild_target _ _) as [target|]; [|by injection Hrun as <- <- <-].
  set (m2 := set_mirror empty_mirror m1) in Hrun. simpl in Hrun.
  set (d2 := <[m_path m := CkAbsent]> d) in Hrun.
  assert (sys_ok (Sys db m2 d2)) as H2.
  { apply sys_ok_emptied; [done|intros _; by right|]. by apply (sys_ok_reset db m1). }
  destruct (rebuild_generation _ _ _ _) as [[g commits]|] eqn:Hg; [|by injection Hrun as <- <- <-].
  apply rebuild_generation_inv in Hg as [Hsrc Hread]. destruct (Hgen g Hsrc) as [Hgenuine Hunused].
  set (m3 := adopt _ _ _ _ _ _ _ _) in Hrun.
  assert (sys_ok (Sys db m3 d2)) as H3.
  { apply (sys_ok_fresh db m2 m3 d2 g); try done.
    - intros He. apply (genuine_gen_ok db0 (lk_commits lk)); auto. apply H2.
    - simpl. intros c. unfold d2. rewrite file_at_insert. case_decide as Heq; [by intros [= <-]|].
      destruct Hunused as [->|[->|?]]; [by intros [= <-]|done|congruence]. }
  destruct (publish_snapshot m3) as [m4|e] eqn:Hp; injection Hrun as <- <- <-; [|done].
  eapply sys_publish_snapshot; [done| |done]. by eexists.
Qed.

Lemma sys_record_blocked db m d fault : sys_ok (Sys db m d) → sys_ok (Sys db m (record_blocked fault d m)).
Proof.
  intros Hsys. unfold record_blocked. destruct (m_generation m) as [g|] eqn:Hg; [|done].
  destruct (mi_consumed (m_mirror m)) as [w|] eqn:Hw; [|done].
  destruct fault, (create_delta_schema (file_at d (m_path m))) as [c|] eqn:Hc; try done.
  - pose proof Hsys as [_ Hok Hb Hpath _]. simpl in *.
    destruct (Hpath c Hc) as [?|Hrows]; [congruence|]. apply sys_ok_written; try done.
    eapply (written_sound _ _ _ _ _ _ _ w [("blocked", "1")] _ (m_mirror m)); [done| |done|].
    + intros k Hk%list_elem_of_singleton. subst k. unfold _META_KEYS. set_solver.
    + intros He. destruct (mk_mirror _ _ Hok g Hg He) as [?|[_ [w' Hm]]]; [congruence|].
      pose proof (mo_consumed _ _ _ _ Hm). congruence.
  - apply sys_ok_created; [|done]. right. eauto.
Qed.

Lemma sys_retry_ok db m d fault m' d' : retry fault d m = (m', d') → sys_ok (Sys db m d) → sys_ok (Sys db m' d').
Proof.
  unfold retry. intros [= <- <-] Hsys. apply (sys_ok_core _ m); [by destruct (m_closed m)|].
  destruct fault; [|done..]. destruct (file_at d (m_path m)) as [| |c] eqn:Hf; [done..|].
  pose proof Hsys as [Hwf Hok Hb Hpath Hd]. simpl in *. split; simpl; [done..| |].
  - intros c'. rewrite file_at_insert, decide_True by done. intros [= <-]. apply (Hpath c). by rewrite Hf.
  - intros id c'. rewrite file_at_insert. case_decide as Heq; [|apply Hd]. intros [= <-]. subst id.
    intros h0 w (H1&H2&H3&H4&H5&H6). apply (Hd _ c Hf). unfold claims, ckpt_int in *. simpl in *.
    rewrite !lookup_delete_ne in H1, H2, H3, H4, H5, H6 by done. by split_and!.
Qed.

(** What a look at the identity tells. *)
Lemma identity_look db v db' epoch clock :
  wf_facts db → during db v db' → read_facts_identity v = Ok (Some (epoch, clock)) →
  ∃ x, v = Store x ∧ wf_facts x ∧ rtc facts_step db x ∧ rtc facts_step x db' ∧
       epoch = store_epoch_of x ∧ clock_is x clock.
Proof.
  intros Hwf Hv Hread. destruct v as [| |x]; [done|done|]. destruct (Hv x eq_refl) as [H1 H2].
  destruct (facts_steps _ _ H1 Hwf) as [Hwfx _]. destruct (wf_clock _ Hwfx) as (c&Hc&_).
  rewrite (read_identity_wf x c Hwfx Hc) in Hread. injection Hread as <- <-. by exists x.
Qed.

Lemma sys_cycle_ok db db' we d m r m' d' :
  rtc facts_step db db' → weather_ok db db' d m we → cycle we d m = (r, m', d') →
  sys_ok (Sys db m d) → sys_ok (Sys db' m' d').
Proof.
  intros Hsteps [[Hid Hch Hco Hve Hord] Hopened Hbuilt Hunlink] Hrun Hsys.
  pose proof (so_facts _ Hsys) as Hwf. simpl in Hwf. pose proof (sys_ok_ext _ _ _ _ Hsteps Hsys) as Hsys'.
  unfold cycle in Hrun. destruct (m_pending_publish m) as [pp|] eqn:Hpp.
  { destruct (perform_publish_switch _ _ _ _ _) as [r1 m1] eqn:Hsw. injection Hrun as <- <- <-.
    eapply (sys_switch db); [done..| |done|done]. intros g Hg. by apply Hopened. }
  destruct (match m_refuse m with Some _ => true | None => false end); [by injection Hrun as <- <- <-|].
  assert (∀ g, we_opened we = Some g ∨ we_built we = Ok g → genuine db' g ∧ unused d m g) as Hgen.
  { intros g [Hg|Hg]; [|by apply Hbuilt]. destruct (Hopened g Hg). auto. }
  rewrite Hunlink in Hrun. destruct (m_pending_rebuild m) as [target|].
  { eapply (sys_perform_rebuild db); eauto. }
  destruct (m_blocked m); [by injection Hrun as <- <- <-|].
  destruct (read_facts_identity _) as [[[epoch clock]|]|] eqn:Hread; [|by injection Hrun as <- <- <-..].
  destruct (identity_look db _ db' _ _ Hwf Hid Hread) as (x&Hx&Hwfx&Hx1&Hx2&->&Hclock).
  destruct (match m_snapshot m with Some s => String.eqb (sn_epoch s) (store_epoch_of x) | None => false end) eqn:Hep.
  2: { eapply (sys_perform_rebuild db); [done| |done|done|done]. done. }
  destruct (m_snapshot m) as [s|] eqn:Hs; [|done]. bool_to_prop.
  destruct (so_bound _ Hsys s Hs) as [_ (g&Hg&Hge)]. simpl in Hg.
  pose proof (sys_ok_ext _ _ _ _ Hx1 Hsys) as Hsysx.
  destruct (catch_up_batch _ _ _ _ _ _) as [[r1 m1] f1] eqn:Hcatch.
  eapply (sys_catch_up x (lk_changes (we_looks we)) clock _ m g d) in Hcatch as [Hsys1 Hsome]; try done; [| |congruence].
  2: { intros y Hy. pose proof (Hord x y Hx Hy) as Hxy. by destruct (facts_steps _ _ Hxy Hwfx). }
  apply (sys_ok_ext _ db') in Hsys1; [|done].
  destruct r1 as [u|e]; [|by injection Hrun as <- <- <-].
  destruct (match m_snapshot m1 with Some _ => _ | None => _ end); [by injection Hrun as <- <- <-|].
  destruct (publish_snapshot m1) as [m2|e] eqn:Hp; injection Hrun as <- <- <-; [|done].
  eapply sys_publish_snapshot; [done| |done]. destruct Hsome as [s1 Hs1]; [by eexists|]. by apply (so_bound _ Hsys1 s1).
Qed.

Lemma sys_run_cycle db db' we d m o m' d' :
  rtc facts_step db db' → weather_ok db db' d m we → run_cycle we d m = (o, m', d') →
  sys_ok (Sys db m d) → sys_ok (Sys db' m' d').
Proof.
  intros Hsteps Hwe Hrun Hsys. unfold run_cycle in Hrun.
  destruct (m_stopped m || m_closed m); [injection Hrun as <- <- <-; by apply (sys_ok_ext db)|].
  destruct (cycle we d m) as [[r m1] d1] eqn:Hc. pose proof (sys_cycle_ok _ _ _ _ _ _ _ _ Hsteps Hwe Hc Hsys) as Hsys1.
  destruct r as [o1|[| |events ph]]; injection Hrun as <- <- <-; try done.
  apply (sys_ok_core _ m1); [done|]. by apply sys_record_blocked.
Qed.

(** ** Staging and restarts *)

Lemma sys_stage_ok db db' m d lk fault g p upper r d' :
  rtc facts_step db db' → looks_ok db db' lk → genuine db' g → g_id g ≠ m_path m →
  (∃ x, rtc facts_step db x ∧ rtc facts_step x db' ∧ clock_is x upper ∧
        ∀ y, lk_changes lk = Store y → rtc facts_step x y) → hlc_leb (g_hlc g) upper = true →
  build_staging_delta lk false fault d g p upper = (r, d') → sys_ok (Sys db m d) → sys_ok (Sys db' m d').
Proof.
  intros Hsteps Hlk Hgen Hid (x&Hx1&Hx2&Hclock&Hord) Hle Hrun Hsys.
  pose proof (sys_ok_ext _ _ _ _ Hsteps Hsys) as Hsys'. pose proof (so_facts _ Hsys) as Hwf. simpl in Hwf.
  destruct (facts_steps _ _ Hx1 Hwf) as [Hwfx _]. destruct (facts_steps _ _ Hx2 Hwfx) as [_ Hextx].
  unfold build_staging_delta in Hrun. destruct (staging_window _ _ _ _) as [[em rs]|] eqn:Hwin; [|by injection Hrun as <- <-].
  simpl in Hrun. rewrite file_at_insert, decide_True in Hrun by done.
  destruct (delta_transaction _ _ _ _ _) as [r1 f1] eqn:Ht.
  assert (d' = <[g_id g := f1]> d) as ->.
  { destruct r1; injection Hrun as _ <-; done. }
  destruct r1 as [seq|e].
  - assert (∃ c, f1 = CkDb c ∧ ckpt_sound db' c) as (c&->&Hsound).
    2: { pose proof Hsys' as [Hwf' Hok Hb Hpath Hd]. simpl in *. split; simpl; [done..| |].
         - intros c'. rewrite file_at_insert, decide_False by done. apply Hpath.
         - intros id c'. rewrite file_at_insert. case_decide; [by intros [= <-]|apply Hd]. }
    destruct (transaction_spec fault CkAbsent empty_ckpt (fresh_mirror (g_hlc g)) (merge_changes em rs)
      (delta_meta (g_id g) (g_epoch g) (g_repr g) (g_dim g) (g_hlc g) upper) seq f1 eq_refl)
      as (c&->&Hmeta&Hrows); [done|done|]. exists c. split; [done|].
    assert (ck_meta c = write_delta_meta (delta_meta (g_id g) (g_epoch g) (g_repr g) (g_dim g) (g_hlc g) upper seq ++ []) ∅)
      as Hmeta' by by rewrite app_nil_r.
    eapply (written_sound db' c _ _ _ _ (g_hlc g) upper [] ∅
             (Mirror (new_items (merge_changes em rs)) (new_retractions (merge_changes em rs)) (Some upper) seq));
      [done|by intros ? ?%elem_of_nil|done|].
    intros He. unfold staging_window, as_staging in Hwin. repeat (apply bind_Ok in Hwin as (?&?&Hwin)).
    injection Hwin as <- <-. repeat case_match; simplify_eq.
    match goal with Hr : read_fact_changes ?v _ _ = Ok ?ch, He : embed_all _ _ _ = Ok ?em |- _ =>
      destruct v as [| |y] eqn:Hv; [done|done|]; rename Hr into Hread; rename He into Hembed end.
    pose proof (Hord y eq_refl) as Hxy. destruct (facts_steps _ _ Hxy Hwfx) as [Hwfy Hexty].
    rewrite (read_fact_changes_ext x y upper (g_hlc g) Hwfx Hwfy Hexty Hclock) in Hread. injection Hread as <-.
    match type of Hembed with _ = Ok ?em => apply embed_all_fst in Hembed; apply (mirror_ok_ext x); [done|];
      apply (mirror_absorb x (g_hlc g) (g_hlc g) upper (fresh_mirror (g_hlc g)) em seq); try done end.
    by apply (fresh_mirror_ok x _ upper).
  - assert (sys_ok (Sys db' m (<[g_id g := CkAbsent]> d))) as Habs by (by apply sys_ok_emptied).
    apply transaction_fails in Ht as [->|(c&[= <-]&->)]; [done|].
    rewrite <- (insert_insert_eq d (g_id g) (CkDb empty_ckpt) CkAbsent). apply sys_ok_created; [|done].
    right. exists empty_ckpt. by rewrite file_at_insert, decide_True.
Qed.

Lemma sys_restart_ok db db' m d lk declared path p loaded blocked refuse force m' d' :
  rtc facts_step db db' → looks_ok db db' lk → (∀ g, loaded = Some g → genuine db' g) →
  start_machine lk false d declared path p loaded blocked refuse force = (Ok m', d') →
  sys_ok (Sys db m d) → sys_ok (Sys db' m' d').
Proof.
  intros Hsteps [_ _ Hco _ _] Hgen Hrun Hsys. pose proof (sys_ok_ext _ _ _ _ Hsteps Hsys) as Hsys'.
  pose proof (so_facts _ Hsys) as Hwf. simpl in Hwf. unfold start_machine in Hrun.
  destruct loaded as [g|]; [|injection Hrun as <- <-; by apply (sys_ok_reset db' m)].
  destruct (mbind (M := result delta_exn) _ _) as [commits|e] eqn:Hpre; [|done]. ok_inv.
  match goal with Hr : read_base_commit_ids _ _ = Ok _ |- _ => rename Hr into Hread end.
  set (fresh := new_machine _ _ _ _ _ (fresh_mirror _) _ _ _) in Hrun.
  assert (sys_ok (Sys db' fresh (<[path := CkAbsent]> d))) as Hfresh.
  { apply (sys_ok_fresh db' (set_mirror empty_mirror fresh) fresh _ g); try done.
    - apply sys_ok_emptied; [done|intros _; by right|]. by apply (sys_ok_reset db' m).
    - intros He. apply (genuine_gen_ok db (lk_commits lk)); auto. apply Hsys'.
    - intros c. simpl. rewrite file_at_insert, decide_True by done. by intros [= <-]. }
  assert (∀ m1 d1, (publish_snapshot fresh, drop_checkpoint false path d) = (Ok m1, d1) → sys_ok (Sys db' m1 d1)) as Hrestart.
  { intros m1 d1 [= Hp <-]. eapply sys_publish_snapshot; [done| |done]. by eexists. }
  destruct (open_delta_checkpoint _ _ _ _) as [ck|e] eqn:Hopen; [|destruct e; by apply Hrestart].
  set (m1 := new_machine _ _ _ _ _ (ld_mirror ck) _ _ _) in Hrun.
  destruct (open_delta_checkpoint_inv _ _ _ _ _ Hopen) as (c&w&Hf&_&Hrows&Hw).
  assert (sys_ok (Sys db' m1 d)) as Hm1.
  { pose proof Hsys' as [Hwf' _ _ _ Hd]. simpl in *. split; simpl; [done| |done| |done].
    - split; [done|]. intros g' [= <-] He. right. split; [apply (genuine_gen_ok db (lk_commits lk)); auto|].
      by apply (loaded_mirror_ok db' d path g p (lk_changes lk)); [apply Hd|..].
    - intros c' Hc'. rewrite Hf in Hc'. injection Hc' as <-. by right. }
  destruct (publish_snapshot m1) as [m2|e] eqn:Hp; [|done].
  assert (sys_ok (Sys db' m2 d)) as Hm2 by (eapply sys_publish_snapshot; [done|by eexists|done]).
  destruct (ld_blocked ck); [by injection Hrun as <- <-|].
  destruct (m_snapshot m2); [|done].
  destruct (verify_snapshot_vs_facts _ _) as [u|[| |ev ph]]; try done; [by injection Hrun as <- <-|by apply Hrestart].
Qed.

(** ** All steps *)

Lemma sys_ok_replaced db db' m d :
  wf_facts db' → fresh_epoch (store_epoch_of db') (Sys db m d) → sys_ok (Sys db m d) → sys_ok (Sys db' m d).
Proof.
  intros Hwf' (Hs&Hg&Hc) [_ _ Hb Hpath _]. simpl in *. split; simpl; [done| |done|done|].
  - split.
    + intros sn Hsn He. by destruct (Hs sn Hsn).
    + intros g Hgen He. by destruct (Hg g Hgen).
  - intros id c Hf h0 w (He&_). by destruct (Hc id c Hf).
Qed.

Lemma sys_ok_queue db m d pp : sys_ok (Sys db m d) → sys_ok (Sys db (queue_publish pp m) d).
Proof.
  intros Hsys. unfold queue_publish. destruct (m_closed m); [done|]. destruct (m_pending_publish m); [done|].
  by apply (sys_ok_core _ m).
Qed.

Lemma sys_ok_close db m d : sys_ok (Sys db m d) → sys_ok (Sys db (close m) d).
Proof.
  intros Hsys. unfold close. destruct (m_closed m); [done|]. by apply (sys_ok_no_snapshot _ m).
Qed.

Lemma sys_ok_invalidate db m d m' d' :
  invalidate false d m = (m', d') → sys_ok (Sys db m d) → sys_ok (Sys db m' d').
Proof.
  intros [= <- <-] Hsys. apply sys_ok_emptied; [done|intros _; by right|]. by apply (sys_ok_reset _ m).
Qed.

Lemma sys_step_ok s s' : sys_step s s' → sys_ok s → sys_ok s'.
Proof.
  destruct 1; intros Hsys.
  - apply (sys_ok_ext db); [by apply rtc_once|done].
  - by apply (sys_ok_replaced db).
  - by eapply sys_run_cycle.
  - by apply sys_ok_queue.
  - by eapply sys_ok_invalidate.
  - unfold rebuild. destruct (m_closed m); [done|]. by apply (sys_ok_core _ m).
  - by apply (sys_ok_core _ m).
  - by apply (sys_ok_core _ m).
  - by eapply sys_retry_ok.
  - by apply sys_ok_close.
  - by eapply sys_stage_ok.
  - by eapply sys_restart_ok.
  - apply sys_ok_emptied; [done|intros _; by left|done].
Qed.

Lemma sys_init_ok s : sys_init s → sys_ok s.
Proof.
  destruct s as [db m d]. intros (Hf&Hd&declared&p&Hm). simpl in *. subst m d. split; simpl.
  - by apply facts_init_wf.
  - by split.
  - by intros sn.
  - by left.
  - intros id c. unfold file_at. by rewrite lookup_empty.
Qed.

Lemma sys_reachable_ok s : reachable sys_init sys_step s → sys_ok s.
Proof. apply reachable_invariant; [apply sys_init_ok|]. intros ? ? _ ? ?. by eapply sys_step_ok. Qed.
End system.
