(* ===== verification/DeltaTheorems.v ===== *)
(** * What the delta machine guarantees

    The served events are the facts' projection; the query gate serves nothing
    older than the request; a written checkpoint loads back; a healthy batch
    reaches the clock of the facts; a publish switch is all or nothing.  The last
    section runs a concrete machine. *)

From Stdlib Require Import Ascii String.
From stdpp Require Import base list strings gmap pretty sorting relations.
From S2P Require Import Prelude PyJson Facts Delta DeltaProjection DeltaCheckpoint DeltaSystem.
Open Scope Z_scope.

Section theorems.
Context {P V B : Type} `{Vectors P V B} `{IntText}.
Local Notation machine := (machine (P := P) (V := V) (B := B)).

(** C4: in every state that recording, restarts, catching up, switches, rebuilds,
    staging, blocks, invalidations and damaged files can lead to, a snapshot of
    the current epoch serves exactly the events the facts call active at its
    watermark, in the order of the facts. *)
Theorem served_snapshot_is_projection (s : sys (P := P) (V := V) (B := B)) sn :
  reachable sys_init sys_step s → m_snapshot (s_machine s) = Some sn → sn_epoch sn = store_epoch_of (s_db s) →
  ∃ w c, sn_consumed sn = Some w ∧ clock_is (s_db s) c ∧ hlc_leb w c = true ∧
         sn_events sn = strip <$> read_active_events (s_db s) w.
Proof.
  intros Hr Hsn He. apply sys_reachable_ok in Hr as [_ Hok _ _ _].
  by destruct (mk_snapshot _ _ Hok sn Hsn He) as [_ ?].
Qed.

(** The state the machine was in at a wake-up: later than the request. *)
Definition wake_ok (db : facts_db) (w : machine * Z) : Prop :=
  ∃ s : sys, reachable sys_init sys_step s ∧ s_machine s = w.1 ∧ rtc facts_step db (s_db s).

Lemma gate_wait_serves epoch max deadline (wakes : list (machine * Z)) sn :
  gate_wait epoch max deadline wakes = Some (Serve sn) →
  ∃ m now, (m, now) ∈ wakes ∧ m_snapshot m = Some sn ∧ sn_epoch sn = epoch ∧
           ∃ w, sn_consumed sn = Some w ∧ hlc_leb max w = true.
Proof.
  induction wakes as [|[m now] wakes IH]; simpl; [done|].
  destruct (gate_look epoch max m (deadline <=? now)) as [a|] eqn:Hlook.
  - intros [= ->]. exists m, now. split; [by left|]. revert Hlook. unfold gate_look.
    destruct (m_closed m); [done|]. destruct (m_blocked m); [done|]. destruct (m_snapshot m) as [s|]; [|by destruct (_ || _)].
    destruct (String.eqb_spec (sn_epoch s) epoch) as [He|]; simpl; [|by destruct (_ || _)].
    destruct (sn_consumed s) as [w|] eqn:Hw; [|by destruct (_ || _)].
    destruct (hlc_leb max w) eqn:Hle; [|by destruct (_ || _)]. intros [= ->]. eauto.
  - intros Hs. destruct (IH Hs) as (m'&now'&?&?). exists m', now'. split; [by right|done].
Qed.

(** What the gate returns: the projection, at a watermark that covers the clock it
    read, of the store as it was at one of the wake-ups. *)
Lemma gate_returns_projection refuse (db : facts_db) deadline wakes sn :
  wf_facts db → Forall (wake_ok db) wakes →
  ensure_caught_up refuse (Store db) deadline wakes = Ok (Some (Serve sn)) →
  refuse = None ∧
  ∃ db' w c, rtc facts_step db db' ∧ wf_facts db' ∧ clock_is db c ∧ hlc_leb c w = true ∧ sn_consumed sn = Some w ∧
    sn_epoch sn = store_epoch_of db ∧ (∃ c', clock_is db' c' ∧ hlc_leb w c' = true) ∧
    sn_events sn = strip <$> read_active_events db' w.
Proof.
  intros Hwf Hwakes. unfold ensure_caught_up. destruct refuse; [done|].
  destruct (wf_clock _ Hwf) as (c&Hc&Hev&_). rewrite (read_identity_wf db c Hwf Hc). cbn. intros [= Hs].
  split; [done|]. apply gate_wait_serves in Hs as (m&now&Hin&Hsn&He&w&Hw&Hle).
  rewrite Forall_forall in Hwakes. destruct (Hwakes _ Hin) as (s&Hr&Hm&Hsteps). simpl in Hm. subst m.
  destruct (facts_steps _ _ Hsteps Hwf) as [Hwf' Hext]. pose proof He as He0.
  apply sys_reachable_ok in Hr as [_ Hok _ _ _]. rewrite <- (ext_epoch _ _ Hext) in He.
  destruct (mk_snapshot _ _ Hok sn Hsn He) as [_ (w'&c'&Hw'&Hc'&Hwc&Hevs)]. assert (w' = w) as -> by congruence.
  exists (s_db s), w, c. split_and!; try done. by exists c'.
Qed.

(** C5: a request is never answered from a state older than itself: the snapshot
    the gate returns covers the clock it read from the facts, it is the projection
    of a later store at its own watermark, and every event committed before the
    request is served unless its commit has been retracted. *)
Theorem gate_serves_current_facts refuse (db : facts_db) deadline wakes sn :
  wf_facts db → Forall (wake_ok db) wakes →
  ensure_caught_up refuse (Store db) deadline wakes = Ok (Some (Serve sn)) →
  refuse = None ∧
  ∃ db' w c, rtc facts_step db db' ∧ clock_is db c ∧ hlc_leb c w = true ∧
    sn_events sn = strip <$> read_active_events db' w ∧
    ∀ e, e ∈ f_events db → strip e ∈ sn_events sn ∨ ∃ r, r ∈ f_retractions db' ∧ r.1 = ev_commit e.
Proof.
  intros Hwf Hwakes Hgate. destruct (gate_returns_projection _ _ _ _ _ Hwf Hwakes Hgate) as (Hrefuse&db'&w&c&Hsteps&Hwf'&Hc&Hle&_&_&_&Hevs).
  split; [done|]. exists db', w, c. split_and!; [done..|].
  destruct (wf_clock _ Hwf) as (c0&Hc0&Hev&_). assert (c0 = c) as -> by by eapply clock_is_inj.
  destruct (facts_steps _ _ Hsteps Hwf) as [_ Hext].
  intros e Hein. rewrite Hevs, list_elem_of_fmap. destruct (ext_clock _ _ Hext) as (c1&c2&_&_&_&Hev1&_).
  apply Hev1 in Hein as Hein'. destruct Hein' as [Hein' _]. specialize (Hev e Hein).
  destruct (decide (ev_commit e ∈ (f_retractions db').*1)) as [Hret|Hret].
  - right. apply list_elem_of_fmap in Hret as (r&->&?). eauto.
  - left. exists e. split; [done|]. apply read_active_elem. split; [done|]. apply active_at_spec. split; [hlc_solve|].
    intros r Hrin Heq. exfalso. apply Hret. rewrite <- Heq. by apply list_elem_of_fmap_2.
Qed.

(** The gate answers by its deadline: a wake-up at or after it ends the wait,
    and nothing but a covering snapshot, a block, a stop or a close ends it
    earlier. *)
Theorem gate_answers_by_deadline epoch max deadline (wakes : list (machine * Z)) :
  Exists (λ w, deadline <= w.2) wakes →
  ∃ a, gate_wait epoch max deadline wakes = Some a ∧
    (a = NotCaughtUp → Exists (λ w, deadline <= w.2 ∨ m_stopped w.1 = true ∨ m_closed w.1 = true) wakes).
Proof.
  induction 1 as [[m now] wakes Hnow|[m now] wakes Hex IH]; simpl in *.
  - assert (deadline <=? now = true) as -> by by apply Z.leb_le.
    assert (is_Some (gate_look epoch max m true)) as [a Ha].
    { unfold gate_look. rewrite orb_true_r. repeat case_match; by eexists. }
    rewrite Ha. exists a. split; [done|]. intros _. by left; left.
  - destruct (gate_look epoch max m (deadline <=? now)) as [a|] eqn:Hlook.
    + exists a. split; [done|]. intros ->. left. simpl. revert Hlook. unfold gate_look.
      destruct (m_closed m); [by auto|]. destruct (m_blocked m); [done|].
      destruct (Z.leb_spec deadline now); [by auto|]. rewrite orb_false_r. repeat case_match; naive_solver.
    + destruct IH as (a&Ha&Hwhy). exists a. split; [done|]. intros Hn. right. by apply Hwhy.
Qed.

(** ** The publish switch *)

(** What a successful switch rests on: the epoch of the facts was the one the
    publisher named, the generation that opened had its checkpoint accepted, every
    row of it has a fact commit, and the projection of that checkpoint over those
    commits is the snapshot, with the event set of the facts at its watermark. *)
Record switched (lk : looks) (f : ckpt_file B) (pp : pending_publish) (g : gen) (m' : machine) : Prop := {
  sw_epoch : ∃ c, read_facts_identity (lk_identity lk) = Ok (Some (pp_epoch pp, c));
  sw_checkpoint : accepted_checkpoint f g (pp_provider pp) (lk_changes lk) (m_mirror m');
  sw_commits : read_base_commit_ids (lk_commits lk) (g_hlc g) = Ok (m_commits m') ∧
    ∀ r, r ∈ g_rows g → is_Some (m_commits m' !! gr_id r);
  sw_snapshot : ∃ sn as_of, m_snapshot m' = Some sn ∧
    build_snapshot g (pp_provider pp) (m_commits m') (m_mirror m') = Ok sn ∧
    sn_consumed sn = Some as_of ∧ mi_consumed (m_mirror m') = Some as_of ∧
    facts_active_event_ids (lk_verify lk) as_of = Ok (list_to_set (ev_id <$> sn_events sn));
  sw_identity : m_generation m' = Some g ∧ m_provider m' = pp_provider pp ∧ m_declared m' = pp_id pp ∧ m_path m' = pp_id pp }.

Lemma switch_checks_switched lk opened f pp g commits x s (m : machine) :
  (∃ c, read_facts_identity (lk_identity lk) = Ok (Some (pp_epoch pp, c))) →
  switch_checks lk opened f pp = Ok (g, commits, x, s) →
  opened = Some g ∧
  switched lk f pp g (finish_publish None
    (clear_faults (adopt (pp_id pp) (pp_id pp) g (pp_provider pp) commits x (Some s) m))).
Proof.
  intros Hepoch Hsw. assert (∀ r, r ∈ g_rows g → is_Some (commits !! gr_id r)) as Hrows.
  { unfold switch_checks in Hsw. destruct opened as [g'|]; [|done]. ok_inv. intros r Hr.
    match goal with Hg : existsb _ _ = false |- _ => rename Hg into Hex end.
    destruct (commits !! gr_id r) eqn:E; [eauto|]. exfalso. apply Bool.not_true_iff_false in Hex. apply Hex.
    apply existsb_exists. exists r. split; [by apply list_elem_of_In|]. by rewrite bool_decide_true. }
  apply switch_checks_inv in Hsw as (->&ld&Hopen&->&Hread&Hbuild&Hver). split; [done|].
  destruct (open_delta_checkpoint_inv _ _ _ _ _ Hopen) as (_&w&_&_&_&Hw).
  assert (sn_consumed s = mi_consumed (ld_mirror ld)) as Hs by (unfold build_snapshot in Hbuild; ok_inv; done).
  split; try done; simpl.
  - by apply open_delta_checkpoint_accepts.
  - exists s, w. split_and!; try done; [congruence|].
    unfold verify_snapshot_vs_facts in Hver. rewrite Hs, Hw in Hver. ok_inv. congruence.
Qed.


(** ** A checkpoint loads back *)


(** ** A healthy cycle *)

Lemma insert_changes_total l (c : ckpt B) seq :
  (∀ s, s ∈ ck_seqs c → s <= seq) →
  NoDup ((λ i, ev_id (it_event i)) <$> ((ck_events c).*1 ++ new_items l)) →
  NoDup ((ck_retractions c).*1 ++ new_retractions l).*1 →
  ∃ c', insert_changes c seq l = Some (c', seq + Z.of_nat (length l)).
Proof.
  revert c seq. induction l as [|x l IH]; intros c seq Hs He Hr; cbn [insert_changes length].
  { exists c. do 2 f_equal. lia. }
  rewrite (new_items_cons x) in He. rewrite (new_retractions_cons x) in Hr.
  assert (∃ c1, insert_change c (seq + 1) x = Some c1) as [c1 Hx].
  { unfold insert_change. destruct x as [e v|k h].
    - cbn in He. rewrite fmap_app, NoDup_app in He. destruct He as (_&Hd&_).
      rewrite (bool_decide_false (ev_id e ∈ _)), (bool_decide_false (seq + 1 ∈ _)); [by eexists| |].
      + intros Hin. assert (seq + 1 <= seq) by (apply Hs, elem_of_app; by left). lia.
      + intros Hin. apply (Hd (ev_id e)); [by rewrite <- list_fmap_compose|]. by left.
    - cbn in Hr. rewrite fmap_app, NoDup_app in Hr. destruct Hr as (_&Hd&_).
      rewrite (bool_decide_false (k ∈ _)), (bool_decide_false (seq + 1 ∈ _)); [by eexists| |].
      + intros Hin. assert (seq + 1 <= seq) by (apply Hs, elem_of_app; by right). lia.
      + intros Hin. apply (Hd k); [by rewrite <- list_fmap_compose|]. by left. }
  rewrite Hx. destruct (insert_change_spec _ _ _ _ Hx) as (_&He1&Hr1&Hs1).
  destruct (IH c1 (seq + 1)) as [c' Hc'].
  - intros s Hin. apply Hs1 in Hin as [Hin| ->]; [|lia]. specialize (Hs s Hin). lia.
  - by rewrite He1, <- app_assoc.
  - by rewrite Hr1, <- app_assoc.
  - exists c'. rewrite Hc'. do 2 f_equal. lia.
Qed.

(** A provider that can represent every event of the store, and events that
    parse. *)
Definition representable (db : facts_db) (p : P) (dim : Z) : Prop :=
  ∀ e, e ∈ f_events db → validate_event e = None ∧ ∃ v, event_vector p e = Some v ∧ vector_problem v dim = false.

Lemma embed_all_total db p dim l :
  representable db p dim → (∀ e, e ∈ l → e ∈ f_events db) → ∃ em, embed_all p dim l = Ok em.
Proof.
  intros Hrep. induction l as [|e l IH]; intros Hl; [by eexists|]. destruct IH as [em Hem]; [intros; apply Hl; by right|].
  destruct (Hrep e) as (_&v&Hv&Hp); [apply Hl; by left|]. cbn. unfold embed_vector. rewrite Hv, Hp. cbn. rewrite Hem. by eexists.
Qed.

Lemma parse_events_total db p dim l :
  representable db p dim → (∀ e, e ∈ l → e ∈ f_events db) → parse_events l = Ok tt.
Proof.
  intros Hrep Hl. unfold parse_events. destruct (List.find _ l) as [e|] eqn:Hf; [|done].
  apply find_some in Hf as [Hin Hbad]. destruct (Hrep e) as [Hv _]; [apply Hl; by apply list_elem_of_In|]. by rewrite Hv in Hbad.
Qed.

(** The batch on representable facts with a working disk. *)
Lemma catch_up_batch_total db c f g (m : machine) w :
  wf_facts db → clock_is db c → m_generation m = Some g → g_epoch g = store_epoch_of db →
  gen_ok db g (m_commits m) → mirror_ok db (g_hlc g) w (m_mirror m) → commits_complete g (m_commits m) →
  (∃ c0, create_delta_schema f = Some c0 ∧ rows_match c0 (m_mirror m)) →
  representable db (m_provider m) (g_dim g) →
  ∃ m' f', catch_up_batch NoFault (Store db) f (store_epoch_of db) c m = (Ok tt, m', f') ∧
    m_generation m' = Some g ∧ m_commits m' = m_commits m ∧ m_blocked m' = m_blocked m ∧ m_closed m' = m_closed m.
Proof.
  intros Hwf Hc Hg He Hgen Hm Hcomplete (c0&Hc0&Hrows) Hrep. unfold catch_up_batch.
  rewrite Hg, (mo_consumed _ _ _ _ Hm). destruct (hlc_leb c w) eqn:Hcw; [by eexists _, _|].
  rewrite (read_fact_changes_wf db c w Hwf Hc). destruct (_ && _); [by eexists _, _|].
  set (ev := window_events db w c). set (rs := window_retractions db w c).
  assert (∀ e, e ∈ ev → e ∈ f_events db) as Hev by by intros e [? _]%window_events_elem.
  rewrite (parse_events_total db _ _ ev Hrep Hev). cbn [mbind result_bind].
  destruct (embed_all_total db (m_provider m) (g_dim g) (surviving ev rs) Hrep) as [em Hem].
  { intros e [_ ?]%list_elem_of_filter. by apply Hev. }
  unfold mbind, result_bind. rewrite Hem. unfold write_batch, delta_transaction. rewrite Hc0.
  pose proof (mirror_absorb db (g_hlc g) w c (m_mirror m) em 0 Hwf Hm ltac:(hlc_solve) Hc (embed_all_fst _ _ _ _ Hem))
    as [_ _ _ Hnd _ Hndr _]. cbn in Hnd, Hndr. fold rs in Hnd, Hndr.
  destruct Hrows as (H1&H2&H3).
  destruct (insert_changes_total (merge_changes em rs) c0 (mi_seq (m_mirror m))) as [c' Hins].
  { intros s Hs. rewrite <- H3. by apply max_row_seq_spec. }
  { by rewrite H1. }
  { by rewrite H2. }
  rewrite Hins. cbn -[publish_snapshot].
  match goal with |- context [publish_snapshot ?x] => destruct (publish_snapshot_total x g) as [s Hs] end; [done|done|].
  rewrite Hs. by eexists _, _.
Qed.

(** The clock of a store that holds a change is within reach of a read. *)
Lemma window_reaches_clock db c w :
  wf_facts db → clock_is db c → f_events db ≠ [] ∨ f_retractions db ≠ [] →
  window_events db w c = [] → window_retractions db w c = [] → hlc_leb c w = true.
Proof.
  intros Hwf Hc Hne Hev Hrt. destruct (hlc_leb c w) eqn:Hcw; [done|]. exfalso.
  destruct (wf_clock _ Hwf) as (c'&Hc'&_&_&Hlast). assert (c' = c) as -> by by eapply clock_is_inj.
  destruct Hlast as [[H1 H2]|[(e&Hin&Hh)|(r&Hin&Hh)]]; [by destruct Hne| |].
  - assert (e ∈ window_events db w c) as Hin'; [|rewrite Hev in Hin'; by apply elem_of_nil in Hin'].
    apply window_events_elem. split; [done|]. apply in_window_spec. rewrite Hh. split; hlc_solve.
  - assert (r ∈ window_retractions db w c) as Hin'; [|rewrite Hrt in Hin'; by apply elem_of_nil in Hin'].
    apply window_retractions_elem. split; [done|]. apply in_window_spec. rewrite Hh. split; hlc_solve.
Qed.

(** What the gate says of a healthy machine whose mirror covers the request. *)
Lemma gate_look_serves epoch c w (m : machine) sn :
  m_closed m = false → m_blocked m = None → m_snapshot m = Some sn → sn_epoch sn = epoch →
  sn_consumed sn = Some w → hlc_leb c w = true → gate_look epoch c m false = Some (Serve sn).
Proof. intros Hcl Hbl Hsn He Hw Hle. unfold gate_look. by rewrite Hcl, Hbl, Hsn, He, String.eqb_refl, Hw, Hle. Qed.

(** C38: liveness: when the store holds a change, every event can be represented
    and nothing fails, one cycle of an idle machine of the current epoch ends with
    a snapshot that the gate serves to a request made now. *)
Theorem healthy_cycle_serves (s : sys (P := P) (V := V) (B := B)) sn0 g c we :
  let m := s_machine s in let db := s_db s in
  reachable sys_init sys_step s →
  m_pending_publish m = None → m_refuse m = None → m_pending_rebuild m = None → m_blocked m = None → m_closed m = false →
  m_snapshot m = Some sn0 → sn_epoch sn0 = store_epoch_of db → m_generation m = Some g →
  commits_complete g (m_commits m) → representable db (m_provider m) (g_dim g) →
  file_at (s_disk s) (m_path m) ≠ CkBroken → clock_is db c → f_events db ≠ [] ∨ f_retractions db ≠ [] →
  we_looks we = Looks (Store db) (Store db) (Store db) (Store db) → we_write we = NoFault →
  ∃ m' d' sn, cycle we (s_disk s) m = (Ok None, m', d') ∧ m_snapshot m' = Some sn ∧
    gate_look (store_epoch_of db) c m' false = Some (Serve sn).
Proof.
  intros m db Hreach Hpp Hre Hpr Hbl Hcl Hsn0 He0 Hg Hcomplete Hrep Hfile Hc Hne Hlk Hnofault.
  apply sys_reachable_ok in Hreach as [Hwf Hok Hbound Hpath Hdisk]. fold m db in Hwf, Hok, Hbound, Hpath.
  destruct (Hbound _ Hsn0) as [[w Hw] (g0&Hg0&Hge)]. assert (g0 = g) as -> by congruence.
  assert (g_epoch g = store_epoch_of db) as He by congruence.
  destruct (mk_mirror _ _ Hok g Hg He) as [?|[Hgen (w0&Hm)]]; [congruence|].
  assert (∃ c0, create_delta_schema (file_at (s_disk s) (m_path m)) = Some c0 ∧ rows_match c0 (m_mirror m)) as Hf.
  { destruct (create_delta_schema _) as [c0|] eqn:Hc0; [|by destruct (file_at _ _)].
    exists c0. split; [done|]. destruct (Hpath c0 eq_refl); [congruence|done]. }
  destruct (catch_up_batch_total db c (file_at (s_disk s) (m_path m)) g m w0) as (m1&f1&Hcatch&Hg1&Hco1&Hbl1&Hcl1); try done.
  destruct (catch_up_batch_spec _ _ _ _ _ _ _ _ _ _ Hwf Hwf (facts_ext_refl _ Hwf) Hc Hg He Hok Hcatch) as [Hok1 Hres].
  assert (∃ w1 sn1, mi_consumed (m_mirror m1) = Some w1 ∧ hlc_leb c w1 = true ∧ m_snapshot m1 = Some sn1 ∧
            sn_epoch sn1 = store_epoch_of db) as (w1&sn1&Hw1&Hcw1&Hsn1&Hse1).
  { destruct (Hres eq_refl) as [[-> [?|(w2&Hw2&Hcase)]]|(Hw2&sn2&Hsn2&_&[Hse _])]; [congruence| |].
    - exists w2, sn0. split_and!; try done. destruct Hcase as [?|[Hev Hrt]]; [done|]. by apply (window_reaches_clock db).
    - exists c, sn2. split_and!; try done. hlc_solve. }
  unfold cycle. rewrite Hpp, Hre, Hpr, Hbl, Hlk, Hnofault. cbn -[catch_up_batch].
  rewrite (meta_identity_clock _ _ Hwf Hc). cbn -[catch_up_batch]. rewrite Hsn0, He0, String.eqb_refl, Hcatch, Hsn1.
  destruct (bool_decide (sn_consumed sn1 = mi_consumed (m_mirror m1)) && (sn_seq sn1 =? mi_seq (m_mirror m1))) eqn:Hsame.
  - bool_to_prop. eexists _, _, sn1. split; [done|]. split; [done|]. apply (gate_look_serves _ _ w1); congruence.
  - destruct (publish_snapshot_total m1 g Hg1) as [sn2 Hp]; [by rewrite Hco1|]. rewrite Hp.
    eexists _, _, sn2. split; [done|]. split; [done|].
    apply publish_snapshot_inv in Hp as (g2&s2&Hg2&Hbuild&Heq&Hse2&_). injection Heq as <-.
    apply (gate_look_serves _ _ w1); simpl; try congruence. unfold build_snapshot in Hbuild. ok_inv. done.
Qed.

(** ** Rebuilds on request *)

(** The completion callback is called only for a request, and a cycle that takes
    up a request leaves none. *)
Lemma cycle_completes_asked we d (m : machine) t m' d' :
  cycle we d m = (Ok (Some t), m', d') → m_pending_rebuild m = Some t.
Proof.
  unfold cycle. destruct (m_pending_publish m) as [pp|].
  { destruct (perform_publish_switch _ _ _ _ _) as [[|] ?]; done. }
  destruct (match m_refuse m with Some _ => true | None => false end); [done|].
  assert (∀ lk asked, perform_rebuild lk (we_unlink_fails we) (we_opened we) (we_built we) asked d m = (Ok (Some t), m', d') →
            asked = Some t) as Hrb.
  { intros lk asked. unfold perform_rebuild. destruct (m_closed m); [done|]. destruct (rebuild_target _ _); [|done].
    destruct (rebuild_generation _ _ _ _) as [[g commits]|]; [|done]. destruct (publish_snapshot _); [|done]. by intros [=]. }
  destruct (m_pending_rebuild m) as [t'|]; [by intros ?%Hrb|]. destruct (m_blocked m); [done|].
  destruct (read_facts_identity _) as [[[epoch clock]|]|]; [|done..].
  destruct (match m_snapshot m with Some _ => _ | None => _ end); [|by intros ?%Hrb].
  destruct (catch_up_batch _ _ _ _ _ _) as [[[u|e] m1] f1]; [|done].
  destruct (match m_snapshot m1 with Some _ => _ | None => _ end); [done|]. by destruct (publish_snapshot m1).
Qed.

(** A requested rebuild is attempted once: the cycle that takes it up forgets
    the request whether or not it succeeds, calls the completion callback with the
    requested epoch exactly when a snapshot of the rebuilt generation is in place,
    and no later cycle reports it unless it is asked for again. *)
Theorem requested_rebuild_is_attempted_once we d (m : machine) t r m' d' :
  m_pending_publish m = None → m_refuse m = None → m_pending_rebuild m = Some t → m_closed m = false →
  cycle we d m = (r, m', d') →
  m_pending_rebuild m' = None ∧ r ≠ Ok None ∧
  (r = Ok (Some t) ↔ is_Some (m_snapshot m')) ∧
  (∀ we2 d2 t2 m2 d3, cycle we2 d2 m' ≠ (Ok (Some t2), m2, d3)).
Proof.
  intros Hpp Hre Hpr Hcl. unfold cycle at 1. rewrite Hpp, Hre, Hpr. unfold perform_rebuild. rewrite Hcl. cbn [rebuild_target].
  intros Hrun. assert (m_pending_rebuild m' = None ∧ r ≠ Ok None ∧ (r = Ok (Some t) ↔ is_Some (m_snapshot m'))) as (Hn&?&?).
  { destruct (rebuild_generation _ _ _ _) as [[g commits]|e].
    - match type of Hrun with context [publish_snapshot ?x] => destruct (publish_snapshot x) as [m2|e] eqn:Hp end.
      + injection Hrun as <- <- <-. apply publish_snapshot_inv in Hp as (g2&s2&_&_&->&_). simpl.
        split_and!; [done|done|]. split; [by eexists|done].
      + injection Hrun as <- <- <-. simpl. split_and!; [done|done|]. split; [done|by intros []].
    - injection Hrun as <- <- <-. simpl. split_and!; [done|done|]. split; [done|by intros []]. }
  split_and!; try done. intros we2 d2 t2 m2 d3 Hc%cycle_completes_asked. congruence.
Qed.
End theorems.
