(* ===== verification/DeltaDemo.v ===== *)
(** * A concrete delta machine

    Decimal numerals as [IntText], trivial vectors as [Vectors], a store with one
    event, and the run that records it, restarts on the empty generation and
    catches up.  The witnesses of [DeltaTheorems] use it; no theorem depends on
    it. *)

From Stdlib Require Import Ascii String.
From stdpp Require Import base list strings gmap pretty sorting relations.
From S2P Require Import Prelude PyJson Facts Delta DeltaProjection DeltaCheckpoint DeltaSystem DeltaTheorems.
Open Scope Z_scope.

(** ** Decimal numerals *)

Fixpoint read_digits (acc : N) (s : string) : option N :=
  match s with
  | EmptyString => Some acc
  | String c s =>
      let n := N_of_ascii c in
      if (48 <=? n)%N && (n <=? 57)%N then read_digits (acc * 10 + (n - 48)) s else None
  end.

Definition read_int (s : string) : option Z :=
  match s with
  | EmptyString => None
  | String "-" s => (λ n, - Z.of_N n) <$> read_digits 0 s
  | _ => Z.of_N <$> read_digits 0 s
  end.

Lemma read_digits_char acc n s : (n < 10)%N → read_digits acc (String (pretty_N_char n) s) = read_digits (acc * 10 + n) s.
Proof.
  intros Hn.
  assert (n = 0 ∨ n = 1 ∨ n = 2 ∨ n = 3 ∨ n = 4 ∨ n = 5 ∨ n = 6 ∨ n = 7 ∨ n = 8 ∨ n = 9)%N as Hcase by lia.
  destruct Hcase as [->|[->|[->|[->|[->|[->|[->|[->|[->| ->]]]]]]]]]; reflexivity.
Qed.

Lemma read_digits_go x s : read_digits 0 (pretty_N_go x s) = read_digits x s.
Proof.
  revert s. induction (N.lt_wf_0 x) as [x _ IH]. intros s. destruct (decide (x = 0)%N) as [->|Hx]; [by rewrite pretty_N_go_0|].
  rewrite pretty_N_go_step by lia. rewrite IH by (apply N.div_lt; lia).
  rewrite read_digits_char by (apply N.mod_lt; lia). f_equal. rewrite (N.div_mod x 10) at 3 by lia. lia.
Qed.

Lemma read_digits_pretty (x : N) : read_digits 0 (pretty x) = Some x.
Proof.
  unfold pretty, pretty_N. destruct (decide (x = 0)%N) as [->|]; [done|]. by rewrite read_digits_go.
Qed.

Lemma read_int_pretty z : read_int (pretty z) = Some z.
Proof.
  assert (∀ n : N, read_int (pretty n) = Some (Z.of_N n)) as Hpos.
  { intros n. pose proof (read_digits_pretty n) as Hn. destruct (pretty n) as [|c s] eqn:Hs; [by injection Hn as <-|].
    unfold read_int. rewrite Hn. by destruct c as [[] [] [] [] [] [] [] []]. }
  destruct z as [|q|q]; [done|apply (Hpos (N.pos q))|]. change (pretty (Z.neg q)) with (String "-" (pretty (N.pos q))).
  change (read_int _) with ((λ n, - Z.of_N n) <$> read_digits 0 (pretty (N.pos q))). by rewrite read_digits_pretty.
Qed.

#[export] Instance demo_py_int : PyInt :=
  {| py_int v := match v with JStr s => read_int s | JInt z => Some z | _ => None end |}.
#[export] Instance demo_int_text : IntText :=
  {| int_text_py := demo_py_int; parse_int64 := read_int;
     parse_int64_pretty z _ := read_int_pretty z; py_int_pretty z := read_int_pretty z |}.

(** ** A world with one event *)

(** Every event has the vector [tt]. *)
#[export] Instance demo_vectors : Vectors unit unit unit :=
  {| representation_id _ := "repr"; provider_dimension _ := 4; event_vector _ _ := Some tt;
     pack_vector v := v; unpack_vector b := b; vector_problem _ _ := false; blob_problem _ _ := false |}.

Definition demo_event : stored_event := StoredEvent "ev1" "" "luna_pinyin" "ni hao" "abc" "text" (0, 0) "".
Definition demo_db0 : facts_db := new_store "e1" 10 [].
(** The event is committed at 20, when the wall clock has moved on. *)
Definition demo_db1 : facts_db := default demo_db0 (persist_batch "c1" [(20, demo_event)] demo_db0).
Definition demo_looks (db : facts_db) : looks := Looks (Store db) (Store db) (Store db) (Store db).

(** The generation of the empty store. *)
Definition demo_gen : gen := Gen "g0" "e1" "repr" 4 (10, 0) [].

Definition demo_disk := gmap string (ckpt_file unit).
Definition demo_m0 : machine (P := unit) (V := unit) (B := unit) :=
  new_machine "g0" "g0" tt None ∅ empty_mirror None None false.
Definition demo_start : result delta_exn (machine (P := unit) (V := unit) (B := unit)) * demo_disk :=
  start_machine (demo_looks demo_db0) false (∅ : demo_disk) "g0" "g0" tt (Some demo_gen) None None false.
Definition demo_m1 : machine := match demo_start.1 with Ok m => m | Err _ => demo_m0 end.
Definition demo_d1 : demo_disk := demo_start.2.

Definition demo_weather : weather :=
  Weather (demo_looks demo_db1) None (Err EDelta) NoFault NoFault false.
Definition demo_turn := run_cycle demo_weather demo_d1 demo_m1.
Definition demo_m2 : machine := demo_turn.1.2.
Definition demo_d2 : demo_disk := demo_turn.2.

Definition sees (n : nat) (m : machine (P := unit) (V := unit) (B := unit)) : Prop :=
  ∃ sn, m_snapshot m = Some sn ∧ length (sn_events sn) = n ∧ sn_epoch sn = "e1".

Example demo_first_sees_nothing : sees 0 demo_m1.
Proof. eexists. by vm_compute. Qed.
Example demo_then_sees_the_event : sees 1 demo_m2.
Proof. eexists. split; [|split]; vm_compute; reflexivity. Qed.

(** ** The run *)

Lemma demo_clock0 : clock_is demo_db0 (10, 0).
Proof. split_and!; done. Qed.
Lemma demo_clock1 : clock_is demo_db1 (20, 0).
Proof. split_and!; done. Qed.

Lemma demo_facts_step : facts_step demo_db0 demo_db1.
Proof. apply (step_persist "c1" [(20, demo_event)]); [by vm_compute|]. eexists. apply demo_clock1. Qed.

Lemma demo_facts_init : facts_init demo_db0.
Proof. by exists "e1", 10, []. Qed.

Lemma demo_wf0 : wf_facts demo_db0.
Proof. apply facts_init_wf, demo_facts_init. Qed.
Lemma demo_wf1 : wf_facts demo_db1.
Proof. eapply facts_step_wf; [apply demo_facts_step|apply demo_wf0]. Qed.

Lemma demo_genuine0 : genuine demo_db0 demo_gen.
Proof. intros _. split; [by exists (10, 0); split; [apply demo_clock0|]|]. by vm_compute. Qed.
Lemma demo_genuine1 : genuine demo_db1 demo_gen.
Proof. intros _. split; [by exists (20, 0); split; [apply demo_clock1|]|]. by vm_compute. Qed.

Lemma demo_looks_ok db : looks_ok db db (demo_looks db).
Proof. split; [intros ? [= <-]; split; apply rtc_refl..|]. intros ? ? [= <-] [= <-]. apply rtc_refl. Qed.

Lemma demo_init : sys_init (Sys demo_db0 demo_m0 (∅ : demo_disk)).
Proof. split_and!; [apply demo_facts_init|done|by exists "g0", tt]. Qed.

Definition demo_sys1 : sys := Sys demo_db0 demo_m1 demo_d1.
Definition demo_sys2 : sys := Sys demo_db1 demo_m1 demo_d1.
Definition demo_sys3 : sys := Sys demo_db1 demo_m2 demo_d2.

Lemma demo_reach1 : reachable sys_init sys_step demo_sys1.
Proof.
  eapply reachable_step; [apply reachable_init, demo_init|].
  apply (sys_restart demo_db0 demo_db0 demo_m0 ∅ (demo_looks demo_db0) "g0" "g0" tt (Some demo_gen) None None false);
    [apply rtc_refl|apply demo_looks_ok| |vm_compute; reflexivity].
  intros g [= <-]. apply demo_genuine0.
Qed.

Lemma demo_reach2 : reachable sys_init sys_step demo_sys2.
Proof. eapply reachable_step; [apply demo_reach1|]. apply sys_facts, demo_facts_step. Qed.

Lemma demo_reach3 : reachable sys_init sys_step demo_sys3.
Proof.
  eapply reachable_step; [apply demo_reach2|].
  apply (sys_cycle demo_db1 demo_db1 demo_m1 demo_d1 demo_weather None); [apply rtc_refl| |vm_compute; reflexivity].
  by split; [apply demo_looks_ok| | |].
Qed.

(** ** The theorems on it *)

Definition demo_snapshot : snapshot unit unit :=
  default (Snapshot "" "" "" 0 None [] ∅ ∅ 0 tt) (m_snapshot demo_m2).

Lemma demo_m2_snapshot : m_snapshot demo_m2 = Some demo_snapshot.
Proof. vm_compute. reflexivity. Qed.

Lemma served_snapshot_witness :
  ∃ w c, sn_consumed demo_snapshot = Some w ∧ clock_is demo_db1 c ∧ hlc_leb w c = true ∧
         sn_events demo_snapshot = strip <$> read_active_events demo_db1 w.
Proof.
  apply (served_snapshot_is_projection demo_sys3 demo_snapshot);
    [exact demo_reach3|exact demo_m2_snapshot|vm_compute; reflexivity].
Defined.

Lemma gate_serves_witness :
  ∃ db' w c, rtc facts_step demo_db1 db' ∧ clock_is demo_db1 c ∧ hlc_leb c w = true ∧
    sn_events demo_snapshot = strip <$> read_active_events db' w ∧
    ∀ e, e ∈ f_events demo_db1 → strip e ∈ sn_events demo_snapshot ∨ ∃ r, r ∈ f_retractions db' ∧ r.1 = ev_commit e.
Proof.
  eapply (gate_serves_current_facts None demo_db1 5 [(demo_m1, 0); (demo_m2, 1)] demo_snapshot).
  - exact demo_wf1.
  - repeat constructor; [exists demo_sys2|exists demo_sys3]; (split; [|split; [reflexivity|apply rtc_refl]]);
      [exact demo_reach2|exact demo_reach3].
  - vm_compute. reflexivity.
Defined.

Lemma gate_deadline_witness :
  ∃ a, gate_wait "e1" (20, 0) 5 [(demo_m1, 4); (demo_m1, 5)] = Some a ∧
    (a = NotCaughtUp → Exists (λ w, 5 <= w.2 ∨ m_stopped w.1 = true ∨ m_closed w.1 = true) [(demo_m1, 4); (demo_m1, 5)]).
Proof. apply gate_answers_by_deadline. right. left. simpl. lia. Defined.

(** The machine publishes its own generation with the checkpoint it wrote. *)
Definition demo_pending : pending_publish := PendingPublish "g0" tt "e1".
Definition demo_queued : machine := queue_publish demo_pending demo_m2.
Definition demo_switch := perform_publish_switch (demo_looks demo_db1) (Some demo_gen) demo_d2 demo_pending demo_queued.

Example demo_switch_succeeds : m_publish_result demo_switch.2 = Some None.
Proof. vm_compute. reflexivity. Qed.


(** The switch is refused, and nothing changes, when the publisher names another
    epoch. *)
Example demo_switch_refused :
  m_publish_result (perform_publish_switch (demo_looks demo_db1) (Some demo_gen) demo_d2
    (PendingPublish "g0" tt "e2") demo_queued).2 = Some (Some EpochChanged).
Proof. vm_compute. reflexivity. Qed.

(** One batch over an absent file. *)
Definition demo_item : stored_event := set_ev_hlc (20, 0) "c1" demo_event.
Definition demo_batch := write_batch NoFault CkAbsent demo_m1 demo_gen [(demo_item, tt)] [] "e1" (20, 0).
Definition demo_batch_machine : machine := match demo_batch.1 with Ok m => m | Err _ => demo_m0 end.


Lemma healthy_cycle_witness :
  ∃ m' d' sn, cycle demo_weather demo_d1 demo_m1 = (Ok None, m', d') ∧ m_snapshot m' = Some sn ∧
    gate_look "e1" (20, 0) m' false = Some (Serve sn).
Proof.
  pose proof (healthy_cycle_serves demo_sys2 (default demo_snapshot (m_snapshot demo_m1)) demo_gen (20, 0) demo_weather) as Hserve.
  apply Hserve; clear Hserve; [exact demo_reach2|vm_compute; reflexivity|vm_compute; reflexivity|vm_compute; reflexivity|vm_compute; reflexivity|vm_compute; reflexivity|vm_compute; reflexivity|vm_compute; reflexivity|vm_compute; reflexivity| | |vm_compute; discriminate|exact demo_clock1| |vm_compute; reflexivity|vm_compute; reflexivity].
  - intros r Hr. apply elem_of_nil in Hr as [].
  - intros e He. vm_compute in He. apply list_elem_of_singleton in He as ->. split; [vm_compute; reflexivity|].
    exists tt. split; reflexivity.
  - left. vm_compute. discriminate.
Defined.

(** A rebuild that was asked for and fails: the declared generation does not
    open and none can be built. *)
Definition demo_asked : machine := rebuild "e1" demo_m1.
Definition demo_rebuild := cycle demo_weather demo_d1 demo_asked.

Lemma requested_rebuild_witness :
  m_pending_rebuild demo_rebuild.1.2 = None ∧ demo_rebuild.1.1 ≠ Ok None ∧
  (demo_rebuild.1.1 = Ok (Some "e1") ↔ is_Some (m_snapshot demo_rebuild.1.2)) ∧
  (∀ we2 d2 t2 m2 d3, cycle we2 d2 demo_rebuild.1.2 ≠ (Ok (Some t2), m2, d3)).
Proof.
  apply (requested_rebuild_is_attempted_once demo_weather demo_d1 demo_asked "e1" demo_rebuild.1.1 demo_rebuild.1.2 demo_rebuild.2);
    vm_compute; reflexivity.
Defined.

Example demo_rebuild_is_lost : demo_rebuild.1.1 = Err EDelta ∧ m_snapshot demo_rebuild.1.2 = None.
Proof. vm_compute. done. Qed.
