(* ===== verification/OracleDemo.v ===== *)
(** * A small memory for the oracle: witnesses, and what the evidence does not
    promise

    Three events of one key with vectors in the plane, a dictionary with two
    phrases, and a query with two candidates. *)

From Stdlib Require Import SpecFloat String.
From stdpp Require Import base list strings gmap sorting.
From S2P Require Import Prelude Float64 PyJson Facts TextMatch Oracle OracleTheorems Delta DeltaDemo.
Open Scope Z_scope.

(** ** The C library and Unicode, on what the examples use *)

#[export] Instance demo_unicode : Unicode := {| nfc s := s |}.

Definition half : float := S754_finite false 4503599627370496 (-53).
Definition quarter : float := S754_finite false 4503599627370496 (-54).
(** [2.0 ** x], exact at 0, -1 and -2. *)
#[export] Instance demo_libm : Libm :=
  {| exp2 x := if feqb x fzero then fone else if feqb x (float_of_Z (-1)) then half
               else if feqb x (float_of_Z (-2)) then quarter else fzero |}.

(** ** The dictionary *)

Definition dict_line (k v : string) : string := k +:+ String tab v.
Definition demo_phrases : list string := [dict_line "ab" "P"; dict_line "abc" "Q R"; ""].
Definition demo_characters : list string := [dict_line "a" "A"].
Definition demo_dict : t2s := match load_t2s demo_phrases demo_characters with Ok d => d | Err _ => T2s ∅ ∅ end.

Example demo_simplify : simplify demo_dict "abcabda" = "QPdA".
Proof. by vm_compute. Qed.

Lemma simplify_witness : load_t2s demo_phrases demo_characters = Ok demo_dict ∧
  converts (phrase_entries demo_phrases) (char_map demo_dict) (chars "abcabda") (simplify demo_dict "abcabda").
Proof.
  split; [by vm_compute|]. apply (simplify_takes_longest demo_phrases demo_characters). by vm_compute.
Defined.

(** ** The memory *)

Definition remembered (id text : string) (h : Z) : stored_event := StoredEvent id "c" "luna" "nihao" "word" text (h, 0) "".
Definition demo_memory : list stored_event := [remembered "e1" "you" 1; remembered "e2" "me" 2; remembered "e3" "you" 3].
Definition demo_vector (id : string) : option (list float) :=
  if String.eqb id "e1" then Some [fone; fzero]
  else if String.eqb id "e2" then Some [fone; fone]
  else if String.eqb id "e3" then Some [fzero; fone] else None.

Definition demo_params : oracle_params := OracleParams fzero 2 fone fone.
Definition demo_query : oracle_query :=
  OracleQuery "luna" "nihao" ["you"; "me"] [fone; fzero] "word" (Some (5, 0)) ∅ None.
Definition demo_evidence := compute_evidence demo_dict demo_vector None (projection_reader demo_memory) demo_params demo_query.
Definition demo_result : oracle_result :=
  match demo_evidence with Ok r => r | Err _ => OracleResult (0, 0) 0 [] [] fzero ("", "", "") end.

Example demo_kept : (λ c, (ev_id (ct_event c), ct_age c, ct_matched c)) <$> or_kept demo_result =
  [("e2", 1, Some 1%nat); ("e1", 2, Some 0%nat)].
Proof. by vm_compute. Qed.

Lemma demo_exp2_unit x : fleb x fzero = true → in_unit (exp2 x).
Proof.
  assert (∀ e, -54 <= e <= -53 → unsigned (S754_finite false 4503599627370496 e)) as Hu.
  { intros e He. split; [done|]. split; [lia|]. split; [lia|right; lia]. }
  intros _. cbn [exp2 demo_libm]. destruct (feqb x fzero); [split; [apply one_unsigned|by vm_compute]|].
  destruct (feqb x (float_of_Z (-1))); [split; [by apply Hu|by vm_compute]|].
  destruct (feqb x (float_of_Z (-2))); [split; [by apply Hu|by vm_compute]|done].
Qed.

Lemma demo_vector_valid id v : demo_vector id = Some v → Forall valid v.
Proof.
  unfold demo_vector. destruct (String.eqb id "e1"), (String.eqb id "e2"), (String.eqb id "e3");
    intros [= <-]; repeat constructor.
Qed.

Lemma demo_sound : sound_inputs demo_vector None demo_params demo_query.
Proof.
  split; [by vm_compute|done|done|done|apply demo_exp2_unit| |].
  - split; [repeat constructor|done].
  - split; [apply demo_vector_valid|done].
Qed.

Lemma evidence_is_bounded_witness :
  Forall (λ ms, fleb ms.1 (or_total_mass demo_result) = true ∧ in_unit ms.2) (or_candidates demo_result).
Proof.
  destruct (evidence_is_bounded demo_dict demo_vector None (projection_reader demo_memory) demo_params demo_query
    demo_result demo_sound ltac:(done) ltac:(done) ltac:(vm_compute; reflexivity)) as (_&_&Hall).
  eapply Forall_impl; [exact Hall|]. intros ms (_&_&?&?&_). done.
Defined.

Definition demo_contributions : list contribution :=
  match plain_contributions demo_vector None demo_params [fone; fzero] demo_memory with Ok cs => cs | Err _ => [] end.
Lemma kept_are_the_heaviest_witness :
  heaviest 2 demo_contributions (keep demo_params demo_contributions) ∧
  length (keep demo_params demo_contributions) = 2%nat.
Proof.
  split; [|by vm_compute]. apply (kept_are_the_heaviest demo_params demo_contributions).
  apply (bool_decide_unpack _). vm_compute. reflexivity.
Defined.

Lemma evidence_formula_witness :
  (∃ cs, ct_event <$> cs ≡ₚ demo_memory ∧
    Forall (follows_formula demo_dict demo_vector None demo_params demo_query demo_memory) cs ∧
    heaviest 2 cs (or_kept demo_result)) ∧
  ev_id ∘ ct_event <$> or_kept demo_result = ["e2"; "e1"] ∧ ct_cosine <$> tail (or_kept demo_result) = [fone] ∧
  length (or_candidates demo_result) = 2%nat.
Proof.
  destruct (evidence_follows_the_formula demo_dict demo_vector None (projection_reader demo_memory) demo_params demo_query
    demo_result demo_memory demo_sound) as ((cs&Hevents&Hformula&Hheavy)&Hlen&_).
  - by vm_compute.
  - apply (bool_decide_unpack _). vm_compute. reflexivity.
  - vm_compute. reflexivity.
  - split; [|split; [by vm_compute|split; [by vm_compute|exact Hlen]]].
    exists cs. split; [|by split]. rewrite Hevents. vm_compute. reflexivity.
Defined.

(** An engine that looks the scalar cosines up. *)
Definition demo_answer (q : list float) (id : string) : option float :=
  match scalar_cosine demo_vector q (remembered id "" 0) with Ok c => Some c | Err _ => None end.
Definition demo_engine : engine := λ q ids, Some (list_to_map ((λ id, (id, demo_answer q id)) <$> ids)).

Lemma scalar_cosine_id vector_for q e e' : ev_id e = ev_id e' → scalar_cosine vector_for q e = scalar_cosine vector_for q e'.
Proof. unfold scalar_cosine. by intros ->. Qed.

Lemma demo_answer_scalar q e c : scalar_cosine demo_vector q e = Ok c → demo_answer q (ev_id e) = Some c.
Proof.
  intros Hc. unfold demo_answer. by rewrite (scalar_cosine_id demo_vector q (remembered (ev_id e) "" 0) e eq_refl), Hc.
Qed.

Lemma demo_scalar_finite e c : scalar_cosine demo_vector [fone; fzero] e = Ok c → is_finite c = true.
Proof.
  unfold scalar_cosine, demo_vector. destruct (String.eqb (ev_id e) "e1"); [by vm_compute; intros [= <-]|].
  destruct (String.eqb (ev_id e) "e2"); [by vm_compute; intros [= <-]|].
  destruct (String.eqb (ev_id e) "e3"); [by vm_compute; intros [= <-]|done].
Qed.

Lemma demo_engine_faithful : faithful_engine demo_vector demo_query demo_engine.
Proof.
  split.
  - intros v e c ->%list_elem_of_singleton. apply demo_scalar_finite.
  - intros v es _. eexists. split; [reflexivity|]. intros e c He Hc. apply demo_answer_scalar in Hc.
    generalize dependent (demo_answer v). intros answer Hc. apply elem_of_list_to_map_1'.
    + intros y (id&Heq&_)%list_elem_of_fmap. injection Heq as <- ->. done.
    + apply list_elem_of_fmap. exists (ev_id e). rewrite Hc. split; [done|]. by apply list_elem_of_fmap_2.
Qed.

Lemma engine_evidence_witness :
  compute_evidence demo_dict demo_vector (Some demo_engine) (projection_reader demo_memory) demo_params demo_query = Ok demo_result.
Proof.
  apply (engine_gives_the_same_evidence demo_dict demo_vector); [apply demo_engine_faithful|]. vm_compute. reflexivity.
Defined.

(** The event that [demo_db1] gained at 20 is not seen at the point 10. *)
Definition replay_query : oracle_query :=
  OracleQuery "luna_pinyin" "ni hao" ["text"] [fone] "abc" (Some (10, 0)) ∅ None.
Lemma replay_witness :
  or_same_key <$> match compute_evidence demo_dict (λ _, Some [fone]) None (store_reader demo_db1) demo_params replay_query
                  with Ok r => Some r | Err _ => None end = Some 0%nat.
Proof.
  rewrite (replay_sees_no_later_facts demo_dict (λ _, Some [fone]) None demo_params replay_query demo_db0 demo_db1 (10, 0) (10, 0)).
  - vm_compute. reflexivity.
  - apply demo_wf0.
  - apply demo_clock0.
  - apply rtc_once, demo_facts_step.
  - done.
  - done.
Defined.

(** ** What does not hold *)

(** The comment of [CandidateEvidence] puts the score below 1; with a small
    [saturation_k] it is 1. *)
Definition tiny : float := S754_finite false 1 (-1074).
Example score_reaches_one : score (OracleParams fzero 1 fone tiny) fone fone = fone ∧
  params_ok (OracleParams fzero 1 fone tiny) = true.
Proof. by vm_compute. Qed.

(** Finite vectors whose squares overflow give a cosine that is not a number; the
    event is dropped without a fault, where an engine that reports the same value
    is refused. *)
Definition large : float := S754_finite false 4503599627370496 800.
Definition large_query : oracle_query :=
  OracleQuery "luna" "nihao" ["you"] [large] "word" (Some (5, 0)) ∅ None.
Example overflow_is_zero_evidence :
  cosine [large] [large] = Ok S754_nan ∧
  (or_candidates <$> match compute_evidence demo_dict (λ _, Some [large]) None (projection_reader demo_memory) demo_params large_query
                     with Ok r => Some r | Err _ => None end) = Some [(fzero, fzero)] ∧
  compute_evidence demo_dict (λ _, Some [large]) (Some (λ _ ids, Some (list_to_map ((λ id, (id, Some S754_nan)) <$> ids))))
    (projection_reader demo_memory) demo_params large_query = Err (EngineCosine "e1").
Proof. split_and!; vm_compute; reflexivity. Qed.

(** Vectors so small that the product of their norms underflows raise
    [ZeroDivisionError] instead of the oracle's error. *)
Definition small : float := S754_finite false 4503599627370496 (-400).
Example underflow_divides_by_zero : cosine [small] [small] = Err DivisionByZero.
Proof. by vm_compute. Qed.
