(* ===== verification/Derived.v ===== *)
(** * The derived root: generations, manifests and their validation

    The derived state of the daemon lives under one directory: published
    generations, staging containers, parked progress records, delta
    checkpoints, isolated generations and the two pointer files
    [active_manifest.json] and [rollback_manifest.json].  This file holds that
    world, the manifest validators of [src/daemon/publish.py] and
    [src/daemon/retention.py] with the part of [os.path] they use, the identity
    checks of [open_generation] in [src/daemon/generation.py] (checksums, rows,
    vectors and probes are a parameter), and the composers and readers of the
    manifests. *)

From Stdlib Require Import Ascii String.
From stdpp Require Import base list strings gmap.
From S2P Require Import Prelude PyJson OpStore Compat.
Open Scope Z_scope.

(** ** [os.path] on POSIX *)

Definition slash : ascii := "/"%char.

(** [s.split(c)] *)
Fixpoint split_on (c : ascii) (s : string) : list string :=
  match s with
  | EmptyString => [""]
  | String d s =>
      if Ascii.eqb c d then "" :: split_on c s
      else match split_on c s with
           | [] => [String d ""]
           | w :: ws => String d w :: ws
           end
  end.

(** [sep.join(l)] *)
Fixpoint join_with (sep : string) (l : list string) : string :=
  match l with
  | [] => ""
  | [w] => w
  | w :: l => w +:+ sep +:+ join_with sep l
  end.

Definition path_join (l : list string) : string := join_with "/" l.

(** The loop of [normpath] on the reversed list of components kept so far;
    [rooted]: the path starts with a slash. *)
Definition norm_step (rooted : bool) (kept : list string) (comp : string) : list string :=
  if String.eqb comp "" || String.eqb comp "." then kept
  else if negb (String.eqb comp "..") || (negb rooted && bool_decide (kept = [])) ||
          match kept with k :: _ => String.eqb k ".." | [] => false end
  then comp :: kept
  else match kept with _ :: kept => kept | [] => [] end.

Definition leading_slashes (s : string) : string :=
  if String.prefix "///" s then "/" else if String.prefix "//" s then "//"
  else if String.prefix "/" s then "/" else "".

Definition normpath (s : string) : string :=
  if String.eqb s "" then "."
  else
    let lead := leading_slashes s in
    let comps := rev (fold_left (norm_step (negb (String.eqb lead ""))) (split_on slash s) []) in
    let path := lead +:+ path_join comps in
    if String.eqb path "" then "." else path.

Definition isabs (s : string) : bool := String.prefix "/" s.
Definition basename (s : string) : string := List.last (split_on slash s) "".

(** ** JSON checks *)

(** [isinstance(v, str) and v] is [is_nonempty_str]; [isinstance(v, int)]
    admits the booleans. *)
Definition isinstance_int (v : json) : bool := match v with JInt _ | JBool _ => true | _ => false end.
Definition nonneg_int (v : json) : bool :=
  match v with JInt z => 0 <=? z | JBool _ => true | _ => false end.

(** [isinstance(v, list) and len(v) == 2 and all(isinstance(x, int) and x >= 0)] *)
Definition hlc_pair (v : json) : bool :=
  match v with JList [a; b] => nonneg_int a && nonneg_int b | _ => false end.

Definition field (k : string) (m : list (string * json)) : json := obj_get_or_null k m.
Definition has_key (k : string) (m : list (string * json)) : bool := bool_decide (k ∈ obj_keys m).
Definition str_is (s : string) (v : json) : bool := match v with JStr t => String.eqb s t | _ => false end.

(** ** The two manifests *)

Definition ACTIVE_MANIFEST_VERSION : string := "active-manifest-v1".
Definition ROLLBACK_MANIFEST_VERSION : string := "rollback-manifest-v1".
Definition DELTA_FILENAME : string := "delta.sqlite3".

Definition pointer_keys : list string :=
  ["manifest_version"; "generation_id"; "store_epoch"; "source_hlc"; "fact_schema_version";
   "representation_id"; "vector_format_version"; "projection_version"; "index_fingerprint";
   "delta_checkpoint"; "builder_version"].
Definition _MANIFEST_KEYS : list string := pointer_keys ++ ["published_at_ms"].
Definition _ROLLBACK_KEYS : list string := pointer_keys ++ ["registered_at_ms"].
Definition pointer_strings : list string :=
  ["fact_schema_version"; "representation_id"; "vector_format_version"; "projection_version";
   "index_fingerprint"; "delta_checkpoint"; "builder_version"].

(** Why a pointer is refused; the texts the code returns differ only in the
    name of the manifest. *)
Inductive pointer_problem :=
| NotAnObject | VersionUnsupported | KeyMissing (k : string) | FieldMissing (k : string)
| SourceHlcMalformed | CheckpointEscapes | TimeNotInteger.

(** The checks both validators share, up to the strings. *)
Definition pointer_checks (version : string) (keys : list string) (m : list (string * json))
    : option pointer_problem :=
  if negb (str_is version (field "manifest_version" m)) then Some VersionUnsupported
  else
    match List.find (λ k, negb (has_key k m)) keys with
    | Some k => Some (KeyMissing k)
    | None =>
        if negb (is_nonempty_str (field "generation_id" m)) then Some (FieldMissing "generation_id")
        else if negb (is_nonempty_str (field "store_epoch" m)) then Some (FieldMissing "store_epoch")
        else if negb (hlc_pair (field "source_hlc" m)) then Some SourceHlcMalformed
        else FieldMissing <$> List.find (λ k, negb (is_nonempty_str (field k m))) pointer_strings
    end.

(** The checkpoint of an active manifest stays below the derived root. *)
Definition checkpoint_escapes (v : json) : bool :=
  match v with
  | JStr s =>
      let c := normpath s in
      isabs c || String.prefix ".." c || negb (String.eqb (basename c) DELTA_FILENAME)
  | _ => true
  end.

Definition validate_manifest_value (v : json) : option pointer_problem :=
  match v with
  | JObj m =>
      match pointer_checks ACTIVE_MANIFEST_VERSION _MANIFEST_KEYS m with
      | Some p => Some p
      | None =>
          if checkpoint_escapes (field "delta_checkpoint" m) then Some CheckpointEscapes
          else if negb (isinstance_int (field "published_at_ms" m)) then Some TimeNotInteger else None
      end
  | _ => Some NotAnObject
  end.

Definition validate_rollback_manifest (v : json) : option pointer_problem :=
  match v with
  | JObj m =>
      match pointer_checks ROLLBACK_MANIFEST_VERSION _ROLLBACK_KEYS m with
      | Some p => Some p
      | None => if negb (isinstance_int (field "registered_at_ms" m)) then Some TimeNotInteger else None
      end
  | _ => Some NotAnObject
  end.

(** Reading a pointer file: the manifest, or [None] with a reason unless the
    file is absent. *)
Inductive pointer_reading := NoPointer | BadPointer (why : option pointer_problem) | Pointer (m : list (string * json)).

Definition read_pointer (validate : json → option pointer_problem) (o : option payload) : pointer_reading :=
  match o with
  | None => NoPointer
  | Some Unreadable => BadPointer None
  | Some (Parsed v) =>
      match validate v, v with
      | None, JObj m => Pointer m
      | None, _ => BadPointer None
      | Some p, _ => BadPointer (Some p)
      end
  end.

Definition read_active_manifest := read_pointer validate_manifest_value.
Definition read_rollback_manifest := read_pointer validate_rollback_manifest.

(** [manifest.get("generation_id") if manifest is not None else None] *)
Definition pointer_id (r : pointer_reading) : option string :=
  match r with
  | Pointer m => match field "generation_id" m with JStr s => Some s | _ => None end
  | _ => None
  end.

(** ** Generations *)

Definition MANIFEST_VERSION : string := "shadow-generation-manifest-v1".
Definition SUPPORTED_BACKENDS : list string :=
  ["exact"; "accelerate-cblas-sgemv"; "mlx-exact-matmul"; "usearch-hnsw"; "hnswlib-hnsw"].

Definition verify_identity (v : json) : bool :=
  match v with
  | JObj i =>
      forallb (λ k, is_nonempty_str (field k i))
        ["store_epoch"; "representation_id"; "builder_version"; "projection_version"; "index_fingerprint"] &&
      match field "retrieval_backend" i with
      | JStr b => bool_decide (b ∈ SUPPORTED_BACKENDS)
      | _ => false
      end &&
      str_is FP32_ROW_MAJOR_LE (field "vector_format" i) &&
      match field "vector_dimension" i with JInt z => 1 <=? z | JBool b => b | _ => false end &&
      hlc_pair (field "source_hlc" i) &&
      is_dict (field "retrieval_params" i)
  | _ => false
  end.

(** The files of a container besides the progress record: what [manifest.json]
    parses to; whether there are exactly the three immutable files and the checks
    behind the identity pass (sizes and checksums, chunk records, row bijection,
    finite unit vectors, probes); and temporary files of [_write_atomic], with the
    name [mkstemp] picks.  [Build] implements the interface. *)
Class GenerationFiles (G : Type) := {
  gf_manifest : G → payload;
  gf_intact : G → bool;
  gf_temp_name : G → string;
  gf_put_temp : string → G → G;
  gf_unlink_temp : string → G → G;
  gf_unlink_put g : gf_unlink_temp (gf_temp_name g) (gf_put_temp (gf_temp_name g) g) = g }.

(** An opened generation: its id and its identity. *)
Record generation := Generation { generation_id : string; gen_identity : list (string * json) }.

Section derived.
Context {G : Type} `{GenerationFiles G}.

(** A container directory, with the progress record while it is staged. *)
Record container := Container { c_files : G; c_progress : option payload }.

(** [open_generation] on the container [c] in a directory called [id]; [None]
    is [GenerationRejected]. *)
Definition open_generation (id : string) (c : container) : option generation :=
  match c_progress c, gf_manifest (c_files c) with
  | None, Parsed (JObj m) =>
      if negb (str_is MANIFEST_VERSION (field "manifest_version" m)) then None
      else if negb (is_nonempty_str (field "generation_id" m)) then None
      else if negb (str_is id (field "generation_id" m)) then None
      else
        match field "identity" m with
        | JObj i => if verify_identity (JObj i) && gf_intact (c_files c) then Some (Generation id i) else None
        | _ => None
        end
  | _, _ => None
  end.

(** The derived root.  [d_parked] are the progress records that
    [.verify-<id>.tmp] files hold. *)
Record droot := DRoot {
  d_gens : gmap string container;
  d_staging : gmap string container;
  d_parked : gmap string payload;
  d_delta : gset string;
  d_active : option payload;
  d_rollback : option payload;
  d_isolated : list (string * container) }.

Definition set_gens m (k : droot) := DRoot m (d_staging k) (d_parked k) (d_delta k) (d_active k) (d_rollback k) (d_isolated k).
Definition set_staging m (k : droot) := DRoot (d_gens k) m (d_parked k) (d_delta k) (d_active k) (d_rollback k) (d_isolated k).
Definition set_parked m (k : droot) := DRoot (d_gens k) (d_staging k) m (d_delta k) (d_active k) (d_rollback k) (d_isolated k).
Definition set_delta x (k : droot) := DRoot (d_gens k) (d_staging k) (d_parked k) x (d_active k) (d_rollback k) (d_isolated k).
Definition set_active o (k : droot) := DRoot (d_gens k) (d_staging k) (d_parked k) (d_delta k) o (d_rollback k) (d_isolated k).
Definition set_rollback o (k : droot) := DRoot (d_gens k) (d_staging k) (d_parked k) (d_delta k) (d_active k) o (d_isolated k).
Definition set_isolated l (k : droot) := DRoot (d_gens k) (d_staging k) (d_parked k) (d_delta k) (d_active k) (d_rollback k) l.
End derived.
Arguments container : clear implicits.
Arguments droot : clear implicits.

(** The fields both pointers copy from a generation. *)
Definition pointer_fields (version : string) (g : generation) (fact_schema_version : json)
    : list (string * json) :=
  let i k := field k (gen_identity g) in
  [("manifest_version", JStr version); ("generation_id", JStr (generation_id g));
   ("store_epoch", i "store_epoch"); ("source_hlc", i "source_hlc");
   ("fact_schema_version", fact_schema_version); ("representation_id", i "representation_id");
   ("vector_format_version", i "vector_format"); ("projection_version", i "projection_version");
   ("index_fingerprint", i "index_fingerprint")].

Definition compose_active_manifest (g : generation) (checkpoint fact_schema_version : json) (now_ms : Z)
    : list (string * json) :=
  pointer_fields ACTIVE_MANIFEST_VERSION g fact_schema_version ++
  [("retrieval_params", field "retrieval_params" (gen_identity g)); ("delta_checkpoint", checkpoint);
   ("builder_version", field "builder_version" (gen_identity g)); ("published_at_ms", JInt now_ms)].

Definition compose_rollback_manifest (g : generation) (checkpoint fact_schema_version : json) (now_ms : Z)
    : list (string * json) :=
  pointer_fields ROLLBACK_MANIFEST_VERSION g fact_schema_version ++
  [("delta_checkpoint", checkpoint); ("builder_version", field "builder_version" (gen_identity g));
   ("registered_at_ms", JInt now_ms)].

(** [os.path.join("delta", id, DELTA_FILENAME)] *)
Definition checkpoint_path (id : string) : string := "delta/" +:+ id +:+ "/" +:+ DELTA_FILENAME.

(** [active_identity_from_manifest] *)
Definition active_identity_from_manifest (m : list (string * json)) : ident :=
  [(LAYER_STORE_EPOCH, field "store_epoch" m); (LAYER_FACT_SCHEMA, field "fact_schema_version" m);
   (LAYER_REPRESENTATION, field "representation_id" m); (LAYER_VECTOR_FORMAT, field "vector_format_version" m);
   (LAYER_PROJECTION, field "projection_version" m); (LAYER_INDEX, field "index_fingerprint" m)].

(** [resolve_active_identity]: nothing published, a refusal, or the identity. *)
Inductive active_resolution := NothingPublished | RefusedPointer (why : option pointer_problem)
| RefusedIdentity (why : refuse_reason) | ActiveIdentity (i : ident).

Definition resolve_active_identity (o : option payload) (facts_schema_version : option json)
    : result compat_exn active_resolution :=
  match read_active_manifest o with
  | NoPointer => Ok NothingPublished
  | BadPointer why => Ok (RefusedPointer why)
  | Pointer m =>
      let i := active_identity_from_manifest m in
      why ← refuse_load_reason (Some i) facts_schema_version [];
      Ok (match why with Some w => RefusedIdentity w | None => ActiveIdentity i end)
  end.

(** ** Lemmas *)

(** A name that is one ordinary component of a path. *)
Definition plain_name (s : string) : Prop :=
  slash ∉ list_ascii_of_string s ∧ s ≠ "" ∧ s ≠ "." ∧ s ≠ "..".

Lemma split_on_plain c a : c ∉ list_ascii_of_string a → split_on c a = [a].
Proof.
  induction a as [|d a IH]; [done|]. simpl. rewrite not_elem_of_cons. intros [Hne Ha].
  rewrite (proj2 (Ascii.eqb_neq c d)) by done. by rewrite IH.
Qed.

Lemma split_on_app c a s : c ∉ list_ascii_of_string a → split_on c (a +:+ String c s) = a :: split_on c s.
Proof.
  induction a as [|d a IH]; simpl; [by rewrite Ascii.eqb_refl|]. rewrite not_elem_of_cons. intros [Hne Ha].
  rewrite (proj2 (Ascii.eqb_neq c d)) by done. by rewrite IH.
Qed.

Lemma norm_step_plain rooted kept s : s ≠ "" → s ≠ "." → s ≠ ".." → norm_step rooted kept s = s :: kept.
Proof.
  intros H1 H2 H3. unfold norm_step.
  by rewrite (proj2 (String.eqb_neq _ _) H1), (proj2 (String.eqb_neq _ _) H2), (proj2 (String.eqb_neq _ _) H3).
Qed.

(** The checkpoint of a plainly named generation stays below the root. *)
Lemma checkpoint_path_inside id : plain_name id → checkpoint_escapes (JStr (checkpoint_path id)) = false.
Proof.
  intros (Hs&H1&H2&H3). assert (split_on slash (checkpoint_path id) = ["delta"; id; DELTA_FILENAME]) as Hsp.
  { unfold checkpoint_path. change ("delta/" +:+ ?x) with ("delta" +:+ String slash x).
    rewrite split_on_app by (apply (bool_decide_eq_true_1 _); reflexivity).
    change (id +:+ "/" +:+ DELTA_FILENAME) with (id +:+ String slash DELTA_FILENAME).
    by rewrite split_on_app. }
  assert (normpath (checkpoint_path id) = checkpoint_path id) as Hn.
  { unfold normpath. rewrite Hsp. change (leading_slashes (checkpoint_path id)) with "". cbn [fold_left].
    rewrite (norm_step_plain _ _ "delta"), (norm_step_plain _ _ id), (norm_step_plain _ _ DELTA_FILENAME) by done.
    reflexivity. }
  unfold checkpoint_escapes. rewrite Hn. unfold basename. by rewrite Hsp.
Qed.

Lemma str_is_true s v : str_is s v = true ↔ v = JStr s.
Proof.
  destruct v; simpl; try done. rewrite String.eqb_eq. naive_solver.
Qed.

Lemma open_generation_inv {G} `{GenerationFiles G} id (c : container G) g :
  open_generation id c = Some g →
  generation_id g = id ∧ id ≠ "" ∧ c_progress c = None ∧ verify_identity (JObj (gen_identity g)) = true.
Proof.
  unfold open_generation. destruct (c_progress c); [done|].
  destruct (gf_manifest (c_files c)) as [|[| | | | | |m]]; try done.
  destruct (str_is MANIFEST_VERSION _); [|done]. cbn [negb].
  destruct (is_nonempty_str (field "generation_id" m)) eqn:Hne; [|done]. cbn [negb].
  destruct (str_is id (field "generation_id" m)) eqn:Hid; [|done]. cbn [negb].
  apply str_is_true in Hid. rewrite Hid in Hne.
  destruct (field "identity" m) as [| | | | | |i]; try done.
  destruct (verify_identity (JObj i)) eqn:Hv; [|done].
  destruct (gf_intact (c_files c)); [|done]. intros [= <-]. simpl.
  split_and!; [done| |done|done]. intros ->. by simpl in Hne.
Qed.

Lemma verify_identity_fields i :
  verify_identity (JObj i) = true →
  is_nonempty_str (field "store_epoch" i) = true ∧ is_nonempty_str (field "representation_id" i) = true ∧
  is_nonempty_str (field "builder_version" i) = true ∧ is_nonempty_str (field "projection_version" i) = true ∧
  is_nonempty_str (field "index_fingerprint" i) = true ∧ is_nonempty_str (field "vector_format" i) = true ∧
  hlc_pair (field "source_hlc" i) = true.
Proof.
  unfold verify_identity. intros Hv. bool_to_prop.
  repeat match goal with H : forallb _ _ = true |- _ => simpl in H; bool_to_prop end.
  match goal with H : str_is _ _ = true |- _ => apply str_is_true in H as -> end. by split_and!.
Qed.

(** What is composed over a verified generation passes the validators. *)
Lemma composed_active_valid {G} `{GenerationFiles G} id (c : container G) g fsv now :
  open_generation id c = Some g → plain_name id → fsv ≠ "" →
  let a := compose_active_manifest g (JStr (checkpoint_path id)) (JStr fsv) now in
  read_active_manifest (Some (Parsed (JObj a))) = Pointer a.
Proof.
  intros (Hg&Hid&_&Hv)%open_generation_inv Hplain Hfsv a.
  apply verify_identity_fields in Hv as (H1&H2&H3&H4&H5&H6&H7).
  assert (String.eqb (generation_id g) "" = false) as Hg' by (rewrite Hg; by apply String.eqb_neq).
  assert (String.eqb fsv "" = false) as Hf by by apply String.eqb_neq.
  pose proof (checkpoint_path_inside id Hplain) as Hck.
  assert (String.eqb (checkpoint_path id) "" = false) as Hcp by done.
  assert (validate_manifest_value (JObj a) = None) as Ha.
  { unfold a, validate_manifest_value, pointer_checks, compose_active_manifest, pointer_fields.
    change (field "delta_checkpoint" _) with (JStr (checkpoint_path id)). rewrite Hck.
    cbn -[checkpoint_path checkpoint_escapes]. rewrite Hg'. cbn -[checkpoint_path].
    rewrite H1, H7. cbn -[checkpoint_path]. rewrite Hf, H2, H3, H4, H5, H6. by cbn -[checkpoint_path]. }
  unfold read_active_manifest, read_pointer. by rewrite Ha.
Qed.

Lemma composed_rollback_valid {G} `{GenerationFiles G} id (c : container G) g fsv now :
  open_generation id c = Some g → fsv ≠ "" →
  let r := compose_rollback_manifest g (JStr (checkpoint_path id)) (JStr fsv) now in
  read_rollback_manifest (Some (Parsed (JObj r))) = Pointer r.
Proof.
  intros (Hg&Hid&_&Hv)%open_generation_inv Hfsv r.
  apply verify_identity_fields in Hv as (H1&H2&H3&H4&H5&H6&H7).
  assert (String.eqb (generation_id g) "" = false) as Hg' by (rewrite Hg; by apply String.eqb_neq).
  assert (String.eqb fsv "" = false) as Hf by by apply String.eqb_neq.
  assert (String.eqb (checkpoint_path id) "" = false) as Hcp by done.
  assert (validate_rollback_manifest (JObj r) = None) as Hr.
  { unfold r, validate_rollback_manifest, pointer_checks, compose_rollback_manifest, pointer_fields.
    cbn -[checkpoint_path]. rewrite Hg'. cbn -[checkpoint_path].
    rewrite H1, H7. cbn -[checkpoint_path]. rewrite Hf, H2, H3, H4, H5, H6. by cbn -[checkpoint_path]. }
  unfold read_rollback_manifest, read_pointer. by rewrite Hr.
Qed.

(** ** Properties *)

(** A published pointer reads back: the manifest composed over a verified
    generation passes the validator, is returned unchanged, names that
    generation, and its layers are those of the generation; the same holds for
    the rollback pointer. *)
Theorem composed_pointers_read_back {G} `{GenerationFiles G} id (c : container G) g fsv now :
  open_generation id c = Some g → plain_name id → fsv ≠ "" →
  let a := compose_active_manifest g (JStr (checkpoint_path id)) (JStr fsv) now in
  let r := compose_rollback_manifest g (JStr (checkpoint_path id)) (JStr fsv) now in
  read_active_manifest (Some (Parsed (JObj a))) = Pointer a ∧
  read_rollback_manifest (Some (Parsed (JObj r))) = Pointer r ∧
  pointer_id (Pointer a) = Some id ∧ pointer_id (Pointer r) = Some id ∧
  ∀ l k, (l, k) ∈ [(LAYER_STORE_EPOCH, "store_epoch"); (LAYER_REPRESENTATION, "representation_id");
                   (LAYER_VECTOR_FORMAT, "vector_format"); (LAYER_PROJECTION, "projection_version");
                   (LAYER_INDEX, "index_fingerprint")] →
    layer_of l (active_identity_from_manifest a) = field k (gen_identity g).
Proof.
  intros Hopen Hplain Hfsv a r. pose proof (open_generation_inv _ _ _ Hopen) as [Hg _].
  split_and!; [by eapply composed_active_valid|by eapply composed_rollback_valid|by rewrite <- Hg|by rewrite <- Hg|].
  intros l k Hl. repeat (apply elem_of_cons in Hl as [[= -> ->]|Hl]; [done|]). by apply elem_of_nil in Hl.
Qed.

(** ** A concrete generation *)

(** A temporary file hides the manifest. *)
#[export] Instance demo_files : GenerationFiles json := {|
  gf_manifest j := Parsed j; gf_intact _ := true; gf_temp_name _ := ""; gf_put_temp _ j := JList [j];
  gf_unlink_temp _ j := match j with JList [j] => j | _ => j end; gf_unlink_put _ := eq_refl |}.

Definition demo_gen_identity : list (string * json) :=
  [("store_epoch", JStr "epoch-1"); ("source_hlc", JList [JInt 5; JInt 0]); ("representation_id", JStr "r1");
   ("vector_format", JStr FP32_ROW_MAJOR_LE); ("projection_version", JStr "p1");
   ("index_fingerprint", JStr "index-fingerprint-v1:0"); ("retrieval_backend", JStr "exact");
   ("retrieval_params", JObj []); ("vector_dimension", JInt 4); ("builder_version", JStr "b1")].
Definition demo_manifest (id : string) : json :=
  JObj [("manifest_version", JStr MANIFEST_VERSION); ("generation_id", JStr id); ("identity", JObj demo_gen_identity)].
Definition demo_container (id : string) (p : option payload) : container json := Container (demo_manifest id) p.
Definition demo_generation (id : string) : generation := Generation id demo_gen_identity.

Lemma demo_opens id : id ≠ "" → open_generation id (demo_container id None) = Some (demo_generation id).
Proof.
  intros Hid. unfold open_generation, demo_container, demo_manifest. cbn -[verify_identity].
  rewrite (proj2 (String.eqb_neq id "") Hid). cbn -[verify_identity]. by rewrite String.eqb_refl.
Qed.

Lemma demo_plain : plain_name "g1".
Proof. split_and!; [|done..]. apply (bool_decide_eq_true_1 (_ ∉ _)). reflexivity. Qed.

Definition demo_pointer : list (string * json) :=
  compose_active_manifest (demo_generation "g1") (JStr (checkpoint_path "g1")) (JStr "1") 0.

Theorem composed_pointers_read_back_witness :
  open_generation "g1" (demo_container "g1" None) = Some (demo_generation "g1") ∧
  read_active_manifest (Some (Parsed (JObj demo_pointer))) = Pointer demo_pointer.
Proof.
  split; [apply demo_opens; discriminate|].
  apply (composed_pointers_read_back "g1" (demo_container "g1" None) (demo_generation "g1") "1" 0).
  - apply demo_opens. discriminate.
  - apply demo_plain.
  - discriminate.
Defined.
