(* ===== verification/Retention.v ===== *)
(** * Retention of derived state: [src/daemon/retention.py]

    The rollback pointer, isolation of damaged generations, the space check
    before a build, and the sweep that deletes what is neither active, rollback
    nor a live staging.  File-system calls are those of [Effects]: every one may
    fail, and a crash may come between any two. *)

From Stdlib Require Import Ascii String.
From stdpp Require Import base list strings gmap pretty.
From S2P Require Import Prelude PyJson OpStore Effects Derived.
Open Scope Z_scope.

(** ** Exceptions and atomic writes *)

(** [OSError]; [AtomicWriteCommitted], raised once the file has been replaced;
    [GenerationRejected]; [PublishError] and [PublishBlocked] with the events it
    names; [DeltaError]; and the other exceptions of a component that is called. *)
Inductive derived_exn :=
| OsError | AtomicWriteCommitted | GenerationRejected | PublishError (why : string)
| PublishBlocked (events : list string) (phase : string) | DeltaError (why : string) | OtherError.
#[export] Instance derived_exn_eq_dec : EqDecision derived_exn.
Proof. solve_decision. Defined.

Section retention.
Context {G : Type} `{GenerationFiles G}.
Local Notation droot := (droot G).
Local Notation io := (io droot derived_exn).

(** A call that only looks. *)
Definition look {A} (f : droot → A) : io A := call OsError (λ k, Ok (f k, k)).
Definition change (f : droot → droot) : io unit := call OsError (λ k, Ok (tt, f k)).

(** [except OSError: return v] *)
Definition on_os {A} (v : io A) (e : derived_exn) : option (io A) :=
  if bool_decide (e = OsError) then Some v else None.
(** [except Exception: return v] *)
Definition on_any {A} (v : io A) (e : derived_exn) : option (io A) := Some v.

(** [_fsync_directory]: a directory that cannot be opened is not synced. *)
Definition fsync_directory : io unit :=
  opened ← rescue (_ ← look (λ _, tt); mret true) (on_os (mret false));
  if opened : bool then look (λ _, tt) else mret tt.

(** [_write_atomic]: the temporary file is written and synced, then renamed onto
    the target by [put]; a failed sync of the directory is reported as
    [AtomicWriteCommitted].  No reader looks at the temporary file. *)
Definition write_atomic (put : droot → droot) : io unit :=
  _ ← look (λ _, tt);
  _ ← change put;
  rescue fsync_directory (on_os (throw AtomicWriteCommitted)).

(** ** The rollback pointer *)

Definition write_rollback_manifest (m : list (string * json)) : io unit :=
  write_atomic (set_rollback (Some (Parsed (JObj m)))).

Definition clear_rollback_manifest : io unit :=
  rescue (call OsError (λ k, match d_rollback k with
                             | Some _ => Ok (tt, set_rollback None k)
                             | None => Err OsError
                             end)) (on_os (mret tt)).

Definition register_healthy_rollback (g : generation) (checkpoint fsv : json) (now_ms : Z) : io unit :=
  write_rollback_manifest (compose_rollback_manifest g checkpoint fsv now_ms).

(** ** Isolation *)

(** ["%s-%d" % (generation_id, now_ms)] *)
Definition isolated_name (id : string) (now_ms : Z) : string := id +:+ "-" +:+ pretty now_ms.

(** The metadata file written into the moved directory is best effort and read
    by nothing; it is left out. *)
Definition isolate_generation (id : string) (now_ms : Z) : io unit :=
  found ← rescue (look (λ k, bool_decide (is_Some (d_gens k !! id)))) (on_os (mret false));
  if negb found then mret tt
  else
    rescue
      (_ ← look (λ _, tt);
       call OsError (λ k,
         match d_gens k !! id with
         | Some c => Ok (tt, set_isolated ((isolated_name id now_ms, c) :: d_isolated k)
                               (set_gens (delete id (d_gens k)) k))
         | None => Err OsError
         end))
      (on_os (mret tt)).

(** ** Staging progress *)

Definition STAGING_PROGRESS_VERSION : string := "shadow-generation-progress-v2".
Definition progress_states : list string := ["running"; "blocked"; "ready"; "discarded"].

(** [_staging_progress]: the status of a usable record, with its id. *)
Definition staging_progress (name : string) (c : container G) : option (list (string * json)) :=
  match c_progress c with
  | Some (Parsed (JObj m)) =>
      if str_is STAGING_PROGRESS_VERSION (field "progress_version" m) &&
         str_is name (field "generation_id" m) &&
         match field "status" m with JStr s => bool_decide (s ∈ progress_states) | _ => false end
      then Some m else None
  | _ => None
  end.

Definition status_in (l : list string) (m : list (string * json)) : bool :=
  match field "status" m with JStr s => bool_decide (s ∈ l) | _ => false end.

Definition discarded (name : string) (c : container G) : bool :=
  match staging_progress name c with Some m => status_in ["discarded"] m | None => false end.

(** [s.endswith(".tmp")] *)
Definition ends_with_tmp (s : string) : bool :=
  let n := String.length s in (4 <=? n)%nat && String.eqb (String.substring (n - 4) 4 s) ".tmp".

(** [live_staging_generation_ids] *)
Definition live_staging_ids (k : droot) : list string :=
  omap (λ '(name, c),
    if ends_with_tmp name then None
    else match staging_progress name c with
         | Some m => if status_in ["running"; "blocked"; "ready"] m then Some name else None
         | None => None
         end) (map_to_list (d_staging k)).

(** ** Space *)

(** [budget]: the configured limit; [current]: the bytes of the derived
    namespaces; [None] is [(True, None)]. *)
Definition check_build_space (budget : option Z) (current projected : Z) : option Z :=
  match budget with
  | None => None
  | Some b => let peak := current + projected in if b <? peak then Some peak else None
  end.

(** ** The sweep *)

(** What an interrupted [rmtree] leaves of a directory. *)
Context (wreck : container G → container G).

(** [shutil.rmtree] with its errors ignored: files go first, the directory
    last.  [put] stores what is left of the entry. *)
Definition rmtree (put : (container G → option (container G)) → droot → droot) : io unit :=
  rescue (_ ← change (put (λ c, Some (wreck c))); change (put (λ _, None))) (on_os (mret tt)).

Definition alter_gen (name : string) (f : container G → option (container G)) (k : droot) : droot :=
  set_gens (partial_alter (λ o, o ≫= f) name (d_gens k)) k.
Definition alter_staging (name : string) (f : container G → option (container G)) (k : droot) : droot :=
  set_staging (partial_alter (λ o, o ≫= f) name (d_staging k)) k.

(** [os.listdir], with [except OSError: entries = []]. *)
Definition listdir (names : droot → list string) : io (list string) :=
  rescue (look names) (on_os (mret [])).

Fixpoint for_each (l : list string) (body : string → io unit) : io unit :=
  match l with
  | [] => mret tt
  | x :: l => _ ← body x; for_each l body
  end.

Definition keep_ids (active rollback : option string) : list string :=
  match active with Some a => [a] | None => [] end ++ match rollback with Some r => [r] | None => [] end.

Definition sweep_generations (keep : list string) : io unit :=
  names ← listdir (λ k, (map_to_list (d_gens k)).*1);
  for_each names (λ n, if bool_decide (n ∈ keep) then mret tt else rmtree (alter_gen n)).

(** A checkpoint directory is removed whole. *)
Definition sweep_delta (keep live : list string) : io unit :=
  names ← listdir (λ k, elements (d_delta k));
  for_each names (λ n,
    if bool_decide (n ∈ keep) || bool_decide (n ∈ live) then mret tt
    else rescue (change (λ k, set_delta (d_delta k ∖ {[n]}) k)) (on_os (mret tt))).

(** Directories called [*.tmp] would be unlinked, which fails for a directory;
    parked records are regular files and are skipped. *)
Definition sweep_staging (live : list string) : io unit :=
  names ← listdir (λ k, (map_to_list (d_staging k)).*1);
  for_each names (λ n,
    if bool_decide (n ∈ live) || ends_with_tmp n then mret tt
    else
      obsolete ← rescue (look (λ k, match d_staging k !! n with Some c => discarded n c | None => false end))
                   (on_any (mret false));
      if obsolete : bool then rmtree (alter_staging n) else mret tt).

Definition retention_sweep (active rollback : option string) (live : list string) : io unit :=
  _ ← sweep_generations (keep_ids active rollback);
  _ ← sweep_delta (keep_ids active rollback) live;
  sweep_staging live.

(** [sweep_from_manifests] with the given ids, or those of the pointers; a
    pointer that cannot be read counts as none. *)
Definition sweep_from_manifests (active rollback : option string) : io unit :=
  a ← match active with
      | Some a => mret (Some a)
      | None => rescue (look (λ k, pointer_id (read_active_manifest (d_active k)))) (on_os (mret None))
      end;
  r ← match rollback with
      | Some r => mret (Some r)
      | None => rescue (look (λ k, pointer_id (read_rollback_manifest (d_rollback k)))) (on_os (mret None))
      end;
  live ← listdir live_staging_ids;
  retention_sweep a r live.
End retention.

(** ** What the sweep keeps *)

Section keeps.
Context {G : Type} `{GenerationFiles G} (wreck : container G → container G).
Local Notation droot := (droot G).
Local Notation io := (io droot derived_exn).

(** [m] never raises and keeps [I]; all worlds in between satisfy [J]. *)
Definition keeps {A} (J I : droot → Prop) (m : io A) : Prop := hoare J I m (λ _, I) (λ _ _, False).

Lemma keeps_ret {A} J I (a : A) : keeps J I (mret a).
Proof. by apply hoare_ret. Qed.

Lemma keeps_bind {A B} J I (m : io A) (f : A → io B) : keeps J I m → (∀ a, keeps J I (f a)) → keeps J I (m ≫= f).
Proof. intros Hm Hf. by eapply hoare_bind. Qed.

Lemma keeps_for_each J I l (body : string → io unit) : (∀ n, keeps J I (body n)) → keeps J I (for_each l body).
Proof. intros Hb. induction l as [|n l IH]; [apply keeps_ret|]. by apply keeps_bind. Qed.

(** An ignored [OSError] leaves the property alone. *)
Lemma keeps_try {A} J I (m : io A) v :
  hoare J I m (λ _, I) (λ e k, e = OsError ∧ I k) → keeps J I (rescue m (on_os (mret v))).
Proof.
  intros Hm. eapply hoare_rescue; [exact Hm|]. intros e. unfold on_os. case_bool_decide.
  - apply hoare_ret. by intros k [_ ?].
  - by intros k [? _].
Qed.

Lemma look_spec {A} (J I : droot → Prop) (f : droot → A) :
  (∀ k, I k → J k) → hoare J I (look f) (λ a k, I k ∧ a = f k) (λ e k, e = OsError ∧ I k).
Proof. intros HJ. apply hoare_call; auto. Qed.

Lemma look_keeps {A} (J I : droot → Prop) (f : droot → A) :
  (∀ k, I k → J k) → hoare J I (look f) (λ _, I) (λ e k, e = OsError ∧ I k).
Proof. intros HJ. apply hoare_call; auto. Qed.

Lemma change_spec (J I : droot → Prop) f :
  (∀ k, I k → J k) → (∀ k, I k → I (f k)) → hoare J I (change f) (λ _, I) (λ e k, e = OsError ∧ I k).
Proof. intros HJ Hf. apply hoare_call; auto. Qed.

Lemma keeps_listdir (J I : droot → Prop) f : (∀ k, I k → J k) → keeps J I (listdir f).
Proof. intros HJ. by apply keeps_try, look_keeps. Qed.

Lemma keeps_rmtree (J I : droot → Prop) put :
  (∀ k, I k → J k) → (∀ f k, I k → I (put f k)) → keeps J I (rmtree wreck put).
Proof.
  intros HJ Hp. apply keeps_try. eapply hoare_bind with (R := λ _, I); [by apply change_spec; auto|].
  intros []. by apply change_spec; auto.
Qed.

(** Nothing that [k0] refers to has been touched in [k]. *)
Record untouched (keep live : list string) (k0 k : droot) : Prop := {
  un_gens : ∀ id, id ∈ keep → d_gens k !! id = d_gens k0 !! id;
  un_staging : ∀ n c, d_staging k0 !! n = Some c → n ∈ live ∨ discarded n c = false → d_staging k !! n = Some c;
  un_delta : ∀ id, id ∈ keep ∨ id ∈ live → id ∈ d_delta k0 → id ∈ d_delta k;
  un_rest : d_active k = d_active k0 ∧ d_rollback k = d_rollback k0 ∧ d_parked k = d_parked k0 ∧
            d_isolated k = d_isolated k0 }.

Lemma untouched_refl keep live k : untouched keep live k k.
Proof. by split. Qed.

Lemma sweep_keeps (J : droot → Prop) active rollback live k0 :
  (∀ k, untouched (keep_ids active rollback) live k0 k → J k) →
  keeps J (untouched (keep_ids active rollback) live k0) (retention_sweep wreck active rollback live).
Proof.
  intros HJ. unfold retention_sweep. apply keeps_bind; [|intros []; apply keeps_bind; [|intros []]].
  - apply keeps_bind; [by apply keeps_listdir|]. intros names. apply keeps_for_each. intros n.
    case_bool_decide as Hn; [apply keeps_ret|]. apply keeps_rmtree; [done|]. intros f k [Hg Hs Hd Hr].
    split; [|done..]. intros id Hid. simpl. rewrite lookup_partial_alter_ne; [by apply Hg|by intros ->].
  - apply keeps_bind; [by apply keeps_listdir|]. intros names. apply keeps_for_each. intros n.
    destruct (bool_decide (n ∈ _) || bool_decide (n ∈ live)) eqn:Hn; [apply keeps_ret|]. bool_to_prop.
    apply keeps_try, change_spec; [done|]. intros k [Hg Hs Hd Hr]. split; [done..| |done].
    intros id Hid Hin. simpl. apply elem_of_difference. split; [by apply Hd|].
    rewrite elem_of_singleton. intros ->. by destruct Hid.
  - apply keeps_bind; [by apply keeps_listdir|]. intros names. apply keeps_for_each. intros n.
    destruct (bool_decide (n ∈ live) || ends_with_tmp n) eqn:Hn; [apply keeps_ret|]. bool_to_prop.
    set (I := untouched _ _ _) in *.
    eapply hoare_bind with (R := λ b k, I k ∧
      (b = true → ∃ c, d_staging k !! n = Some c ∧ discarded n c = true)).
    { eapply (hoare_rescue _ _ _ _ _ _ (λ _ k, I k)).
      - eapply hoare_weaken; [by apply look_spec|done| |by intros ? k [_ ?]]. intros b k [Hk ->].
        split; [done|]. destruct (d_staging k !! n); [eauto|done].
      - intros e. unfold on_any. apply hoare_ret. by intros k Hk. }
    intros [|]; [|apply hoare_ret; by intros k [? _]].
    assert (∀ f k, (I k ∧ ∀ c, d_staging k0 !! n = Some c → discarded n c = true) →
                   I (alter_staging n f k) ∧ ∀ c, d_staging k0 !! n = Some c → discarded n c = true) as Halter.
    { intros f k [[Hg Hs Hd Hr] Hc]. split; [|done]. split; [done| |done..]. intros m c Hm Hlive. simpl.
      destruct (decide (n = m)) as [->|Hne]; [|rewrite lookup_partial_alter_ne by done; by apply Hs].
      destruct Hlive; [done|]. specialize (Hc c Hm). congruence. }
    eapply (hoare_weaken _ _ (λ k, I k ∧ ∀ c, d_staging k0 !! n = Some c → discarded n c = true)).
    + apply keeps_rmtree; [by intros k [? _]; apply HJ|]. intros f k Hk. by apply Halter.
    + intros k [Hk Hc]. split; [done|]. intros c Hm. destruct (Hc eq_refl) as (c'&Hc'&Hd).
      destruct (discarded n c) eqn:E; [done|].
      rewrite (un_staging _ _ _ _ Hk n c Hm) in Hc' by auto. congruence.
    + by intros ? k [? _].
    + done.
Qed.
End keeps.

(** ** The sweep without faults *)

Section exact.
Context {G : Type} `{GenerationFiles G} (wreck : container G → container G).
Local Notation droot := (droot G).

Lemma runs_for_each l (body : string → io droot derived_exn unit) step k :
  (∀ n k, runs (body n) k tt (step k n)) → runs (for_each l body) k tt (foldl step k l).
Proof.
  intros Hb. revert k. induction l as [|n l IH]; intros k; [apply runs_ret|].
  simpl. eapply runs_bind; [apply Hb|apply IH].
Qed.

Lemma runs_listdir (f : droot → list string) k : runs (listdir f) k (f k) k.
Proof. by apply runs_rescue, runs_call. Qed.

(** [drop] decides which entries go; [drop_at n] removes entry [n] if it should. *)
Definition drop_at {A} (drop : string → A → bool) (m : gmap string A) (n : string) : gmap string A :=
  partial_alter (λ o, a ← o; if drop n a then None else Some a) n m.

Definition drop_entries {A} (drop : string → A → bool) (m : gmap string A) : gmap string A :=
  filter (λ '(n, a), drop n a = false) m.

Lemma drop_at_id {A} drop (m : gmap string A) n : (∀ a, m !! n = Some a → drop n a = false) → drop_at drop m n = m.
Proof.
  intros Hd. apply map_eq. intros i. unfold drop_at. destruct (decide (i = n)) as [->|].
  - rewrite lookup_partial_alter_eq. destruct (m !! n) eqn:E; [|done]. simpl. by rewrite Hd.
  - by rewrite lookup_partial_alter_ne.
Qed.

Lemma drop_at_twice {A} drop (f : A → A) (m : gmap string A) n :
  (∀ a, m !! n = Some a → drop n a = true) →
  partial_alter (λ o, o ≫= λ _, None) n (partial_alter (λ o, o ≫= λ a, Some (f a)) n m) = drop_at drop m n.
Proof.
  intros Hd. apply map_eq. intros i. unfold drop_at. destruct (decide (i = n)) as [->|].
  - rewrite !lookup_partial_alter_eq. destruct (m !! n) eqn:E; [|done]. simpl. by rewrite Hd.
  - by rewrite !lookup_partial_alter_ne.
Qed.

Lemma foldl_drop_at {A} drop (l : list string) (m : gmap string A) i :
  foldl (drop_at drop) m l !! i =
  match m !! i with Some a => if bool_decide (i ∈ l) && drop i a then None else Some a | None => None end.
Proof.
  revert m. induction l as [|n l IH]; intros m; simpl; [by destruct (m !! i)|]. rewrite IH. unfold drop_at.
  destruct (decide (i = n)) as [->|Hne].
  - rewrite lookup_partial_alter_eq, (bool_decide_true (n ∈ n :: l)) by by left.
    destruct (m !! n) as [a|]; [|done]. simpl. destruct (drop n a) eqn:Hd; [done|]. rewrite Hd. by destruct (bool_decide _).
  - rewrite lookup_partial_alter_ne by done.
    assert (bool_decide (i ∈ n :: l) = bool_decide (i ∈ l)) as ->; [|done].
    apply bool_decide_ext. rewrite elem_of_cons. naive_solver.
Qed.

Lemma foldl_drop_entries {A} drop (m : gmap string A) :
  foldl (drop_at drop) m (map_to_list m).*1 = drop_entries drop m.
Proof.
  apply map_eq. intros i. rewrite foldl_drop_at. unfold drop_entries. destruct (m !! i) as [a|] eqn:Hi.
  - rewrite bool_decide_true.
    + destruct (drop i a) eqn:Hd; simpl; symmetry.
      * apply map_lookup_filter_None. right. intros ? ?. simplify_eq. congruence.
      * by apply map_lookup_filter_Some.
    + apply list_elem_of_fmap. exists (i, a). split; [done|]. by apply elem_of_map_to_list.
  - symmetry. apply map_lookup_filter_None. by left.
Qed.

Lemma set_gens_id (k : droot) : set_gens (d_gens k) k = k.
Proof. by destruct k. Qed.

Lemma foldl_set {A} (get : droot → A) (set : A → droot → droot) (step : A → string → A) l k :
  (∀ a b k, set a (set b k) = set a k) → (∀ k, set (get k) k = k) → (∀ a k, get (set a k) = a) →
  foldl (λ k n, set (step (get k) n) k) k l = set (foldl step (get k) l) k.
Proof.
  intros Hss Hgs Hsg. revert k. induction l as [|n l IH]; intros k; simpl; [done|].
  by rewrite IH, Hsg, Hss.
Qed.

Lemma runs_sweep_generations keep k :
  runs (sweep_generations wreck keep) k tt
    (set_gens (drop_entries (λ n _, negb (bool_decide (n ∈ keep))) (d_gens k)) k).
Proof.
  eapply runs_bind; [apply runs_listdir|]. rewrite <- foldl_drop_entries.
  rewrite <- (foldl_set d_gens set_gens) by (by intros []).
  apply runs_for_each. intros n k1. case_bool_decide as Hn.
  - rewrite drop_at_id; [destruct k1; apply runs_ret|]. intros ? _. by rewrite bool_decide_true.
  - apply runs_rescue. eapply runs_bind; [by apply runs_call|]. apply runs_call. do 2 f_equal.
    rewrite <- (drop_at_twice _ wreck); [done|]. intros ? _. by rewrite bool_decide_false.
Qed.

(** A staging goes when it is recorded as discarded. *)
Definition staging_goes (live : list string) (n : string) (c : container G) : bool :=
  negb (bool_decide (n ∈ live) || ends_with_tmp n) && discarded n c.

Lemma runs_sweep_staging live k :
  runs (sweep_staging wreck live) k tt (set_staging (drop_entries (staging_goes live) (d_staging k)) k).
Proof.
  eapply runs_bind; [apply runs_listdir|]. rewrite <- foldl_drop_entries.
  rewrite <- (foldl_set d_staging set_staging) by (by intros []).
  apply runs_for_each. intros n k1. destruct (_ || _) eqn:Hn.
  - rewrite drop_at_id; [destruct k1; apply runs_ret|]. intros ? _. unfold staging_goes. by rewrite Hn.
  - eapply runs_bind; [by apply runs_rescue, runs_call|]. cbv beta. destruct (match d_staging k1 !! n with Some _ => _ | _ => _ end) eqn:Hd.
    + apply runs_rescue. eapply runs_bind; [by apply runs_call|]. apply runs_call. do 2 f_equal.
      rewrite <- (drop_at_twice _ wreck); [done|]. intros c Hc. unfold staging_goes. rewrite Hn. by rewrite Hc in Hd.
    + rewrite drop_at_id; [destruct k1; apply runs_ret|]. intros c Hc. unfold staging_goes. rewrite Hc in Hd.
      by rewrite Hd, andb_false_r.
Qed.

Definition delta_stays (keep live : list string) (n : string) : Prop := n ∈ keep ∨ n ∈ live.

Lemma runs_sweep_delta keep live (k : droot) :
  runs (sweep_delta keep live) k tt (set_delta (filter (delta_stays keep live) (d_delta k)) k).
Proof.
  eapply runs_bind; [apply runs_listdir|].
  assert (filter (delta_stays keep live) (d_delta k) =
          foldl (λ d n, if bool_decide (n ∈ keep) || bool_decide (n ∈ live) then d else d ∖ {[n]})
            (d_delta k) (elements (d_delta k))) as ->.
  { apply set_eq. intros i. rewrite elem_of_filter.
    assert (∀ l (d : gset string),
      i ∈ foldl (λ d n, if bool_decide (n ∈ keep) || bool_decide (n ∈ live) then d else d ∖ {[n]}) d l ↔
      i ∈ d ∧ (i ∈ l → delta_stays keep live i)) as Hf.
    { induction l as [|n l IH]; intros d; simpl; [set_solver|]. rewrite IH. unfold delta_stays.
      repeat case_bool_decide; simpl; set_solver. }
    rewrite Hf. set_solver. }
  rewrite <- (foldl_set d_delta set_delta) by (by intros []).
  apply runs_for_each. intros n k1. destruct (_ || _).
  - destruct k1. apply runs_ret.
  - by apply runs_rescue, runs_call.
Qed.

Lemma runs_retention_sweep active rollback live (k : droot) :
  let keep := keep_ids active rollback in
  runs (retention_sweep wreck active rollback live) k tt
    (DRoot (drop_entries (λ n _, negb (bool_decide (n ∈ keep))) (d_gens k))
       (drop_entries (staging_goes live) (d_staging k)) (d_parked k)
       (filter (delta_stays keep live) (d_delta k)) (d_active k) (d_rollback k) (d_isolated k)).
Proof.
  eapply runs_bind; [apply runs_sweep_generations|]. eapply runs_bind; [apply runs_sweep_delta|].
  apply runs_sweep_staging.
Qed.
End exact.

(** ** Properties *)

Section properties.
Context {G : Type} `{GenerationFiles G} (wreck : container G → container G).
Local Notation droot := (droot G).

(** The ids that the two pointer files name. *)
Definition pointed (k : droot) : list string :=
  keep_ids (pointer_id (read_active_manifest (d_active k))) (pointer_id (read_rollback_manifest (d_rollback k))).

Lemma look_now {A} (f : droot → A) h fault n (k : droot) t : fault n = false →
  rescue (look f) h fault (IoState n k t) = (Ok (f k), IoState (S n) k (k :: t)).
Proof. intros Hn. unfold rescue, look, call. simpl. by rewrite Hn. Qed.

Lemma listdir_now (f : droot → list string) fault n (k : droot) t : ∃ t',
  listdir f fault (IoState n k t) = (Ok (if fault n then [] else f k), IoState (S n) k t') ∧ (t' = t ∨ t' = k :: t).
Proof.
  unfold listdir, rescue, look, call. simpl. destruct (fault n); [|by exists (k :: t); auto].
  exists t. unfold on_os. rewrite bool_decide_true by done. by auto.
Qed.


(** A sweep in which no call fails leaves exactly the generations the two
    pointers name, the checkpoints of those and of live stagings, and the
    stagings that are live, still named [.tmp] or not recorded as discarded. *)
Theorem sweep_from_manifests_exact (k : droot) :
  let keep := keep_ids (pointer_id (read_active_manifest (d_active k)))
                       (pointer_id (read_rollback_manifest (d_rollback k))) in
  let live := live_staging_ids k in
  runs (sweep_from_manifests wreck None None) k tt
    (DRoot (filter (λ '(id, _), id ∈ keep) (d_gens k))
       (filter (λ '(n, c), staging_goes live n c = false) (d_staging k)) (d_parked k)
       (filter (λ id, id ∈ keep ∨ id ∈ live) (d_delta k)) (d_active k) (d_rollback k) (d_isolated k)).
Proof.
  intros keep live.
  eapply runs_bind; [by apply runs_rescue, runs_call|]. eapply runs_bind; [by apply runs_rescue, runs_call|].
  eapply runs_bind; [apply runs_listdir|].
  replace (filter (λ '(id, _), id ∈ keep) (d_gens k))
    with (drop_entries (λ n (_ : container G), negb (bool_decide (n ∈ keep))) (d_gens k)).
  - apply runs_retention_sweep.
  - apply map_filter_ext. intros i c _. rewrite negb_false_iff. apply bool_decide_eq_true.
Qed.
End properties.

(** An active pointer that cannot be read does not keep its generation. *)
Example unreadable_pointer_loses_generation :
  let k := DRoot {[ "g1" := demo_container "g1" None ]} ∅ ∅ {[ "g1" ]} (Some Unreadable) None [] in
  let s := snd (sweep_from_manifests (λ c, c) None None (λ _, false) (IoState 0 k [k])) in
  d_gens (io_world s) !! "g1" = None ∧ d_delta (io_world s) = ∅.
Proof. by vm_compute. Qed.
