(* ===== verification/Publish.v ===== *)
(** * The publish transaction: [src/daemon/publish.py]

    A ready staging becomes the active generation: its progress record is parked
    outside the container, the container is renamed into [generations/], the
    retired generation is registered as the rollback, and the replacement of
    [active_manifest.json] commits.  Every system call may fail and a crash may
    come between any two; the recovery decides from the disk whether the commit
    happened.  The parts of [StagingBuildMachine] that the publisher calls are
    here too ([src/daemon/staging.py]); the worker of the delta machine, which
    performs the switch, is [Delta]. *)

From Stdlib Require Import String.
From stdpp Require Import base list strings gmap.
From S2P Require Import Prelude PyJson OpStore Compat Effects Facts Delta Derived Retention.
Open Scope Z_scope.

(** ** Messages *)

(** How the worker answers the handshake of [publish_switch]. *)
Inductive switch_answer := Switched | SwitchFailed (e : switch_error) | SwitchTimedOut | SwitchNoResult.

(** The error of a result; only [str(error)] is kept of an exception. *)
Inductive publish_failure :=
| PreconditionsFailed (why : string) | WrongRecord | FactsUnreadable | FactsMissing
| DeltaBlockedBy (events : list string) | DeltaFailed (why : string)
| ManifestWriteFailed (why : string) | FsyncStillFailing
| SwitchFault | SwitchRefused (a : switch_answer).

(** What a call of [publish_reject] or [publish_block] does to the memory of the
    staging machine: its ready staging is forgotten. *)
Inductive seam := SeamNone | SeamReset.

Record publish_result := PublishResult {
  pr_ok : bool; pr_committed : bool; pr_error : option publish_failure; pr_seam : seam }.

Definition failed (committed : bool) (e : publish_failure) : publish_result :=
  PublishResult false committed (Some e) SeamNone.

(** The answers of the other parties during one attempt: [_resume_gate]; the
    three looks at the facts; [_build_staging_delta] with whether it created its
    directory; the generation the machine serves; the time; whether the active
    pointer can be read by the first check, by the recovery and by the last
    inspection; and the worker. *)
Record publish_env := PublishEnv {
  pe_gate : result derived_exn unit;
  pe_first : facts_view; pe_facts : facts_view; pe_schema : facts_view;
  pe_delta : result staging_exn unit; pe_delta_dir : bool;
  pe_retired : option string; pe_now_ms : Z;
  pe_read1 : bool; pe_read2 : bool; pe_read3 : bool;
  pe_switch : result derived_exn switch_answer }.

(** [dict(record); record[k] = v] *)
Definition set_field (k : string) (v : json) (m : list (string * json)) : list (string * json) :=
  (k, v) :: filter (λ kv, kv.1 ≠ k) m.

(** [_read_fact_schema_version] of a column of texts. *)
Definition read_fact_schema_version (v : facts_view) : result derived_exn (option string) :=
  match v with
  | NoStore => Err (PublishError "fact store not found")
  | StoreFault => Err (PublishError "fact store read failed")
  | Store db => Ok match obj_get "fact_schema_version" (f_meta db) with Some (JStr s) => Some s | _ => None end
  end.

Section publish.
Context {G : Type} `{GenerationFiles G} `{IntText} (wreck : container G → container G).
(** [getattr(error, "reason", None) or str(error)] *)
Context (exn_text : derived_exn → string).
Local Notation droot := (droot G).
Local Notation io := (io droot derived_exn).

Definition of_result {A} (r : result derived_exn A) : io A := match r with Ok a => mret a | Err e => throw e end.

(** [try: m], the exception as a value. *)
Definition attempt {A} (m : io A) : io (result derived_exn A) := λ fault s, let '(r, s) := m fault s in (Ok r, s).

(** ** Paths *)

(** [os.path.isdir] and [isfile] of a path below the root: an error counts as
    absent. *)
Definition is_there (f : droot → bool) : io bool := rescue (look f) (on_os (mret false)).
Definition in_gens (id : string) (k : droot) : bool := bool_decide (is_Some (d_gens k !! id)).
Definition in_staging (id : string) (k : droot) : bool := bool_decide (is_Some (d_staging k !! id)).
Definition is_parked (id : string) (k : droot) : bool := bool_decide (is_Some (d_parked k !! id)).

(** [os.rename] between the two roots; a directory that is not empty is not
    replaced. *)
Definition move_in (id : string) : io unit :=
  call OsError (λ k,
    match d_staging k !! id, d_gens k !! id with
    | Some c, None => Ok (tt, set_gens (<[id := c]> (d_gens k)) (set_staging (delete id (d_staging k)) k))
    | _, _ => Err OsError
    end).
Definition move_back (id : string) : io unit :=
  call OsError (λ k,
    match d_gens k !! id, d_staging k !! id with
    | Some c, None => Ok (tt, set_staging (<[id := c]> (d_staging k)) (set_gens (delete id (d_gens k)) k))
    | _, _ => Err OsError
    end).

(** [os.unlink] of [.verify-<id>.tmp]. *)
Definition unlink_parked (id : string) : io unit :=
  call OsError (λ k, match d_parked k !! id with
                     | Some _ => Ok (tt, set_parked (delete id (d_parked k)) k)
                     | None => Err OsError
                     end).

(** [_park_progress] and its inverse [_restore_progress]. *)
Definition park_progress (id : string) : io unit :=
  _ ← rescue (unlink_parked id) (on_os (mret tt));
  call OsError (λ k,
    match d_staging k !! id with
    | Some c =>
        match c_progress c with
        | Some p => Ok (tt, set_parked (<[id := p]> (d_parked k))
                              (set_staging (<[id := Container (c_files c) None]> (d_staging k)) k))
        | None => Err OsError
        end
    | None => Err OsError
    end).
Definition restore_progress (id : string) : io unit :=
  call OsError (λ k,
    match d_parked k !! id, d_staging k !! id with
    | Some p, Some c => Ok (tt, set_parked (delete id (d_parked k))
                                  (set_staging (<[id := Container (c_files c) (Some p)]> (d_staging k)) k))
    | _, _ => Err OsError
    end).

(** ** The staging machine, as the publisher calls it *)

(** [_load_progress] *)
Definition usable_progress (id : string) (c : container G) : option (list (string * json)) :=
  match staging_progress id c with
  | Some m =>
      if forallb (λ k, has_key k m) ["total_rows"; "rows_fingerprint"; "identity"; "chunks"] &&
         is_dict (field "identity" m) && match field "chunks" m with JList _ => true | _ => false end
      then Some m else None
  | None => None
  end.
Definition load_progress (id : string) : io (option (list (string * json))) :=
  rescue (look (λ k, c ← d_staging k !! id; usable_progress id c)) (on_os (mret None)).
(** [_write_progress]: here the temporary file of [_write_atomic] matters, since
    it lies in the container until it is renamed or removed. *)
Definition make_temp (id : string) : io string :=
  call OsError (λ k,
    match d_staging k !! id with
    | Some c =>
        let t := gf_temp_name (c_files c) in
        Ok (t, alter_staging id (λ c, Some (Container (gf_put_temp t (c_files c)) (c_progress c))) k)
    | None => Err OsError
    end).
Definition drop_temp (id t : string) : io unit :=
  change (alter_staging id (λ c, Some (Container (gf_unlink_temp t (c_files c)) (c_progress c)))).
Definition write_progress (id : string) (m : list (string * json)) : io unit :=
  t ← make_temp id;
  _ ← rescue
        (_ ← look (λ _, tt);
         change (alter_staging id (λ c, Some (Container (gf_unlink_temp t (c_files c)) (Some (Parsed (JObj m)))))))
        (λ e, Some (_ ← rescue (drop_temp id t) (on_os (mret tt)); throw e));
  rescue fsync_directory (on_os (throw AtomicWriteCommitted)).

(** [_discard] with [own=True], behind [publish_reject]. *)
Definition discard (id reason : string) : io seam :=
  p ← load_progress id;
  _ ← match p with
      | Some m =>
          if status_in ["discarded"] m then mret tt
          else rescue (write_progress id (set_field "reason" (JStr reason) (set_field "status" (JStr "discarded") m)))
                      (on_os (mret tt))
      | None => mret tt
      end;
  mret SeamReset.

(** [publish_block] of the ready staging [id]. *)
Definition publish_block (id reason phase : string) (events : list string) : io seam :=
  p ← load_progress id;
  match p with
  | Some m =>
      if status_in ["ready"] m
      then
        _ ← rescue (write_progress id
                      (set_field "phase" (JStr phase) (set_field "reason" (JStr reason)
                        (set_field "blocked_events" (JList (JStr <$> events))
                          (set_field "status" (JStr "blocked") m))))) (on_os (mret tt));
        mret SeamReset
      else mret SeamNone
  | None => mret SeamNone
  end.

(** [open_generation]: a directory that cannot be listed is rejected; a file of it
    that cannot be read or sized afterwards raises [OSError]. *)
Definition open_container (find : droot → option (container G)) (id : string) : io generation :=
  _ ← call GenerationRejected (λ k, if find k then Ok (tt, k) else Err GenerationRejected);
  call OsError (λ k, match find k ≫= open_generation id with
                     | Some g => Ok (g, k)
                     | None => Err GenerationRejected
                     end).
Definition open_published (id : string) : io generation := open_container (λ k, d_gens k !! id) id.
Definition open_staged (id : string) : io generation := open_container (λ k, d_staging k !! id) id.

(** [_verify_container_dance] *)
Definition verify_container_dance (id : string) : io unit :=
  _ ← park_progress id;
  finally_do (_ ← open_staged id; mret tt) (rescue (restore_progress id) (on_os (mret tt))).

(** [verify_publishable]; [OtherError] is its [StagingError]. *)
Definition verify_publishable (id : string) (gate : result derived_exn unit) : io (list (string * json)) :=
  p ← load_progress id;
  match p with
  | None => throw OtherError
  | Some m =>
      if negb (status_in ["ready"] m) then throw OtherError
      else
        _ ← of_result gate;
        _ ← rescue (verify_container_dance id)
              (λ e, if bool_decide (e = GenerationRejected) then Some (throw OtherError) else None);
        mret m
  end.

(** ** Recovery *)

(** One read of the active pointer; [fails]: the file cannot be read. *)
Definition read_active (fails : bool) : io pointer_reading :=
  λ _ s, (Ok (if fails then BadPointer None else read_active_manifest (d_active (io_world s))), s).
Definition names (id : string) (r : pointer_reading) : bool := bool_decide (pointer_id r = Some id).

(** [_restore_published_generation] *)
Definition restore_published (id : string) : io unit :=
  published ← is_there (in_gens id);
  staged ← (if published : bool then mret false else is_there (in_staging id));
  if negb staged then mret tt
  else
    _ ← look (λ _, tt);
    _ ← move_in id;
    _ ← fsync_directory;
    fsync_directory.

Record recovered := Recovered { rc_referenced : bool; rc_present : bool; rc_durable : bool; rc_consistent : bool }.

(** [reconcile_active_manifest_commit]; [parked]: a parked record was given. *)
Definition reconcile (fails : bool) (id : string) (parked : bool) : io recovered :=
  r ← read_active fails;
  let referenced := names id r in
  _ ← (if referenced
       then
         _ ← restore_published id;
         there ← (if parked then is_there (is_parked id) else mret false);
         if there : bool then rescue (unlink_parked id) (on_os (mret tt)) else mret tt
       else mret tt);
  durable ← rescue (_ ← fsync_directory; mret true) (on_os (mret false));
  published ← is_there (in_gens id);
  mret (Recovered referenced published durable (if referenced then published else true)).

(** [_complete_publish_switch] *)
Definition complete_switch (env : publish_env) (id : string) : io publish_result :=
  match pe_switch env with
  | Err _ => mret (failed true SwitchFault)
  | Ok Switched =>
      _ ← rescue (sweep_from_manifests wreck (Some id) None) (on_any (mret tt));
      mret (PublishResult true true None SeamNone)
  | Ok a => mret (failed true (SwitchRefused a))
  end.

(** [_finish_already_committed] *)
Definition finish_already_committed (env : publish_env) (id : string) : io (option publish_result) :=
  rc ← reconcile (pe_read1 env) id false;
  if negb (rc_referenced rc && rc_consistent rc) then mret None
  else if negb (rc_durable rc) then mret (Some (failed true FsyncStillFailing))
  else
    match read_facts_identity (pe_first env) with
    | Err _ => mret (Some (failed true FactsUnreadable))
    | Ok None => mret (Some (failed true FactsMissing))
    | Ok (Some _) => r ← complete_switch env id; mret (Some r)
    end.

(** ** The transaction *)

(** [_build_staging_delta]; the checkpoint itself is [Delta.build_staging_delta]. *)
Definition staging_delta (env : publish_env) (id : string) : io unit :=
  _ ← (if pe_delta_dir env
       then rescue (change (λ k, set_delta ({[id]} ∪ d_delta k) k)) (on_os (throw (PublishError "delta root")))
       else mret tt);
  match pe_delta env with
  | Ok _ => mret tt
  | Err (StagingBlocked events phase) => throw (PublishBlocked events phase)
  | Err StagingError => throw (PublishError "staging delta")
  | Err StagingRaised => throw (DeltaError "facts")
  end.

(** The retired generation becomes the rollback when it opens; errors are
    swallowed. *)
Definition register_retired (env : publish_env) (id fsv : string) : io unit :=
  match pe_retired env with
  | None => mret tt
  | Some old =>
      if String.eqb old "" || String.eqb old id then mret tt
      else
        rescue
          (g ← open_published old;
           register_healthy_rollback g (JStr (checkpoint_path old)) (JStr fsv) (pe_now_ms env))
          (on_any (mret tt))
  end.

(** The fact schema version, which must not be empty. *)
Definition schema_for (env : publish_env) : io string :=
  v ← of_result (read_fact_schema_version (pe_schema env));
  match v with
  | Some s => if String.eqb s "" then throw (PublishError "schema version missing") else mret s
  | None => throw (PublishError "schema version missing")
  end.

(** [write_active_manifest] *)
Definition write_active_manifest (m : list (string * json)) : io unit :=
  write_atomic (set_active (Some (Parsed (JObj m)))).

(** From the container rename to the end of the guarded block. *)
Definition commit (env : publish_env) (id : string) : io unit :=
  _ ← look (λ _, tt);
  _ ← move_in id;
  _ ← fsync_directory;
  _ ← fsync_directory;
  fsv ← schema_for env;
  _ ← register_retired env id fsv;
  g ← open_published id;
  _ ← write_active_manifest (compose_active_manifest g (JStr (checkpoint_path id)) (JStr fsv) (pe_now_ms env));
  _ ← rescue (unlink_parked id) (on_os (mret tt));
  fsync_directory.

(** Undoing the container rename before the commit. *)
Definition roll_back (id : string) (parked : bool) : io unit :=
  rescue
    (there ← is_there (in_gens id);
     _ ← (if there : bool then _ ← move_back id; fsync_directory else mret tt);
     p ← (if parked then is_there (is_parked id) else mret false);
     if p : bool then restore_progress id else mret tt)
    (on_os (mret tt)).

(** The handler: [None] falls through to the switch. *)
Definition commit_failed (env : publish_env) (id : string) (parked : bool) (e : derived_exn)
    : io (option publish_result) :=
  let why := ManifestWriteFailed (exn_text e) in
  let post_rename := bool_decide (e = AtomicWriteCommitted) in
  let undo : io (option publish_result) := _ ← roll_back id parked; mret (Some (failed false why)) in
  rc ← attempt (reconcile (pe_read2 env) id parked);
  match rc with
  | Err _ =>
      r ← read_active (pe_read3 env);
      if post_rename || names id r then mret (Some (failed true why)) else undo
  | Ok rc =>
      if rc_referenced rc || post_rename
      then if negb (rc_consistent rc && rc_durable rc) then mret (Some (failed true why)) else mret None
      else undo
  end.

(** The guarded block with its handler. *)
Definition commit_phase (env : publish_env) (id : string) : io (option publish_result) :=
  parked ← attempt (park_progress id);
  match parked with
  | Err e => commit_failed env id false e
  | Ok _ => rescue (_ ← commit env id; mret None) (λ e, Some (commit_failed env id true e))
  end.

(** [_publish_locked] of the staging in [staging/<id>]. *)
Definition publish_locked (env : publish_env) (id : string) : io publish_result :=
  already ← finish_already_committed env id;
  match already with
  | Some r => mret r
  | None =>
      v ← attempt (verify_publishable id (pe_gate env));
      match v with
      | Err e =>
          s ← rescue (discard id ("publish preconditions failed: " +:+ exn_text e)) (on_any (mret SeamNone));
          mret (PublishResult false false (Some (PreconditionsFailed (exn_text e))) s)
      | Ok progress =>
          if negb (str_is id (field "generation_id" progress)) then mret (failed false WrongRecord)
          else
            match read_facts_identity (pe_facts env) with
            | Err _ => mret (failed false FactsUnreadable)
            | Ok None => mret (failed false FactsMissing)
            | Ok (Some _) =>
                d ← attempt (staging_delta env id);
                match d with
                | Err (PublishBlocked events phase) =>
                    s ← rescue (publish_block id ("publish delta blocked: " +:+ exn_text (PublishBlocked events phase))
                                  phase events) (on_any (mret SeamNone));
                    mret (PublishResult false false (Some (DeltaBlockedBy events)) s)
                | Err (PublishError why) => mret (failed false (DeltaFailed why))
                | Err e => throw e
                | Ok _ =>
                    c ← commit_phase env id;
                    match c with Some r => mret r | None => complete_switch env id end
                end
            end
      end
  end.
End publish.

(** ** The publisher worker *)

(** [status()] of the staging machine; its ready directory is [staging/<id>]. *)
Record staging_status (P : Type) := StagingStatus {
  ss_ready : option string; ss_progress : option (list (string * json)); ss_provider : P }.
Arguments StagingStatus {P}. Arguments ss_ready {P}. Arguments ss_progress {P}. Arguments ss_provider {P}.

Inductive publisher_error := SwitchPending (a : switch_answer) | PublisherFault | PublishFailed (e : option publish_failure).

(** [GenerationPublisher]; [last_result] is only reported. *)
Record publisher (P : Type) := Publisher {
  pb_committed : option string; pb_epoch : json; pb_provider : option P; pb_switched : option string;
  pb_error : option publisher_error; pb_stopped : bool; pb_closed : bool }.
Arguments Publisher {P}. Arguments pb_committed {P}. Arguments pb_epoch {P}. Arguments pb_provider {P}.
Arguments pb_switched {P}. Arguments pb_error {P}. Arguments pb_stopped {P}. Arguments pb_closed {P}.

Section worker.
Context {G P : Type} `{GenerationFiles G} `{IntText} (wreck : container G → container G).
Context (exn_text : derived_exn → string).
Local Notation droot := (droot G).
Local Notation io := (io droot derived_exn).
Local Notation publisher := (publisher P).

Definition set_error (e : option publisher_error) (b : publisher) : publisher :=
  Publisher (pb_committed b) (pb_epoch b) (pb_provider b) (pb_switched b) e (pb_stopped b) (pb_closed b).
Definition set_switched (b : publisher) : publisher :=
  Publisher (pb_committed b) (pb_epoch b) (pb_provider b) (pb_committed b) None (pb_stopped b) (pb_closed b).

(** [progress["identity"]["store_epoch"]] *)
Definition progress_epoch (m : list (string * json)) : json :=
  match field "identity" m with JObj i => field "store_epoch" i | _ => JNull end.

(** What a finished attempt leaves in the publisher. *)
Definition note_result (id : string) (progress : list (string * json)) (p : P) (r : publish_result) (b : publisher)
    : publisher :=
  if pr_committed r
  then
    Publisher (Some id) (progress_epoch progress) (Some p) (if pr_ok r then Some id else pb_switched b)
      (if pr_ok r then None else Some (PublishFailed (pr_error r))) (pb_stopped b) (pb_closed b)
  else if negb (pr_ok r) then set_error (Some (PublishFailed (pr_error r))) b else b.

(** A committed publish whose switch is still to come. *)
Definition switch_pending (b : publisher) : bool :=
  match pb_committed b with Some id => negb (bool_decide (pb_switched b = Some id)) | None => false end.

(** The ready staging that a poll takes up. *)
Definition ready_record (st : staging_status P) : option (string * list (string * json)) :=
  match ss_ready st, ss_progress st with
  | Some id, Some m =>
      if negb (String.eqb id "") && status_in ["ready"] m && str_is id (field "generation_id" m) then Some (id, m) else None
  | _, _ => None
  end.

(** [_cycle]: the publisher, and whether the success hooks were called. *)
Definition publisher_cycle (st : staging_status P) (env : publish_env) (b : publisher) : io (publisher * bool) :=
  if switch_pending b
  then
    a ← of_result (pe_switch env);
    mret (match a with Switched => set_switched b | _ => set_error (Some (SwitchPending a)) b end, false)
  else
    match ready_record st with
    | None => mret (b, false)
    | Some (id, m) =>
        there ← is_there (in_staging id);
        if negb there then mret (b, false)
        else
          r ← publish_locked wreck exn_text env id;
          mret (note_result id m (ss_provider st) r b, pr_ok r)
    end.

(** One turn of [_run]. *)
Definition publisher_turn (st : staging_status P) (env : publish_env) (b : publisher) : io (publisher * bool) :=
  if pb_closed b || pb_stopped b then mret (b, false)
  else rescue (publisher_cycle st env b) (on_any (mret (set_error (Some PublisherFault) b, false))).

(** [request_stop], [start] and [close] *)
Definition publisher_stop (b : publisher) : publisher :=
  Publisher (pb_committed b) (pb_epoch b) (pb_provider b) (pb_switched b) (pb_error b) true (pb_closed b).
Definition publisher_start (b : publisher) : publisher :=
  Publisher (pb_committed b) (pb_epoch b) (pb_provider b) (pb_switched b) (pb_error b) false (pb_closed b).
Definition publisher_close (b : publisher) : publisher :=
  if pb_closed b then b
  else Publisher None (pb_epoch b) (pb_provider b) None (pb_error b) true true.

(** A sequence of turns. *)
Fixpoint publisher_turns (l : list (staging_status P * publish_env)) (b : publisher) : io publisher :=
  match l with
  | [] => mret b
  | (st, env) :: l => r ← publisher_turn st env b; publisher_turns l r.1
  end.
End worker.

(** The answer that the worker of the delta machine gives to a queued switch. *)
Definition answer_of {P V B} (m : machine (P := P) (V := V) (B := B)) : switch_answer :=
  match m_publish_result m with Some None => Switched | Some (Some e) => SwitchFailed e | None => SwitchNoResult end.
