(* ===== verification/PublishSafety.v ===== *)
(** * The publish transaction never loses the served generation

    A Hoare proof over all faults and crash points of [Publish]: whatever fails,
    an active pointer that names a generation names one that is complete under
    [generations/], and the result of an attempt says truthfully whether the
    pointer was replaced. *)

From Stdlib Require Import String.
From stdpp Require Import base list strings gmap.
From S2P Require Import Prelude PyJson OpStore Compat Effects Facts Delta Derived Retention Publish.
Open Scope Z_scope.

Section safety.
Context {G : Type} `{GenerationFiles G} `{IntText} (wreck : container G → container G) (exn_text : derived_exn → string).
Local Notation droot := (droot G).
Local Notation io := (io droot derived_exn).

(** ** What the root promises *)

Definition active_id (k : droot) : option string := pointer_id (read_active_manifest (d_active k)).
Definition servable (k : droot) (i : string) : Prop := ∃ c g, d_gens k !! i = Some c ∧ open_generation i c = Some g.
(** The active pointer, when it is readable, names a complete generation. *)
Definition safe (k : droot) : Prop := ∀ i, active_id k = Some i → servable k i.

Section attempt.
Context (k0 : droot) (id : string).

(** During a publish of [id]: the pointer is the old one or names [id]. *)
Definition ok (k : droot) : Prop := safe k ∧ (d_active k = d_active k0 ∨ active_id k = Some id).
Definition old (k : droot) : Prop := safe k ∧ d_active k = d_active k0.
Definition new (k : droot) : Prop := safe k ∧ active_id k = Some id.

(** What depends on the pointer and the published generations only, and survives
    a container that is moved in. *)
Record closed (I : droot → Prop) : Prop := {
  closed_frame k k' : d_gens k' = d_gens k → d_active k' = d_active k → I k → I k';
  closed_move k c : d_staging k !! id = Some c → d_gens k !! id = None → I k →
    I (set_gens (<[id := c]> (d_gens k)) (set_staging (delete id (d_staging k)) k)) }.

Lemma safe_frame k k' : d_gens k' = d_gens k → d_active k' = d_active k → safe k → safe k'.
Proof. intros Hg Ha Hs i Hi. unfold active_id, servable in *. rewrite Ha in Hi. rewrite Hg. by apply Hs. Qed.

Lemma safe_move k c :
  d_gens k !! id = None → safe k → safe (set_gens (<[id := c]> (d_gens k)) (set_staging (delete id (d_staging k)) k)).
Proof.
  intros Hn Hs i Hi. destruct (Hs i Hi) as (c'&g&Hc&Ho). exists c', g. split; [|done]. simpl.
  rewrite lookup_insert_ne; [done|]. intros <-. congruence.
Qed.

(** Anything said about the pointer alone, next to safety. *)
Lemma closed_pointer (Q : option payload → Prop) : closed (λ k, safe k ∧ Q (d_active k)).
Proof.
  split.
  - intros k k' Hg Ha [Hs HQ]. split; [by eapply safe_frame|by rewrite Ha].
  - intros k c _ Hn [Hs HQ]. split; [by apply safe_move|done].
Qed.

(** ** Calls that leave the pointer alone *)

(** [m] keeps every closed property, and its exceptions satisfy [X]. *)
Definition quiet {A} (X : derived_exn → Prop) (m : io A) : Prop :=
  ∀ J I, closed I → (∀ k, I k → J k) → hoare J I m (λ _, I) (λ e k, I k ∧ X e).

Definition any (_ : derived_exn) : Prop := True.
Definition none (_ : derived_exn) : Prop := False.
Definition plain (e : derived_exn) : Prop := e ≠ AtomicWriteCommitted.

Lemma quiet_use {A} X (m : io A) J I :
  closed I → (∀ k, I k → J k) → quiet X m → hoare J I m (λ _, I) (λ e k, I k ∧ X e).
Proof. auto. Qed.

Lemma quiet_weaken {A} (X Y : derived_exn → Prop) (m : io A) : (∀ e, X e → Y e) → quiet X m → quiet Y m.
Proof.
  intros HXY Hm J I HI HJ. eapply hoare_weaken; [by apply Hm|done|done|]. intros e k [? ?]. auto.
Qed.

Lemma quiet_ret {A} X (a : A) : quiet X (mret a).
Proof. intros J I HI HJ. by apply hoare_ret. Qed.

Lemma quiet_throw {A} (X : derived_exn → Prop) e : X e → quiet X (throw e : io A).
Proof. intros HX J I HI HJ. apply hoare_throw. auto. Qed.

Lemma quiet_bind {A B} X (m : io A) (f : A → io B) : quiet X m → (∀ a, quiet X (f a)) → quiet X (m ≫= f).
Proof.
  intros Hm Hf J I HI HJ. eapply hoare_bind; [by apply Hm|]. intros a. by apply Hf.
Qed.

Lemma quiet_rescue {A} X Y (m : io A) h :
  quiet Y m → (∀ e, Y e → match h e with Some k => quiet X k | None => X e end) → quiet X (rescue m h).
Proof.
  intros Hm Hh J I HI HJ. eapply (hoare_rescue _ _ _ _ _ _ (λ e k, I k ∧ Y e)); [by apply Hm|].
  intros e. destruct (h e) as [w|] eqn:He.
  - apply hoare_pure. intros HY. specialize (Hh e HY). rewrite He in Hh. by apply Hh.
  - intros k [Hk HY]. specialize (Hh e HY). rewrite He in Hh. done.
Qed.

Lemma quiet_finally {A} X (m : io A) c : quiet X m → quiet X c → quiet X (finally_do m c).
Proof.
  intros Hm Hc J I HI HJ.
  eapply (hoare_finally _ _ _ _ _ _ (λ _, I) (λ e k, I k ∧ X e)); [by apply Hm| |].
  - intros _. by apply Hc.
  - intros e. apply hoare_pure. intros HX. eapply hoare_weaken; [by apply (Hc J I)|done| |done]. auto.
Qed.

Lemma quiet_attempt {A} X Y (m : io A) : quiet Y m → quiet X (attempt m).
Proof.
  intros Hm J I HI HJ fault s HP Ht. specialize (Hm J I HI HJ fault s HP Ht). unfold attempt.
  destruct (m fault s) as [[a|e] s']; naive_solver.
Qed.

(** A call that changes neither the generations nor the pointer. *)
Lemma quiet_call {A} (X : derived_exn → Prop) e (f : droot → result derived_exn (A * droot)) :
  X e →
  (∀ k, match f k with Ok (_, k') => d_gens k' = d_gens k ∧ d_active k' = d_active k | Err e' => X e' end) →
  quiet X (call e f).
Proof.
  intros He Hf J I HI HJ. apply hoare_call; [auto|]. intros k Hk. specialize (Hf k).
  destruct (f k) as [[a k']|e']; [|done]. destruct Hf as [Hg Ha].
  assert (I k') by by eapply (closed_frame _ HI). auto.
Qed.

Lemma quiet_look {A} X (f : droot → A) : X OsError → quiet X (look f).
Proof. intros HX. by apply quiet_call. Qed.

Lemma quiet_os {A} X (m v : io A) : quiet (λ e, e = OsError ∨ X e) m → quiet X v → quiet X (rescue m (on_os v)).
Proof.
  intros Hm Hv. eapply quiet_rescue; [exact Hm|]. intros e He. unfold on_os. case_bool_decide; [done|].
  by destruct He.
Qed.

Lemma quiet_any {A} X Y (m v : io A) : quiet Y m → quiet X v → quiet X (rescue m (on_any v)).
Proof. intros Hm Hv. eapply quiet_rescue; [exact Hm|]. intros e _. exact Hv. Qed.

Lemma quiet_of_result {A} (X : derived_exn → Prop) (r : result derived_exn A) :
  (∀ e, r = Err e → X e) → quiet X (of_result r).
Proof. intros Hr. destruct r; [apply quiet_ret|apply quiet_throw; auto]. Qed.
End attempt.

(** ** The quiet operations *)

Section operations.
Context (id : string).
Notation quiet := (quiet id).

(** What a system call may raise. *)
Definition os (e : derived_exn) : Prop := e = OsError.

Lemma quiet_is_there X f : quiet X (is_there f : io bool).
Proof. apply quiet_os; [apply quiet_look; by left|apply quiet_ret]. Qed.

Lemma quiet_fsync (X : derived_exn → Prop) : X OsError → quiet X (fsync_directory : io unit).
Proof.
  intros HX. apply quiet_bind.
  - apply quiet_os; [|apply quiet_ret]. apply quiet_bind; [apply quiet_look; by left|intros _; apply quiet_ret].
  - intros [|]; [by apply quiet_look|apply quiet_ret].
Qed.

Lemma quiet_move_in (X : derived_exn → Prop) : X OsError → quiet X (move_in id : io unit).
Proof.
  intros HX J I HI HJ. apply hoare_call; [auto|]. intros k Hk.
  destruct (d_staging k !! id) as [c|] eqn:Hc; [|auto]. destruct (d_gens k !! id) eqn:Hg; [auto|].
  pose proof (closed_move _ _ HI k c Hc Hg Hk). auto.
Qed.

Lemma quiet_unlink (X : derived_exn → Prop) i : X OsError → quiet X (unlink_parked i : io unit).
Proof. intros HX. apply quiet_call; [done|]. intros k. by destruct (d_parked k !! i). Qed.

Lemma quiet_park (X : derived_exn → Prop) i : X OsError → quiet X (park_progress i : io unit).
Proof.
  intros HX. apply quiet_bind; [apply quiet_os; [apply quiet_unlink; by left|apply quiet_ret]|]. intros _.
  apply quiet_call; [done|]. intros k. destruct (d_staging k !! i) as [c|]; [|done]. by destruct (c_progress c).
Qed.

Lemma quiet_restore (X : derived_exn → Prop) i : X OsError → quiet X (restore_progress i : io unit).
Proof.
  intros HX. apply quiet_call; [done|]. intros k. by destruct (d_parked k !! i), (d_staging k !! i).
Qed.

(** A file replaced atomically that is neither the pointer nor a generation. *)
Lemma quiet_write_atomic X (put : droot → droot) :
  X OsError → X AtomicWriteCommitted → (∀ k, d_gens (put k) = d_gens k ∧ d_active (put k) = d_active k) →
  quiet X (write_atomic put).
Proof.
  intros HX HA Hp. apply quiet_bind; [by apply quiet_look|]. intros _. apply quiet_bind; [by apply quiet_call|]. intros _.
  apply quiet_os; [apply quiet_fsync; by left|by apply quiet_throw].
Qed.

Lemma quiet_load X i : quiet X (load_progress i : io _).
Proof. apply quiet_os; [apply quiet_look; by left|apply quiet_ret]. Qed.

Lemma quiet_write_progress X i m : X OsError → X AtomicWriteCommitted → quiet X (write_progress i m : io unit).
Proof.
  intros HX HA. apply quiet_bind; [apply quiet_call; [done|]; intros k; by destruct (d_staging k !! i)|]. intros t.
  apply quiet_bind; [|intros _; apply quiet_os; [apply quiet_fsync; by left|by apply quiet_throw]].
  eapply (quiet_rescue _ _ os).
  - apply quiet_bind; [by apply quiet_look|]. intros _. by apply quiet_call.
  - intros e He. apply quiet_bind; [|intros _; apply quiet_throw; by rewrite He].
    apply quiet_os; [apply quiet_call; [by left|done]|apply quiet_ret].
Qed.

Lemma quiet_discard i reason : quiet any (discard i reason : io seam).
Proof.
  apply quiet_bind; [apply quiet_load|]. intros p. apply quiet_bind; [|intros _; apply quiet_ret].
  destruct p as [m|]; [|apply quiet_ret]. destruct (status_in _ m); [apply quiet_ret|].
  apply quiet_os; [apply quiet_write_progress; by right|apply quiet_ret].
Qed.

Lemma quiet_block i reason phase events : quiet any (publish_block i reason phase events : io seam).
Proof.
  apply quiet_bind; [apply quiet_load|]. intros [m|]; [|apply quiet_ret]. destruct (status_in _ m); [|apply quiet_ret].
  apply quiet_bind; [|intros _; apply quiet_ret]. apply quiet_os; [|apply quiet_ret].
  apply quiet_write_progress; by right.
Qed.

Lemma quiet_open_container X find i :
  X GenerationRejected → X OsError → quiet X (open_container find i : io generation).
Proof.
  intros Hr Ho. apply quiet_bind; [apply quiet_call; [done|]; intros k; by destruct (find k)|].
  intros _. apply quiet_call; [done|]. intros k. by destruct (find k ≫= open_generation i).
Qed.
Lemma quiet_open_published X i :
  X GenerationRejected → X OsError → quiet X (open_published i : io generation).
Proof. apply quiet_open_container. Qed.

Lemma quiet_verify i gate : quiet any (verify_publishable i gate : io _).
Proof.
  apply quiet_bind; [apply quiet_load|]. intros [m|]; [|by apply quiet_throw].
  destruct (negb _); [by apply quiet_throw|]. apply quiet_bind; [by apply quiet_of_result|]. intros _.
  apply quiet_bind; [|intros _; apply quiet_ret].
  eapply (quiet_rescue _ _ any); [|intros e _; case_bool_decide; [by apply quiet_throw|done]].
  apply quiet_bind; [by apply quiet_park|]. intros _. apply quiet_finally.
  - apply quiet_bind; [|intros _; apply quiet_ret]. by apply quiet_open_container.
  - apply quiet_os; [apply quiet_restore; by left|apply quiet_ret].
Qed.

Lemma quiet_restore_published (X : derived_exn → Prop) : X OsError → quiet X (restore_published id : io unit).
Proof.
  intros HX. apply quiet_bind; [apply quiet_is_there|]. intros published.
  apply quiet_bind; [destruct published; [apply quiet_ret|apply quiet_is_there]|]. intros staged.
  destruct (negb staged); [apply quiet_ret|]. apply quiet_bind; [by apply quiet_look|]. intros _.
  apply quiet_bind; [by apply quiet_move_in|]. intros _. apply quiet_bind; [by apply quiet_fsync|]. intros _.
  by apply quiet_fsync.
Qed.

Lemma quiet_register env fsv X : quiet X (register_retired env id fsv : io unit).
Proof.
  unfold register_retired. destruct (pe_retired env) as [i|]; [|apply quiet_ret]. destruct (_ || _); [apply quiet_ret|].
  apply (quiet_any _ _ any); [|apply quiet_ret]. apply quiet_bind; [by apply quiet_open_published|].
  intros g. by apply quiet_write_atomic.
Qed.

Lemma quiet_schema env : quiet plain (schema_for env : io string).
Proof.
  apply quiet_bind.
  - apply quiet_of_result. intros e. destruct (pe_schema env); by intros [= <-].
  - intros [s|]; [|by apply quiet_throw]. destruct (String.eqb s ""); [by apply quiet_throw|apply quiet_ret].
Qed.

Lemma quiet_staging_delta env : quiet any (staging_delta env id : io unit).
Proof.
  apply quiet_bind.
  - destruct (pe_delta_dir env); [|apply quiet_ret]. apply quiet_os; [|by apply quiet_throw]. by apply quiet_call; [left|].
  - intros _. destruct (pe_delta env) as [[]|[| |]]; [apply quiet_ret|by apply quiet_throw..].
Qed.
End operations.

(** ** The steps of the transaction *)

Section steps.
Context (k0 : droot) (id : string).
Notation quiet := (quiet id).
Notation ok := (ok k0 id).

Lemma closed_and (I : droot → Prop) (Q : option payload → Prop) : closed id I → closed id (λ k, I k ∧ Q (d_active k)).
Proof.
  intros [Hf Hm]. split.
  - intros k k' Hg Ha [Hk HQ]. split; [by eapply Hf|by rewrite Ha].
  - intros k c Hc Hn [Hk HQ]. split; [by apply Hm|done].
Qed.

Lemma ok_closed : closed id ok.
Proof. apply (closed_pointer id (λ p, p = d_active k0 ∨ pointer_id (read_active_manifest p) = Some id)). Qed.
Lemma old_closed : closed id (old k0).
Proof. apply (closed_pointer id (λ p, p = d_active k0)). Qed.
Lemma new_closed : closed id (new id).
Proof. apply (closed_pointer id (λ p, pointer_id (read_active_manifest p) = Some id)). Qed.

Lemma ok_split k : ok k ↔ old k0 k ∨ new id k.
Proof.
  split; [intros [Hs [Ha|Ha]]; [by left|by right]|]. intros [[Hs Ha]|[Hs Ha]]; (split; [done|]); [by left|by right].
Qed.

(** What a read of the pointer tells. *)
Definition told (fails : bool) (b : bool) (p : option payload) : Prop :=
  if b then pointer_id (read_active_manifest p) = Some id
  else fails = true ∨ pointer_id (read_active_manifest p) ≠ Some id.

Lemma read_active_spec J (I : droot → Prop) fails (X : derived_exn → droot → Prop) :
  hoare J I (read_active fails : io pointer_reading) (λ r k, I k ∧ told fails (names id r) (d_active k)) X.
Proof.
  intros fault s HI HJ. simpl. split; [done|]. split; [done|]. unfold told, names. destruct fails; simpl; [by left|].
  case_bool_decide; [done|by right].
Qed.

Lemma quiet_durable : quiet none (rescue (_ ← (fsync_directory : io unit); mret true) (on_os (mret false))).
Proof.
  apply quiet_os; [|apply quiet_ret]. apply quiet_bind; [apply quiet_fsync; by left|intros _; apply quiet_ret].
Qed.

Lemma reconcile_spec J (I : droot → Prop) fails parked :
  closed id I → (∀ k, I k → J k) →
  hoare J I (reconcile fails id parked : io recovered)
    (λ rc k, I k ∧ told fails (rc_referenced rc) (d_active k)) (λ _ k, I k ∧ active_id k = Some id).
Proof.
  intros HI HJ. unfold reconcile. eapply hoare_bind; [by apply (read_active_spec J I)|]. intros r. simpl.
  set (I' := λ k, I k ∧ told fails (names id r) (d_active k)).
  assert (closed id I') as HI' by by apply (closed_and I (told fails (names id r))).
  assert (∀ k, I' k → J k) as HJ' by (intros k [? _]; auto).
  eapply (hoare_bind _ _ _ _ (λ _, I')).
  - destruct (names id r) eqn:Hr.
    + eapply (hoare_weaken J _ I' _ _ (λ _, I') _ (λ e k, I' k ∧ os e)); [|done|done|].
      * apply (quiet_use id); [done|done|]. apply quiet_bind; [by apply quiet_restore_published|]. intros _.
        apply quiet_bind; [destruct parked; [apply quiet_is_there|apply quiet_ret]|]. intros there.
        destruct there; [|apply quiet_ret]. apply quiet_os; [apply quiet_unlink; by left|apply quiet_ret].
      * intros e k [[Hk Ht] _]. done.
    + by apply hoare_ret.
  - intros _. eapply (hoare_bind _ _ _ _ (λ _, I')).
    + eapply hoare_weaken; [by apply (quiet_durable J I')|done|done|]. by intros e k [_ ?].
    + intros durable. eapply (hoare_bind _ _ _ _ (λ _, I')).
      * eapply hoare_weaken; [by apply (quiet_is_there id none _ J I')|done|done|]. by intros e k [_ ?].
      * intros published. by apply hoare_ret.
Qed.

(** Undoing the rename while the pointer is the old one and does not name [id]. *)
Definition undoable (k : droot) : Prop := old k0 k ∧ active_id k ≠ Some id.

Lemma undoable_closed : closed id undoable.
Proof.
  eapply (closed_and (old k0) (λ p, pointer_id (read_active_manifest p) ≠ Some id)). apply old_closed.
Qed.

Lemma roll_back_spec J parked : (∀ k, ok k → J k) →
  hoare J undoable (roll_back id parked : io unit) (λ _, undoable) (λ _ _, False).
Proof.
  intros HJ. assert (∀ k, undoable k → J k) as HJ' by (intros k [? _]; apply HJ, ok_split; by left).
  eapply (hoare_rescue _ _ _ _ _ _ (λ e k, undoable k ∧ os e)).
  - eapply hoare_bind; [eapply hoare_weaken; [apply (quiet_is_there id os _ J undoable); [apply undoable_closed|done]|done|done|done]|].
    intros there. simpl. eapply (hoare_bind _ _ _ _ (λ _, undoable)).
    + destruct there; [|by apply hoare_ret]. eapply (hoare_bind _ _ _ _ (λ _, undoable)).
      * apply hoare_call; [by auto|]. intros k Hk. destruct (d_gens k !! id) as [c|] eqn:Hc; [|by auto].
        destruct (d_staging k !! id); [by auto|].
        set (k' := set_staging _ _). assert (undoable k') as Hk'; [|by auto].
        destruct Hk as [[Hs Hp] Hn]. split; [split; [|done]|done].
        intros i Hi. destruct (Hs i Hi) as (c'&g&Hc'&Ho). exists c', g. split; [|done]. simpl.
        rewrite lookup_delete_ne; [done|]. intros <-. done.
      * intros _. by apply (quiet_fsync id os eq_refl J undoable undoable_closed HJ').
    + intros _. apply (quiet_use id); [apply undoable_closed|done|].
      apply quiet_bind; [destruct parked; [apply quiet_is_there|apply quiet_ret]|]. intros p.
      destruct p; [by apply quiet_restore|apply quiet_ret].
  - intros e. unfold on_os. case_bool_decide as He; [apply hoare_ret; by intros k [? _]|]. by intros k [_ ?].
Qed.

(** A precondition as the starting world. *)
Lemma hoare_at {A} (J P : droot → Prop) (m : io A) Q E :
  (∀ k, P k → hoare J (λ k', k' = k) m Q E) → hoare J P m Q E.
Proof. intros Hm fault s HP HJ. by apply (Hm _ HP). Qed.

Lemma hoare_pre {A} (J P P' : droot → Prop) (m : io A) Q E :
  hoare J P' m Q E → (∀ k, P k → P' k) → hoare J P m Q E.
Proof. intros Hm HP fault s Hs. apply Hm. auto. Qed.

Lemma hoare_attempt {A} (J P : droot → Prop) (m : io A) Q E E' :
  hoare J P m Q E → hoare J P (attempt m) (λ r k, match r with Ok a => Q a k | Err e => E e k end) E'.
Proof.
  intros Hm fault s HP HJ. specialize (Hm fault s HP HJ). unfold attempt. by destruct (m fault s) as [[a|e] s'].
Qed.

(** ** The switch and the sweep *)

Lemma untouched_new r live k k' : untouched (keep_ids (Some id) r) live k k' → new id k → new id k'.
Proof.
  intros [Hg _ _ (Ha&_)] [Hs Hi]. unfold new, active_id in *. rewrite Ha. split; [|done].
  intros i Hi'. unfold active_id in Hi'. rewrite Ha in Hi'. assert (i = id) as -> by congruence.
  destruct (Hs id Hi) as (c&g&Hc&Ho). exists c, g. split; [|done]. rewrite Hg; [done|]. by left.
Qed.

Lemma sweep_new J : (∀ k, ok k → J k) →
  hoare J (new id) (sweep_from_manifests wreck (Some id) None) (λ _, new id) (λ _ _, False).
Proof.
  intros HJ. assert (∀ k, new id k → J k) as HJ' by (intros k ?; apply HJ, ok_split; by right).
  unfold sweep_from_manifests. eapply (hoare_bind _ _ _ _ (λ a k, new id k ∧ a = Some id)); [by apply hoare_ret|].
  intros a. apply hoare_pure. intros ->. eapply (hoare_bind _ _ _ _ (λ _, new id)); [by apply keeps_try, look_keeps|].
  intros r. eapply (hoare_bind _ _ _ _ (λ _, new id)); [by apply keeps_listdir|]. intros live.
  apply hoare_at. intros k Hk. eapply hoare_weaken; [apply (sweep_keeps wreck J (Some id) r live k)| | |done].
  - intros k' Hu. apply HJ'. by eapply untouched_new.
  - intros ? ->. apply untouched_refl.
  - intros ? k' Hu. exact (untouched_new _ _ _ _ Hu Hk).
Qed.

(** What a result says of the pointer. *)
Definition truthful (r : publish_result) (k : droot) : Prop := if pr_committed r then new id k else old k0 k.

Lemma complete_switch_spec J env : (∀ k, ok k → J k) →
  hoare J (new id) (complete_switch wreck env id) truthful (λ _ _, False).
Proof.
  intros HJ. unfold complete_switch. destruct (pe_switch env) as [[| | |]|]; try by apply hoare_ret.
  eapply (hoare_bind _ _ _ _ (λ _, new id)); [|intros _; by apply hoare_ret].
  eapply hoare_rescue; [by apply sweep_new|]. intros e. apply hoare_ret. done.
Qed.

Lemma finish_already_spec J env : (∀ k, ok k → J k) →
  hoare J (old k0) (finish_already_committed wreck env id)
    (λ o k, match o with Some r => truthful r k | None => old k0 k end) (λ _, old k0).
Proof.
  intros HJ. assert (∀ k, old k0 k → J k) as HJ' by (intros k ?; apply HJ, ok_split; by left).
  unfold finish_already_committed. eapply hoare_bind.
  { eapply hoare_weaken; [apply (reconcile_spec J (old k0)); [apply old_closed|done]|done|by intros ? ? ?|].
    by intros e k [? _]. }
  intros rc. simpl. destruct (rc_referenced rc) eqn:Href; simpl; [|apply hoare_ret; by intros k [? _]].
  destruct (rc_consistent rc); simpl; [|apply hoare_ret; by intros k [? _]].
  apply (hoare_pre _ _ (λ k, old k0 k ∧ new id k)); [|by intros k [[Hs Ha] Ht]].
  destruct (negb (rc_durable rc)); [apply hoare_ret; by intros k [_ ?]|].
  destruct (read_facts_identity (pe_first env)) as [[i|]|]; [|apply hoare_ret; by intros k [_ ?]..].
  eapply (hoare_bind _ _ _ _ truthful).
  - eapply hoare_weaken; [by apply complete_switch_spec|by intros k [_ ?]|done|done].
  - intros r. by apply hoare_ret.
Qed.

(** ** The commit *)

(** The pointer is replaced whenever the write reports itself committed. *)
Definition after (e : derived_exn) (k : droot) : Prop := ok k ∧ (e = AtomicWriteCommitted → new id k).

Lemma new_ok k : new id k → ok k.
Proof. intros Hn. apply ok_split. by right. Qed.
Lemma old_ok k : old k0 k → ok k.
Proof. intros Ho. apply ok_split. by left. Qed.

Lemma quiet_plain {A} J (m : io A) : (∀ k, ok k → J k) → quiet plain m → hoare J ok m (λ _, ok) after.
Proof.
  intros HJ Hm. eapply hoare_weaken; [by apply (quiet_use id plain m J ok); [apply ok_closed|..]|done|done|].
  intros e k [Hk He]. by split.
Qed.

Lemma schema_spec J env : (∀ k, ok k → J k) →
  hoare J ok (schema_for env : io string) (λ s k, ok k ∧ s ≠ "") after.
Proof.
  intros HJ. unfold schema_for, of_result. eapply (hoare_bind _ _ _ _ (λ _, ok)).
  - destruct (read_fact_schema_version (pe_schema env)) as [v|e] eqn:Hv; [by apply hoare_ret|]. apply hoare_throw.
    intros k Hk. split; [done|]. intros ->. by destruct (pe_schema env).
  - intros [s|]; [|apply hoare_throw; by intros k]. destruct (String.eqb_spec s ""); [apply hoare_throw; by intros k|].
    by apply hoare_ret.
Qed.

Lemma open_published_spec J : (∀ k, ok k → J k) →
  hoare J ok (open_published id : io generation)
    (λ g k, ok k ∧ ∃ c, d_gens k !! id = Some c ∧ open_generation id c = Some g) after.
Proof.
  intros HJ. eapply (hoare_bind _ _ _ _ (λ _, ok)).
  { apply hoare_call; [by intros k Hk|]. intros k Hk. destruct (d_gens k !! id); by split; auto. }
  intros _. apply hoare_call; [by intros k Hk|]. intros k Hk. destruct (d_gens k !! id) as [c|] eqn:Hc; [|by split].
  simpl. destruct (open_generation id c) as [g|] eqn:Hg; [|by split].
  split_and!; [auto|done|by exists c].
Qed.

Lemma write_active_spec J g fsv now :
  plain_name id → fsv ≠ "" → (∀ k, ok k → J k) →
  hoare J (λ k, ok k ∧ ∃ c, d_gens k !! id = Some c ∧ open_generation id c = Some g)
    (write_active_manifest (compose_active_manifest g (JStr (checkpoint_path id)) (JStr fsv) now))
    (λ _, new id) after.
Proof.
  intros Hplain Hfsv HJ. unfold write_active_manifest, write_atomic. set (a := compose_active_manifest _ _ _ _).
  eapply (hoare_bind _ _ _ _ (λ _ k, ok k ∧ ∃ c, d_gens k !! id = Some c ∧ open_generation id c = Some g)).
  { apply hoare_call; [by intros k [? _]|]. intros k [Hk Hc]. auto. }
  intros _. eapply (hoare_bind _ _ _ _ (λ _, new id)).
  { apply hoare_call; [by intros k [? _]|]. intros k [Hk (c&Hc&Ho)].
    assert (new id (set_active (Some (Parsed (JObj a))) k)) as Hnew; [|by split; [apply HJ, new_ok|]].
    assert (pointer_id (read_active_manifest (Some (Parsed (JObj a)))) = Some id) as Hid.
    { unfold a. rewrite (composed_active_valid id c g fsv now) by done. simpl.
      by apply open_generation_inv in Ho as [-> _]. }
    split; [|done]. intros i Hi. assert (i = id) as -> by (injection (eq_trans (eq_sym Hi) Hid); done).
    by exists c, g. }
  intros _. eapply (hoare_rescue _ _ _ _ _ _ (λ e k, new id k ∧ os e)).
  - apply (quiet_use id); [apply new_closed|intros k ?; by apply HJ, new_ok|]. by apply quiet_fsync.
  - intros e. unfold on_os. case_bool_decide as He; [|by intros k [_ ?]]. apply hoare_throw. intros k [Hk _].
    split; [by apply new_ok|done].
Qed.

Lemma commit_spec J env : plain_name id → (∀ k, ok k → J k) →
  hoare J ok (commit env id) (λ _, new id) after.
Proof.
  intros Hplain HJ. unfold commit.
  eapply hoare_bind; [by apply quiet_plain; [|apply quiet_look]|]. intros ?.
  eapply hoare_bind; [by apply quiet_plain; [|apply quiet_move_in]|]. intros ?.
  eapply hoare_bind; [by apply quiet_plain; [|apply quiet_fsync]|]. intros ?.
  eapply hoare_bind; [by apply quiet_plain; [|apply quiet_fsync]|]. intros ?.
  eapply hoare_bind; [by apply schema_spec|]. intros fsv. apply hoare_pure. intros Hfsv.
  eapply hoare_bind; [by apply quiet_plain; [|apply quiet_register]|]. intros ?.
  eapply hoare_bind; [by apply open_published_spec|]. intros g.
  eapply hoare_bind; [by apply write_active_spec|]. intros ?.
  assert (∀ m : io unit, quiet os m → hoare J (new id) m (λ _, new id) after) as Hnew.
  { intros m Hm. eapply hoare_weaken; [apply (quiet_use id os m J (new id) (new_closed)); [|done]|done|done|].
    - intros k ?. by apply HJ, new_ok.
    - intros e k [Hk ->]. split; [by apply new_ok|done]. }
  eapply hoare_bind; [apply Hnew|intros ?; apply Hnew; by apply quiet_fsync].
  apply quiet_os; [apply quiet_unlink; by left|apply quiet_ret].
Qed.

(** ** The handler *)

Definition outcome (o : option publish_result) (k : droot) : Prop :=
  match o with Some r => truthful r k | None => new id k end.

Lemma commit_failed_spec J env parked e :
  pe_read2 env = false → pe_read3 env = false → (∀ k, ok k → J k) →
  hoare J (after e) (commit_failed exn_text env id parked e) outcome (λ _ _, False).
Proof.
  intros Hr2 Hr3 HJ. unfold commit_failed. case_bool_decide as He.
  - (* the pointer has been replaced *)
    apply (hoare_pre _ _ (new id)); [|intros k [_ Hk]; by apply Hk].
    assert (∀ k, new id k → J k) as HJ' by (intros k ?; by apply HJ, new_ok).
    eapply hoare_bind; [by apply hoare_attempt, (reconcile_spec J (new id)); [apply new_closed|]|].
    intros [rc|e']; cbn beta iota.
    + rewrite orb_true_r. destruct (negb _); apply hoare_ret; by intros k [? _].
    + eapply hoare_bind; [apply (hoare_pre _ _ (new id)); [by apply (read_active_spec J (new id))|by intros k [? _]]|].
      intros r. apply hoare_ret. by intros k [? _].
  - apply (hoare_pre _ _ ok); [|by intros k [? _]].
    assert (∀ why, hoare J undoable (_ ← roll_back id parked; mret (Some (failed false why))) outcome (λ _ _, False)) as Hundo.
    { intros why. eapply hoare_bind; [by apply roll_back_spec|]. intros ?. apply hoare_ret. by intros k [? _]. }
    assert (∀ k, ok k → active_id k ≠ Some id → undoable k) as Hundoable.
    { intros k [Hs [Ha|Ha]] Hn; [|done]. by split. }
    eapply hoare_bind; [by apply hoare_attempt, (reconcile_spec J ok); [apply ok_closed|]|].
    rewrite Hr2. intros [rc|e']; cbn beta iota.
    + rewrite orb_false_r. destruct (rc_referenced rc); cbn [told].
      * destruct (negb _); apply hoare_ret; by intros k [[Hs _] Ha].
      * eapply hoare_pre; [apply Hundo|]. intros k [Hk [?|Ha]]; [done|]. by apply Hundoable.
    + eapply hoare_bind; [apply (hoare_pre _ _ (λ k, ok k ∧ active_id k = Some id)); [|done];
        by apply (read_active_spec J (λ k, ok k ∧ active_id k = Some id)); intros k [? _]; apply HJ|].
      rewrite Hr3. intros r. cbn beta. destruct (names id r); simpl.
      * apply hoare_ret. by intros k [[[Hs _] Ha] _].
      * eapply hoare_pre; [apply Hundo|]. intros k [[Hk Ha] [?|Hn]]; [done|]. done.
Qed.

(** ** One attempt *)

Lemma commit_phase_spec J env :
  plain_name id → pe_read2 env = false → pe_read3 env = false → (∀ k, ok k → J k) →
  hoare J ok (commit_phase exn_text env id) outcome (λ _ _, False).
Proof.
  intros Hplain Hr2 Hr3 HJ. unfold commit_phase.
  eapply hoare_bind; [by apply hoare_attempt, quiet_plain; [|apply quiet_park]|].
  intros [u|e]; cbn beta iota; [|by apply commit_failed_spec].
  eapply hoare_rescue; [|intros e; by apply commit_failed_spec].
  eapply hoare_bind; [by apply commit_spec|]. intros ?. by apply hoare_ret.
Qed.

Lemma publish_locked_spec J env :
  plain_name id → pe_read2 env = false → pe_read3 env = false → (∀ k, ok k → J k) →
  hoare J (old k0) (publish_locked wreck exn_text env id) truthful (λ _, old k0).
Proof.
  intros Hplain Hr2 Hr3 HJ. assert (∀ k, old k0 k → J k) as HJ' by (intros k ?; by apply HJ, old_ok).
  assert (∀ A (m : io A), quiet any m → hoare J (old k0) m (λ _, old k0) (λ _, old k0)) as Hq.
  { intros A m Hm. eapply hoare_weaken; [by apply (quiet_use id any m J (old k0) old_closed)|done|done|].
    by intros e k [? _]. }
  unfold publish_locked. eapply hoare_bind; [by apply finish_already_spec|].
  intros [r|]; cbn beta iota; [by apply hoare_ret|].
  eapply hoare_bind; [apply hoare_attempt, Hq, quiet_verify|]. intros [progress|e]; cbn beta iota.
  2: { eapply hoare_bind; [apply Hq; apply (quiet_any id _ any); [apply quiet_discard|apply quiet_ret]|].
       intros s. by apply hoare_ret. }
  destruct (negb (str_is id (field "generation_id" progress))); [by apply hoare_ret|].
  destruct (read_facts_identity (pe_facts env)) as [[i|]|]; [|by apply hoare_ret..].
  eapply hoare_bind; [apply hoare_attempt, Hq, quiet_staging_delta|]. intros [u|e]; cbn beta iota.
  - eapply (hoare_bind _ _ _ _ outcome).
    + eapply hoare_pre; [|apply old_ok]. eapply hoare_weaken; [by apply commit_phase_spec|done..].
    + intros [r|]; cbn beta iota; [by apply hoare_ret|].
      eapply hoare_weaken; [by apply complete_switch_spec|done|done|done].
  - destruct e; try by apply hoare_throw.
    + by apply hoare_ret.
    + eapply hoare_bind; [apply Hq; apply (quiet_any id _ any); [apply quiet_block|apply quiet_ret]|].
      intros s. by apply hoare_ret.
Qed.
End steps.

(** C20: a publish is crash-safe and truthful as long as the recovery can read the
    pointer file back: from a root whose active pointer names a complete generation,
    whatever else fails and wherever the attempt is stopped, the pointer is the old one or names the published generation, and the
    generation it names is complete under [generations/]; an attempt that reports
    [committed] has replaced the pointer, and one that reports otherwise or raises
    has left it as it was.  When the recovery cannot read the pointer file
    ([pe_read2], [pe_read3]) this fails: see
    [PublishDemo.unreadable_recovery_loses_generation]. *)
Theorem publish_crash_safe env id (k : droot) fault :
  plain_name id → pe_read2 env = false → pe_read3 env = false → safe k →
  let '(r, s) := publish_locked wreck exn_text env id fault (IoState 0 k [k]) in
  Forall (λ k', safe k' ∧ (d_active k' = d_active k ∨ active_id k' = Some id)) (io_world s :: io_trace s) ∧
  match r with
  | Ok res => if pr_committed res then active_id (io_world s) = Some id else d_active (io_world s) = d_active k
  | Err _ => d_active (io_world s) = d_active k
  end.
Proof.
  intros Hplain Hr2 Hr3 Hk.
  pose proof (publish_locked_spec k id (ok k id) env Hplain Hr2 Hr3 (λ _ H, H) fault (IoState 0 k [k])) as Hp.
  destruct (publish_locked _ _ _ _ _ _) as [r s]. destruct Hp as [Ht Hr]; [by split|constructor; [split; [done|by left]|done]|].
  split; [constructor; [|exact Ht]|].
  - destruct r as [res|e]; [|by apply old_ok]. unfold truthful in Hr. destruct (pr_committed res); [by apply new_ok|by apply old_ok].
  - destruct r as [res|e]; [|by destruct Hr]. unfold truthful in Hr. by destruct (pr_committed res), Hr.
Qed.
End safety.
