(* ===== verification/PublishRuns.v ===== *)
(** * What publishing achieves when nothing fails

    The run of an attempt without faults, the publisher worker on top of it, and
    a concrete publish. *)

From Stdlib Require Import String.
From stdpp Require Import base list strings gmap.
From S2P Require Import Prelude PyJson OpStore Compat Effects Facts Delta Derived Retention Publish PublishSafety.
Open Scope Z_scope.

Section runs.
Context {G : Type} `{GenerationFiles G} `{IntText} (wreck : container G → container G) (exn_text : derived_exn → string).
Local Notation droot := (droot G).
Local Notation io := (io droot derived_exn).

Lemma runs_attempt {A} (m : io A) k a k' : runs m k a k' → runs (attempt m) k (Ok a) k'.
Proof. intros Hm n t. destruct (Hm n t) as (s&Hr&Hw). exists s. unfold attempt. by rewrite Hr. Qed.

Lemma runs_look {A} (f : droot → A) k : runs (look f) k (f k) k.
Proof. by apply runs_call. Qed.

Lemma runs_is_there f (k : droot) : runs (is_there f) k (f k) k.
Proof. by apply runs_rescue, runs_look. Qed.

Lemma runs_fsync (k : droot) : runs fsync_directory k tt k.
Proof.
  eapply runs_bind; [apply runs_rescue; eapply runs_bind; [apply runs_look|apply runs_ret]|]. apply runs_look.
Qed.

Lemma runs_write_atomic put (k : droot) : runs (write_atomic put) k tt (put k).
Proof.
  eapply runs_bind; [apply runs_look|]. eapply runs_bind; [by apply runs_call|]. apply runs_rescue, runs_fsync.
Qed.

Lemma runs_finally {A} (m : io A) c k a k1 k2 : runs m k a k1 → runs c k1 tt k2 → runs (finally_do m c) k a k2.
Proof.
  intros Hm Hc n t. destruct (Hm n t) as ([n1 w1 t1]&Hr&Hw). simpl in Hw. subst w1. destruct (Hc n1 t1) as (s2&Hr2&Hw2).
  exists s2. unfold finally_do. by rewrite Hr, Hr2.
Qed.

(** A missing parked record is no error. *)
Lemma runs_unlink id (k : droot) :
  runs (rescue (unlink_parked id) (on_os (mret tt))) k tt (set_parked (delete id (d_parked k)) k).
Proof.
  destruct (d_parked k !! id) eqn:Hp.
  - apply runs_rescue, runs_call. by rewrite Hp.
  - rewrite delete_id by done. intros n t. unfold rescue, unlink_parked, call. simpl. rewrite Hp.
    eexists. split; [reflexivity|]. by destruct k.
Qed.

Lemma runs_open_container find id c g (k : droot) :
  find k = Some c → open_generation id c = Some g → runs (open_container find id) k g k.
Proof.
  intros Hc Hg. eapply runs_bind; [apply (runs_call _ _ k tt k); by rewrite Hc|].
  apply runs_call. rewrite Hc. simpl. by rewrite Hg.
Qed.

Section staged.
Context (id : string) (k : droot) (f : G) (p : payload).
Context (Hstaged : d_staging k !! id = Some (Container f (Some p))).

(** The staging with its record parked. *)
Definition parked_root : droot :=
  set_parked (<[id := p]> (d_parked k)) (set_staging (<[id := Container f None]> (d_staging k)) k).

Lemma runs_park : runs (park_progress id) k tt parked_root.
Proof.
  eapply runs_bind; [apply runs_unlink|]. apply runs_call. simpl. rewrite Hstaged. simpl.
  by rewrite insert_delete_eq.
Qed.

Definition unparked_root : droot := set_parked (delete id (d_parked k)) k.

Lemma runs_restore : runs (restore_progress id) parked_root tt unparked_root.
Proof.
  apply runs_call. simpl. rewrite !lookup_insert_eq. simpl. do 2 f_equal.
  unfold unparked_root, set_parked, set_staging. simpl.
  by rewrite insert_insert_eq, insert_id, delete_insert_eq by done.
Qed.

Lemma runs_dance g : open_generation id (Container f None) = Some g → runs (verify_container_dance id) k tt unparked_root.
Proof.
  intros Hg. eapply runs_bind; [apply runs_park|]. eapply runs_finally.
  - eapply runs_bind; [|apply runs_ret]. eapply runs_open_container; [|exact Hg]. simpl. by rewrite lookup_insert_eq.
  - apply runs_rescue, runs_restore.
Qed.

Lemma runs_verify m g gate :
  usable_progress id (Container f (Some p)) = Some m → status_in ["ready"] m = true →
  gate = Ok tt → open_generation id (Container f None) = Some g → runs (verify_publishable id gate) k m unparked_root.
Proof.
  intros Hu Hs -> Hg. eapply runs_bind.
  { apply runs_rescue, runs_call. simpl. rewrite Hstaged. simpl. by rewrite Hu. }
  cbn beta iota. rewrite Hs. simpl. eapply runs_bind; [apply runs_ret|].
  eapply runs_bind; [by eapply runs_rescue, runs_dance|]. apply runs_ret.
Qed.
End staged.

Lemma runs_read_active fails (k : droot) :
  runs (read_active fails) k (if fails then BadPointer None else read_active_manifest (d_active k)) k.
Proof. intros n t. eexists. split; [reflexivity|done]. Qed.

(** A root whose pointer does not name [id] needs no reconciliation. *)
Lemma runs_reconcile fails id parked (k : droot) :
  active_id k ≠ Some id → runs (reconcile fails id parked) k (Recovered false (in_gens id k) true true) k.
Proof.
  intros Hn. eapply runs_bind; [apply runs_read_active|]. cbn beta.
  assert (names id (if fails then BadPointer None else read_active_manifest (d_active k)) = false) as ->.
  { unfold names. destruct fails; [done|]. by apply bool_decide_eq_false. }
  eapply runs_bind; [apply runs_ret|]. eapply runs_bind.
  { apply runs_rescue. eapply runs_bind; [apply runs_fsync|apply runs_ret]. }
  eapply runs_bind; [apply runs_is_there|apply runs_ret].
Qed.

Lemma runs_not_committed env id (k : droot) :
  active_id k ≠ Some id → runs (finish_already_committed wreck env id) k None k.
Proof. intros Hn. eapply runs_bind; [by apply runs_reconcile|apply runs_ret]. Qed.

(** ** The commit *)

(** What the rollback pointer becomes: the retired generation, if there is one. *)
Definition rollback_after (env : publish_env) (fsv : string) (k : droot) (rb : option payload) : Prop :=
  match pe_retired env with
  | None => rb = d_rollback k
  | Some old => ∃ c g, d_gens k !! old = Some c ∧ open_generation old c = Some g ∧
      rb = Some (Parsed (JObj (compose_rollback_manifest g (JStr (checkpoint_path old)) (JStr fsv) (pe_now_ms env))))
  end.

Definition schema_is (env : publish_env) (fsv : string) : Prop :=
  read_fact_schema_version (pe_schema env) = Ok (Some fsv) ∧ fsv ≠ "".

Lemma runs_schema env fsv (k : droot) : schema_is env fsv → runs (schema_for env) k fsv k.
Proof.
  intros [Hs Hne]. unfold schema_for. rewrite Hs. eapply runs_bind; [apply runs_ret|]. cbn beta iota.
  rewrite (proj2 (String.eqb_neq _ _) Hne). apply runs_ret.
Qed.

Lemma runs_open_published id c g (k : droot) :
  d_gens k !! id = Some c → open_generation id c = Some g → runs (open_published id) k g k.
Proof. intros Hc. by apply (runs_open_container (λ k, d_gens k !! id)). Qed.

Lemma runs_register env id fsv rb (k : droot) :
  d_gens k !! id = None → rollback_after env fsv k rb →
  ∀ k', (∀ old, old ≠ id → d_gens k' !! old = d_gens k !! old) → d_rollback k' = d_rollback k →
  runs (register_retired env id fsv) k' tt (set_rollback rb k').
Proof.
  intros Hid Hrb k' Hk' Hr. unfold register_retired, rollback_after in *. destruct (pe_retired env) as [old|].
  - destruct Hrb as (c&g&Hc&Hg&->). assert (old ≠ id) as Hne by congruence.
    destruct (open_generation_inv _ _ _ Hg) as (_&Hold&_).
    rewrite (proj2 (String.eqb_neq _ _) Hold), (proj2 (String.eqb_neq _ _) Hne). simpl.
    apply runs_rescue. eapply runs_bind; [|apply runs_write_atomic].
    apply (runs_open_published _ c); [by rewrite Hk'|done].
  - rewrite Hrb, <- Hr. destruct k'. apply runs_ret.
Qed.

Definition manifest_of (env : publish_env) (id fsv : string) (g : generation) : list (string * json) :=
  compose_active_manifest g (JStr (checkpoint_path id)) (JStr fsv) (pe_now_ms env).

(** The root after the container has been moved in, and after the commit. *)
Definition moved_root (id : string) (c : container G) (k : droot) : droot :=
  set_gens (<[id := c]> (d_gens k)) (set_staging (delete id (d_staging k)) k).
Definition committed_root (env : publish_env) (id fsv : string) (g : generation) (rb : option payload)
    (c : container G) (k : droot) : droot :=
  set_parked (delete id (d_parked k))
    (set_active (Some (Parsed (JObj (manifest_of env id fsv g)))) (set_rollback rb (moved_root id c k))).

Lemma runs_commit env id c g fsv rb (k : droot) :
  d_staging k !! id = Some c → d_gens k !! id = None → open_generation id c = Some g →
  schema_is env fsv → rollback_after env fsv k rb →
  runs (commit env id) k tt (committed_root env id fsv g rb c k).
Proof.
  intros Hc Hn Hg Hs Hrb. unfold commit. eapply runs_bind; [apply runs_look|]. eapply runs_bind.
  { apply (runs_call _ _ k tt (moved_root id c k)). by rewrite Hc, Hn. }
  eapply runs_bind; [apply runs_fsync|]. eapply runs_bind; [apply runs_fsync|].
  eapply runs_bind; [by apply runs_schema|]. eapply runs_bind.
  { apply (runs_register env id fsv rb k); [done|done| |done]. intros old Hne. simpl. by rewrite lookup_insert_ne. }
  eapply runs_bind; [apply (runs_open_published id c g); [simpl; by rewrite lookup_insert_eq|done]|].
  eapply runs_bind; [apply runs_write_atomic|]. eapply runs_bind; [apply runs_unlink|]. apply runs_fsync.
Qed.

Lemma runs_commit_phase env id f p g fsv rb (k : droot) :
  d_staging k !! id = Some (Container f (Some p)) → d_gens k !! id = None →
  open_generation id (Container f None) = Some g → schema_is env fsv → rollback_after env fsv k rb →
  ∃ k', runs (commit_phase exn_text env id) k None k' ∧
    d_active k' = Some (Parsed (JObj (manifest_of env id fsv g))) ∧ d_rollback k' = rb ∧
    d_gens k' = <[id := Container f None]> (d_gens k) ∧ d_staging k' = delete id (d_staging k) ∧
    d_parked k' = delete id (d_parked k).
Proof.
  intros Hc Hn Hg Hs Hrb. eexists. split.
  { eapply runs_bind; [apply runs_attempt, (runs_park id k f p Hc)|]. cbn beta iota.
    apply runs_rescue. eapply runs_bind; [|apply runs_ret].
    apply (runs_commit env id (Container f None) g fsv rb); [simpl; by rewrite lookup_insert_eq|done|done|done|done]. }
  simpl. by rewrite !delete_insert_eq.
Qed.

(** ** The sweep after the switch *)

Lemma drop_entries_lookup {A} drop (m : gmap string A) i a :
  m !! i = Some a → drop i a = false → drop_entries drop m !! i = Some a.
Proof. intros Hm Hd. by apply map_lookup_filter_Some. Qed.

Lemma drop_entries_none {A} drop (m : gmap string A) i : m !! i = None → drop_entries drop m !! i = None.
Proof. intros Hm. apply map_lookup_filter_None. by left. Qed.

Lemma runs_sweep_after id (k : droot) :
  ∃ k', runs (rescue (sweep_from_manifests wreck (Some id) None) (on_any (mret tt))) k tt k' ∧
    d_active k' = d_active k ∧ d_rollback k' = d_rollback k ∧ d_parked k' = d_parked k ∧
    (∀ i c, i = id ∨ pointer_id (read_rollback_manifest (d_rollback k)) = Some i →
       d_gens k !! i = Some c → d_gens k' !! i = Some c) ∧
    (d_staging k !! id = None → d_staging k' !! id = None).
Proof.
  eexists. split.
  { apply runs_rescue. eapply runs_bind; [apply runs_ret|]. eapply runs_bind; [apply runs_rescue, runs_look|].
    eapply runs_bind; [apply runs_listdir|]. apply runs_retention_sweep. }
  simpl. split_and!; [done..| |by apply drop_entries_none].
  intros i c Hi Hc. apply drop_entries_lookup; [done|]. rewrite bool_decide_true; [done|].
  unfold keep_ids. apply elem_of_app. destruct Hi as [->| ->]; [left|right]; by left.
Qed.

(** ** An attempt without faults *)

Lemma runs_staging_delta env id (k : droot) :
  pe_delta env = Ok tt →
  runs (staging_delta env id) k tt (if pe_delta_dir env then set_delta ({[id]} ∪ d_delta k) k else k).
Proof.
  intros Hd. eapply runs_bind with (k1 := if pe_delta_dir env then set_delta ({[id]} ∪ d_delta k) k else k).
  - destruct (pe_delta_dir env); [by apply runs_rescue, runs_call|apply runs_ret].
  - rewrite Hd. apply runs_ret.
Qed.

(** A staging whose record is ready and whose container verifies. *)
Record publishable (id : string) (k : droot) (f : G) (p : payload) (m : list (string * json)) (g : generation) : Prop := {
  pu_staged : d_staging k !! id = Some (Container f (Some p));
  pu_progress : usable_progress id (Container f (Some p)) = Some m;
  pu_ready : status_in ["ready"] m = true;
  pu_opens : open_generation id (Container f None) = Some g;
  pu_absent : d_gens k !! id = None }.

Lemma usable_progress_names id (c : container G) m : usable_progress id c = Some m → str_is id (field "generation_id" m) = true.
Proof.
  unfold usable_progress. destruct (staging_progress id c) as [m'|] eqn:Hp; [|done]. destruct (_ && _); [|done].
  intros [= ->]. revert Hp. unfold staging_progress. destruct (c_progress c) as [[|[| | | | | |x]]|]; try done.
  destruct (_ && _) eqn:Hc; [|done]. intros [= ->]. bool_to_prop. done.
Qed.

(** A ready staging is published: when its checks pass and nothing fails, the
    attempt succeeds, the active pointer is the manifest composed over the staged
    generation, the container is complete under [generations/] and gone from
    [staging/], its record is removed, and the rollback pointer names the retired
    generation, which the sweep has kept. *)
Theorem ready_staging_is_published env id f p m g fsv rb i (k : droot) :
  publishable id k f p m g → active_id k ≠ Some id →
  pe_gate env = Ok tt → pe_delta env = Ok tt → pe_switch env = Ok Switched →
  read_facts_identity (pe_facts env) = Ok (Some i) → schema_is env fsv → rollback_after env fsv k rb →
  ∃ k', runs (publish_locked wreck exn_text env id) k (PublishResult true true None SeamNone) k' ∧
    d_active k' = Some (Parsed (JObj (manifest_of env id fsv g))) ∧ d_rollback k' = rb ∧
    d_gens k' !! id = Some (Container f None) ∧ d_staging k' !! id = None ∧ d_parked k' !! id = None ∧
    ∀ old c, pe_retired env = Some old → d_gens k !! old = Some c → d_gens k' !! old = Some c.
Proof.
  intros [Hst Hpr Hready Hopen Habs] Hn Hgate Hdelta Hsw Hid Hschema Hrb.
  set (k1 := unparked_root id k). set (k2 := if pe_delta_dir env then set_delta ({[id]} ∪ d_delta k1) k1 else k1).
  assert (d_staging k2 = d_staging k ∧ d_gens k2 = d_gens k ∧ d_rollback k2 = d_rollback k ∧ d_parked k2 = delete id (d_parked k))
    as (H1&H2&H3&H4) by (unfold k2; by destruct (pe_delta_dir env)).
  destruct (runs_commit_phase env id f p g fsv rb k2) as (k3&Hrun&Ha3&Hr3&Hg3&Hs3&Hp3); [congruence|congruence|done|done| |].
  { unfold rollback_after in *. destruct (pe_retired env); rewrite ?H2, ?H3; done. }
  destruct (runs_sweep_after id k3) as (k4&Hsweep&Ha4&Hr4&Hp4&Hkeep&Hgone).
  exists k4. split_and!.
  - eapply runs_bind; [by apply runs_not_committed|]. cbn beta iota. eapply runs_bind.
    { apply runs_attempt. by eapply (runs_verify id k f p Hst m g). }
    cbn beta iota. rewrite (usable_progress_names _ _ _ Hpr). cbn [negb]. rewrite Hid. eapply runs_bind.
    { apply runs_attempt, runs_staging_delta, Hdelta. }
    cbn beta iota. eapply runs_bind; [exact Hrun|]. cbn beta iota. unfold complete_switch. rewrite Hsw.
    eapply runs_bind; [exact Hsweep|]. apply runs_ret.
  - congruence.
  - congruence.
  - apply Hkeep; [by left|]. by rewrite Hg3, lookup_insert_eq.
  - apply Hgone. by rewrite Hs3, lookup_delete_eq.
  - by rewrite Hp4, Hp3, lookup_delete_eq.
  - intros old c Hold Hc. unfold rollback_after in Hrb. rewrite Hold in Hrb. destruct Hrb as (c'&g'&Hc'&Hg'&Hrb).
    apply Hkeep.
    + right. rewrite Hr3, Hrb, (composed_rollback_valid old c' g' fsv _ Hg') by apply Hschema. simpl.
      by apply open_generation_inv in Hg' as [-> _].
    + rewrite Hg3, lookup_insert_ne; [congruence|]. intros <-. congruence.
Qed.

(** An attempt that the facts refuse before the commit leaves the staging as
    it was: without a usable schema version the container is moved in and back,
    its record is restored, and only the directory of the checkpoint and a stale
    parked record make a difference. *)
Theorem refused_publish_restores_staging env id f p m g i (k : droot) :
  publishable id k f p m g → active_id k ≠ Some id → pe_gate env = Ok tt → pe_delta env = Ok tt →
  read_facts_identity (pe_facts env) = Ok (Some i) →
  read_fact_schema_version (pe_schema env) = Ok None →
  ∃ r, runs (publish_locked wreck exn_text env id) k r
         (set_parked (delete id (d_parked k)) (if pe_delta_dir env then set_delta ({[id]} ∪ d_delta k) k else k)) ∧
    pr_ok r = false ∧ pr_committed r = false.
Proof.
  intros [Hst Hpr Hready Hopen Habs] Hn Hgate Hdelta Hid Hschema.
  set (k1 := unparked_root id k). set (k2 := if pe_delta_dir env then set_delta ({[id]} ∪ d_delta k1) k1 else k1).
  assert (d_staging k2 = d_staging k ∧ d_gens k2 = d_gens k ∧ d_active k2 = d_active k) as (H1&H2&H3)
    by (unfold k2; by destruct (pe_delta_dir env)).
  set (k3 := parked_root id k2 f p). set (k4 := moved_root id (Container f None) k3).
  assert (raises (commit env id) k3 (PublishError "schema version missing") k4) as Hfail.
  { unfold commit. eapply runs_then_raises; [apply runs_look|]. eapply runs_then_raises.
    { apply (runs_call _ _ k3 tt k4). change (d_gens k3) with (d_gens k2). rewrite H2, Habs. simpl. by rewrite lookup_insert_eq, <- H2. }
    eapply runs_then_raises; [apply runs_fsync|]. eapply runs_then_raises; [apply runs_fsync|].
    apply raises_bind. unfold schema_for. rewrite Hschema. eapply runs_then_raises; [apply runs_ret|]. apply raises_throw. }
  assert (runs (commit_phase exn_text env id) k2
            (Some (failed false (ManifestWriteFailed (exn_text (PublishError "schema version missing")))))
            (set_parked (delete id (d_parked k)) (if pe_delta_dir env then set_delta ({[id]} ∪ d_delta k) k else k)))
    as Hphase.
  { eapply runs_bind; [apply runs_attempt, (runs_park id k2 f p); by rewrite H1|]. cbn beta iota.
    eapply runs_rescued; [by apply raises_bind|reflexivity|].
    eapply runs_bind; [apply runs_attempt, (runs_reconcile _ _ _ k4); unfold active_id; simpl; by rewrite H3|].
    cbn beta iota. eapply runs_bind; [|apply runs_ret]. apply runs_rescue.
    eapply runs_bind; [apply runs_is_there|]. unfold in_gens at 1. simpl. rewrite lookup_insert_eq. cbn beta iota.
    eapply runs_bind.
    { eapply runs_bind; [|apply runs_fsync]. apply runs_call. simpl. rewrite lookup_insert_eq, lookup_delete_eq. reflexivity. }
    cbn beta iota. eapply runs_bind; [apply runs_is_there|]. unfold is_parked. simpl. rewrite lookup_insert_eq. cbn beta iota.
    apply runs_call. simpl. rewrite !lookup_insert_eq. do 2 f_equal.
    unfold set_parked, set_staging, set_gens, k2, k1, unparked_root.
    destruct (pe_delta_dir env); simpl;
      by rewrite delete_insert_id, !delete_insert_eq, insert_insert_eq, insert_delete_eq, insert_id, delete_delete_eq. }
  exists (failed false (ManifestWriteFailed (exn_text (PublishError "schema version missing")))). split; [|done].
  eapply runs_bind; [by apply runs_not_committed|]. cbn beta iota. eapply runs_bind.
  { apply runs_attempt. by eapply (runs_verify id k f p Hst m g). }
  cbn beta iota. rewrite (usable_progress_names _ _ _ Hpr). cbn [negb]. rewrite Hid. eapply runs_bind.
  { apply runs_attempt, runs_staging_delta, Hdelta. }
  cbn beta iota. eapply runs_bind; [exact Hphase|]. apply runs_ret.
Qed.
End runs.

(** ** The publisher worker *)

Section worker.
Context {G P V B : Type} `{GenerationFiles G} `{Vectors P V B} `{IntText} (wreck : container G → container G).
Context (exn_text : derived_exn → string).
Local Notation droot := (droot G).

(** The environment's answer is that of the delta worker to the pending switch of
    [b], at a time when the facts are not of epoch [e]. *)
Definition answered_elsewhere (id e : string) (p : P) (env : publish_env) : Prop :=
  ∃ lk opened d (m : machine (P := P) (V := V) (B := B)) i,
    read_facts_identity (lk_identity lk) = Ok i ∧ (∀ e' c, i = Some (e', c) → e' ≠ e) ∧
    pe_switch env = Ok (answer_of (perform_publish_switch lk opened d (PendingPublish id p e) m).2).

Lemma stale_switch_refused id e p env :
  answered_elsewhere id e p env → pe_switch env = Ok (SwitchFailed EpochChanged).
Proof.
  intros (lk&opened&d&m&i&Hi&Hne&->). unfold perform_publish_switch. rewrite Hi.
  destruct i as [[e' c]|]; simpl; [|done]. by rewrite (proj2 (String.eqb_neq _ _) (Hne e' c eq_refl)).
Qed.

(** A publish whose switch is pending when the store epoch passes blocks the
    publisher for good: the worker refuses the old epoch on every retry, so along
    any sequence of turns, whatever stagings are ready and whatever fails, the
    derived root is not touched and the pending publish stays. *)
Theorem stale_commit_blocks_publishing id e p (turns : list (staging_status P * publish_env)) (b : publisher P) fault k n t :
  pb_committed b = Some id → pb_switched b ≠ Some id →
  Forall (λ turn, answered_elsewhere id e p turn.2) turns →
  ∃ b', publisher_turns wreck exn_text turns b fault (IoState n k t) = (Ok b', IoState n (k : droot) t) ∧
    pb_committed b' = Some id ∧ pb_switched b' = pb_switched b.
Proof.
  intros Hc Hs. revert b Hc Hs. induction turns as [|[st env] turns IH]; intros b Hc Hs Hall; [by exists b|].
  inversion_clear Hall as [|? ? Hans Hrest]. apply stale_switch_refused in Hans. simpl in Hans.
  assert (∃ b1, publisher_turn wreck exn_text st env b fault (IoState n k t) = (Ok (b1, false), IoState n k t) ∧
                pb_committed b1 = Some id ∧ pb_switched b1 = pb_switched b) as (b1&Hturn&Hc1&Hs1).
  { unfold publisher_turn. destruct (pb_closed b || pb_stopped b); [by exists b|].
    unfold publisher_cycle, switch_pending. rewrite Hc, bool_decide_false by done. simpl. rewrite Hans.
    eexists. split; [reflexivity|]. by split. }
  destruct (IH b1) as (b'&Hrun&Hc'&Hs'); [done|congruence|done|].
  exists b'. split; [|split; [done|congruence]]. cbn [publisher_turns]. unfold mbind, io_bind. rewrite Hturn. exact Hrun.
Qed.
End worker.
