(* ===== verification/PublishDemo.v ===== *)
(** * A concrete publish

    A root that serves ["g0"], with ["g1"] ready in staging: the publish, a
    refused publish, a pending switch whose epoch has passed, and the double fault
    that the safety theorem excludes.  The witnesses of [PublishSafety] and
    [PublishRuns] use it. *)

From Stdlib Require Import String.
From stdpp Require Import base list strings gmap.
From S2P Require Import Prelude PyJson OpStore Compat Effects Facts Delta DeltaDemo Derived Retention Publish PublishSafety PublishRuns.
Open Scope Z_scope.

Definition demo_progress (id : string) : list (string * json) :=
  [("progress_version", JStr STAGING_PROGRESS_VERSION); ("generation_id", JStr id); ("status", JStr "ready");
   ("total_rows", JInt 0); ("rows_fingerprint", JStr ""); ("identity", JObj [("store_epoch", JStr "e1")]);
   ("chunks", JList [])].

Definition demo_root : droot json :=
  DRoot {[ "g0" := demo_container "g0" None ]}
    {[ "g1" := demo_container "g1" (Some (Parsed (JObj (demo_progress "g1")))) ]} ∅ {[ "g0" ]}
    (Some (Parsed (JObj (compose_active_manifest (demo_generation "g0") (JStr (checkpoint_path "g0")) (JStr "1") 0))))
    None [].

Definition demo_store : facts_db := new_store "e1" 10 [("fact_schema_version", JStr "1")].
Definition demo_env (schema : facts_view) (unreadable : bool) (a : switch_answer) : publish_env :=
  PublishEnv (Ok tt) (Store demo_store) (Store demo_store) schema (Ok tt) true (Some "g0") 5 false unreadable false (Ok a).
Definition demo_text (e : derived_exn) : string := "error".
Definition demo_publish (env : publish_env) (fault : nat → bool) :=
  publish_locked (λ c, c) demo_text env "g1" fault (IoState 0 demo_root [demo_root]).

Definition good_env : publish_env := demo_env (Store demo_store) false Switched.

Example demo_publishes :
  let '(r, s) := demo_publish good_env (λ _, false) in
  r = Ok (PublishResult true true None SeamNone) ∧ active_id (io_world s) = Some "g1" ∧
  pointer_id (read_rollback_manifest (d_rollback (io_world s))) = Some "g0".
Proof. by vm_compute. Qed.

(** How many calls the attempt makes. *)
Definition demo_calls : nat := io_count (demo_publish good_env (λ _, false)).2.

(** The pointer is replaced, then the last sync fails and the pointer cannot be
    read: the attempt reports that nothing was committed and moves the container
    that the pointer names out of [generations/]. *)
Example unreadable_recovery_loses_generation :
  let '(r, s) := demo_publish (demo_env (Store demo_store) true Switched) (λ n, Nat.eqb n 32) in
  match r with Ok res => pr_committed res = false | Err _ => False end ∧
  active_id (io_world s) = Some "g1" ∧ d_gens (io_world s) !! "g1" = None.
Proof. by vm_compute. Qed.

(** ** Witnesses *)

Lemma demo_safe : safe demo_root.
Proof.
  intros i Hi. assert (i = "g0") as -> by (vm_compute in Hi; by injection Hi as <-).
  exists (demo_container "g0" None), (demo_generation "g0"). split; [vm_compute; reflexivity|]. apply demo_opens. discriminate.
Qed.

Lemma demo_publishable :
  publishable "g1" demo_root (demo_manifest "g1") (Parsed (JObj (demo_progress "g1"))) (demo_progress "g1") (demo_generation "g1").
Proof. split; vm_compute; reflexivity. Qed.

Lemma publish_crash_safe_witness :
  let '(r, s) := demo_publish good_env (λ n, Nat.eqb n 32) in
  Forall (λ k', safe k' ∧ (d_active k' = d_active demo_root ∨ active_id k' = Some "g1")) (io_world s :: io_trace s) ∧
  match r with
  | Ok res => if pr_committed res then active_id (io_world s) = Some "g1" else d_active (io_world s) = d_active demo_root
  | Err _ => d_active (io_world s) = d_active demo_root
  end.
Proof.
  apply (publish_crash_safe (λ c, c) demo_text good_env "g1" demo_root (λ n, Nat.eqb n 32));
    [exact demo_plain|reflexivity|reflexivity|exact demo_safe].
Defined.

Definition demo_rollback : payload :=
  Parsed (JObj (compose_rollback_manifest (demo_generation "g0") (JStr (checkpoint_path "g0")) (JStr "1") 5)).

Lemma ready_staging_witness :
  ∃ k', runs (publish_locked (λ c, c) demo_text good_env "g1") demo_root (PublishResult true true None SeamNone) k' ∧
    d_active k' = Some (Parsed (JObj (manifest_of good_env "g1" "1" (demo_generation "g1")))) ∧
    d_rollback k' = Some demo_rollback ∧
    d_gens k' !! "g1" = Some (Container (demo_manifest "g1") None) ∧ d_staging k' !! "g1" = None ∧
    d_parked k' !! "g1" = None ∧
    ∀ old c, pe_retired good_env = Some old → d_gens demo_root !! old = Some c → d_gens k' !! old = Some c.
Proof.
  eapply (ready_staging_is_published (λ c, c) demo_text good_env "g1").
  - exact demo_publishable.
  - vm_compute. discriminate.
  - reflexivity.
  - reflexivity.
  - reflexivity.
  - vm_compute. reflexivity.
  - split; [vm_compute; reflexivity|discriminate].
  - exists (demo_container "g0" None), (demo_generation "g0").
    split; [vm_compute; reflexivity|]. split; [apply demo_opens; discriminate|reflexivity].
Defined.

(** The facts have no schema version. *)
Definition refused_env : publish_env := demo_env (Store demo_db0) false Switched.

Lemma refused_publish_witness :
  ∃ r, runs (publish_locked (λ c, c) demo_text refused_env "g1") demo_root r
         (set_parked (delete "g1" (d_parked demo_root)) (set_delta ({["g1"]} ∪ d_delta demo_root) demo_root)) ∧
    pr_ok r = false ∧ pr_committed r = false.
Proof.
  eapply (refused_publish_restores_staging (λ c, c) demo_text refused_env "g1").
  - exact demo_publishable.
  - vm_compute. discriminate.
  - reflexivity.
  - reflexivity.
  - vm_compute. reflexivity.
  - vm_compute. reflexivity.
Defined.

(** The publish of ["g1"] was committed under the epoch ["e0"], which has passed. *)
Definition stale_publisher : publisher unit := Publisher (Some "g1") (JStr "e0") (Some tt) None None false false.
Definition stale_answer : switch_answer :=
  answer_of (perform_publish_switch (demo_looks demo_db1) None demo_d2 (PendingPublish "g1" tt "e0") demo_m2).2.
Definition stale_turn : staging_status unit * publish_env :=
  (StagingStatus (Some "g2") (Some (demo_progress "g2")) tt, demo_env (Store demo_store) false stale_answer).

Lemma stale_commit_witness :
  ∃ b', publisher_turns (λ c, c) demo_text [stale_turn; stale_turn] stale_publisher (λ _, false) (IoState 0 demo_root []) =
          (Ok b', IoState 0 demo_root []) ∧
    pb_committed b' = Some "g1" ∧ pb_switched b' = None.
Proof.
  apply (stale_commit_blocks_publishing (λ c, c) demo_text "g1" "e0" tt).
  - reflexivity.
  - discriminate.
  - assert (answered_elsewhere "g1" "e0" tt stale_turn.2) as Ha; [|constructor; [exact Ha|constructor; [exact Ha|constructor]]].
    exists (demo_looks demo_db1), None, demo_d2, demo_m2, (Some ("e1", (20, 0))). split; [vm_compute; reflexivity|].
    split; [intros e' c Hc; injection Hc as <- _; discriminate|reflexivity].
Defined.
