(* ===== verification/Build.v ===== *)
(** * Building and opening generations: [src/daemon/generation.py]

    The build core that the one-shot builder and the staging worker share: the
    target of a snapshot with its content-addressed id, the chunked vector file,
    the row metadata, the oracle probes and the manifest; [build_generation] on
    top of it; and the checks of [open_generation] on the bytes of the three
    files, which implement the interface [GenerationFiles] of [Derived]. *)

From Stdlib Require Import SpecFloat Ascii String.
From stdpp Require Import base list strings gmap pretty.
From S2P Require Import Prelude Bytes Float64 PyJson OpStore Compat Effects Facts TextMatch Oracle Delta Derived Retention Publish.
Open Scope Z_scope.

(** What the builder uses of the standard library and the system: [json.loads],
    the format [%.17g], that a SHA-256 digest is not the empty string, and how many
    bytes one [os.write] takes. *)
Class BuildLib `{PyStdlib} := {
  sha256_nonempty s : sha256_hex s ≠ "";
  loads : string → option json;
  format_17g : float → string;
  accepts : string → nat;
  accepts_some s : s ≠ "" → (0 < accepts s)%nat }.

(** The loaded conversion tables ([TextMatch.load_t2s]), one per process. *)
Class Dictionary := { dictionary : t2s }.

(** ** Constants and exceptions *)

Definition BUILD_VERSION : string := "shadow-generation-builder-v1".
Definition PROGRESS_VERSION : string := "shadow-generation-progress-v1".
Definition GENERATION_ID_PREFIX : string := "shadow-gen-v1".
Definition PROJECTION_VERSION : string := "delta-schema-v1+generation-manifest-v1".
Definition PROBE_COUNT : nat := 4.
Definition PROBE_PARAMS : oracle_params := OracleParams fzero 8 (S754_infinity false) fone.
(** The binary64 number next to 0.001. *)
Definition UNIT_NORM_TOLERANCE : float := S754_finite false 4611686018427388 (-62).
Definition GENERATION_FILES : gset string := {["manifest.json"; "metadata.json"; "vectors.fp32"]}.

(** The exceptions of the file operations; [BuildError] and its subclasses; and
    every other exception ([OracleError], [KeyError], ...). *)
Inductive build_exn :=
| Disk (e : derived_exn) | BuildError (why : string) | TargetExists | EpochChanged
| BuildBlocked (why : string) (events : list string) (phase : string) | BuildProgress (why : string)
| OtherFault.
#[export] Instance build_exn_eq_dec : EqDecision build_exn.
Proof. solve_decision. Defined.

(** [except BuildError] *)
Definition is_build_error (e : build_exn) : bool := match e with Disk _ | OtherFault => false | _ => true end.

(** ** Rows and the target *)

(** [RepresentationProvider]; [None]: the call raises. *)
Record provider := Provider {
  representation_id : string; vector_dimension : Z; event_vector : stored_event → option (list float);
  is_candidate_conditioned : bool; query_vector : string → option (list float);
  query_vector_for_candidate : string → string → option (list float) }.

(** [_validate_event] of [generation.py]; unlike that of [delta.py] it does not
    look at the commit. *)
Definition _validate_event (e : stored_event) : option string :=
  if String.eqb (ev_id e) "" then Some "empty event_id"
  else
    match List.find (λ kv : string * string, String.eqb kv.2 "")
            [("schema_id", ev_schema e); ("canonical_segment_input", ev_input e);
             ("category", ev_category e); ("final_selection_text", ev_text e)] with
    | Some (label, _) => Some ("empty or non-string " +:+ label)
    | None => if (0 <=? (ev_hlc e).1) && (0 <=? (ev_hlc e).2) then None else Some "invalid HLC"
    end.

(** [_validate_vector] of floats. *)
Definition vector_norm (v : list float) : float := fsqrt (py_sum ((λ x, fmul x x) <$> v)).
Definition _validate_vector (v : list float) (dimension : Z) : option string :=
  if negb (Z.of_nat (length v) =? dimension) then Some "dimension"
  else if negb (forallb is_finite v) then Some "non-finite vector value"
  else
    let norm := vector_norm v in
    if negb (is_finite norm) || feqb norm fzero then Some "zero-norm vector"
    else if fltb UNIT_NORM_TOLERANCE (SFabs (fsub norm fone)) then Some "L2 norm is not unit" else None.

(** Objects are written with their keys in order, as [_canonical_json] dumps
    them. *)
Notation obj := (list (string * json)).
Definition hlc_json (h : hlc) : json := JList [JInt h.1; JInt h.2].

Definition _metadata_row `{Unicode} (e : stored_event) : obj :=
  let '(schema, category, input) := event_key e in
  [("candidate", JStr (ev_text e)); ("choice_problem_key", JList [JStr schema; JStr category; JStr input]);
   ("event_id", JStr (ev_id e)); ("hlc", hlc_json (ev_hlc e))].

Definition row_fields : list string := ["candidate"; "choice_problem_key"; "event_id"; "hlc"].

Section target.
Context `{PyStdlib} `{Unicode}.

(** [_rows_fingerprint] *)
Definition _rows_fingerprint (rows : list obj) : string :=
  sha256_hex (dumps (JList ((λ r, JObj ((λ k, (k, field k r)) <$> row_fields)) <$> rows))).

(** [_compose_generation_id] *)
Definition _compose_generation_id (identity : obj) (fingerprint : string) : string :=
  GENERATION_ID_PREFIX +:+ ":" +:+
  str_take 32 (sha256_hex (dumps (JObj identity) +:+ String zero fingerprint)).

Record target := Target { t_rows : list obj; t_fingerprint : string; t_identity : obj; t_id : string }.

(** The first event that does not validate blocks. *)
Fixpoint target_rows (events : list stored_event) : result build_exn (list obj) :=
  match events with
  | [] => Ok []
  | e :: events =>
      match _validate_event e with
      | Some why => Err (BuildBlocked why [ev_id e] "parse")
      | None => rows ← target_rows events; Ok (_metadata_row e :: rows)
      end
  end.

Definition target_identity (p : provider) (epoch : string) (source : hlc) (projection_version index_fingerprint : string)
    (rebuild_tag : option string) (backend : string) (params : obj) : obj :=
  [("builder_version", JStr BUILD_VERSION); ("index_fingerprint", JStr index_fingerprint);
   ("projection_version", JStr projection_version)] ++
  match rebuild_tag with Some t => [("rebuild_tag", JStr t)] | None => [] end ++
  [("representation_id", JStr (representation_id p)); ("retrieval_backend", JStr backend);
   ("retrieval_params", JObj params); ("source_hlc", hlc_json source); ("store_epoch", JStr epoch);
   ("vector_dimension", JInt (vector_dimension p)); ("vector_format", JStr FP32_ROW_MAJOR_LE)].

(** [_prepare_target] *)
Definition _prepare_target (events : list stored_event) (p : provider) (epoch : string) (source : hlc)
    (projection_version : string) (index_fingerprint : option string) (rebuild_tag : option string)
    (backend : string) (params : obj) : result build_exn target :=
  if negb (bool_decide (backend ∈ SUPPORTED_BACKENDS)) then Err (BuildError "unsupported retrieval backend")
  else
    rows ← target_rows events;
    let fingerprint := _rows_fingerprint rows in
    index ← match index_fingerprint with
            | Some i => Ok i
            | None => match compose_backend_fingerprint backend params with Ok i => Ok i | Err _ => Err OtherFault end
            end;
    let identity := target_identity p epoch source projection_version index rebuild_tag backend params in
    Ok (Target rows fingerprint identity (_compose_generation_id identity fingerprint)).
End target.

(** ** The snapshot *)

Section snapshot.
Context `{IntText}.

(** [_read_snapshot]; the reads of one transaction see one state, so its second
    look at the identity cannot differ from the first. *)
Definition _read_snapshot (v : facts_view) (as_of : option hlc) : result build_exn (string * hlc * list stored_event) :=
  match v with
  | NoStore => Err (BuildError "fact store not found")
  | StoreFault => Err (BuildError "fact store read failed")
  | Store db =>
      match meta_identity db with
      | Err _ => Err (BuildError "fact store identity is incomplete")
      | Ok (epoch, clock) =>
          let as_of := default clock as_of in
          Ok (epoch, as_of, read_active_events db as_of)
      end
  end.

(** [_check_identity_unchanged] *)
Definition _check_identity_unchanged (v : facts_view) (epoch : string) (source : hlc) : result build_exn unit :=
  i ← _read_snapshot v None;
  if bool_decide (i.1 = (epoch, source)) then Ok tt else Err EpochChanged.
End snapshot.

(** ** Probes *)

(** A fixed query of the manifest; the vectors are those of the candidates when
    the representation depends on the candidate. *)
Record probe := Probe {
  pr_schema : string; pr_category : string; pr_input : string; pr_candidates : list string;
  pr_vector : list float; pr_vectors : option (list (list float)) }.

Definition floats_json (v : list float) : json := JList (JFloat <$> v).
Definition probe_json (p : probe) (results : string) : json :=
  JObj ([("candidates", JList (JStr <$> pr_candidates p)); ("canonical_segment_input", JStr (pr_input p));
         ("category", JStr (pr_category p)); ("query_vector", floats_json (pr_vector p))] ++
        match pr_vectors p with Some vs => [("query_vectors", JList (floats_json <$> vs))] | None => [] end ++
        [("results_fingerprint", JStr results); ("schema_id", JStr (pr_schema p))]).

(** [float(v)] of a JSON number *)
Definition as_float (v : json) : option float :=
  match v with JFloat f => Some f | JInt z => Some (float_of_Z z) | JBool b => Some (float_of_Z (Z.b2z b)) | _ => None end.
Definition as_string (v : json) : option string := match v with JStr s => Some s | _ => None end.
(** [list(v)] *)
Definition as_list (v : json) : option (list json) :=
  match v with
  | JList l => Some l
  | JStr s => Some (JStr <$> chars s)
  | JObj m => Some (JStr <$> obj_keys m)
  | _ => None
  end.
Definition as_floats (v : json) : option (list float) := l ← as_list v; mapM as_float l.

(** What [_compute_probe] makes of a recorded probe; [None] is an exception. *)
Definition probe_of_json (v : json) : option probe :=
  match v with
  | JObj m =>
      schema ← as_string (field "schema_id" m);
      input ← as_string (field "canonical_segment_input" m);
      candidates ← as_list (field "candidates" m) ≫= mapM as_string;
      category ← as_string (default (JStr "word") (obj_get "category" m));
      vectors ← match field "query_vectors" m with
                | JNull => Some None
                | v => Some <$> (l ← as_list v; mapM as_floats l)
                end;
      vector ← (if truthy (field "query_vector" m) then as_floats (field "query_vector" m)
                else vs ← vectors; head vs);
      Some (Probe schema category input candidates vector vectors)
  | _ => None
  end.

Definition probe_params_json (p : oracle_params) : json :=
  JObj [("half_life", JFloat (half_life p)); ("k_evidence", JInt (k_evidence p));
        ("saturation_k", JFloat (saturation_k p)); ("tau", JFloat (tau p))].
(** [_probe_params_from_dict]; numbers that are recorded as strings, and a
    [k_evidence] that is a float, are refused here. *)
Definition probe_params_of_json (v : json) : option oracle_params :=
  match v with
  | JObj m =>
      t ← as_float (field "tau" m);
      k ← match field "k_evidence" m with JInt z => Some z | JBool b => Some (Z.b2z b) | _ => None end;
      h ← as_float (field "half_life" m);
      s ← as_float (field "saturation_k" m);
      Some (OracleParams t k h s)
  | _ => None
  end.

(** A vector file: rows, dimension and bytes; [vector(row)]. *)
Record vector_file := VectorFile { vf_rows : nat; vf_dimension : Z; vf_bytes : string }.
Definition row_bytes (dimension : Z) : nat := Z.to_nat (dimension * 4).
Definition vf_vector (f : vector_file) (row : nat) : option (list float) :=
  if (row <? vf_rows f)%nat
  then Some (unpack_row (Z.to_nat (vf_dimension f))
               (slice (row * row_bytes (vf_dimension f)) (row_bytes (vf_dimension f)) (vf_bytes f)))
  else None.
(** [_VectorFile(path, rows, dimension)] of a file with these bytes. *)
Definition open_vectors (rows : nat) (dimension : Z) (bytes : string) : option vector_file :=
  if (0 <? rows)%nat && negb (Z.of_nat (String.length bytes) =? Z.of_nat rows * (dimension * 4)) then None
  else Some (VectorFile rows dimension bytes).

Section probes.
Context `{PyStdlib} `{BuildLib} `{Unicode} `{Libm} `{Dictionary}.

(** [_probe_results_fingerprint] *)
Definition result_lines (r : oracle_result) : list string :=
  ["same_key_active=" +:+ pretty (or_same_key r); "total_mass=" +:+ format_17g (or_total_mass r)] ++
  imap (λ i c, "candidate=" +:+ pretty i +:+ ":m=" +:+ format_17g c.1 +:+ ":s=" +:+ format_17g c.2) (or_candidates r) ++
  ((λ c, "kept=" +:+ ev_id (ct_event c) +:+ ":cos=" +:+ format_17g (ct_cosine c) +:+ ":r=" +:+ format_17g (ct_relevance c) +:+
         ":age=" +:+ pretty (ct_age c) +:+ ":d=" +:+ format_17g (ct_factor c) +:+ ":a=" +:+ format_17g (ct_weight c) +:+
         ":match=" +:+ match ct_matched c with Some i => pretty i | None => "-1" end) <$> or_kept r).
Definition newline : string := String (ascii_of_nat 10) "".
Definition _probe_results_fingerprint (r : oracle_result) : string := sha256_hex (join newline (result_lines r)).

Definition row_index_of (ids : list string) : gmap string nat := dict_of (imap (λ i id, (id, i)) ids).

(** [_compute_probe] *)
Definition probe_query (p : probe) (as_of : hlc) : oracle_query :=
  OracleQuery (pr_schema p) (pr_input p) (pr_candidates p) (pr_vector p) (pr_category p) (Some as_of) ∅ (pr_vectors p).
Definition _compute_probe (p : probe) (events : list stored_event) (vectors : string → option (list float))
    (params : oracle_params) (as_of : hlc) : result build_exn oracle_result :=
  let q := probe_query p as_of in
  if negb (query_ok q) then Err OtherFault
  else match compute_evidence dictionary vectors None (projection_reader events) params q with
       | Ok r => Ok r
       | Err _ => Err OtherFault
       end.

Definition row_vectors (f : vector_file) (index : gmap string nat) (id : string) : option (list float) :=
  index !! id ≫= vf_vector f.
End probes.

(** ** The manifest *)

Section manifest.
Context `{PyStdlib}.

(** [_compose_manifest] of the files' contents; [manifest_obj files] is the
    manifest with these file entries. *)
Definition manifest_obj (chunks : list json) (files : obj) (id : string) (identity : obj) (probes : json)
    (count : nat) (fingerprint : string) : obj :=
  [("chunks", JList chunks); ("files", JObj files); ("generation_id", JStr id); ("identity", JObj identity);
   ("manifest_version", JStr MANIFEST_VERSION); ("probes", probes);
   ("rows", JObj [("count", JInt (Z.of_nat count)); ("fingerprint", JStr fingerprint)])].
Definition file_entry (size : nat) (sha : string) : json := JObj [("sha256", JStr sha); ("size", JInt (Z.of_nat size))].
Definition data_entries (metadata : string) (vectors_size : nat) (vectors_sha : string) : obj :=
  [("metadata.json", file_entry (String.length metadata) (sha256_hex metadata));
   ("vectors.fp32", file_entry vectors_size vectors_sha)].
Definition _compose_manifest (identity : obj) (id fingerprint : string) (count : nat) (chunks : list json) (probes : json)
    (metadata : string) (vectors_size : nat) (vectors_sha : string) : obj :=
  let files := data_entries metadata vectors_size vectors_sha in
  let m files := manifest_obj chunks files id identity probes count fingerprint in
  m (("manifest.json", JObj [("sha256", JStr (sha256_hex (dumps (JObj (m files)))))]) :: files).

Definition metadata_json (rows : list obj) : json := JList (imap (λ i r, JObj (r ++ [("row", JInt (Z.of_nat i))])) rows).
End manifest.

(** ** Reopening: [open_generation] *)

(** [isinstance(v, int)], as a number *)
Definition as_int (v : json) : option Z :=
  match v with JInt z => Some z | JBool b => Some (Z.b2z b) | _ => None end.
Definition nonempty_strings (v : json) (n : nat) : bool :=
  match v with JList l => (length l =? n)%nat && forallb is_nonempty_str l | _ => false end.

(** Directory entries other than the progress record, by name. *)
Notation dir := (gmap string string).

Section reopen.
Context `{PyStdlib} `{BuildLib} `{Unicode} `{Libm} `{Dictionary}.

Definition reject {A} (why : string) : result build_exn A := Err (Disk GenerationRejected).
Definition require (b : bool) (why : string) : result build_exn unit := if b then Ok tt else reject why.

(** The three entries of [manifest.files], then size and checksum of the two
    data files, and the checksum of the manifest without its own entry. *)
Definition entry_ok (files : obj) (name : string) : bool :=
  match field name files with JObj e => is_nonempty_str (field "sha256" e) | _ => false end.
Definition file_matches (files : obj) (name content : string) : bool :=
  match field name files with
  | JObj e =>
      py_eq_int (field "size" e) (Z.of_nat (String.length content)) && str_is (sha256_hex content) (field "sha256" e)
  | _ => false
  end.
Definition self_checksum (m files : obj) : string :=
  sha256_hex (dumps (JObj ((λ kv, if String.eqb kv.1 "files"
                                  then (kv.1, JObj (filter (λ kv, kv.1 ≠ "manifest.json") files)) else kv) <$> m))).
Definition _verify_files (m : obj) (metadata vectors : string) : result build_exn unit :=
  match field "files" m with
  | JObj files =>
      _ ← require (bool_decide (list_to_set (obj_keys files) = GENERATION_FILES)) "files must cover exactly";
      _ ← require (forallb (entry_ok files) ["manifest.json"; "metadata.json"; "vectors.fp32"]) "files malformed";
      _ ← require (file_matches files "metadata.json" metadata) "metadata.json mismatch";
      _ ← require (file_matches files "vectors.fp32" vectors) "vectors.fp32 mismatch";
      require (match field "manifest.json" files with JObj e => str_is (self_checksum m files) (field "sha256" e) | _ => false end)
        "self-checksum mismatch"
  | _ => reject "files must cover exactly"
  end.

(** [_verify_rows] *)
Definition row_ok (index : nat) (row : json) : bool :=
  match row with
  | JObj r =>
      py_eq_int (field "row" r) (Z.of_nat index) && is_nonempty_str (field "event_id" r) &&
      nonempty_strings (field "choice_problem_key" r) 3 && is_nonempty_str (field "candidate" r) && hlc_pair (field "hlc" r)
  | _ => false
  end.
Definition row_obj (row : json) : obj := match row with JObj r => r | _ => [] end.
Definition row_id (row : json) : string := match field "event_id" (row_obj row) with JStr s => s | _ => "" end.
Definition _verify_rows (m : obj) (metadata : json) : result build_exn (list json) :=
  match field "rows" m, metadata with
  | JObj r, JList rows =>
      match as_int (field "count" r) with
      | Some count =>
          _ ← require ((0 <=? count) && is_nonempty_str (field "fingerprint" r)) "rows malformed";
          _ ← require (Z.of_nat (length rows) =? count) "row count";
          _ ← require (forallb (λ ir, row_ok ir.1 ir.2) (imap pair rows)) "row malformed";
          _ ← require (bool_decide (NoDup (row_id <$> rows))) "duplicate event_id";
          _ ← require (str_is (_rows_fingerprint (row_obj <$> rows)) (field "fingerprint" r)) "rows fingerprint mismatch";
          Ok rows
      | None => reject "rows malformed"
      end
  | _, _ => reject "rows malformed"
  end.

(** [_verify_chunks]; [expected]: the rows covered so far. *)
Fixpoint _verify_chunks (rows : Z) (dimension : Z) (vectors : string) (chunks : list json) (expected : Z)
    : result build_exn unit :=
  match chunks with
  | [] => require (expected =? rows) "chunks cover"
  | JObj c :: chunks =>
      match as_int (field "start_row" c), as_int (field "end_row" c) with
      | Some s, Some e =>
          _ ← require ((0 <=? s) && (s <? e) && (e <=? rows) && (s =? expected)) "row range invalid";
          _ ← require (py_eq_int (field "bytes" c) ((e - s) * (dimension * 4))) "byte count mismatch";
          _ ← require (is_nonempty_str (field "sha256" c)) "checksum missing";
          let data := slice (Z.to_nat (s * (dimension * 4))) (Z.to_nat ((e - s) * (dimension * 4))) vectors in
          _ ← require (str_is (sha256_hex data) (field "sha256" c)) "checksum mismatch";
          _verify_chunks rows dimension vectors chunks e
      | _, _ => reject "row range invalid"
      end
  | _ :: _ => reject "chunk malformed"
  end.

(** [_verify_vectors] *)
Definition _verify_vectors (f : vector_file) : result build_exn unit :=
  require (forallb (λ row, match vf_vector f row with
                           | Some v => bool_decide (_validate_vector v (vf_dimension f) = None)
                           | None => false
                           end) (seq 0 (vf_rows f))) "vector".

(** The events the container itself gives to the oracle. *)
Definition key_part (i : nat) (row : json) : string :=
  match field "choice_problem_key" (row_obj row) with
  | JList l => match l !! i with Some (JStr s) => s | _ => "" end
  | _ => ""
  end.
Definition row_hlc (row : json) : hlc :=
  match field "hlc" (row_obj row) with JList [a; b] => (default 0 (as_int a), default 0 (as_int b)) | _ => (0, 0) end.
Definition row_event (row : json) : stored_event :=
  StoredEvent (row_id row) "" (key_part 0 row) (key_part 2 row) (key_part 1 row)
    (match field "candidate" (row_obj row) with JStr s => s | _ => "" end) (row_hlc row) "".

(** [_verify_probes]; an exception of the oracle counts as a rejection. *)
Definition probe_ok (events : list stored_event) (vectors : string → option (list float)) (params : oracle_params)
    (source : hlc) (v : json) : bool :=
  match probe_of_json v with
  | Some p =>
      match _compute_probe p events vectors params source with
      | Ok r => match v with JObj m => str_is (_probe_results_fingerprint r) (field "results_fingerprint" m) | _ => false end
      | Err _ => false
      end
  | None => false
  end.
Definition _verify_probes (m : obj) (events : list stored_event) (vectors : string → option (list float)) (source : hlc)
    : result build_exn unit :=
  match field "probes" m with
  | JObj p =>
      match field "items" p, probe_params_of_json (field "params" p) with
      | JList items, Some params =>
          _ ← require (params_ok params) "probe params malformed";
          _ ← require (length items <=? PROBE_COUNT `min` length events)%nat "unexpected probe count";
          require (forallb (probe_ok events vectors params source) items) "probe results fingerprint mismatch"
      | _, _ => reject "probes malformed"
      end
  | _ => reject "probes malformed"
  end.

(** What follows the identity checks. *)
Definition verify_contents (m : obj) (files : dir) : result build_exn unit :=
  match field "identity" m, files !! "metadata.json", files !! "vectors.fp32" with
  | JObj i, Some metadata, Some vectors =>
      let dimension := default 1 (as_int (field "vector_dimension" i)) in
      _ ← _verify_files m metadata vectors;
      match loads metadata with
      | None => reject "metadata: cannot read/parse"
      | Some md =>
          rows ← _verify_rows m md;
          let count := length rows in
          _ ← match field "chunks" m with
              | JList chunks => _verify_chunks (Z.of_nat count) dimension vectors chunks 0
              | _ => reject "chunks must be a list"
              end;
          _ ← require (Z.of_nat (String.length vectors) =? Z.of_nat count * (dimension * 4)) "vectors: file size";
          _ ← require (str_is (_compose_generation_id i (_rows_fingerprint (row_obj <$> rows))) (field "generation_id" m))
                "generation_id does not match the bound identity";
          let f := VectorFile count dimension vectors in
          _ ← _verify_vectors f;
          let index := row_index_of (row_id <$> rows) in
          _verify_probes m (row_event <$> rows) (row_vectors f index)
            (match field "source_hlc" i with JList [a; b] => (default 0 (as_int a), default 0 (as_int b)) | _ => (0, 0) end)
      end
  | _, _, _ => reject "missing file"
  end.

Definition dir_manifest (files : dir) : payload :=
  match files !! "manifest.json" ≫= loads with Some v => Parsed v | None => Unreadable end.
Definition dir_intact (files : dir) : bool :=
  bool_decide (dom files = GENERATION_FILES) &&
  match dir_manifest files with
  | Parsed (JObj m) => match verify_contents m files with Ok _ => true | Err _ => false end
  | _ => false
  end.

(** A name no entry of the directory has, as [mkstemp] picks one. *)
Fixpoint letters (n : nat) : string := match n with O => "" | S n => String "a" (letters n) end.
Definition longest_name (files : gmap string string) : nat := foldr Nat.max 0%nat (String.length <$> (map_to_list files).*1).
Definition temp_name (files : dir) : string := ".tmp-" +:+ letters (longest_name files).
Lemma temp_name_fresh files : files !! temp_name files = None.
Proof.
  destruct (files !! temp_name files) as [s|] eqn:E; [|done]. exfalso. apply elem_of_map_to_list in E.
  assert (String.length (temp_name files) <= longest_name files)%nat as Hl.
  { unfold longest_name. revert E. generalize (temp_name files).
    assert (∀ l t, (t, s) ∈ l → (String.length t <= foldr Nat.max 0%nat (String.length <$> l.*1))%nat) as Hl;
      [|intros t; apply (Hl (map_to_list files))].
    intros l t. induction l as [|[n x] l IH]; [by intros ?%elem_of_nil|].
    intros [[= -> ->]|E]%elem_of_cons; cbn [fmap list_fmap foldr fst]; [lia|]. specialize (IH E). lia. }
  assert (∀ n, String.length (letters n) = n) as Hn by (intros n; induction n as [|n IH]; simpl; congruence).
  unfold temp_name in Hl. rewrite str_length_app, Hn in Hl. simpl in Hl. lia.
Qed.

#[global] Program Instance dir_files : GenerationFiles dir := {|
  gf_manifest := dir_manifest; gf_intact := dir_intact;
  gf_temp_name := temp_name; gf_put_temp t files := <[t := ""]> files; gf_unlink_temp t files := delete t files |}.
Next Obligation.
  intros files. apply delete_insert_id, temp_name_fresh.
Qed.
End reopen.

(** ** Files of a staging directory *)

Section building.
Context `{PyStdlib} `{BuildLib} `{Unicode} `{Libm} `{IntText} `{Dictionary}.
Local Notation container := (container dir).
Local Notation droot := (droot dir).
Local Notation io := (io droot build_exn).

(** Operations of [Retention] and [Publish], with their exceptions. *)
Definition disk {A} (m : Effects.io droot derived_exn A) : io A := λ fault s,
  let '(r, s') := m fault s in (match r with Ok a => Ok a | Err e => Err (Disk e) end, s').
Definition of_build {A} (r : result build_exn A) : io A := match r with Ok a => mret a | Err e => throw e end.

Definition file_at (id name : string) (k : droot) : option string := c ← d_staging k !! id; c_files c !! name.
Definition put_file (id name content : string) : droot → droot :=
  alter_staging id (λ c, Some (Container (<[name := content]> (c_files c)) (c_progress c))).

(** [os.open] with [O_CREAT | O_EXCL]. *)
Definition create_file (id name : string) : io unit :=
  disk (call OsError (λ k,
    match d_staging k !! id, file_at id name k with
    | Some _, None => Ok (tt, put_file id name "" k)
    | _, _ => Err OsError
    end)).

(** The loop of [os.write] at the end of the file; every call takes some of the
    bytes ([accepts_some]), so the length of the data bounds the calls. *)
Fixpoint write_all (fuel : nat) (id name rest : string) : io unit :=
  match fuel with
  | O => mret tt
  | S fuel =>
      if String.eqb rest "" then mret tt
      else
        _ ← disk (change (λ k, put_file id name (default "" (file_at id name k) +:+ str_take (accepts rest) rest) k));
        write_all fuel id name (str_drop (accepts rest) rest)
  end.

(** [_write_file] *)
Definition _write_file (id name content : string) : io unit :=
  _ ← create_file id name;
  _ ← write_all (String.length content) id name content;
  disk (look (λ _, tt)).

(** A file that must be there. *)
Definition open_file (id name : string) : io unit :=
  disk (call OsError (λ k, match file_at id name k with Some _ => Ok (tt, k) | None => Err OsError end)).
Definition read_file (id name : string) : io string :=
  disk (call OsError (λ k, match file_at id name k with Some s => Ok (s, k) | None => Err OsError end)).
Definition is_file (id name : string) : io bool := disk (is_there (λ k, bool_decide (is_Some (file_at id name k)))).

(** [os.ftruncate]: a shorter file is filled with zeros. *)
Fixpoint zeros (n : nat) : string := match n with O => "" | S n => String zero (zeros n) end.
Definition truncate_file (id name : string) (size : nat) : io unit :=
  disk (change (λ k, let s := default "" (file_at id name k) in
                     put_file id name (str_take size s +:+ zeros (size - String.length s)) k)).

(** ** The chunks *)

(** The bytes of one batch; [src] is the provider's [event_vector] or the reuse
    source. *)
Fixpoint embed_rows (src : stored_event → option (list float)) (dimension : Z) (events : list stored_event)
    : result build_exn string :=
  match events with
  | [] => Ok ""
  | e :: events =>
      match src e with
      | None => Err (BuildBlocked "representation error" [ev_id e] "vector")
      | Some v =>
          match _validate_vector v dimension with
          | Some why => Err (BuildBlocked ("dirty vector: " +:+ why) [ev_id e] "vector")
          | None =>
              match pack_row v with
              | None => Err OtherFault
              | Some b => rest ← embed_rows src dimension events; Ok (b +:+ rest)
              end
          end
      end
  end.

Definition chunk_record (start stop : Z) (bytes : string) : json :=
  JObj [("bytes", JInt (Z.of_nat (String.length bytes))); ("end_row", JInt stop); ("sha256", JStr (sha256_hex bytes));
        ("start_row", JInt start)].
Definition progress_chunks (m : obj) : list json := match field "chunks" m with JList l => l | _ => [] end.
Definition add_chunk (record : json) (m : obj) : obj := set_field "chunks" (JList (progress_chunks m ++ [record])) m.

(** The loop over the chunks.  [pending]: the events from row [start] on;
    [content]: the bytes the running digest covers; every turn takes at least one
    event, so their number bounds the turns. *)
Fixpoint chunk_loop (fuel : nat) (id : string) (src : stored_event → option (list float)) (dimension : Z)
    (chunk_rows : nat) (start : Z) (pending : list stored_event) (progress : obj) (content : string)
    (limit : option nat) (written : list json) : io (list json * string) :=
  match fuel, pending, limit with
  | O, _, _ | _, [], _ | _, _, Some O => mret (written, content)
  | S fuel, _, _ =>
      let batch := take chunk_rows pending in
      bytes ← of_build (embed_rows src dimension batch);
      _ ← write_all (String.length bytes) id "vectors.fp32" bytes;
      let stop := start + Z.of_nat (length batch) in
      let record := chunk_record start stop bytes in
      let progress := add_chunk record progress in
      _ ← disk (write_progress id progress);
      _ ← disk (look (λ _, tt));
      chunk_loop fuel id src dimension chunk_rows stop (drop chunk_rows pending) progress (content +:+ bytes)
        (pred <$> limit) (written ++ [record])
  end.

(** [_build_chunks] *)
Definition _build_chunks (id : string) (events : list stored_event) (src : stored_event → option (list float))
    (dimension : Z) (chunk_rows : nat) (progress : obj) (start : Z) (prefix : string) (limit : option nat)
    : io (list json * string) :=
  _ ← (if start =? 0 then create_file id "vectors.fp32" else open_file id "vectors.fp32");
  _ ← (if 0 <? start then truncate_file id "vectors.fp32" (Z.to_nat (start * (dimension * 4))) else mret tt);
  let pending := drop (Z.to_nat start) events in
  chunk_loop (length pending) id src dimension chunk_rows start pending progress prefix limit [].

(** [_verify_progress_chunks]: the next row and the verified prefix. *)
Fixpoint verified_prefix (dimension : Z) (content : string) (chunks : list json) (next : Z) (prefix : string)
    : result build_exn (Z * string) :=
  match chunks with
  | [] => Ok (next, prefix)
  | JObj c :: chunks =>
      match as_int (field "start_row" c), as_int (field "end_row" c) with
      | Some s, Some e =>
          if negb ((0 <=? s) && (s <? e) && (s =? next)) then Err (BuildProgress "row range invalid")
          else if negb (py_eq_int (field "bytes" c) ((e - s) * (dimension * 4))) then Err (BuildProgress "byte count mismatch")
          else if negb (is_nonempty_str (field "sha256" c)) then Err (BuildProgress "checksum missing")
          else
            let size := Z.to_nat ((e - s) * (dimension * 4)) in
            let data := slice (Z.to_nat (s * (dimension * 4))) size content in
            if negb (String.length data =? size)%nat then Err (BuildProgress "truncated")
            else if negb (str_is (sha256_hex data) (field "sha256" c)) then Err (BuildProgress "checksum mismatch")
            else verified_prefix dimension content chunks e (prefix +:+ data)
      | _, _ => Err (BuildProgress "row range invalid")
      end
  | _ :: _ => Err (BuildProgress "not an object")
  end.
Definition _verify_progress_chunks (id : string) (progress : obj) (dimension : Z) : io (Z * string) :=
  match field "chunks" progress with
  | JList [] => mret (0, "")
  | JList chunks =>
      _ ← rescue (open_file id "vectors.fp32")
            (λ e, if bool_decide (e = Disk OsError) then Some (throw (BuildProgress "cannot open")) else None);
      content ← read_file id "vectors.fp32";
      of_build (verified_prefix dimension content chunks 0 "")
  | _ => throw (BuildProgress "progress chunks are not a list")
  end.

(** ** Metadata, probes, manifest *)

Definition metadata_text (rows : list obj) : string := dumps (metadata_json rows).
Definition _write_metadata (id : string) (rows : list obj) : io unit := _write_file id "metadata.json" (metadata_text rows).

(** The probe of one event; its candidates are the recorded competition. *)
Definition probe_of_event (p : provider) (competition : string → list string) (e : stored_event)
    : result build_exn probe :=
  let candidates := match competition (ev_id e) with [] => [ev_text e] | l => l end in
  let blocked := BuildBlocked "probe query vector" [ev_id e] "probe" in
  if is_candidate_conditioned p
  then
    match mapM (query_vector_for_candidate p (ev_preceding e)) candidates with
    | Some (v :: vs) => Ok (Probe (ev_schema e) (ev_category e) (ev_input e) candidates v (Some (v :: vs)))
    | _ => Err blocked
    end
  else
    match query_vector p (ev_preceding e) with
    | Some v => Ok (Probe (ev_schema e) (ev_category e) (ev_input e) candidates v None)
    | None => Err blocked
    end.

Definition probe_item (events : list stored_event) (vectors : string → option (list float)) (params : oracle_params)
    (source : hlc) (p : probe) : result build_exn json :=
  r ← _compute_probe p events vectors params source;
  Ok (probe_json p (_probe_results_fingerprint r)).

(** [_compute_probes] over the bytes of the vector file; [competition] is the
    table of candidates of the store [v]. *)
Definition compute_probes (v : facts_view) (p : provider) (competition : string → list string)
    (events : list stored_event) (vectors : string) (dimension : Z) (params : oracle_params) (source : hlc)
    : result build_exn json :=
  match open_vectors (length events) dimension vectors with
  | None => Err (Disk GenerationRejected)
  | Some f =>
      match v with
      | Store _ =>
          let source_vectors := row_vectors f (row_index_of (ev_id <$> events)) in
          items ← mapM (λ e, q ← probe_of_event p competition e; probe_item events source_vectors params source q)
                    (take PROBE_COUNT events);
          Ok (JObj [("items", JList items); ("params", probe_params_json params)])
      | _ => Err (BuildError "fact store")
      end
  end.
Definition _compute_probes (id : string) (v : facts_view) (p : provider) (competition : string → list string)
    (events : list stored_event) (dimension : Z) (params : oracle_params) (source : hlc) : io json :=
  vectors ← read_file id "vectors.fp32";
  of_build (compute_probes v p competition events vectors dimension params source).

(** The sizes and the checksum of the metadata are read back from the disk. *)
Definition write_manifest (id : string) (t : target) (chunks : list json) (probes : json) (vectors_sha : string) : io unit :=
  metadata ← read_file id "metadata.json";
  vectors ← read_file id "vectors.fp32";
  _ ← _write_file id "manifest.json"
        (dumps (JObj (_compose_manifest (t_identity t) (t_id t) (t_fingerprint t) (length (t_rows t)) chunks probes
                        metadata (String.length vectors) vectors_sha)));
  disk fsync_directory.

(** ** [build_generation] *)

Definition progress_record (version id status : string) (rest : obj) : obj :=
  [("progress_version", JStr version); ("generation_id", JStr id); ("status", JStr status)] ++ rest.
Definition _mark_blocked (id : string) (events : list string) (why phase : string) : io unit :=
  disk (write_progress id (progress_record PROGRESS_VERSION id "blocked"
    [("total_rows", JNull); ("chunks", JList []); ("blocked_events", JList (JStr <$> events)); ("reason", JStr why);
     ("phase", JStr phase)])).
Definition _mark_discarded (id why : string) : io unit :=
  disk (write_progress id (progress_record PROGRESS_VERSION id "discarded"
    [("total_rows", JNull); ("chunks", JList []); ("reason", JStr why)])).

(** [except BuildBlockedError]: mark and raise again. *)
Definition marking_blocked {A} (id : string) (m : io A) : io A :=
  rescue m (λ e, match e with
                 | BuildBlocked why events phase => Some (_ ← _mark_blocked id events why phase; throw e)
                 | _ => None
                 end).

(** [os.makedirs(staging_dir)] *)
Definition make_staging (id : string) : io unit :=
  disk (call OsError (λ k, match d_staging k !! id with
                           | None => Ok (tt, set_staging (<[id := Container ∅ None]> (d_staging k)) k)
                           | Some _ => Err OsError
                           end)).
(** [os.unlink(progress.json)], ignoring errors *)
Definition drop_progress (id : string) : io unit :=
  disk (rescue (change (alter_staging id (λ c, Some (Container (c_files c) None)))) (on_os (mret tt))).

(** What a build is given; the facts are read three times: for the snapshot, for
    the probes and for the final identity check. *)
Record build_env := BuildEnv {
  be_snapshot : facts_view; be_probes : facts_view; be_competition : string → list string; be_final : facts_view }.

Definition build_generation (env : build_env) (p : provider) (chunk_rows : Z) (params : oracle_params)
    (backend : string) (retrieval_params : obj) : io generation :=
  _ ← of_build (if chunk_rows <? 1 then Err (BuildError "chunk_rows") else Ok tt);
  _ ← of_build (if String.eqb (representation_id p) "" then Err (BuildError "representation_id") else Ok tt);
  _ ← of_build (if vector_dimension p <? 1 then Err (BuildError "vector_dimension") else Ok tt);
  _ ← of_build (if bool_decide (backend ∈ SUPPORTED_BACKENDS) then Ok tt else Err (BuildError "backend"));
  snapshot ← of_build (_read_snapshot (be_snapshot env) None);
  let '(epoch, source, events) := snapshot in
  t ← of_build (_prepare_target events p epoch source PROJECTION_VERSION None None backend retrieval_params);
  let id := t_id t in
  published ← disk (is_there (in_gens id));
  staged ← (if published : bool then throw TargetExists else disk (is_there (in_staging id)));
  _ ← (if staged : bool then throw TargetExists else mret tt);
  _ ← make_staging id;
  let progress := progress_record PROGRESS_VERSION id "running"
                    [("total_rows", JInt (Z.of_nat (length (t_rows t)))); ("chunks", JList [])] in
  _ ← disk (write_progress id progress);
  built ← marking_blocked id (_build_chunks id events (event_vector p) (vector_dimension p) (Z.to_nat chunk_rows) progress 0 "" None);
  _ ← _write_metadata id (t_rows t);
  probes ← marking_blocked id (_compute_probes id (be_probes env) p (be_competition env) events (vector_dimension p) params source);
  _ ← write_manifest id t built.1 probes (sha256_hex built.2);
  _ ← drop_progress id;
  _ ← disk (open_staged id);
  _ ← rescue (of_build (_check_identity_unchanged (be_final env) epoch source))
        (λ e, match e with
              | EpochChanged => Some (_ ← _mark_discarded id "store epoch or watermark changed during the build"; throw e)
              | _ => None
              end);
  _ ← disk (look (λ _, tt));
  _ ← disk (move_in id);
  _ ← disk fsync_directory;
  _ ← disk fsync_directory;
  disk (open_published id).
End building.
