(* ===== verification/BuildTheorems.v ===== *)
(** * What the builder writes, and that it opens

    [build_files] is the container of a target as a pure function of the snapshot
    and the provider.  The checks of [open_generation] accept it. *)

From Stdlib Require Import SpecFloat Ascii String.
From stdpp Require Import base list strings gmap pretty.
From S2P Require Import Prelude Bytes Float64 PyJson OpStore Compat Effects Facts TextMatch Oracle OracleTheorems OracleProjection Delta Derived Retention Publish Build.
Open Scope Z_scope.

(** ** The container as a function *)

Section spec.
Context `{PyStdlib} `{!BuildLib} `{Unicode} `{Libm} `{IntText} `{Dictionary}.

(** The chunk records and the bytes of the events from row [start] on. *)
Fixpoint chunks_from (fuel : nat) (src : stored_event → option (list float)) (dimension : Z) (n : nat) (start : Z)
    (pending : list stored_event) : result build_exn (list json * string) :=
  match fuel, pending with
  | O, _ | _, [] => Ok ([], "")
  | S fuel, _ =>
      let batch := take n pending in
      bytes ← embed_rows src dimension batch;
      let stop := start + Z.of_nat (length batch) in
      rest ← chunks_from fuel src dimension n stop (drop n pending);
      Ok (chunk_record start stop bytes :: rest.1, bytes +:+ rest.2)
  end.

Definition manifest_of (t : target) (chunks : list json) (bytes : string) (probes : json) : obj :=
  _compose_manifest (t_identity t) (t_id t) (t_fingerprint t) (length (t_rows t)) chunks probes
    (metadata_text (t_rows t)) (String.length bytes) (sha256_hex bytes).

Definition container_files (t : target) (chunks : list json) (bytes : string) (probes : json) : dir :=
  <["manifest.json" := dumps (JObj (manifest_of t chunks bytes probes))]>
    (<["metadata.json" := metadata_text (t_rows t)]> {["vectors.fp32" := bytes]}).

(** The three files of the generation of [t] over [events]. *)
Record build_spec := BuildSpec { bs_chunks : list json; bs_bytes : string; bs_probes : json }.
Definition build_files (v : facts_view) (p : provider) (competition : string → list string) (n : nat) (params : oracle_params)
    (source : hlc) (events : list stored_event) : result build_exn build_spec :=
  cb ← chunks_from (length events) (event_vector p) (vector_dimension p) n 0 events;
  probes ← compute_probes v p competition events cb.2 (vector_dimension p) params source;
  Ok (BuildSpec cb.1 cb.2 probes).
Definition spec_files (t : target) (s : build_spec) : dir := container_files t (bs_chunks s) (bs_bytes s) (bs_probes s).
End spec.

(** ** Rows and bytes *)

Section rows.
Context `{PyStdlib} `{!BuildLib} `{Unicode} `{Libm} `{IntText} `{Dictionary}.
Context (src : stored_event → option (list float)) (dimension : Z).
Hypothesis positive : 1 <= dimension.

(** The bytes of one event. *)
Definition row_of (e : stored_event) (b : string) : Prop :=
  ∃ v, src e = Some v ∧ _validate_vector v dimension = None ∧ pack_row v = Some b.

Lemma embed_rows_Forall2 es bytes :
  embed_rows src dimension es = Ok bytes ↔ ∃ l, Forall2 row_of es l ∧ bytes = concat_bytes l.
Proof.
  revert bytes. induction es as [|e es IH]; intros bytes; simpl.
  - split; [intros [= <-]; exists []; by split; [constructor|]|]. intros (l&->%Forall2_nil_inv_l&->). done.
  - split.
    + destruct (src e) as [v|] eqn:Hs; [|done]. destruct (_validate_vector v dimension) eqn:Hv; [done|].
      destruct (pack_row v) as [b|] eqn:Hb; [|done]. intros (rest&Hr&[= <-])%bind_Ok. apply IH in Hr as (l&Hl&->).
      exists (b :: l). split; [|done]. constructor; [by exists v|done].
    + intros (l&(b&l'&(v&Hs&Hv&Hb)&Hl&->)%Forall2_cons_inv_l&->). rewrite Hs, Hv, Hb.
      assert (embed_rows src dimension es = Ok (concat_bytes l')) as -> by (apply IH; eauto). done.
Qed.

Lemma row_of_length e b : row_of e b → String.length b = row_bytes dimension.
Proof.
  intros (v&_&Hv&Hb). rewrite (pack_row_length _ _ Hb). unfold _validate_vector in Hv.
  destruct (Z.of_nat (length v) =? dimension) eqn:E; [|done]. unfold row_bytes. lia.
Qed.

Lemma rows_length es l : Forall2 row_of es l → String.length (concat_bytes l) = (length es * row_bytes dimension)%nat.
Proof.
  induction 1 as [|e b es l Hb _ IH]; [done|]. simpl. rewrite str_length_app, (row_of_length _ _ Hb), IH. lia.
Qed.

Lemma embed_rows_length es bytes : embed_rows src dimension es = Ok bytes → String.length bytes = (length es * row_bytes dimension)%nat.
Proof. intros (l&Hl&->)%embed_rows_Forall2. by apply rows_length. Qed.

Lemma embed_rows_app es1 es2 bytes :
  embed_rows src dimension (es1 ++ es2) = Ok bytes ↔
  ∃ b1 b2, embed_rows src dimension es1 = Ok b1 ∧ embed_rows src dimension es2 = Ok b2 ∧ bytes = b1 +:+ b2.
Proof.
  rewrite embed_rows_Forall2. split.
  - intros (l&(l1&l2&Hl1&Hl2&->)%Forall2_app_inv_l&->). rewrite concat_bytes_app.
    do 2 eexists. split_and!; [apply embed_rows_Forall2|apply embed_rows_Forall2|done]; eauto.
  - intros (b1&b2&(l1&Hl1&->)%embed_rows_Forall2&(l2&Hl2&->)%embed_rows_Forall2&->). exists (l1 ++ l2).
    rewrite concat_bytes_app. split; [by apply Forall2_app|done].
Qed.

(** Row [i] of the file is the row of event [i]. *)
Lemma nth_row es l i e : Forall2 row_of es l → es !! i = Some e →
  ∃ b, row_of e b ∧ slice (i * row_bytes dimension) (row_bytes dimension) (concat_bytes l) = b.
Proof.
  intros Hl. revert i. induction Hl as [|e' b es l Hb Hl IH]; intros i Hi; [done|].
  destruct i as [|i]; simpl in Hi.
  - injection Hi as ->. exists b. split; [done|]. unfold slice. rewrite Nat.mul_0_l, str_drop_0.
    change (concat_bytes (b :: l)) with (b +:+ concat_bytes l). rewrite <- (row_of_length _ _ Hb). apply str_take_app.
  - destruct (IH i Hi) as (b'&Hb'&Hs). exists b'. split; [done|]. rewrite <- Hs.
    change (concat_bytes (b :: l)) with (b +:+ concat_bytes l).
    replace (S i * row_bytes dimension)%nat with (String.length b + i * row_bytes dimension)%nat
      by (rewrite (row_of_length _ _ Hb); lia). apply slice_app_r.
Qed.

(** ** Chunks *)

Context (n : nat).
Hypothesis chunked : (0 < n)%nat.

(** What a build in progress has: records that cover the first rows of
    [events], with their bytes. *)
Lemma chunks_from_spec fuel start pending recs bytes :
  (length pending <= fuel)%nat → chunks_from fuel src dimension n start pending = Ok (recs, bytes) →
  embed_rows src dimension pending = Ok bytes.
Proof.
  revert start pending recs bytes. induction fuel as [|fuel IH]; intros start pending recs bytes Hf; simpl.
  - destruct pending; [by intros [= <- <-]|simpl in Hf; lia].
  - destruct pending as [|e pending]; [by intros [= <- <-]|].
    intros (b1&Hb1&([recs' b2]&Hr&[= <- <-])%bind_Ok)%bind_Ok. apply IH in Hr.
    + rewrite <- (take_drop n (e :: pending)). apply embed_rows_app. eauto.
    + rewrite length_drop. simpl in *. lia.
Qed.

(** One record of the file, at both places that check them. *)
Definition record_at (s e : Z) (b content : string) : Prop :=
  0 <= s < e ∧ Z.of_nat (String.length b) = (e - s) * (dimension * 4) ∧
  slice (Z.to_nat (s * (dimension * 4))) (Z.to_nat ((e - s) * (dimension * 4))) content = b.

Lemma verify_chunk rows content s e b recs :
  record_at s e b content → e <= rows →
  _verify_chunks rows dimension content (chunk_record s e b :: recs) s = _verify_chunks rows dimension content recs e.
Proof.
  intros ([Hs He]&Hb&Hd) Hr. unfold chunk_record. cbn [_verify_chunks].
  change (as_int (field "start_row" _)) with (Some s). change (as_int (field "end_row" _)) with (Some e).
  change (field "bytes" _) with (JInt (Z.of_nat (String.length b))). change (field "sha256" _) with (JStr (sha256_hex b)).
  cbn [py_eq_int is_nonempty_str str_is]. rewrite Hd. unfold require.
  rewrite (proj2 (String.eqb_neq _ _) (sha256_nonempty b)), String.eqb_refl.
  assert ((0 <=? s) && (s <? e) && (e <=? rows) && (s =? s) = true) as -> by (rewrite !andb_true_iff; lia).
  assert (Z.of_nat (String.length b) =? (e - s) * (dimension * 4) = true) as -> by lia. done.
Qed.

Lemma prefix_chunk content s e b recs prefix :
  record_at s e b content →
  verified_prefix dimension content (chunk_record s e b :: recs) s prefix = verified_prefix dimension content recs e (prefix +:+ b).
Proof.
  intros ([Hs He]&Hb&Hd). unfold chunk_record. cbn [verified_prefix].
  change (as_int (field "start_row" _)) with (Some s). change (as_int (field "end_row" _)) with (Some e).
  change (field "bytes" _) with (JInt (Z.of_nat (String.length b))). change (field "sha256" _) with (JStr (sha256_hex b)).
  cbn [py_eq_int is_nonempty_str str_is]. rewrite Hd.
  rewrite (proj2 (String.eqb_neq _ _) (sha256_nonempty b)), String.eqb_refl.
  assert ((0 <=? s) && (s <? e) && (s =? s) = true) as -> by (rewrite !andb_true_iff; lia).
  assert (Z.of_nat (String.length b) =? (e - s) * (dimension * 4) = true) as -> by lia.
  assert ((String.length b =? Z.to_nat ((e - s) * (dimension * 4)))%nat = true) as -> by (apply Nat.eqb_eq; lia). done.
Qed.

(** The record of a batch that follows [prefix]. *)
Lemma record_of_batch start batch b prefix tail :
  embed_rows src dimension batch = Ok b → batch ≠ [] → 0 <= start →
  String.length prefix = (Z.to_nat start * row_bytes dimension)%nat →
  record_at start (start + Z.of_nat (length batch)) b (prefix +:+ (b +:+ tail)).
Proof.
  intros Hb Hne Hs Hp. pose proof (embed_rows_length _ _ Hb) as Hbl.
  assert (row_bytes dimension = Z.to_nat (dimension * 4)) as Hrb by done.
  assert (0 < length batch)%nat as Hpos by (destruct batch; simpl; [done|lia]).
  unfold record_at. replace (start + Z.of_nat (length batch) - start) with (Z.of_nat (length batch)) by lia.
  split_and!; [lia|lia|rewrite Hbl, Hrb; nia|].
  replace (Z.to_nat (start * (dimension * 4))) with (String.length prefix + 0)%nat by (rewrite Hp, Hrb; nia).
  rewrite slice_app_r. unfold slice. rewrite str_drop_0.
  replace (Z.to_nat _) with (String.length b) by (rewrite Hbl, Hrb; nia). apply str_take_app.
Qed.

Lemma chunks_from_cons fuel start e pending recs bytes :
  chunks_from (S fuel) src dimension n start (e :: pending) = Ok (recs, bytes) →
  ∃ batch rest b1 recs' b2,
    take n (e :: pending) = batch ∧ drop n (e :: pending) = rest ∧ batch ≠ [] ∧
    length (e :: pending) = (length batch + length rest)%nat ∧ (length rest <= length pending)%nat ∧
    embed_rows src dimension batch = Ok b1 ∧
    chunks_from fuel src dimension n (start + Z.of_nat (length batch)) rest = Ok (recs', b2) ∧
    recs = chunk_record start (start + Z.of_nat (length batch)) b1 :: recs' ∧ bytes = b1 +:+ b2.
Proof.
  cbn [chunks_from]. intros (b1&Hb1&([recs' b2]&Hr&[= <- <-])%bind_Ok)%bind_Ok.
  do 5 eexists. split_and!; [reflexivity|reflexivity| | | |exact Hb1|exact Hr|done|done].
  - destruct n; [lia|]. done.
  - rewrite length_take, length_drop. lia.
  - rewrite length_drop. simpl. lia.
Qed.

(** The checks of [_verify_chunks] accept the records. *)
Lemma chunks_from_verify fuel start pending recs bytes prefix :
  (length pending <= fuel)%nat → chunks_from fuel src dimension n start pending = Ok (recs, bytes) →
  0 <= start → String.length prefix = (Z.to_nat start * row_bytes dimension)%nat →
  _verify_chunks (start + Z.of_nat (length pending)) dimension (prefix +:+ bytes) recs start = Ok tt.
Proof.
  revert start pending recs bytes prefix. induction fuel as [|fuel IH]; intros start pending recs bytes prefix Hf Hc Hs Hp.
  all: destruct pending as [|e pending]; [injection Hc as <- <-; cbn; unfold require; by rewrite Z.add_0_r, Z.eqb_refl|].
  - simpl in Hf. lia.
  - apply chunks_from_cons in Hc as (batch&rest&b1&recs'&b2&_&_&Hne&Hlen&Hrl&Hb&Hr&->&->).
    rewrite verify_chunk by (by apply record_of_batch || (rewrite Hlen; lia)).
    replace (start + Z.of_nat (length (e :: pending))) with (start + Z.of_nat (length batch) + Z.of_nat (length rest)) by (rewrite Hlen; lia).
    rewrite str_app_assoc. apply IH; [simpl in *; lia|done|lia|].
    rewrite str_length_app, Hp, (embed_rows_length _ _ Hb). nia.
Qed.
End rows.

(** ** The rows read back *)

Section reading.
Context `{PyStdlib} `{!BuildLib} `{Unicode} `{Libm} `{IntText} `{Dictionary}.

(** The event as the container describes it. *)
Definition described (e : stored_event) : stored_event :=
  StoredEvent (ev_id e) "" (ev_schema e) (canonicalize_segment_input (ev_input e)) (ev_category e) (ev_text e) (ev_hlc e) "".

(** The canonical input of the event is its own canonical form. *)
Definition settled (e : stored_event) : Prop :=
  let i := canonicalize_segment_input (ev_input e) in i ≠ "" ∧ canonicalize_segment_input i = i.

Lemma target_rows_spec events rows :
  target_rows events = Ok rows ↔ rows = _metadata_row <$> events ∧ Forall (λ e, _validate_event e = None) events.
Proof.
  revert rows. induction events as [|e events IH]; intros rows; simpl.
  - split; [by intros [= <-]|by intros [-> _]].
  - rewrite Forall_cons. split.
    + destruct (_validate_event e) eqn:E; [done|]. by intros (rows'&[-> ?]%IH&[= <-])%bind_Ok.
    + intros (->&->&Hall). by rewrite (proj2 (IH _) (conj eq_refl Hall)).
Qed.

Definition row_json (i : nat) (e : stored_event) : json := JObj (_metadata_row e ++ [("row", JInt (Z.of_nat i))]).

Lemma metadata_rows events : metadata_json (_metadata_row <$> events) = JList (imap row_json events).
Proof. unfold metadata_json. by rewrite imap_fmap. Qed.

Lemma row_json_id i e : row_id (row_json i e) = ev_id e.
Proof. done. Qed.
Lemma row_json_event i e : row_event (row_json i e) = described e.
Proof. unfold described. by destruct e as [? ? ? ? ? ? [? ?] ?]. Qed.

Lemma fmap_imap_const {A B C} (g : B → C) (f : nat → A → B) (h : A → C) l :
  (∀ i a, g (f i a) = h a) → g <$> imap f l = h <$> l.
Proof.
  intros Hg. revert f Hg. induction l as [|a l IH]; intros f Hg; [done|]. cbn [imap fmap list_fmap]. rewrite Hg.
  f_equal. apply IH. intros i b. apply Hg.
Qed.

Lemma rows_fingerprint_read events :
  _rows_fingerprint (row_obj <$> imap row_json events) = _rows_fingerprint (_metadata_row <$> events).
Proof.
  unfold _rows_fingerprint. do 3 f_equal.
  set (g := λ r, JObj ((λ k, (k, field k r)) <$> row_fields)). rewrite <- !list_fmap_compose.
  by apply fmap_imap_const.
Qed.

Lemma validate_event_fields e : _validate_event e = None →
  ev_id e ≠ "" ∧ ev_schema e ≠ "" ∧ ev_category e ≠ "" ∧ ev_text e ≠ "" ∧ 0 <= (ev_hlc e).1 ∧ 0 <= (ev_hlc e).2.
Proof.
  unfold _validate_event. destruct (String.eqb_spec (ev_id e) ""); [done|]. cbn [List.find snd].
  repeat match goal with |- context [String.eqb ?s ""] => destruct (String.eqb_spec s ""); [done|] end.
  destruct ((0 <=? _) && _) eqn:E; [|done]. apply andb_true_iff in E as [?%Z.leb_le ?%Z.leb_le]. by intros _.
Qed.

Lemma row_json_ok i e : _validate_event e = None → settled e → row_ok i (row_json i e) = true.
Proof.
  intros (Hid&Hs&Hc&Ht&Hp&Hl)%validate_event_fields [Hi _]. unfold row_ok, row_json.
  change (field "row" _) with (JInt (Z.of_nat i)). change (field "event_id" _) with (JStr (ev_id e)).
  change (field "choice_problem_key" _) with
    (JList [JStr (ev_schema e); JStr (ev_category e); JStr (canonicalize_segment_input (ev_input e))]).
  change (field "candidate" _) with (JStr (ev_text e)). change (field "hlc" _) with (hlc_json (ev_hlc e)).
  cbn [py_eq_int is_nonempty_str nonempty_strings length forallb hlc_pair hlc_json nonneg_int].
  rewrite Z.eqb_refl, !(proj2 (String.eqb_neq _ _)) by done. cbn [negb andb Nat.eqb]. apply andb_true_iff. by split; apply Z.leb_le.
Qed.

Lemma forallb_imap {A B} (P : B → bool) (f : nat → A → B) l :
  (∀ i a, l !! i = Some a → P (f i a) = true) → forallb P (imap f l) = true.
Proof.
  revert f. induction l as [|a l IH]; intros f HP; [done|]. cbn [imap forallb]. rewrite (HP 0%nat a) by done.
  apply IH. intros i b Hb. by apply (HP (S i)).
Qed.

Lemma imap_pair_imap {A B} (f : nat → A → B) l : imap pair (imap f l) = imap (λ i a, (i, f i a)) l.
Proof.
  assert (∀ g : nat → nat, imap (λ i x, (g i, x)) (imap f l) = imap (λ i a, (g i, f i a)) l) as Hg; [|apply (Hg id)].
  revert f. induction l as [|a l IH]; intros f g; [done|]. cbn [imap]. f_equal. apply (IH (f ∘ S) (g ∘ S)).
Qed.

Lemma verify_rows_read m events :
  field "rows" m = JObj [("count", JInt (Z.of_nat (length events))); ("fingerprint", JStr (_rows_fingerprint (_metadata_row <$> events)))] →
  NoDup (ev_id <$> events) → Forall (λ e, _validate_event e = None) events → Forall settled events →
  _verify_rows m (metadata_json (_metadata_row <$> events)) = Ok (imap row_json events).
Proof.
  intros Hm Hnd Hv Hs. unfold _verify_rows. rewrite Hm, metadata_rows.
  change (as_int (field "count" _)) with (Some (Z.of_nat (length events))).
  change (field "fingerprint" _) with (JStr (_rows_fingerprint (_metadata_row <$> events))). cbn beta iota.
  unfold require. assert (_rows_fingerprint (_metadata_row <$> events) ≠ "") as Hf by apply sha256_nonempty.
  rewrite rows_fingerprint_read. cbn [is_nonempty_str str_is]. rewrite String.eqb_refl, (proj2 (String.eqb_neq _ _) Hf), length_imap, Z.eqb_refl.
  assert (0 <=? Z.of_nat (length events) = true) as -> by (apply Z.leb_le; lia). cbn [andb negb mbind result_bind].
  rewrite imap_pair_imap, forallb_imap.
  - cbn [mbind result_bind]. rewrite (fmap_imap_const row_id row_json ev_id) by done. by rewrite bool_decide_eq_true_2.
  - intros i e He. cbn [fst snd]. rewrite Forall_lookup in Hv, Hs. apply row_json_ok; eauto.
Qed.
End reading.

(** ** Vectors and probes read back *)

Section probing.
Context `{PyStdlib} `{!BuildLib} `{Unicode} `{Libm} `{IntText} `{Dictionary}.

(** The vector of the event survives the rounding to binary32 as a unit
    vector. *)
Definition stored_unit (p : provider) (e : stored_event) : Prop :=
  ∀ v w, event_vector p e = Some v → stored_row v = Some w → _validate_vector w (vector_dimension p) = None.

Lemma validate_vector_length v dimension : _validate_vector v dimension = None → Z.of_nat (length v) = dimension.
Proof. unfold _validate_vector. destruct (Z.of_nat (length v) =? dimension) eqn:E; [lia|done]. Qed.

Lemma verify_vectors_read p events bytes :
  1 <= vector_dimension p → embed_rows (event_vector p) (vector_dimension p) events = Ok bytes → Forall (stored_unit p) events →
  _verify_vectors (VectorFile (length events) (vector_dimension p) bytes) = Ok tt.
Proof.
  intros Hd (l&Hl&->)%embed_rows_Forall2 Hu. unfold _verify_vectors, require. cbn [vf_rows vf_dimension].
  assert (∀ row, row ∈ seq 0 (length events) → match vf_vector (VectorFile (length events) (vector_dimension p) (concat_bytes l)) row with
            | Some v => bool_decide (_validate_vector v (vector_dimension p) = None) | None => false end = true) as Hall.
  { intros row Hrow%elem_of_seq. unfold vf_vector. cbn [vf_rows vf_dimension vf_bytes].
    rewrite (proj2 (Nat.ltb_lt _ _)) by lia. apply bool_decide_eq_true.
    destruct (lookup_lt_is_Some_2 events row) as [e He]; [lia|].
    edestruct nth_row as (b&(v&Hv&Hval&Hb)&->); [exact Hd|exact Hl|exact He|].
    rewrite Forall_lookup in Hu. apply (Hu _ _ He v); [done|]. unfold stored_row. rewrite Hb.
    cbn [fmap option_fmap option_map]. do 2 f_equal. apply validate_vector_length in Hval. lia. }
  rewrite (proj2 (forallb_forall _ _)); [done|]. intros row Hrow. apply Hall. by apply list_elem_of_In.
Qed.

(** A recorded probe parses to the probe. *)
Lemma as_floats_json v : as_floats (floats_json v) = Some v.
Proof.
  unfold as_floats, floats_json. cbn [as_list mbind option_bind]. induction v as [|x v IH]; [done|].
  rewrite fmap_cons. cbn [mapM as_float mbind option_bind]. by rewrite IH.
Qed.
Lemma mapM_fmap_Some {A B} (f : A → B) (g : B → option A) l : (∀ a, g (f a) = Some a) → mapM g (f <$> l) = Some l.
Proof. intros Hg. induction l as [|a l IH]; [done|]. rewrite fmap_cons. cbn [mapM]. rewrite Hg. cbn. by rewrite IH. Qed.

Definition probe_shape (q : probe) : Prop :=
  match pr_vectors q with Some vs => head vs = Some (pr_vector q) | None => pr_vector q ≠ [] end.

Lemma probe_read q r : probe_shape q → probe_of_json (probe_json q r) = Some q.
Proof.
  destruct q as [schema category input cands v vs]. unfold probe_shape, probe_json, probe_of_json.
  cbn [pr_schema pr_category pr_input pr_candidates pr_vector pr_vectors]. intros Hs.
  set (m := _ ++ _). assert (field "schema_id" m = JStr schema ∧ field "canonical_segment_input" m = JStr input ∧
    field "candidates" m = JList (JStr <$> cands) ∧ obj_get "category" m = Some (JStr category) ∧
    field "query_vector" m = floats_json v ∧
    field "query_vectors" m = match vs with Some vs => JList (floats_json <$> vs) | None => JNull end) as (->&->&->&->&->&->)
    by (unfold m; destruct vs; done).
  cbn [as_string as_list mbind option_bind default]. rewrite mapM_fmap_Some by done. cbn [mbind option_bind].
  destruct vs as [vs|].
  - rewrite (mapM_fmap_Some floats_json) by apply as_floats_json. cbn [mbind option_bind fmap option_fmap option_map].
    rewrite as_floats_json. destruct v; [simpl; by rewrite Hs|done].
  - cbn [mbind option_bind]. rewrite as_floats_json. by destruct v.
Qed.

Lemma compute_probe_shape q events vectors params source r :
  _compute_probe q events vectors params source = Ok r → pr_vectors q = None → pr_vector q ≠ [].
Proof.
  unfold _compute_probe. destruct (query_ok (probe_query q source)) eqn:Hq; [|done]. intros _ Hn Hv. revert Hq.
  unfold query_ok, probe_query. cbn. rewrite Hn, Hv. by rewrite !andb_false_r.
Qed.

Lemma probe_of_event_shape p competition e q :
  probe_of_event p competition e = Ok q → pr_vectors q ≠ None → head (default [] (pr_vectors q)) = Some (pr_vector q).
Proof.
  unfold probe_of_event. destruct (is_candidate_conditioned p).
  - destruct (mapM _ _) as [[|v vs]|]; try done. by intros [= <-] _.
  - destruct (query_vector p _); [|done]. by intros [= <-] [].
Qed.

(** The oracle sees the same in an event and in its description. *)
Lemma probe_described q events vectors params source r :
  NoDup (ev_id <$> events) → Forall settled events → _compute_probe q events vectors params source = Ok r →
  ∃ r', _compute_probe q (described <$> events) vectors params source = Ok r' ∧
        _probe_results_fingerprint r' = _probe_results_fingerprint r.
Proof.
  intros Hnd Hs. unfold _compute_probe. destruct (query_ok _); [|done]. cbn [negb].
  set (f := λ e, if decide (settled e) then described e else e).
  assert (described <$> events = f <$> events) as ->.
  { apply list_fmap_ext. intros i e He. unfold f. rewrite decide_True; [done|].
    rewrite Forall_lookup in Hs. eauto. }
  assert (∀ e, event_key (f e) = event_key e) as Hk.
  { intros e. unfold f. case_decide as He; [|done]. destruct He as [_ He]. unfold event_key, choice_problem_key.
    cbn [described ev_schema ev_category ev_input]. by rewrite He. }
  rewrite (evidence_fmap _ _ _ f); [|intros e; unfold f; by case_decide..|done|by apply nodup_ids_stamps].
  destruct (compute_evidence _ _ _ _ _ _) as [r0|] eqn:E; [|done]. intros [= <-]. cbn [on_ok]. eexists. split; [done|].
  unfold _probe_results_fingerprint, result_lines, f_result. cbn [or_same_key or_total_mass or_candidates or_kept].
  do 4 f_equal. rewrite <- list_fmap_compose. apply list_fmap_ext. intros i c _. unfold compose, f_contribution.
  cbn [ct_event ct_cosine ct_relevance ct_age ct_factor ct_weight ct_matched].
  assert (ev_id (f (ct_event c)) = ev_id (ct_event c)) as -> by (unfold f; by case_decide). done.
Qed.

Lemma verify_probes_read m v p competition events bytes dimension params source probes vectors :
  compute_probes v p competition events bytes dimension params source = Ok probes →
  field "probes" m = probes → NoDup (ev_id <$> events) → Forall settled events → params_ok params = true →
  vectors = row_vectors (VectorFile (length events) dimension bytes) (row_index_of (ev_id <$> events)) →
  _verify_probes m (described <$> events) vectors source = Ok tt.
Proof.
  unfold compute_probes, open_vectors. destruct (_ && _); [done|]. destruct v as [| |db]; try done.
  intros (items&Hitems&[= <-])%bind_Ok Hm Hnd Hs Hp ->. unfold _verify_probes. rewrite Hm.
  change (field "items" _) with (JList items). change (field "params" _) with (probe_params_json params). cbn beta iota.
  assert (probe_params_of_json (probe_params_json params) = Some params) as -> by by destruct params.
  unfold require. rewrite Hp. cbn [mbind result_bind]. apply mapM_Forall2 in Hitems.
  assert (length items <=? PROBE_COUNT `min` length (described <$> events) = true)%nat as ->.
  { apply Nat.leb_le. rewrite length_fmap, <- (Forall2_length _ _ _ Hitems), length_take. lia. }
  cbn [mbind result_bind]. rewrite (proj2 (forallb_forall _ _)); [done|].
  intros item Hitem%list_elem_of_In. apply list_elem_of_lookup in Hitem as [i Hi].
  eapply Forall2_lookup_r in Hitems as (e&_&(q&Hq&(r&Hr&[= <-])%bind_Ok)%bind_Ok); [|exact Hi].
  unfold probe_ok. rewrite probe_read.
  - destruct (probe_described _ _ _ _ _ _ Hnd Hs Hr) as (r'&->&Hf). rewrite Hf. unfold probe_json.
    assert (field "results_fingerprint" (match probe_json q (_probe_results_fingerprint r) with JObj m => m | _ => [] end)
            = JStr (_probe_results_fingerprint r)) as Hres by (unfold probe_json; by destruct (pr_vectors q)).
    unfold probe_json in Hres. rewrite Hres. apply String.eqb_refl.
  - unfold probe_shape. pose proof (probe_of_event_shape _ _ _ _ Hq) as H1'. pose proof (compute_probe_shape _ _ _ _ _ _ Hr) as H2'.
    destruct (pr_vectors q) as [vs|]; [by apply H1'|by apply H2'].
Qed.
End probing.

(** ** The container opens *)

Section opening.
Context `{PyStdlib} `{!BuildLib} `{Unicode} `{Libm} `{IntText} `{Dictionary}.

(** What a snapshot and a configuration have to satisfy.  [si_settled] and
    [si_stored] are real conditions: see [BuildDemo]. *)
Record sound_input (p : provider) (epoch projection : string) (index : option string) (source : hlc)
    (params : oracle_params) (events : list stored_event) : Prop := {
  si_ids : NoDup (ev_id <$> events);
  si_settled : Forall settled events;
  si_stored : Forall (stored_unit p) events;
  si_epoch : epoch ≠ "";
  si_representation : representation_id p ≠ "";
  si_dimension : 1 <= vector_dimension p;
  si_projection : projection ≠ "";
  si_index : index ≠ Some "";
  si_source : 0 <= source.1 ∧ 0 <= source.2;
  si_params : params_ok params = true }.

(** The file parses to the value that was dumped. *)
Definition reads_back (v : json) : Prop := loads (dumps v) = Some v.

Lemma prepare_target_spec events p epoch source projection index tag backend rp t :
  _prepare_target events p epoch source projection index tag backend rp = Ok t →
  t_rows t = _metadata_row <$> events ∧ Forall (λ e, _validate_event e = None) events ∧
  t_fingerprint t = _rows_fingerprint (t_rows t) ∧ t_id t = _compose_generation_id (t_identity t) (t_fingerprint t) ∧
  backend ∈ SUPPORTED_BACKENDS ∧
  ∃ i, t_identity t = target_identity p epoch source projection i tag backend rp ∧ (index ≠ Some "" → i ≠ "").
Proof.
  unfold _prepare_target. case_bool_decide as Hb; [|done]. cbn [negb].
  intros (rows&[-> Hv]%target_rows_spec&(i&Hi&[= <-])%bind_Ok)%bind_Ok. cbn. split_and!; try done. exists i. split; [done|].
  intros Hne. destruct index as [i'|]; [injection Hi as <-; congruence|].
  unfold compose_backend_fingerprint in Hi. destruct (library_version_of backend); [|done]. by injection Hi as <-.
Qed.

Lemma identity_fields p epoch source projection i tag backend rp :
  let d := target_identity p epoch source projection i tag backend rp in
  field "store_epoch" d = JStr epoch ∧ field "representation_id" d = JStr (representation_id p) ∧
  field "builder_version" d = JStr BUILD_VERSION ∧ field "projection_version" d = JStr projection ∧
  field "index_fingerprint" d = JStr i ∧ field "retrieval_backend" d = JStr backend ∧
  field "vector_format" d = JStr FP32_ROW_MAJOR_LE ∧ field "vector_dimension" d = JInt (vector_dimension p) ∧
  field "source_hlc" d = hlc_json source ∧ field "retrieval_params" d = JObj rp.
Proof. by destruct tag. Qed.

Lemma identity_verifies p epoch source projection i tag backend rp params index events :
  sound_input p epoch projection index source params events → i ≠ "" → backend ∈ SUPPORTED_BACKENDS →
  verify_identity (JObj (target_identity p epoch source projection i tag backend rp)) = true.
Proof.
  intros [_ _ _ He Hr Hd Hp _ [Hs1 Hs2] _] Hi Hb. unfold verify_identity.
  pose proof (identity_fields p epoch source projection i tag backend rp) as (E1&E2&E3&E4&E5&E6&E7&E8&E9&E10).
  cbn [forallb]. rewrite E1, E2, E3, E4, E5, E6, E7, E8, E9, E10. cbn [is_nonempty_str hlc_json hlc_pair nonneg_int is_dict str_is].
  rewrite !(proj2 (String.eqb_neq _ _)), bool_decide_eq_true_2, String.eqb_refl by done. cbn [negb andb].
  rewrite !andb_true_iff, !Z.leb_le. done.
Qed.

Section container.
Context (t : target) (chunks : list json) (bytes : string) (probes : json).
Local Notation m := (manifest_of t chunks bytes probes).
Local Notation files := (container_files t chunks bytes probes).

Lemma manifest_files_field :
  field "files" m = JObj (("manifest.json", JObj [("sha256", JStr (sha256_hex (dumps (JObj (manifest_obj chunks
     (data_entries (metadata_text (t_rows t)) (String.length bytes) (sha256_hex bytes)) (t_id t) (t_identity t) probes
     (length (t_rows t)) (t_fingerprint t))))))]) ::
   data_entries (metadata_text (t_rows t)) (String.length bytes) (sha256_hex bytes)).
Proof. done. Qed.

Lemma verify_files_read : _verify_files m (metadata_text (t_rows t)) bytes = Ok tt.
Proof.
  unfold _verify_files. rewrite manifest_files_field. set (sha := sha256_hex (dumps (JObj (manifest_obj _ _ _ _ _ _ _)))).
  set (entries := _ :: _). unfold require.
  rewrite bool_decide_eq_true_2 by (unfold entries, data_entries, GENERATION_FILES; cbn [obj_keys fmap list_fmap fst list_to_set]; set_solver).
  cbn [mbind result_bind].
  assert (forallb (entry_ok entries) ["manifest.json"; "metadata.json"; "vectors.fp32"] = true) as ->.
  { unfold entries. cbn [forallb]. unfold entry_ok. cbn. unfold sha. by rewrite !(proj2 (String.eqb_neq _ _)) by apply sha256_nonempty. }
  cbn [mbind result_bind].
  assert (file_matches entries "metadata.json" (metadata_text (t_rows t)) = true) as ->.
  { unfold file_matches. cbn. by rewrite Z.eqb_refl, String.eqb_refl. }
  assert (file_matches entries "vectors.fp32" bytes = true) as ->.
  { unfold file_matches. cbn. by rewrite Z.eqb_refl, String.eqb_refl. }
  cbn [mbind result_bind]. change (field "manifest.json" entries) with (JObj [("sha256", JStr sha)]). cbn beta iota.
  assert (self_checksum m entries = sha) as ->; [|by cbn; rewrite String.eqb_refl]. done.
Qed.

Lemma container_lookups :
  files !! "manifest.json" = Some (dumps (JObj m)) ∧ files !! "metadata.json" = Some (metadata_text (t_rows t)) ∧
  files !! "vectors.fp32" = Some bytes ∧ dom files = GENERATION_FILES.
Proof.
  unfold container_files. split_and!.
  - apply lookup_insert_eq.
  - rewrite lookup_insert_ne by done. apply lookup_insert_eq.
  - rewrite !lookup_insert_ne by done. apply lookup_singleton_eq.
  - rewrite !dom_insert_L, dom_singleton_L. unfold GENERATION_FILES. set_solver.
Qed.
End container.

(** What is composed for a sound input passes every check of
    [open_generation]. *)
Lemma spec_opens events p epoch source projection index tag backend rp t v competition n params s :
  _prepare_target events p epoch source projection index tag backend rp = Ok t →
  build_files v p competition n params source events = Ok s → (0 < n)%nat →
  sound_input p epoch projection index source params events →
  reads_back (metadata_json (t_rows t)) → reads_back (JObj (manifest_of t (bs_chunks s) (bs_bytes s) (bs_probes s))) →
  open_generation (t_id t) (Container (spec_files t s) None) = Some (Generation (t_id t) (t_identity t)).
Proof.
  intros Ht Hs Hn Hin Hrm Hrj. pose proof (prepare_target_spec _ _ _ _ _ _ _ _ _ _ Ht) as (Hrows&Hval&Hfp&Hid&Hb&i&Hident&Hi).
  specialize (Hi (si_index _ _ _ _ _ _ _ Hin)).
  unfold build_files in Hs. apply bind_Ok in Hs as ([chunks bytes]&Hc&(probes&Hp&[= <-])%bind_Ok). unfold spec_files.
  cbn [fst snd bs_chunks bs_bytes bs_probes] in *.
  destruct (container_lookups t chunks bytes probes) as (Hl1&Hl2&Hl3&Hdom).
  assert (dir_manifest (container_files t chunks bytes probes) = Parsed (JObj (manifest_of t chunks bytes probes))) as Hm.
  { unfold dir_manifest. rewrite Hl1. cbn [mbind option_bind]. by rewrite Hrj. }
  assert (t_id t ≠ "") as Hne by (rewrite Hid; done).
  unfold open_generation. cbn [c_progress c_files gf_manifest dir_files]. rewrite Hm.
  change (field "manifest_version" _) with (JStr MANIFEST_VERSION). change (field "generation_id" _) with (JStr (t_id t)).
  change (field "identity" _) with (JObj (t_identity t)). cbn [str_is is_nonempty_str]. rewrite !String.eqb_refl.
  rewrite (proj2 (String.eqb_neq _ _) Hne). cbn [negb].
  rewrite Hident, (identity_verifies _ _ _ _ _ _ _ _ _ _ _ Hin Hi Hb), <- Hident. cbn [andb gf_intact dir_files].
  assert (dir_intact (container_files t chunks bytes probes) = true) as ->; [|done].
  unfold dir_intact. rewrite Hdom, bool_decide_eq_true_2, Hm by done. cbn [andb].
  assert (verify_contents (manifest_of t chunks bytes probes) (container_files t chunks bytes probes) = Ok tt) as ->; [|done].
  pose proof (chunks_from_spec _ _ n Hn _ _ _ _ _ (le_n _) Hc) as Hbytes.
  pose proof (si_dimension _ _ _ _ _ _ _ Hin) as Hdim.
  unfold verify_contents. rewrite Hl2, Hl3. change (field "identity" _) with (JObj (t_identity t)). cbn beta iota.
  rewrite Hident. pose proof (identity_fields p epoch source projection i tag backend rp) as (_&_&_&_&_&_&_&Ed&Es&_).
  rewrite Ed, Es, <- Hident. cbn [as_int default id]. rewrite verify_files_read. cbn [mbind result_bind].
  unfold reads_back in Hrm. unfold metadata_text. rewrite Hrm. rewrite Hrows.
  rewrite verify_rows_read; [|by change (field "rows" _) with
    (JObj [("count", JInt (Z.of_nat (length (t_rows t)))); ("fingerprint", JStr (t_fingerprint t))]); rewrite Hfp, Hrows, length_fmap
    |apply Hin|done|apply Hin].
  cbn [mbind result_bind]. rewrite length_imap. change (field "chunks" _) with (JList chunks). cbn beta iota.
  pose proof (chunks_from_verify (event_vector p) (vector_dimension p) Hdim n Hn (length events) 0 events chunks bytes ""
    (le_n _) Hc (Z.le_refl 0) eq_refl) as Hch.
  change ("" +:+ bytes) with bytes in Hch. rewrite Z.add_0_l in Hch. rewrite Hch. cbn [mbind result_bind].
  pose proof (embed_rows_length _ _ Hdim _ _ Hbytes) as Hbl.
  unfold require at 1. assert (Z.of_nat (String.length bytes) =? Z.of_nat (length events) * (vector_dimension p * 4) = true) as ->
    by (apply Z.eqb_eq; rewrite Hbl; unfold row_bytes; nia).
  cbn [mbind result_bind]. rewrite rows_fingerprint_read. change (field "generation_id" _) with (JStr (t_id t)).
  unfold require at 1. cbn [str_is]. rewrite Hid, Hfp, Hrows, String.eqb_refl. cbn [mbind result_bind].
  rewrite (verify_vectors_read p events bytes Hdim Hbytes (si_stored _ _ _ _ _ _ _ Hin)). cbn [mbind result_bind].
  rewrite (fmap_imap_const row_id row_json ev_id) by done. rewrite (fmap_imap_const row_event row_json described) by apply row_json_event.
  assert (∀ h, match hlc_json h with JList [a; b] => (default 0 (as_int a), default 0 (as_int b)) | _ => (0, 0) end = h) as ->
    by (by intros []).
  eapply verify_probes_read; [exact Hp|done|apply Hin|apply Hin|apply Hin|done].
Qed.
End opening.
