(* ===== verification/BuildRuns.v ===== *)
(** * The one-shot build

    Without faults [build_generation] publishes exactly the container that
    [build_files] describes, and touches nothing else; the loop of [os.write] and
    the loop over the chunks end. *)

From Stdlib Require Import SpecFloat Ascii String.
From stdpp Require Import base list strings gmap pretty.
From S2P Require Import Prelude Bytes Float64 PyJson OpStore Compat Effects Facts TextMatch Oracle OracleTheorems Delta Derived Retention Publish PublishSafety PublishRuns Build BuildTheorems.
Open Scope Z_scope.

(** ** One staging directory of a root *)

Section staging_dir.
Context `{PyStdlib} `{!BuildLib} `{Unicode} `{Libm} `{IntText} `{Dictionary}.
Local Notation container := (container dir).
Local Notation droot := (droot dir).

Definition at_staging (id : string) (c : container) (k : droot) : droot := set_staging (<[id := c]> (d_staging k)) k.

Lemma at_staging_lookup id c k : d_staging (at_staging id c k) !! id = Some c.
Proof. apply lookup_insert_eq. Qed.

Lemma alter_at id (f : container → option container) c c' k :
  f c = Some c' → alter_staging id f (at_staging id c k) = at_staging id c' k.
Proof.
  intros Hf. unfold alter_staging, at_staging, set_staging. cbn. f_equal. apply map_eq. intros j.
  destruct (decide (id = j)) as [<-|Hne].
  - by rewrite lookup_partial_alter_eq, !lookup_insert_eq.
  - by rewrite lookup_partial_alter_ne, !lookup_insert_ne.
Qed.

Lemma at_staging_at id c c' k : at_staging id c (at_staging id c' k) = at_staging id c k.
Proof. unfold at_staging, set_staging. cbn. f_equal. apply insert_insert_eq. Qed.

Lemma file_at_staging id name F P k : file_at id name (at_staging id (Container F P) k) = F !! name.
Proof. unfold file_at. by rewrite at_staging_lookup. Qed.

Lemma put_file_at id name s F P k :
  put_file id name s (at_staging id (Container F P) k) = at_staging id (Container (<[name := s]> F) P) k.
Proof. by apply alter_at. Qed.

Lemma runs_disk {A} (m : Effects.io droot derived_exn A) k a k' : runs m k a k' → runs (disk m) k a k'.
Proof. intros Hm n t. destruct (Hm n t) as (s&Hr&Hw). exists s. unfold disk. by rewrite Hr. Qed.

Lemma runs_of_build {A} (r : result build_exn A) (a : A) (k : droot) : r = Ok a → runs (of_build r) k a k.
Proof. intros ->. apply runs_ret. Qed.

Lemma runs_create id name F P k :
  F !! name = None →
  runs (create_file id name) (at_staging id (Container F P) k) tt (at_staging id (Container (<[name := ""]> F) P) k).
Proof.
  intros Hn. apply runs_disk, runs_call. rewrite at_staging_lookup, file_at_staging, Hn. by rewrite put_file_at.
Qed.

(** Every turn of the loop writes something: the whole of the data is written. *)
Lemma runs_write_all fuel id name rest F P k old :
  (String.length rest <= fuel)%nat → F !! name = Some old →
  runs (write_all fuel id name rest) (at_staging id (Container F P) k) tt
       (at_staging id (Container (<[name := old +:+ rest]> F) P) k).
Proof.
  revert rest F old. induction fuel as [|fuel IH]; intros rest F old Hf Ho.
  - destruct rest; [|simpl in Hf; lia]. rewrite str_app_nil, insert_id by done. apply runs_ret.
  - cbn [write_all]. destruct (String.eqb_spec rest "") as [->|Hne].
    + rewrite str_app_nil, insert_id by done. apply runs_ret.
    + pose proof (accepts_some rest Hne) as Ha. eapply runs_bind.
      { apply runs_disk, runs_call. rewrite file_at_staging, Ho. change (default "" (Some old)) with old. rewrite put_file_at. reflexivity. }
      assert (old +:+ rest = (old +:+ str_take (accepts rest) rest) +:+ str_drop (accepts rest) rest) as ->
        by (by rewrite <- str_app_assoc, str_take_drop).
      rewrite <- (insert_insert_eq F name ((old +:+ str_take (accepts rest) rest) +:+ str_drop (accepts rest) rest)
                    (old +:+ str_take (accepts rest) rest)).
      apply IH; [|apply lookup_insert_eq]. rewrite str_length_drop. lia.
Qed.

Lemma runs_write_file id name content F P k :
  F !! name = None →
  runs (_write_file id name content) (at_staging id (Container F P) k) tt (at_staging id (Container (<[name := content]> F) P) k).
Proof.
  intros Hn. eapply runs_bind; [by apply runs_create|]. eapply runs_bind.
  { apply runs_write_all; [done|apply lookup_insert_eq]. }
  rewrite insert_insert_eq. apply runs_disk, runs_look.
Qed.

Lemma runs_read_file id name s F P k :
  F !! name = Some s → runs (read_file id name) (at_staging id (Container F P) k) s (at_staging id (Container F P) k).
Proof. intros Hs. apply runs_disk, runs_call. by rewrite file_at_staging, Hs. Qed.

Lemma runs_write_progress id m F P k :
  runs (write_progress id m) (at_staging id (Container F P) k) tt
       (at_staging id (Container F (Some (Parsed (JObj m)))) k).
Proof.
  eapply runs_bind.
  { apply runs_call. rewrite at_staging_lookup. cbn [c_files gf_temp_name gf_put_temp dir_files].
    rewrite (alter_at _ _ _ (Container (<[temp_name F := ""]> F) P)) by done. reflexivity. }
  eapply runs_bind; [|apply runs_rescue, runs_fsync]. apply runs_rescue. eapply runs_bind; [apply runs_look|].
  apply runs_call. do 2 f_equal. apply alter_at. cbn [c_files gf_unlink_temp dir_files]. do 2 f_equal.
  apply delete_insert_id, temp_name_fresh.
Qed.

(** ** The chunks *)

Definition after_chunks (progress : obj) (recs : list json) : obj := foldl (λ m r, add_chunk r m) progress recs.

Lemma chunk_loop_runs fuel id src dimension n start pending progress content written recs bytes F k :
  (0 < n)%nat → chunks_from fuel src dimension n start pending = Ok (recs, bytes) → F !! "vectors.fp32" = Some content →
  runs (chunk_loop fuel id src dimension n start pending progress content None written)
       (at_staging id (Container F (Some (Parsed (JObj progress)))) k)
       (written ++ recs, content +:+ bytes)
       (at_staging id (Container (<["vectors.fp32" := content +:+ bytes]> F)
                         (Some (Parsed (JObj (after_chunks progress recs))))) k).
Proof.
  intros Hn. revert start pending progress content written recs bytes F.
  induction fuel as [|fuel IH]; intros start pending progress content written recs bytes F Hc Ho.
  - injection Hc as <- <-. rewrite app_nil_r, str_app_nil, insert_id by done. apply runs_ret.
  - destruct pending as [|e pending].
    { injection Hc as <- <-. rewrite app_nil_r, str_app_nil, insert_id by done. apply runs_ret. }
    apply chunks_from_cons in Hc as (batch&rest&b1&recs'&b2&Hb&Hr&_&_&_&He&Hc&->&->); [|done].
    cbn [chunk_loop]. rewrite Hb, Hr. eapply runs_bind; [by apply runs_of_build|].
    eapply runs_bind; [by apply runs_write_all|]. eapply runs_bind; [apply runs_disk, runs_write_progress|].
    eapply runs_bind; [apply runs_disk, runs_look|].
    specialize (IH (start + Z.of_nat (length batch)) rest
      (add_chunk (chunk_record start (start + Z.of_nat (length batch)) b1) progress) (content +:+ b1)
      (written ++ [chunk_record start (start + Z.of_nat (length batch)) b1]) recs' b2
      (<["vectors.fp32" := content +:+ b1]> F) Hc (lookup_insert_eq _ _ _)).
    rewrite insert_insert_eq, <- app_assoc, <- str_app_assoc in IH. exact IH.
Qed.

Lemma build_chunks_runs id events src dimension n progress recs bytes F k :
  (0 < n)%nat → chunks_from (length events) src dimension n 0 events = Ok (recs, bytes) → F !! "vectors.fp32" = None →
  runs (_build_chunks id events src dimension n progress 0 "" None)
       (at_staging id (Container F (Some (Parsed (JObj progress)))) k) (recs, bytes)
       (at_staging id (Container (<["vectors.fp32" := bytes]> F) (Some (Parsed (JObj (after_chunks progress recs))))) k).
Proof.
  intros Hn Hc Hf. unfold _build_chunks. cbn [Z.eqb Z.ltb Z.compare]. eapply runs_bind; [by apply runs_create|].
  eapply runs_bind; [apply runs_ret|]. change (Z.to_nat 0) with 0%nat. rewrite drop_0.
  pose proof (chunk_loop_runs (length events) id src dimension n 0 events progress "" [] recs bytes
    (<["vectors.fp32" := ""]> F) k Hn Hc (lookup_insert_eq _ _ _)) as Hr.
  by rewrite insert_insert_eq in Hr.
Qed.
End staging_dir.

(** ** The build *)

Section one_shot.
Context `{PyStdlib} `{!BuildLib} `{Unicode} `{Libm} `{IntText} `{Dictionary}.
Local Notation container := (container dir).
Local Notation droot := (droot dir).

(** The probes and the manifest over the finished vectors file. *)
Lemma runs_probes id v p competition events bytes dimension params source probes F P k :
  compute_probes v p competition events bytes dimension params source = Ok probes → F !! "vectors.fp32" = Some bytes →
  runs (_compute_probes id v p competition events dimension params source)
       (at_staging id (Container F P) k) probes (at_staging id (Container F P) k).
Proof. intros Hp Hf. eapply runs_bind; [by apply runs_read_file|]. by apply runs_of_build. Qed.

Lemma runs_manifest id t chunks probes bytes F P k :
  F !! "metadata.json" = Some (metadata_text (t_rows t)) → F !! "vectors.fp32" = Some bytes → F !! "manifest.json" = None →
  runs (write_manifest id t chunks probes (sha256_hex bytes)) (at_staging id (Container F P) k) tt
       (at_staging id (Container (<["manifest.json" := dumps (JObj (manifest_of t chunks bytes probes))]> F) P) k).
Proof.
  intros Hmd Hv Hm. eapply runs_bind; [by apply runs_read_file|]. eapply runs_bind; [by apply runs_read_file|].
  eapply runs_bind; [by apply runs_write_file|]. apply runs_disk, runs_fsync.
Qed.

Lemma runs_marking {A} id (m : io droot build_exn A) k a k' : runs m k a k' → runs (marking_blocked id m) k a k'.
Proof. apply runs_rescue. Qed.

(** The build of a target whose directories are free. *)
Definition published_root (id : string) (files : dir) (k : droot) : droot :=
  set_gens (<[id := Container files None]> (d_gens k)) k.

Lemma build_generation_runs env p n params backend rp epoch source events t s (k : droot) g :
  1 <= n → representation_id p ≠ "" → 1 <= vector_dimension p →
  _read_snapshot (be_snapshot env) None = Ok (epoch, source, events) →
  _prepare_target events p epoch source PROJECTION_VERSION None None backend rp = Ok t →
  build_files (be_probes env) p (be_competition env) (Z.to_nat n) params source events = Ok s →
  _check_identity_unchanged (be_final env) epoch source = Ok tt →
  open_generation (t_id t) (Container (spec_files t s) None) = Some g →
  d_gens k !! t_id t = None → d_staging k !! t_id t = None →
  runs (build_generation env p n params backend rp) k g (published_root (t_id t) (spec_files t s) k).
Proof.
  intros Hn Hr Hd Hsnap Ht Hs Hfinal Hopen Hg Hst. pose proof (prepare_target_spec _ _ _ _ _ _ _ _ _ _ Ht) as (_&_&_&_&Hb&_).
  unfold build_files in Hs. apply bind_Ok in Hs as ([recs bytes]&Hc&(probes&Hp&[= <-])%bind_Ok). unfold spec_files in *.
  cbn [fst snd bs_chunks bs_bytes bs_probes] in *. set (i := t_id t) in *.
  unfold build_generation.
  rewrite (proj2 (Z.ltb_ge _ _) Hn), (proj2 (String.eqb_neq _ _) Hr), (proj2 (Z.ltb_ge _ _) Hd), bool_decide_eq_true_2 by done.
  do 4 (eapply runs_bind; [by apply runs_of_build|]). eapply runs_bind; [by apply runs_of_build|]. cbn beta iota.
  eapply runs_bind; [by apply runs_of_build|]. fold i.
  eapply runs_bind; [apply runs_disk, runs_is_there|]. unfold in_gens. rewrite Hg.
  eapply runs_bind; [apply runs_disk, runs_is_there|]. unfold in_staging. rewrite Hst.
  eapply runs_bind; [apply runs_ret|].
  eapply runs_bind. { apply runs_disk, runs_call. rewrite Hst. reflexivity. }
  fold (at_staging i (Container ∅ None) k).
  eapply runs_bind; [apply runs_disk, runs_write_progress|].
  eapply runs_bind; [apply runs_marking, build_chunks_runs; [lia|exact Hc|done]|].
  eapply runs_bind; [by apply runs_write_file; rewrite lookup_insert_ne|].
  eapply runs_bind.
  { apply runs_marking, runs_probes with (bytes := bytes); [exact Hp|]. rewrite lookup_insert_ne by done. apply lookup_insert_eq. }
  eapply runs_bind.
  { apply runs_manifest; [apply lookup_insert_eq|rewrite lookup_insert_ne by done; apply lookup_insert_eq|by rewrite !lookup_insert_ne]. }
  fold (container_files t recs bytes probes).
  eapply runs_bind.
  { apply runs_disk, runs_rescue, runs_call. rewrite (alter_at _ _ _ (Container (container_files t recs bytes probes) None)) by done. reflexivity. }
  eapply runs_bind. { apply runs_disk. eapply runs_open_container; [apply at_staging_lookup|exact Hopen]. }
  eapply runs_bind; [by apply runs_rescue, runs_of_build|].
  eapply runs_bind; [apply runs_disk, runs_look|].
  eapply runs_bind. { apply runs_disk, runs_call. rewrite at_staging_lookup. cbn [at_staging set_staging d_gens]. rewrite Hg. reflexivity. }
  do 2 (eapply runs_bind; [apply runs_disk, runs_fsync|]).
  cbn [at_staging set_staging set_gens d_staging d_gens d_parked d_delta d_active d_rollback d_isolated].
  rewrite delete_insert_id by done.
  apply runs_disk. eapply runs_open_published; [apply lookup_insert_eq|done].
Qed.
End one_shot.
