(* ===== verification/Staging.v ===== *)
(** * The staging worker: [src/daemon/staging.py]

    While a generation is being served, one worker builds the next one in
    [staging/<id>]: a progress record pins the target, every cycle embeds one
    chunk, and the finished container is verified by reopening it before its
    record says [ready].  A restart resumes from the last verified chunk or
    discards the whole staging.  The worker's memory and the derived root are one
    world, so that what an exception leaves in memory is part of the model; every
    look at the facts is another view of them. *)

From Stdlib Require Import SpecFloat Ascii String.
From stdpp Require Import base list strings gmap sorting.
From S2P Require Import Prelude Bytes Float64 PyJson OpStore Compat Effects Facts TextMatch Oracle Delta Derived Retention Publish Build.
Open Scope Z_scope.

(** ** Memory, configuration and environment *)

(** The fields of [StagingBuildMachine] that change.  Directories are named by
    their last component; [sm_blocked] are the events the block names; a text in
    [sm_error] is shortened. *)
Record smem := SMem {
  sm_provider : provider;
  sm_blocked : option (list string); sm_blocked_epoch : option string; sm_target : option string; sm_dir : option string;
  sm_progress : option obj; sm_ready_id : option string; sm_ready_dir : option string; sm_ready_verified : bool;
  sm_error : option string; sm_discard : option string; sm_plan : option plan;
  sm_reuse : option (stored_event → option (list float)); sm_compaction : bool; sm_force : bool; sm_stopped : bool; sm_closed : bool }.

Module Mem.
Definition set_provider (x : provider) (m : smem) : smem :=
  SMem x (sm_blocked m) (sm_blocked_epoch m) (sm_target m) (sm_dir m) (sm_progress m) (sm_ready_id m)
    (sm_ready_dir m) (sm_ready_verified m) (sm_error m) (sm_discard m) (sm_plan m) (sm_reuse m) (sm_compaction m)
    (sm_force m) (sm_stopped m) (sm_closed m).
Definition set_blocked (x : option (list string)) (m : smem) : smem :=
  SMem (sm_provider m) x (sm_blocked_epoch m) (sm_target m) (sm_dir m) (sm_progress m) (sm_ready_id m)
    (sm_ready_dir m) (sm_ready_verified m) (sm_error m) (sm_discard m) (sm_plan m) (sm_reuse m) (sm_compaction m)
    (sm_force m) (sm_stopped m) (sm_closed m).
Definition set_blocked_epoch (x : option string) (m : smem) : smem :=
  SMem (sm_provider m) (sm_blocked m) x (sm_target m) (sm_dir m) (sm_progress m) (sm_ready_id m) (sm_ready_dir
    m) (sm_ready_verified m) (sm_error m) (sm_discard m) (sm_plan m) (sm_reuse m) (sm_compaction m) (sm_force m)
    (sm_stopped m) (sm_closed m).
Definition set_target (x : option string) (m : smem) : smem :=
  SMem (sm_provider m) (sm_blocked m) (sm_blocked_epoch m) x (sm_dir m) (sm_progress m) (sm_ready_id m)
    (sm_ready_dir m) (sm_ready_verified m) (sm_error m) (sm_discard m) (sm_plan m) (sm_reuse m) (sm_compaction m)
    (sm_force m) (sm_stopped m) (sm_closed m).
Definition set_dir (x : option string) (m : smem) : smem :=
  SMem (sm_provider m) (sm_blocked m) (sm_blocked_epoch m) (sm_target m) x (sm_progress m) (sm_ready_id m)
    (sm_ready_dir m) (sm_ready_verified m) (sm_error m) (sm_discard m) (sm_plan m) (sm_reuse m) (sm_compaction m)
    (sm_force m) (sm_stopped m) (sm_closed m).
Definition set_progress (x : option obj) (m : smem) : smem :=
  SMem (sm_provider m) (sm_blocked m) (sm_blocked_epoch m) (sm_target m) (sm_dir m) x (sm_ready_id m)
    (sm_ready_dir m) (sm_ready_verified m) (sm_error m) (sm_discard m) (sm_plan m) (sm_reuse m) (sm_compaction m)
    (sm_force m) (sm_stopped m) (sm_closed m).
Definition set_ready_id (x : option string) (m : smem) : smem :=
  SMem (sm_provider m) (sm_blocked m) (sm_blocked_epoch m) (sm_target m) (sm_dir m) (sm_progress m) x
    (sm_ready_dir m) (sm_ready_verified m) (sm_error m) (sm_discard m) (sm_plan m) (sm_reuse m) (sm_compaction m)
    (sm_force m) (sm_stopped m) (sm_closed m).
Definition set_ready_dir (x : option string) (m : smem) : smem :=
  SMem (sm_provider m) (sm_blocked m) (sm_blocked_epoch m) (sm_target m) (sm_dir m) (sm_progress m) (sm_ready_id
    m) x (sm_ready_verified m) (sm_error m) (sm_discard m) (sm_plan m) (sm_reuse m) (sm_compaction m) (sm_force m)
    (sm_stopped m) (sm_closed m).
Definition set_ready_verified (x : bool) (m : smem) : smem :=
  SMem (sm_provider m) (sm_blocked m) (sm_blocked_epoch m) (sm_target m) (sm_dir m) (sm_progress m) (sm_ready_id
    m) (sm_ready_dir m) x (sm_error m) (sm_discard m) (sm_plan m) (sm_reuse m) (sm_compaction m) (sm_force m)
    (sm_stopped m) (sm_closed m).
Definition set_error (x : option string) (m : smem) : smem :=
  SMem (sm_provider m) (sm_blocked m) (sm_blocked_epoch m) (sm_target m) (sm_dir m) (sm_progress m) (sm_ready_id
    m) (sm_ready_dir m) (sm_ready_verified m) x (sm_discard m) (sm_plan m) (sm_reuse m) (sm_compaction m)
    (sm_force m) (sm_stopped m) (sm_closed m).
Definition set_discard (x : option string) (m : smem) : smem :=
  SMem (sm_provider m) (sm_blocked m) (sm_blocked_epoch m) (sm_target m) (sm_dir m) (sm_progress m) (sm_ready_id
    m) (sm_ready_dir m) (sm_ready_verified m) (sm_error m) x (sm_plan m) (sm_reuse m) (sm_compaction m) (sm_force
    m) (sm_stopped m) (sm_closed m).
Definition set_plan (x : option plan) (m : smem) : smem :=
  SMem (sm_provider m) (sm_blocked m) (sm_blocked_epoch m) (sm_target m) (sm_dir m) (sm_progress m) (sm_ready_id
    m) (sm_ready_dir m) (sm_ready_verified m) (sm_error m) (sm_discard m) x (sm_reuse m) (sm_compaction m)
    (sm_force m) (sm_stopped m) (sm_closed m).
Definition set_reuse (x : option (stored_event → option (list float))) (m : smem) : smem :=
  SMem (sm_provider m) (sm_blocked m) (sm_blocked_epoch m) (sm_target m) (sm_dir m) (sm_progress m) (sm_ready_id
    m) (sm_ready_dir m) (sm_ready_verified m) (sm_error m) (sm_discard m) (sm_plan m) x (sm_compaction m)
    (sm_force m) (sm_stopped m) (sm_closed m).
Definition set_compaction (x : bool) (m : smem) : smem :=
  SMem (sm_provider m) (sm_blocked m) (sm_blocked_epoch m) (sm_target m) (sm_dir m) (sm_progress m) (sm_ready_id
    m) (sm_ready_dir m) (sm_ready_verified m) (sm_error m) (sm_discard m) (sm_plan m) (sm_reuse m) x (sm_force m)
    (sm_stopped m) (sm_closed m).
Definition set_force (x : bool) (m : smem) : smem :=
  SMem (sm_provider m) (sm_blocked m) (sm_blocked_epoch m) (sm_target m) (sm_dir m) (sm_progress m) (sm_ready_id
    m) (sm_ready_dir m) (sm_ready_verified m) (sm_error m) (sm_discard m) (sm_plan m) (sm_reuse m) (sm_compaction
    m) x (sm_stopped m) (sm_closed m).
Definition set_stopped (x : bool) (m : smem) : smem :=
  SMem (sm_provider m) (sm_blocked m) (sm_blocked_epoch m) (sm_target m) (sm_dir m) (sm_progress m) (sm_ready_id
    m) (sm_ready_dir m) (sm_ready_verified m) (sm_error m) (sm_discard m) (sm_plan m) (sm_reuse m) (sm_compaction
    m) (sm_force m) x (sm_closed m).
Definition set_closed (x : bool) (m : smem) : smem :=
  SMem (sm_provider m) (sm_blocked m) (sm_blocked_epoch m) (sm_target m) (sm_dir m) (sm_progress m) (sm_ready_id
    m) (sm_ready_dir m) (sm_ready_verified m) (sm_error m) (sm_discard m) (sm_plan m) (sm_reuse m) (sm_compaction
    m) (sm_force m) (sm_stopped m) x.
End Mem.

(** The constructor's arguments that do not change; [sc_convert] is what the
    registered converter of that name does to a vector. *)
Record sconfig := SConfig {
  sc_active_repr : string; sc_active_gen : string; sc_active_identity : option ident; sc_projection : string;
  sc_index : option string; sc_vector_format : string; sc_chunk_rows : nat; sc_params : oracle_params;
  sc_refuse : option string; sc_budget : option Z; sc_tag : option string; sc_registry : registry;
  sc_convert : string → list float → list float }.

(** [__init__]; [force]: the configuration asks for a rebuild from the facts. *)
Definition new_smem (p : provider) (force started : bool) : smem :=
  SMem p None None None None None None None false None None None None force force (negb started) false.

(** The views of the facts during one cycle, in the order of the looks: the
    identity, the fresh target, the schema version and its second read, the resume
    gate, the probes with the candidate table, the identity of a block; the order
    in which the planner iterates its set; and the bytes below the root, if they
    can be counted. *)
Record stage_env := StageEnv {
  se_identity : facts_view; se_target : facts_view; se_schema : facts_view; se_schema2 : facts_view;
  se_gate : facts_view; se_probes : facts_view; se_competition : string → list string; se_block : facts_view;
  se_order : nat → list action → list action; se_used : option Z }.

Record sworld := SWorld { sw_disk : droot dir; sw_mem : smem }.

Section staging.
Context `{PyStdlib} `{!BuildLib} `{Unicode} `{Libm} `{IntText} `{Dictionary}.
Context (wreck : container dir → container dir) (cf : sconfig).
Local Notation container := (container dir).
Local Notation droot := (droot dir).
Local Notation io := (Effects.io sworld build_exn).

(** A computation on the root, next to the memory. *)
Definition on_disk {A} (m : Effects.io droot build_exn A) : io A := λ fault s,
  let w := io_world s in
  let '(r, s') := m fault (IoState (io_count s) (sw_disk w) []) in
  (r, IoState (io_count s') (SWorld (io_world s') (sw_mem w))
        (((λ d, SWorld d (sw_mem w)) <$> io_trace s') ++ io_trace s)).
Definition on_root {A} (m : Effects.io droot derived_exn A) : io A := on_disk (disk m).
Definition raising {A} (r : result build_exn A) : io A := match r with Ok a => mret a | Err e => throw e end.

Definition recall {A} (f : smem → A) : io A := λ _ s, (Ok (f (sw_mem (io_world s))), s).
Definition modify (f : smem → smem) : io unit := λ _ s,
  (Ok tt, IoState (io_count s) (SWorld (sw_disk (io_world s)) (f (sw_mem (io_world s)))) (io_trace s)).

(** [except OSError] *)
Definition on_oserror {A} (v : io A) (e : build_exn) : option (io A) := if bool_decide (e = Disk OsError) then Some v else None.
Definition ignoring_os (m : io unit) : io unit := rescue m (on_oserror (mret tt)).
Definition _set_last_error (why : string) : io unit := modify (Mem.set_error (Some why)).

(** ** Progress records *)

Definition _load_progress (id : string) : io (option obj) := on_root (load_progress id).
Definition _write_progress (id : string) (m : obj) : io unit := on_root (write_progress id m).
Definition isdir (f : droot → bool) : io bool := on_root (is_there f).

Definition identity_of (m : obj) : obj := match field "identity" m with JObj i => i | _ => [] end.

(** The three layers a live record must share with the configuration. *)
Definition same_build (epoch repr : string) (m : obj) : bool :=
  str_is epoch (field "store_epoch" (identity_of m)) && str_is repr (field "representation_id" (identity_of m)) &&
  str_is BUILD_VERSION (field "builder_version" (identity_of m)).

(** [_close_reuse_source] *)
Definition _close_reuse_source : io unit := modify (Mem.set_reuse None).

(** [_discard] *)
Definition forget_build (m : smem) : smem :=
  Mem.set_ready_dir None (Mem.set_ready_id None (Mem.set_error None (Mem.set_blocked_epoch None
    (Mem.set_blocked None (Mem.set_ready_verified false m))))).
Definition _discard (id reason : string) (own : bool) : io unit :=
  there ← isdir (in_staging id);
  _ ← (if there : bool
       then
         p ← _load_progress id;
         match p with
         | Some m =>
             if status_in ["discarded"] m then mret tt
             else ignoring_os (_write_progress id (set_field "reason" (JStr reason) (set_field "status" (JStr "discarded") m)))
         | None => mret tt
         end
       else mret tt);
  _ ← modify (λ m, let m := Mem.set_discard (Some reason) m in if own then forget_build m else m);
  if own then _close_reuse_source else mret tt.

(** [_clear_forced] *)
Definition _clear_forced : io unit := modify (λ m, Mem.set_force false (Mem.set_compaction false m)).

(** [_sync_state] *)
Definition _sync_state (t : option target) (p : option obj) : io unit :=
  modify (λ m, Mem.set_progress p (Mem.set_target (t_id <$> t) (Mem.set_dir (t_id <$> t) m))).

(** ** Scans of the staging namespace *)

(** [os.listdir(staging_root)]; [None]: it raised. *)
Definition list_staging : io (option (list string)) :=
  rescue (names ← on_root (look (λ k, (map_to_list (d_staging k)).*1)); mret (Some names)) (on_oserror (mret None)).

Definition sort_names : list string → list string := merge_sort String.le.

(** The first entry whose record passes [accept]. *)
Fixpoint first_record (accept : obj → io bool) (names : list string) : io (option (string * obj)) :=
  match names with
  | [] => mret None
  | id :: names =>
      there ← isdir (in_staging id);
      p ← (if there : bool then _load_progress id else mret None);
      match p with
      | Some m => ok ← accept m; if ok : bool then mret (Some (id, m)) else first_record accept names
      | None => first_record accept names
      end
  end.
Definition scan (accept : obj → io bool) : io (option (string * obj)) :=
  names ← list_staging;
  match names with None => mret None | Some names => first_record accept (sort_names names) end.

(** [_find_own_record] *)
Definition _find_own_record (epoch repr : string) : io (option (string * obj)) :=
  scan (λ m, mret (status_in ["running"; "blocked"; "ready"] m && same_build epoch repr m)).

(** [_desired_identity]; [compose_index_fingerprint()] has the exact backend. *)
Definition default_index : string := compose_index_fingerprint EXACT_BACKEND EXACT_METRIC [] "oracle-exact-v1" FP32_ROW_MAJOR_LE.
Definition layered_identity (epoch : string) (fsv : json) (repr : string) : ident :=
  [(LAYER_STORE_EPOCH, JStr epoch); (LAYER_FACT_SCHEMA, fsv); (LAYER_REPRESENTATION, JStr repr);
   (LAYER_VECTOR_FORMAT, JStr (sc_vector_format cf)); (LAYER_PROJECTION, JStr (sc_projection cf));
   (LAYER_INDEX, JStr (default default_index (sc_index cf)))].
Definition version_json (v : option string) : json := match v with Some s => JStr s | None => JNull end.
Definition _desired_identity (p : provider) (epoch : string) (fsv : option string) : ident :=
  layered_identity epoch (version_json fsv) (representation_id p).
Definition _active_identity_value (epoch : string) (fsv : option string) : ident :=
  match sc_active_identity cf with Some i => i | None => layered_identity epoch (version_json fsv) (sc_active_repr cf) end.

(** [_same_fingerprint]: the record's identity against the desired layers, key by
    key. *)
Definition _same_fingerprint (v : facts_view) (p : provider) (epoch : string) (m : obj) : bool :=
  match read_facts_schema_version v with
  | Err _ => false
  | Ok fsv =>
      let desired := _desired_identity p epoch fsv in
      forallb (λ l, py_eq (field l (identity_of m)) (field l desired))
        [LAYER_STORE_EPOCH; LAYER_FACT_SCHEMA; LAYER_REPRESENTATION; LAYER_VECTOR_FORMAT; LAYER_PROJECTION; LAYER_INDEX]
  end.

(** [_find_ready_pending] *)
Definition _find_ready_pending (v : facts_view) (p : provider) (epoch repr : string) : io (option (string * obj)) :=
  scan (λ m, mret (status_in ["ready"] m && same_build epoch repr m && _same_fingerprint v p epoch m)).

(** [_mark_stale_records_discarded]; [os.listdir] gives no order. *)
Definition stale_reason (epoch repr : string) (m : obj) : string :=
  if negb (str_is epoch (field "store_epoch" (identity_of m))) then "fact store epoch changed"
  else if negb (str_is repr (field "representation_id" (identity_of m))) then "desired representation changed"
  else if negb (str_is BUILD_VERSION (field "builder_version" (identity_of m))) then "builder version changed"
  else "obsolete staging of a previous target".
Fixpoint discard_stale (epoch repr : string) (keep : option string) (names : list string) : io unit :=
  match names with
  | [] => mret tt
  | id :: names =>
      _ ← (if bool_decide (keep = Some id) then mret tt
           else
             there ← isdir (in_staging id);
             p ← (if there : bool then _load_progress id else mret None);
             match p with
             | Some m => if status_in ["discarded"] m then mret tt else _discard id (stale_reason epoch repr m) false
             | None => mret tt
             end);
      discard_stale epoch repr keep names
  end.
Definition _mark_stale_records_discarded (epoch repr : string) (keep : option string) : io unit :=
  names ← list_staging;
  match names with None => mret tt | Some names => discard_stale epoch repr keep names end.

(** ** The target and the resume gate *)

(** [_compute_target] *)
Definition prepare (p : provider) (snapshot : string * hlc * list stored_event) : result build_exn target :=
  let '(epoch, source, events) := snapshot in
  _prepare_target events p epoch source (sc_projection cf) (sc_index cf) (sc_tag cf) EXACT_BACKEND [].
Definition _compute_target (v : facts_view) (p : provider) : result build_exn target :=
  snapshot ← _read_snapshot v None; prepare p snapshot.

(** [_ResumeGateError]; a [BuildError] of the reads; another exception. *)
Inductive gate_exn := GateFailed (why : string) | GateRead | GateRaised.

(** [_resume_gate]: the pinned target is computed again from the facts. *)
Definition _resume_gate (v : facts_view) (p : provider) (progress : obj) : result gate_exn (list stored_event * target) :=
  match field "source_hlc" (identity_of progress) with
  | JList (JInt a :: JInt b :: _) =>
      match _read_snapshot v (Some (a, b)) with
      | Err e => Err (if is_build_error e then GateRead else GateRaised)
      | Ok ((epoch, source), events) =>
          if negb (has_key "store_epoch" (identity_of progress)) then Err GateRaised
          else if negb (str_is epoch (field "store_epoch" (identity_of progress))) then Err (GateFailed "fact store epoch")
          else
            match prepare p ((epoch, source), events) with
            | Err (BuildBlocked _ _ _) => Err (GateFailed "pinned events no longer validate")
            | Err e => Err (if is_build_error e then GateRead else GateRaised)
            | Ok pinned =>
                if negb (str_is (t_id pinned) (field "generation_id" progress)) then Err (GateFailed "target identity")
                else if negb (str_is (t_fingerprint pinned) (field "rows_fingerprint" progress))
                then Err (GateFailed "rows fingerprint")
                else Ok (events, pinned)
            end
      end
  | _ => Err GateRaised
  end.

(** ** Blocking *)

(** [_enter_blocked]; [record]: the staging and its progress, if there are. *)
Definition blocked_record (why : string) (events : list string) (phase : string) (m : obj) : obj :=
  set_field "phase" (JStr phase) (set_field "reason" (JStr why)
    (set_field "blocked_events" (JList (JStr <$> events)) (set_field "status" (JStr "blocked") m))).
Definition _enter_blocked (v : facts_view) (why : string) (events : list string) (phase : string) (record : option (string * obj))
    : io unit :=
  _ ← match record with
      | Some (id, m) => ignoring_os (_write_progress id (blocked_record why events phase m))
      | None => mret tt
      end;
  match read_facts_identity v with
  | Err _ => throw OtherFault
  | Ok i => modify (λ m, Mem.set_blocked_epoch (fst <$> i) (Mem.set_blocked (Some events) m))
  end.

(** ** Build steps *)

Definition staging_progress_record (t : target) : obj :=
  progress_record STAGING_PROGRESS_VERSION (t_id t) "running"
    [("total_rows", JInt (Z.of_nat (length (t_rows t)))); ("rows_fingerprint", JStr (t_fingerprint t));
     ("identity", JObj (t_identity t)); ("chunks", JList [])].

(** The space check; [None]: the build may start. *)
Definition no_space (env : stage_env) (p : provider) (t : target) : option string :=
  match sc_budget cf with
  | None => None
  | Some budget =>
      match se_used env with
      | None => Some "space estimate failed"
      | Some used =>
          let projected := Z.of_nat (length (t_rows t)) * Z.max (vector_dimension p) 0 * 4 + 4096 in
          if check_build_space (Some budget) used projected then Some "insufficient space" else None
      end
  end.

(** [shutil.rmtree], its errors raised, and [os.makedirs]. *)
Definition renew_staging (id : string) : io unit :=
  there ← isdir (in_staging id);
  _ ← (if there : bool
       then on_root (_ ← change (alter_staging id (λ c, Some (wreck c))); change (alter_staging id (λ _, None)))
       else mret tt);
  on_disk (make_staging id).

(** [_start_build] *)
Definition _start_build (env : stage_env) (p : provider) (t : target) : io unit :=
  match no_space env p t with
  | Some why => _set_last_error why
  | None =>
      started ← rescue (_ ← renew_staging (t_id t); mret true)
                  (on_oserror (_ ← _set_last_error "cannot start the staging build"; mret false));
      if negb started then mret tt
      else
        written ← rescue (_ ← _write_progress (t_id t) (staging_progress_record t); mret true)
                    (on_oserror (_ ← _set_last_error "cannot write the staging progress"; mret false));
        if negb written then mret tt
        else modify (λ m, Mem.set_error None (Mem.set_ready_verified false (Mem.set_blocked_epoch None (Mem.set_blocked None m))))
  end.

(** [VectorReuseSource.event_vector] over the published container [c]. *)
Definition reuse_source (c : container) (convert : list float → list float) (e : stored_event) : option (list float) :=
  match dir_manifest (c_files c), c_files c !! "metadata.json" ≫= loads, c_files c !! "vectors.fp32" with
  | Parsed (JObj m), Some (JList rows), Some bytes =>
      let dimension := default 1 (as_int (field "vector_dimension" (identity_of m))) in
      let f := VectorFile (length rows) dimension bytes in
      convert <$> row_vectors f (row_index_of (row_id <$> rows)) (ev_id e)
  | _, _, _ => None
  end.

(** [_vector_source_for] *)
Definition _vector_source_for (pl : plan) (pinned : target) : io (option (stored_event → option (list float))) :=
  if bool_decide (p_reuse pl = ReuseNone) || String.eqb (sc_active_gen cf) "" then mret None
  else
    cached ← recall sm_reuse;
    match cached with
    | Some s => mret (Some s)
    | None =>
        opened ← rescue (_ ← on_root (open_published (sc_active_gen cf)); c ← on_root (look (λ k, d_gens k !! sc_active_gen cf)); mret c)
                   (λ e, if bool_decide (e = Disk GenerationRejected)
                         then Some (_ ← _set_last_error "vector reuse refused"; mret None) else None);
        match opened with
        | None => mret None
        | Some c =>
            let keep s : io (option (stored_event → option (list float))) := _ ← modify (Mem.set_reuse (Some s)); mret (Some s) in
            match p_reuse pl with
            | ReuseConvert =>
                match find_converter (field "vector_format" (t_identity pinned)) (JStr (sc_vector_format cf)) (sc_registry cf) with
                | Ok (Some cv) => keep (reuse_source c (sc_convert cf (cv_name cv)))
                | Ok None => mret None
                | Err _ => throw OtherFault
                end
            | _ => keep (reuse_source c (λ v, v))
            end
        end
    end.

(** [_verify_container_dance] *)
Definition _verify_container_dance (id : string) : io unit := on_root (verify_container_dance id).

(** [except GenerationRejected] *)
Definition on_rejected {A} (v : io A) (e : build_exn) : option (io A) :=
  if bool_decide (e = Disk GenerationRejected) then Some v else None.

(** The files [_finalize_build] adds; [false]: it has returned. *)
Definition add_metadata (id : string) (pinned : target) : io unit :=
  there ← on_disk (is_file id "metadata.json");
  if there : bool then mret tt else on_disk (_write_metadata id (t_rows pinned)).
Definition add_manifest (env : stage_env) (p : provider) (id : string) (progress : obj) (pinned : target)
    (events : list stored_event) (vectors_sha : string) : io bool :=
  there ← on_disk (is_file id "manifest.json");
  if there : bool then mret true
  else
    match field "source_hlc" (t_identity pinned) with
    | JList [JInt a; JInt b] =>
        probes ← rescue
          (v ← on_disk (_compute_probes id (se_probes env) p (se_competition env) events (vector_dimension p) (sc_params cf) (a, b));
           mret (Some v))
          (λ e, match e with
                | BuildBlocked why evs phase =>
                    Some (_ ← _enter_blocked (se_block env) why evs phase (Some (id, progress)); mret None)
                | _ => None
                end);
        match probes with
        | None => mret false
        | Some probes => _ ← on_disk (write_manifest id pinned (progress_chunks progress) probes vectors_sha); mret true
        end
    | _ => throw OtherFault
    end.
Definition complete_files (env : stage_env) (p : provider) (id : string) (progress : obj) (pinned : target)
    (events : list stored_event) (vectors_sha : string) : io bool :=
  rescue (_ ← add_metadata id pinned; add_manifest env p id progress pinned events vectors_sha)
    (on_oserror (_ ← _set_last_error "staging finalize failed"; mret false)).

(** [_finalize_build] *)
Definition _finalize_build (env : stage_env) (p : provider) (id : string) (progress : obj) (pinned : target)
    (events : list stored_event) (vectors_sha : string) : io unit :=
  done ← complete_files env p id progress pinned events vectors_sha;
  if negb done then mret tt
  else
    verified ← rescue (_ ← _verify_container_dance id; mret true)
                 (on_rejected (_ ← _discard id "reopen verification failed" true; mret false));
    if negb verified then mret tt
    else
      written ← rescue (_ ← _write_progress id (set_field "status" (JStr "ready") progress); mret true)
                  (on_oserror (_ ← _set_last_error "cannot mark the staging ready"; mret false));
      if negb written then mret tt
      else
        _ ← _close_reuse_source;
        modify (λ m, Mem.set_error None (Mem.set_ready_dir (Some id) (Mem.set_ready_id (Some (t_id pinned)) m))).

(** The rows a record declares; a count that is not an integer does not compare. *)
Definition total_rows (m : obj) : option Z := as_int (field "total_rows" m).

(** [_resume_build] *)
Definition resume_chunks (env : stage_env) (p : provider) (id : string) (progress : obj) (pinned : target)
    (events : list stored_event) (total next : Z) (prefix : string) : io unit :=
  if next <? total
  then
    pl ← recall sm_plan;
    src ← match pl with Some pl => _vector_source_for pl pinned | None => mret None end;
    rescue
      (_ ← on_disk (_build_chunks id events (default (event_vector p) src) (vector_dimension p) (sc_chunk_rows cf) progress
                      next prefix (Some 1%nat));
       mret tt)
      (λ e, match e with
            | BuildBlocked why evs phase => Some (_enter_blocked (se_block env) why evs phase (Some (id, progress)))
            | _ => None
            end)
  else
    there ← on_disk (is_file id "vectors.fp32");
    ok ← (if there : bool then mret true
          else rescue (_ ← on_disk (create_file id "vectors.fp32"); mret true)
                 (on_oserror (_ ← _set_last_error "cannot create the empty vectors file"; mret false)));
    if negb ok then mret tt else _finalize_build env p id progress pinned events (sha256_hex prefix).
Definition _resume_build (env : stage_env) (p : provider) (id : string) (progress : obj) : io unit :=
  match _resume_gate (se_gate env) p progress with
  | Err (GateFailed why) => _discard id why true
  | Err GateRead => _set_last_error "resume gate read failed"
  | Err GateRaised => throw OtherFault
  | Ok (events, pinned) =>
      verified ← rescue (r ← on_disk (_verify_progress_chunks id progress (vector_dimension p)); mret (Some r))
                   (λ e, match e with BuildProgress why => Some (_ ← _discard id why true; mret None) | _ => None end);
      match verified with
      | None => mret tt
      | Some (next, prefix) =>
          match total_rows progress with
          | None => throw OtherFault
          | Some total => resume_chunks env p id progress pinned events total next prefix
          end
      end
  end.

(** [_reverify_ready] *)
Definition _reverify_ready (env : stage_env) (p : provider) (id : string) (progress : obj) : io unit :=
  verified ← recall sm_ready_verified;
  if verified : bool then mret tt
  else
    match _resume_gate (se_gate env) p progress with
    | Err (GateFailed why) => _discard id why true
    | Err GateRead => _set_last_error "ready gate read failed"
    | Err GateRaised => throw OtherFault
    | Ok _ =>
        ok ← rescue (_ ← _verify_container_dance id; mret true)
               (on_rejected (_ ← _discard id "ready staging failed re-verification" true; mret false));
        if negb ok then mret tt
        else modify (λ m, Mem.set_ready_dir (Some id) (Mem.set_ready_id (as_string (field "generation_id" progress))
                       (Mem.set_ready_verified true m)))
    end.

(** ** The cycle *)

(** The gate of the compatibility matrix: nothing to build. *)
Definition is_noop (pl : plan) : bool :=
  bool_decide (p_actions pl = [Noop]) || bool_decide (p_actions pl = [RebuildIndex]).
Definition published (id : string) : io bool := isdir (in_gens id).

(** Desired equals active and nothing is forced: a ready record of the same
    fingerprint is kept for the publisher, every other one is obsolete. *)
Definition noop_cycle (env : stage_env) (p : provider) (epoch : string) (t : target) : io unit :=
  let repr := representation_id p in
  ready ← _find_ready_pending (se_schema2 env) p epoch repr;
  match ready with
  | None => _ ← _mark_stale_records_discarded epoch repr None; _sync_state (Some t) None
  | Some (id, m) =>
      _ ← _mark_stale_records_discarded epoch repr (Some id);
      there ← (if String.eqb id (sc_active_gen cf) then mret true else published id);
      if there : bool
      then _ ← _discard id "target is already published" true; _ ← _clear_forced; _sync_state (Some t) None
      else _ ← _reverify_ready env p id m; _sync_state (Some t) (Some m)
  end.

(** The worker's own record is continued by its status. *)
Definition continue_cycle (env : stage_env) (p : provider) (epoch : string) (t : target) (id : string) (m : obj) : io unit :=
  _ ← modify (λ x, Mem.set_target (Some id) (Mem.set_progress (Some m) (Mem.set_dir (Some id) x)));
  _ ← _mark_stale_records_discarded epoch (representation_id p) (Some id);
  there ← published id;
  if there : bool
  then _ ← _discard id "target is already published" true; _ ← _clear_forced; _sync_state (Some t) None
  else if String.eqb id (sc_active_gen cf)
  then _ ← _discard id "target matches the active generation" true; _ ← _clear_forced; _sync_state (Some t) None
  else if status_in ["blocked"] m then _sync_state (Some t) (Some m)
  else
    _ ← (if status_in ["ready"] m then _reverify_ready env p id m else _resume_build env p id m);
    after ← _load_progress id;
    after ← match after with
            | Some m' => if status_in ["discarded"] m' then _ ← _start_build env p t; _load_progress id else mret after
            | None => mret after
            end;
    _sync_state (Some t) after.

(** Looking for the worker's own record. *)
Definition build_cycle (env : stage_env) (p : provider) (epoch : string) (t : target) : io unit :=
  found ← _find_own_record epoch (representation_id p);
  match found with
  | Some (id, m) => continue_cycle env p epoch t id m
  | None =>
      _ ← _mark_stale_records_discarded epoch (representation_id p) None;
      there ← published (t_id t);
      if there : bool then _sync_state (Some t) None
      else _ ← _start_build env p t; m ← _load_progress (t_id t); _sync_state (Some t) m
  end.

(** The rest of a cycle, once the target is known. *)
Definition planned_cycle (env : stage_env) (p : provider) (epoch : string) (t : target) : io unit :=
  match read_facts_schema_version (se_schema env) with
  | Err _ => throw OtherFault (* [except DeltaError] names what is not imported *)
  | Ok fsv =>
      match plan_actions (se_order env) (Some (_desired_identity p epoch fsv)) (Some (_active_identity_value epoch fsv))
              (sc_registry cf) (JStr <$> fsv) with
      | Err _ => throw OtherFault
      | Ok pl =>
          _ ← modify (Mem.set_plan (Some pl));
          match p_refuse pl with
          | Some why =>
              _ ← _set_last_error "compat matrix refuses";
              _ ← _mark_stale_records_discarded epoch (representation_id p) None;
              _sync_state (Some t) None
          | None =>
              forced ← recall (λ m, sm_compaction m || sm_force m);
              if is_noop pl && negb forced then noop_cycle env p epoch t else build_cycle env p epoch t
          end
      end
  end.

(** A block without a blocked record parks the worker until the epoch changes;
    [false]: parked. *)
Definition past_block (epoch : string) : io bool :=
  m ← recall id;
  match sm_blocked m with
  | None => mret true
  | Some _ =>
      if match sm_progress m with Some r => status_in ["blocked"] r | None => false end then mret true
      else if bool_decide (sm_blocked_epoch m = Some epoch) then mret false
      else _ ← modify (λ m, Mem.set_blocked_epoch None (Mem.set_blocked None m)); mret true
  end.

(** [_cycle] *)
Definition _cycle (env : stage_env) : io unit :=
  match read_facts_identity (se_identity env) with
  | Err _ => throw OtherFault
  | Ok None => mret tt
  | Ok (Some (epoch, _)) =>
      match sc_refuse cf with
      | Some _ => _sync_state None None
      | None =>
          go ← past_block epoch;
          if negb go then mret tt
          else
            p ← recall sm_provider;
            match _compute_target (se_target env) p with
            | Err (BuildBlocked why evs phase) => _enter_blocked (se_block env) why evs phase None
            | Err e => if is_build_error e then _set_last_error "staging target compute failed" else throw e
            | Ok t => planned_cycle env p epoch t
            end
      end
  end.

(** One turn of [_run]. *)
Definition staging_turn (env : stage_env) : io unit :=
  m ← recall id;
  if sm_closed m || sm_stopped m then mret tt
  else rescue (_cycle env) (λ _, Some (_set_last_error "staging worker fault")).

(** ** Requests from other threads *)

Definition if_open (f : smem → smem) : io unit := modify (λ m, if sm_closed m then m else f m).

(** [request_compaction], [force_rebuild_from_facts], [notify_publish_success] *)
Definition request_compaction : io unit := if_open (Mem.set_compaction true).
Definition force_rebuild_from_facts : io unit := if_open (Mem.set_force true).
Definition notify_publish_success : io unit := _clear_forced.

(** [retry] *)
Definition retry_build : io unit :=
  m ← recall id;
  if sm_closed m then mret tt
  else
    _ ← modify (λ m, Mem.set_ready_verified false (Mem.set_blocked_epoch None (Mem.set_blocked None m)));
    match sm_dir m, sm_progress m with
    | Some d, Some r =>
        if status_in ["blocked"] r then ignoring_os (_write_progress d (set_field "status" (JStr "running") r)) else mret tt
    | _, _ => mret tt
    end.

(** [retarget] to a provider that its checks accept. *)
Definition retarget (p : provider) : io unit := modify (λ m, Mem.set_ready_verified false (Mem.set_provider p m)).
(** [request_stop], [start], [close] *)
Definition request_stop : io unit := modify (Mem.set_stopped true).
Definition start_worker : io unit := modify (Mem.set_stopped false).
Definition close_staging : io unit :=
  modify (λ m, if sm_closed m then m
               else Mem.set_reuse None (Mem.set_progress None (Mem.set_dir None (Mem.set_stopped true (Mem.set_closed true m))))).

(** [status()], as the publisher reads it *)
Definition staging_status_of (m : smem) : staging_status provider :=
  StagingStatus (sm_ready_id m) (sm_progress m) (sm_provider m).

(** [publish_reject] and [publish_block] of the publisher. *)
Definition publish_reject (id reason : string) : io unit := _discard id reason true.
Definition publish_block_record (reason : string) (events : list string) (phase : string) : io unit :=
  d ← recall sm_ready_dir;
  p ← match d with Some id => _load_progress id | None => mret None end;
  match d, p with
  | Some id, Some r =>
      if status_in ["ready"] r
      then
        _ ← ignoring_os (_write_progress id (blocked_record reason events phase r));
        modify (λ m, Mem.set_ready_dir None (Mem.set_ready_id None (Mem.set_ready_verified false m)))
      else mret tt
  | _, _ => mret tt
  end.
End staging.
