(* ===== verification/StagingSafety.v ===== *)
(** * What the staging worker never does

    For every fault and crash point: a turn of the worker leaves the published
    generations, the two pointers, the checkpoints and the isolated generations
    alone; and a record says [ready] only when the container of its directory
    passes [open_generation]. *)

From Stdlib Require Import SpecFloat Ascii String.
From stdpp Require Import base list strings gmap sorting.
From S2P Require Import Prelude Bytes Float64 PyJson OpStore Compat Effects Facts TextMatch Oracle Delta Derived Retention Publish PublishSafety Build BuildTheorems Staging.
Open Scope Z_scope.

(** ** Fields of a record *)

Lemma obj_get_filter k k' (m : obj) : k ≠ k' → obj_get k (filter (λ kv, kv.1 ≠ k') m) = obj_get k m.
Proof.
  intros Hne. induction m as [|[j x] m IH]; [done|]. rewrite filter_cons. case_decide as Hj; simpl.
  - by rewrite IH.
  - simpl in Hj. destruct (String.eqb_spec k j) as [->|]; [|done]. destruct Hj. congruence.
Qed.
Lemma field_set_eq k v (m : obj) : field k (set_field k v m) = v.
Proof. unfold field, set_field, obj_get_or_null. cbn. by rewrite String.eqb_refl. Qed.
Lemma field_set_ne k k' v (m : obj) : k ≠ k' → field k (set_field k' v m) = field k m.
Proof.
  intros Hne. unfold field, set_field, obj_get_or_null. cbn. rewrite (proj2 (String.eqb_neq k k')) by done.
  by rewrite obj_get_filter.
Qed.
Lemma status_set_ne l k v (m : obj) : k ≠ "status" → status_in l (set_field k v m) = status_in l m.
Proof. intros Hne. unfold status_in. by rewrite field_set_ne. Qed.
Lemma status_set l s (m : obj) : status_in l (set_field "status" (JStr s) m) = bool_decide (s ∈ l).
Proof. unfold status_in. by rewrite field_set_eq. Qed.
Lemma status_add_chunk l r (m : obj) : status_in l (add_chunk r m) = status_in l m.
Proof. by apply status_set_ne. Qed.

Lemma status_one s s' m : status_in [s] m = true → status_in [s'] m = true → s = s'.
Proof.
  unfold status_in. destruct (field "status" m); try done. intros ?%bool_decide_eq_true ?%bool_decide_eq_true. set_solver.
Qed.

Section safety.
Context `{PyStdlib} `{!BuildLib} `{Unicode} `{Libm} `{IntText} `{Dictionary}.
Local Notation container := (container dir).
Local Notation droot := (droot dir).

(** What an interrupted [rmtree] leaves: the record as it was, or none. *)
Context (wreck : container → container).
Hypothesis wrecked : ∀ c, c_progress (wreck c) = None ∨ c_progress (wreck c) = c_progress c.
Context (cf : sconfig).

(** ** Properties that the preparation of a container keeps *)

Definition not_ready (id : string) (c : container) : Prop :=
  ∀ m, usable_progress id c = Some m → status_in ["ready"] m = false.
Definition quieter (id : string) (c c' : container) : Prop := c_progress c' = c_progress c ∨ not_ready id c'.

(** [I] survives changes below one staging directory whose record does not
    become ready, and new directories. *)
Record tame (I : droot → Prop) : Prop := {
  tame_alter id f k : (∀ c c', f c = Some c' → quieter id c c') → I k → I (alter_staging id f k);
  tame_make id k : I k → I (set_staging (<[id := Container ∅ None]> (d_staging k)) k) }.

Lemma not_ready_none id F : not_ready id (Container F None).
Proof. by intros m. Qed.
Lemma not_ready_record id F m : status_in ["ready"] m = false → not_ready id (Container F (Some (Parsed (JObj m)))).
Proof.
  intros Hs m' Hm'. unfold usable_progress in Hm'. destruct (staging_progress _ _) as [x|] eqn:Hx; [|done].
  destruct (_ && _); [|done]. injection Hm' as ->. unfold staging_progress in Hx. simpl in Hx. destruct (_ && _); [|done].
  by injection Hx as <-.
Qed.
Lemma quieter_wreck id c : quieter id c (wreck c).
Proof. destruct (wrecked c) as [E|E]; [right|by left]. destruct (wreck c). simpl in E. subst. apply not_ready_none. Qed.

Section root.
Context (J I : droot → Prop) (HI : tame I).
Notation steady := (steady J I).

Lemma steady_change f : (∀ k, I k → I (f k)) → steady (change f).
Proof. intros Hf. apply steady_call. auto. Qed.
Lemma steady_look {A} (f : droot → A) : steady (look f).
Proof. by apply steady_call. Qed.
Lemma steady_is_there f : steady (is_there f).
Proof. apply steady_rescue; [apply steady_look|]. intros e. unfold on_os. case_bool_decide; auto with steady. Qed.
Lemma steady_fsync : steady fsync_directory.
Proof.
  apply steady_bind; [|intros [|]; [apply steady_look|apply steady_ret]].
  apply steady_rescue; [apply steady_bind; [apply steady_look|intros; apply steady_ret]|].
  intros e. unfold on_os. case_bool_decide; auto with steady.
Qed.
Lemma steady_on_os {A} (m v : Effects.io droot derived_exn A) : steady m → steady v → steady (rescue m (on_os v)).
Proof. intros Hm Hv. apply steady_rescue; [done|]. intros e. unfold on_os. by case_bool_decide. Qed.
Lemma steady_disk {A} (m : Effects.io droot derived_exn A) : steady m → steady (disk m).
Proof.
  intros Hm HJ fault s HP Ht. specialize (Hm HJ fault s HP Ht). unfold disk.
  by destruct (m fault s) as [[a|e] s'].
Qed.
Lemma steady_of_build {A} (r : result build_exn A) : steady (of_build r).
Proof. destruct r; [apply steady_ret|apply steady_throw]. Qed.

Lemma quiet_put id name s k : I k → I (put_file id name s k).
Proof. intros Hk. apply (tame_alter _ HI); [|done]. intros c c' [= <-]. by left. Qed.

Lemma steady_write_progress id m : status_in ["ready"] m = false → steady (write_progress id m).
Proof.
  intros Hm. unfold write_progress. apply steady_bind.
  { apply steady_call. intros k Hk. destruct (d_staging k !! id); [|done]. apply (tame_alter _ HI); [|done].
    intros c' c'' [= <-]. by left. }
  intros t. apply steady_bind; [|intros _; apply steady_on_os; [apply steady_fsync|apply steady_throw]].
  apply steady_rescue.
  - apply steady_bind; [apply steady_look|]. intros _. apply steady_change. intros k Hk.
    apply (tame_alter _ HI); [|done]. intros c c' [= <-]. right. by apply not_ready_record.
  - intros e. apply steady_bind; [|intros; apply steady_throw]. apply steady_on_os; [|apply steady_ret].
    apply steady_change. intros k Hk. apply (tame_alter _ HI); [|done]. intros c c' [= <-]. by left.
Qed.
Lemma steady_load id : steady (load_progress id).
Proof. apply steady_on_os; [apply steady_look|apply steady_ret]. Qed.
Lemma steady_make_staging id : steady (make_staging id).
Proof. apply steady_disk, steady_call. intros k Hk. destruct (d_staging k !! id); [done|]. by apply (tame_make _ HI). Qed.

Lemma steady_create id name : steady (create_file id name).
Proof. apply steady_disk, steady_call. intros k Hk. destruct (d_staging k !! id), (file_at id name k); try done. by apply quiet_put. Qed.
Lemma steady_write_all fuel id name rest : steady (write_all fuel id name rest).
Proof.
  revert rest. induction fuel as [|fuel IH]; intros rest; [apply steady_ret|]. cbn [write_all].
  destruct (String.eqb rest ""); [apply steady_ret|]. apply steady_bind; [|intros _; apply IH].
  apply steady_disk, steady_change. intros k Hk. by apply quiet_put.
Qed.
Lemma steady_write_file id name s : steady (_write_file id name s).
Proof.
  apply steady_bind; [apply steady_create|]. intros _. apply steady_bind; [apply steady_write_all|]. intros _.
  apply steady_disk, steady_look.
Qed.
Lemma steady_open_file id name : steady (open_file id name).
Proof. apply steady_disk, steady_call. intros k Hk. by destruct (file_at id name k). Qed.
Lemma steady_read_file id name : steady (read_file id name).
Proof. apply steady_disk, steady_call. intros k Hk. by destruct (file_at id name k). Qed.
Lemma steady_is_file id name : steady (is_file id name).
Proof. apply steady_disk, steady_is_there. Qed.
Lemma steady_truncate id name size : steady (truncate_file id name size).
Proof. apply steady_disk, steady_change. intros k Hk. by apply quiet_put. Qed.

Lemma steady_chunk_loop fuel id src dimension n start pending progress content limit written :
  status_in ["ready"] progress = false →
  steady (chunk_loop fuel id src dimension n start pending progress content limit written).
Proof.
  revert start pending progress content limit written.
  induction fuel as [|fuel IH]; intros start pending progress content limit written Hp; [apply steady_ret|].
  cbn [chunk_loop]. destruct pending as [|e pending]; [apply steady_ret|].
  assert (∀ (m : Effects.io droot build_exn (list json * string)), steady m →
    steady (match limit with Some O => mret (written, content) | _ => m end)) as Hlim
    by (intros m Hm; destruct limit as [[|l]|]; auto with steady).
  assert (∀ lim, steady (bytes ← of_build (embed_rows src dimension (take n (e :: pending)));
      _ ← write_all (String.length bytes) id "vectors.fp32" bytes;
      let stop := start + Z.of_nat (length (take n (e :: pending))) in
      let record := chunk_record start stop bytes in
      let progress := add_chunk record progress in
      _ ← disk (write_progress id progress);
      _ ← disk (look (λ _, tt));
      chunk_loop fuel id src dimension n stop (drop n (e :: pending)) progress (content +:+ bytes) lim
        (written ++ [record]))) as Hbody.
  { intros lim. apply steady_bind; [apply steady_of_build|]. intros bytes. apply steady_bind; [apply steady_write_all|]. intros _.
    apply steady_bind; [apply steady_disk, steady_write_progress; by rewrite status_add_chunk|]. intros _.
    apply steady_bind; [apply steady_disk, steady_look|]. intros _. apply IH. by rewrite status_add_chunk. }
  destruct limit as [[|l]|]; [apply steady_ret|apply Hbody..].
Qed.
Lemma steady_build_chunks id events src dimension n progress start prefix limit :
  status_in ["ready"] progress = false → steady (_build_chunks id events src dimension n progress start prefix limit).
Proof.
  intros Hp. unfold _build_chunks.
  apply steady_bind; [apply steady_if; [apply steady_create|apply steady_open_file]|]. intros _.
  apply steady_bind; [apply steady_if; [apply steady_truncate|apply steady_ret]|]. intros _. by apply steady_chunk_loop.
Qed.
Lemma steady_verify_progress id progress dimension : steady (_verify_progress_chunks id progress dimension).
Proof.
  unfold _verify_progress_chunks. destruct (field "chunks" progress) as [| | | | |[|c cs]|]; auto with steady.
  apply steady_bind.
  - apply steady_rescue; [apply steady_open_file|]. intros e. case_bool_decide; auto with steady.
  - intros _. apply steady_bind; [apply steady_read_file|]. intros content. apply steady_of_build.
Qed.
Lemma steady_compute_probes id v p competition events dimension params source :
  steady (_compute_probes id v p competition events dimension params source).
Proof. apply steady_bind; [apply steady_read_file|]. intros bytes. apply steady_of_build. Qed.
Lemma steady_write_manifest id t chunks probes sha : steady (write_manifest id t chunks probes sha).
Proof.
  unfold write_manifest. apply steady_bind; [apply steady_read_file|]. intros md. apply steady_bind; [apply steady_read_file|]. intros v.
  apply steady_bind; [apply steady_write_file|]. intros _. apply steady_disk, steady_fsync.
Qed.
Lemma steady_open_published id : steady (open_published id).
Proof.
  apply steady_bind; [apply steady_call; intros k Hk; by destruct (d_gens k !! id)|].
  intros _. apply steady_call. intros k Hk. by destruct (d_gens k !! id ≫= open_generation id).
Qed.
End root.

(** ** The worker *)

Section worker.
Context (J I : droot → Prop) (HI : tame I).
Local Notation io := (Effects.io sworld build_exn).

(** The same of the root inside the world. *)
Definition rooted (P : droot → Prop) (w : sworld) : Prop := P (sw_disk w).
Notation steady := (steady (rooted J) (rooted I)).

Lemma hoare_on_disk {A} (Jd : droot → Prop) P (m : Effects.io droot build_exn A) Q E :
  (hoare Jd P m Q E) → hoare (rooted Jd) (rooted P) (on_disk m) (λ a, rooted (Q a)) (λ e, rooted (E e)).
Proof.
  intros Hm fault s HP HJ. unfold on_disk. specialize (Hm fault (IoState (io_count s) (sw_disk (io_world s)) []) HP (Forall_nil_2 _)).
  destruct (m fault _) as [r [n k t]]. destruct Hm as [Ht Hr]. simpl in *. split.
  - apply Forall_app. split; [|done]. apply Forall_fmap. by eapply Forall_impl; [exact Ht|].
  - by destruct r.
Qed.

Lemma steady_on_disk {A} (m : Effects.io droot build_exn A) : Effects.steady J I m → steady (on_disk m).
Proof. intros Hm HJ. apply (hoare_on_disk J I m (λ _, I) (λ _, I)). apply Hm. intros k Hk. by apply (HJ (SWorld k (new_smem
  (Provider "" 0 (λ _, None) false (λ _, None) (λ _ _, None)) false false))). Qed.
Lemma steady_on_root {A} (m : Effects.io droot derived_exn A) : Effects.steady J I m → steady (on_root m).
Proof. intros Hm. by apply steady_on_disk, steady_disk. Qed.
Lemma steady_modify f : steady (modify f).
Proof. intros HJ fault s HP Ht. by split. Qed.
Lemma steady_recall {A} (f : smem → A) : steady (recall f).
Proof. intros HJ fault s HP Ht. by split. Qed.
Lemma steady_oserror {A} (m v : io A) : steady m → steady v → steady (rescue m (on_oserror v)).
Proof. intros Hm Hv. apply steady_rescue; [done|]. intros e. unfold on_oserror. by case_bool_decide. Qed.
Lemma steady_rejected {A} (m v : io A) : steady m → steady v → steady (rescue m (on_rejected v)).
Proof. intros Hm Hv. apply steady_rescue; [done|]. intros e. unfold on_rejected. by case_bool_decide. Qed.
Lemma steady_set_error why : steady (_set_last_error why).
Proof. apply steady_modify. Qed.
Lemma steady_sync t m : steady (_sync_state t m).
Proof. apply steady_modify. Qed.
Lemma steady_clear : steady _clear_forced.
Proof. apply steady_modify. Qed.
Lemma steady_isdir f : steady (isdir f).
Proof. apply steady_on_root, steady_is_there. Qed.
Lemma steady_load_record id : steady (_load_progress id).
Proof. apply steady_on_root, steady_load. Qed.
Lemma steady_write_record id m : status_in ["ready"] m = false → steady (_write_progress id m).
Proof. intros Hm. by apply steady_on_root, steady_write_progress. Qed.
Lemma steady_ignoring (m : io unit) : steady m → steady (ignoring_os m).
Proof. intros Hm. apply steady_oserror; [done|apply steady_ret]. Qed.
#[local] Hint Resolve steady_modify steady_recall steady_set_error steady_sync steady_clear steady_isdir steady_load_record : steady.

Lemma steady_discard id reason own : steady (_discard id reason own).
Proof.
  unfold _discard. apply steady_bind; [apply steady_isdir|]. intros there.
  apply steady_bind.
  - destruct there; [|apply steady_ret]. apply steady_bind; [apply steady_load_record|]. intros [m|]; [|apply steady_ret].
    destruct (status_in ["discarded"] m); [apply steady_ret|]. apply steady_ignoring, steady_write_record.
    rewrite status_set_ne by done. apply status_set.
  - intros _. apply steady_bind; [apply steady_modify|]. intros _. destruct own; [apply steady_modify|apply steady_ret].
Qed.

Lemma steady_list : steady list_staging.
Proof.
  apply steady_oserror; [|apply steady_ret]. apply steady_bind; [apply steady_on_root, steady_look|]. intros l. apply steady_ret.
Qed.
Lemma steady_scan accept : (∀ m, steady (accept m)) → steady (scan accept).
Proof.
  intros Ha. apply steady_bind; [apply steady_list|]. intros [l|]; [|apply steady_ret].
  generalize (sort_names l). clear l. intros l. induction l as [|id l IH]; [apply steady_ret|]. cbn [first_record].
  apply steady_bind; [apply steady_isdir|]. intros there. apply steady_bind; [destruct there; [apply steady_load_record|apply steady_ret]|].
  intros [m|]; [|exact IH]. apply steady_bind; [apply Ha|]. intros [|]; [apply steady_ret|exact IH].
Qed.
Lemma steady_mark epoch repr keep : steady (_mark_stale_records_discarded epoch repr keep).
Proof.
  apply steady_bind; [apply steady_list|]. intros [l|]; [|apply steady_ret].
  induction l as [|id l IH]; [apply steady_ret|]. cbn [discard_stale]. apply steady_bind; [|intros _; exact IH].
  apply steady_if; [apply steady_ret|]. apply steady_bind; [apply steady_isdir|]. intros there.
  apply steady_bind; [destruct there; [apply steady_load_record|apply steady_ret]|].
  intros [m|]; [|apply steady_ret]. apply steady_if; [apply steady_ret|apply steady_discard].
Qed.

Lemma status_blocked why events phase m : status_in ["ready"] (blocked_record why events phase m) = false.
Proof. unfold blocked_record. rewrite !status_set_ne by done. apply status_set. Qed.

Lemma steady_enter_blocked v why events phase record : steady (_enter_blocked v why events phase record).
Proof.
  apply steady_bind.
  - destruct record as [[id m]|]; [|apply steady_ret]. apply steady_ignoring, steady_write_record, status_blocked.
  - intros _. destruct (read_facts_identity v); [apply steady_modify|apply steady_throw].
Qed.

Lemma steady_start env p t : steady (_start_build wreck cf env p t).
Proof.
  unfold _start_build. destruct (no_space cf env p t); [apply steady_modify|].
  apply steady_bind.
  - apply steady_oserror; [|apply steady_bind; [apply steady_modify|intros _; apply steady_ret]].
    apply steady_bind; [|intros _; apply steady_ret]. unfold renew_staging. apply steady_bind; [apply steady_isdir|]. intros there.
    apply steady_bind; [|intros _; by apply steady_on_disk, steady_make_staging].
    apply steady_if; [|apply steady_ret]. apply steady_on_root. apply steady_bind; [|intros _]; apply steady_change; intros k Hk;
      apply (tame_alter _ HI); try done. intros c c' [= <-]. apply quieter_wreck.
  - intros started. apply steady_if; [apply steady_ret|]. apply steady_bind.
    + apply steady_oserror; [|apply steady_bind; [apply steady_modify|intros _; apply steady_ret]].
      apply steady_bind; [|intros _; apply steady_ret]. by apply steady_write_record.
    + intros written. apply steady_if; [apply steady_ret|apply steady_modify].
Qed.

Lemma steady_source pl pinned : steady (_vector_source_for cf pl pinned).
Proof.
  unfold _vector_source_for. apply steady_if; [apply steady_ret|]. apply steady_bind; [apply steady_recall|].
  intros [s|]; [apply steady_ret|]. apply steady_bind.
  - apply steady_rescue.
    + apply steady_bind; [apply steady_on_root, steady_open_published|]. intros _.
      apply steady_bind; [apply steady_on_root, steady_look|]. intros c. apply steady_ret.
    + intros e. case_bool_decide; [|done]. apply steady_bind; [apply steady_modify|]. intros _. apply steady_ret.
  - intros [c|]; [|apply steady_ret].
    assert (∀ s, steady (_ ← modify (Mem.set_reuse (Some s)); mret (Some s) : io (option (stored_event → option (list float))))) as Hk
      by (intros s; apply steady_bind; [apply steady_modify|intros _; apply steady_ret]).
    destruct (p_reuse pl); [apply Hk| |apply Hk]. destruct (find_converter _ _ _) as [[cv|]|]; [apply Hk|apply steady_ret|apply steady_throw].
Qed.

Lemma steady_complete env p id progress pinned events sha : steady (complete_files cf env p id progress pinned events sha).
Proof.
  apply steady_oserror; [|apply steady_bind; [apply steady_modify|intros _; apply steady_ret]].
  apply steady_bind.
  - apply steady_bind; [apply steady_on_disk, steady_is_file|]. intros there. apply steady_if; [apply steady_ret|].
    by apply steady_on_disk, steady_write_file.
  - intros _. apply steady_bind; [apply steady_on_disk, steady_is_file|]. intros there. apply steady_if; [apply steady_ret|].
    destruct (field "source_hlc" (t_identity pinned)) as [| | | | |[|[| |a| | | |] [|[| |b| | | |] [|]]]|]; try apply steady_throw.
    apply steady_bind.
    + apply steady_rescue.
      * apply steady_bind; [apply steady_on_disk, steady_compute_probes|]. intros v. apply steady_ret.
      * intros e. destruct e; try done. apply steady_bind; [apply steady_enter_blocked|]. intros _. apply steady_ret.
    + intros [probes|]; [|apply steady_ret]. apply steady_bind; [by apply steady_on_disk, steady_write_manifest|].
      intros _. apply steady_ret.
Qed.
End worker.

(** ** A turn, given what verifying and announcing a container keep *)

Section turn.
(** The container of the staging opens. *)
Definition opens_at (id : string) (k : droot) : Prop :=
  ∃ c g, d_staging k !! id = Some c ∧ open_generation id (Container (c_files c) None) = Some g.

Context (J I : droot → Prop) (K : string → droot → Prop) (HI : tame I).
Hypothesis HIJ : ∀ k, I k → J k.
Hypothesis HKJ : ∀ id k, K id k → J k.
Hypothesis HIK : ∀ id k, I k → K id k.
Hypothesis K_exit : ∀ id k c m, K id k → d_staging k !! id = Some c → usable_progress id c = Some m →
  status_in ["discarded"] m = true → I k.
Hypothesis dance : ∀ id, hoare J I (verify_container_dance id) (λ _ k, I k ∧ opens_at id k) (λ _, I).
Hypothesis announce : ∀ id m, hoare J (λ k, I k ∧ opens_at id k) (write_progress id m) (λ _, K id) (λ _, K id).
Local Notation io := (Effects.io sworld build_exn).

(** A step that keeps [I] ends in anything [I] implies. *)
Lemma steady_use {A} (m : io A) (Q : droot → Prop) :
  Effects.steady (rooted J) (rooted I) m → (∀ k, I k → Q k) → hoare (rooted J) (rooted I) m (λ _, rooted Q) (λ _, rooted Q).
Proof.
  intros Hm HQ. eapply (hoare_weaken (rooted J) (rooted I) (rooted I) m _ (λ _, rooted I) _ (λ _, rooted I));
    [apply Hm; intros k; apply HIJ|done|intros ? k; apply HQ|intros ? k; apply HQ].
Qed.
Lemma steady_then {A B} (m : io A) (f : A → io B) Q (X : droot → Prop) :
  Effects.steady (rooted J) (rooted I) m → (∀ k, I k → X k) →
  (∀ a, hoare (rooted J) (rooted I) (f a) Q (λ _, rooted X)) →
  hoare (rooted J) (rooted I) (m ≫= f) Q (λ _, rooted X).
Proof.
  intros Hm HX Hf. eapply hoare_bind; [|exact Hf]. eapply hoare_weaken; [apply (steady_use m I Hm); done|done|done|].
  intros e k. apply HX.
Qed.
Lemma hoare_modify f (P : droot → Prop) : hoare (rooted J) (rooted P) (modify f) (λ _, rooted P) (λ _, rooted P).
Proof. intros fault s HP Ht. by split. Qed.
Lemma hoare_oserror {A} P (m v : io A) Q E :
  hoare (rooted J) P m Q E → hoare (rooted J) (E (Disk OsError)) v Q E → hoare (rooted J) P (rescue m (on_oserror v)) Q E.
Proof.
  intros Hm Hv. eapply hoare_rescue; [exact Hm|]. intros e. unfold on_oserror. case_bool_decide as He; [by rewrite He|done].
Qed.
Lemma hoare_disk {A} P (m : Effects.io droot derived_exn A) Q (E : droot → Prop) :
  hoare J P m Q (λ _, E) → hoare J P (disk m) Q (λ _, E).
Proof.
  intros Hm fault s HP Ht. specialize (Hm fault s HP Ht). unfold disk. by destruct (m fault s) as [[a|e] s'].
Qed.

Lemma hoare_finalize env p id progress pinned events sha :
  hoare (rooted J) (rooted I) (_finalize_build cf env p id progress pinned events sha) (λ _, rooted (K id)) (λ _, rooted (K id)).
Proof.
  apply steady_then; [by apply steady_complete|apply HIK|].
  assert (∀ A (m : io A), Effects.steady (rooted J) (rooted I) m → hoare (rooted J) (rooted I) m (λ _, rooted (K id)) (λ _, rooted (K id))) as HK
    by (intros A m Hm; apply steady_use; [done|apply HIK]).
  intros done_. destruct done_; cbn [negb]; [|apply HK, steady_ret].
  eapply (hoare_bind _ _ _ _ (λ ok : bool, rooted (λ k, I k ∧ (ok = true → opens_at id k)))).
  { eapply (hoare_rescue _ _ _ _ _ _ (λ _, rooted I)).
    - eapply hoare_bind; [eapply hoare_on_disk, hoare_disk, dance|]. intros [].
      apply hoare_ret. intros k [Hk Ho]. by split.
    - intros e. unfold on_rejected. case_bool_decide; [|intros k; apply HIK].
      apply steady_then; [by apply steady_discard|apply HIK|]. intros []. apply hoare_ret. intros k Hk. by split. }
  intros verified. destruct verified; cbn [negb].
  2: { eapply hoare_weaken; [apply HK, steady_ret|by intros k [Hk _]|done|done]. }
  eapply (hoare_bind _ _ _ _ (λ _, rooted (K id))).
  - apply hoare_oserror.
    + eapply (hoare_bind _ _ _ _ (λ _, rooted (K id))); [|intros []; apply hoare_ret; by intros k Hk].
      eapply hoare_on_disk, hoare_disk. eapply hoare_weaken; [apply announce| |done|done]. intros k [Hk Ho]. auto.
    + eapply hoare_bind; [apply hoare_modify|]. intros []. by apply hoare_ret.
  - intros written. destruct written; cbn [negb]; [|by apply hoare_ret].
    eapply hoare_bind; [apply hoare_modify|]. intros []. apply hoare_modify.
Qed.

Lemma hoare_resume env p id m :
  status_in ["ready"] m = false →
  hoare (rooted J) (rooted I) (_resume_build cf env p id m) (λ _, rooted (K id)) (λ _, rooted (K id)).
Proof.
  intros Hm.
  assert (∀ A (m : io A), Effects.steady (rooted J) (rooted I) m → hoare (rooted J) (rooted I) m (λ _, rooted (K id)) (λ _, rooted (K id))) as HK
    by (intros A m' Hm'; apply steady_use; [done|apply HIK]).
  unfold _resume_build. destruct (_resume_gate cf (se_gate env) p m) as [[events pinned]|[why| |]].
  2: apply HK; by apply steady_discard. 2: apply HK, steady_modify. 2: apply HK, steady_throw.
  apply steady_then; [|apply HIK|].
  { apply steady_rescue.
    - apply steady_bind; [by apply steady_on_disk, steady_verify_progress|]. intros r. apply steady_ret.
    - intros e. destruct e; try done. apply steady_bind; [by apply steady_discard|]. intros _. apply steady_ret. }
  intros [[next prefix]|]; [|apply HK, steady_ret]. destruct (total_rows m) as [total|]; [|apply HK, steady_throw].
  unfold resume_chunks. destruct (next <? total).
  - apply HK. apply steady_bind; [apply steady_recall|]. intros pl. apply steady_bind.
    + destruct pl; [by apply steady_source|apply steady_ret].
    + intros src. apply steady_rescue.
      * apply steady_bind; [by apply steady_on_disk, steady_build_chunks|]. intros _. apply steady_ret.
      * intros e. destruct e; try done. by apply steady_enter_blocked.
  - apply steady_then; [by apply steady_on_disk, steady_is_file|apply HIK|].
    intros there. apply steady_then; [|apply HIK|].
    { destruct there; [apply steady_ret|]. apply steady_oserror; [|apply steady_bind; [apply steady_modify|intros _; apply steady_ret]].
      apply steady_bind; [by apply steady_on_disk, steady_create|]. intros _. apply steady_ret. }
    intros ok. destruct ok; cbn [negb]; [apply hoare_finalize|apply HK, steady_ret].
Qed.

Lemma dance_steady id : Effects.steady J I (verify_container_dance id).
Proof. intros _. eapply hoare_weaken; [apply dance|done|by intros _ k [Hk _]|done]. Qed.

Lemma steady_reverify env p id m : Effects.steady (rooted J) (rooted I) (_reverify_ready cf env p id m).
Proof.
  apply steady_bind; [apply steady_recall|]. intros v. apply steady_if; [apply steady_ret|].
  destruct (_resume_gate cf (se_gate env) p m) as [[events pinned]|[why| |]];
    [|by apply steady_discard|apply steady_modify|apply steady_throw].
  apply steady_bind.
  - apply steady_rejected; [|apply steady_bind; [by apply steady_discard|intros _; apply steady_ret]].
    apply steady_bind; [apply steady_on_root, dance_steady|]. intros _. apply steady_ret.
  - intros ok. apply steady_if; [apply steady_ret|apply steady_modify].
Qed.

Lemma hoare_load id P : (∀ k, P k → J k) →
  hoare (rooted J) (rooted P) (_load_progress id)
    (λ o, rooted (λ k, P k ∧ match o with
                             | Some m => ∃ c, d_staging k !! id = Some c ∧ usable_progress id c = Some m
                             | None => True
                             end)) (λ _, rooted P).
Proof.
  intros HP. unfold _load_progress, on_root. eapply hoare_on_disk, hoare_disk. unfold load_progress.
  eapply (hoare_rescue _ _ _ _ _ _ (λ _, P)).
  - apply hoare_call; [done|]. intros k Hk. split; [by apply HP|]. split; [done|].
    destruct (d_staging k !! id) as [c|] eqn:Hc; [|done]. simpl. destruct (usable_progress id c) eqn:Hu; [|done]. by exists c.
  - intros e. unfold on_os. case_bool_decide; [|done]. apply hoare_ret. by intros k Hk.
Qed.

Lemma hoare_continue env p epoch t id m :
  hoare (rooted J) (rooted I) (continue_cycle wreck cf env p epoch t id m) (λ _, rooted J) (λ _, rooted J).
Proof.
  assert (∀ A (m : io A), Effects.steady (rooted J) (rooted I) m → hoare (rooted J) (rooted I) m (λ _, rooted J) (λ _, rooted J)) as HS
    by (intros A m' Hm'; by apply steady_use).
  assert (∀ A B (m : io A) (f : A → io B), Effects.steady (rooted J) (rooted I) m →
    (∀ a, hoare (rooted J) (rooted I) (f a) (λ _, rooted J) (λ _, rooted J)) →
    hoare (rooted J) (rooted I) (m ≫= f) (λ _, rooted J) (λ _, rooted J)) as HB
    by (intros; by apply steady_then).
  apply HB; [apply steady_modify|]. intros []. apply HB; [by apply steady_mark|]. intros [].
  apply HB; [apply steady_on_root, steady_is_there|]. intros there.
  assert (∀ why, hoare (rooted J) (rooted I) (_ ← _discard id why true; _ ← _clear_forced; _sync_state (Some t) None)
            (λ _, rooted J) (λ _, rooted J)) as Hgone.
  { intros why. apply HS. apply steady_bind; [by apply steady_discard|]. intros _. apply steady_bind; [apply steady_modify|].
    intros _. apply steady_modify. }
  destruct there; [apply Hgone|]. destruct (String.eqb id _); [apply Hgone|].
  destruct (status_in ["blocked"] m); [apply HS, steady_modify|].
  eapply (hoare_bind _ _ _ _ (λ _, rooted (K id))).
  { destruct (status_in ["ready"] m) eqn:Hr.
    - eapply hoare_weaken; [apply (steady_use _ I); [apply steady_reverify|done]|done|intros ? k; apply HIK|intros ? k; apply HIJ].
    - eapply hoare_weaken; [by apply hoare_resume|done|done|intros ? k; apply HKJ]. }
  intros []. eapply hoare_bind.
  { eapply hoare_weaken; [apply (hoare_load id (K id)); apply HKJ|done|done|intros e k; apply HKJ]. }
  intros after. eapply (hoare_bind _ _ _ _ (λ _, rooted J)).
  - destruct after as [m'|]; [|apply hoare_ret; intros k [Hk _]; by eapply HKJ].
    destruct (status_in ["discarded"] m') eqn:Hd; [|apply hoare_ret; intros k [Hk _]; by eapply HKJ].
    eapply hoare_weaken; [apply HS| | |]; [|intros k (Hk&c&Hc&Hu); by eapply K_exit|done..].
    apply steady_bind; [by apply steady_start|]. intros _. apply steady_load_record.
  - intros o. apply hoare_modify.
Qed.

Lemma hoare_cycle env : hoare (rooted J) (rooted I) (_cycle wreck cf env) (λ _, rooted J) (λ _, rooted J).
Proof.
  assert (∀ A (m : io A), Effects.steady (rooted J) (rooted I) m → hoare (rooted J) (rooted I) m (λ _, rooted J) (λ _, rooted J)) as HS
    by (intros A m' Hm'; by apply steady_use).
  assert (∀ A B (m : io A) (f : A → io B), Effects.steady (rooted J) (rooted I) m →
    (∀ a, hoare (rooted J) (rooted I) (f a) (λ _, rooted J) (λ _, rooted J)) →
    hoare (rooted J) (rooted I) (m ≫= f) (λ _, rooted J) (λ _, rooted J)) as HB
    by (intros; by apply steady_then).
  unfold _cycle. destruct (read_facts_identity (se_identity env)) as [[[epoch clock]|]|]; [|apply HS, steady_ret|apply HS, steady_throw].
  destruct (sc_refuse cf); [apply HS, steady_modify|].
  apply HB.
  { apply steady_bind; [apply steady_recall|]. intros m. destruct (sm_blocked m); [|apply steady_ret].
    apply steady_if; [apply steady_ret|]. apply steady_if; [apply steady_ret|].
    apply steady_bind; [apply steady_modify|]. intros _. apply steady_ret. }
  intros go. destruct go; cbn [negb]; [|apply HS, steady_ret]. apply HB; [apply steady_recall|]. intros p.
  destruct (_compute_target cf (se_target env) p) as [t|e].
  2: { destruct e; try (apply HS, steady_modify); try (apply HS, steady_throw). apply HS. by apply steady_enter_blocked. }
  unfold planned_cycle. destruct (read_facts_schema_version (se_schema env)) as [fsv|]; [|apply HS, steady_throw].
  destruct (plan_actions _ _ _ _ _) as [pl|]; [|apply HS, steady_throw]. apply HB; [apply steady_modify|]. intros [].
  destruct (p_refuse pl).
  { apply HS. apply steady_bind; [apply steady_modify|]. intros _. apply steady_bind; [by apply steady_mark|]. intros _. apply steady_modify. }
  apply HB; [apply steady_recall|]. intros forced. destruct (is_noop pl && negb forced).
  - apply HS. unfold noop_cycle. apply steady_bind; [apply steady_scan; intros; apply steady_ret|]. intros [[id m]|].
    + apply steady_bind; [by apply steady_mark|]. intros _. apply steady_bind.
      * apply steady_if; [apply steady_ret|apply steady_on_root, steady_is_there].
      * intros there. apply steady_if.
        -- apply steady_bind; [by apply steady_discard|]. intros _. apply steady_bind; [apply steady_modify|]. intros _. apply steady_modify.
        -- apply steady_bind; [apply steady_reverify|]. intros _. apply steady_modify.
    + apply steady_bind; [by apply steady_mark|]. intros _. apply steady_modify.
  - unfold build_cycle. apply HB; [apply steady_scan; intros; apply steady_ret|]. intros [[id m]|]; [apply hoare_continue|].
    apply HS. apply steady_bind; [by apply steady_mark|]. intros _. apply steady_bind; [apply steady_on_root, steady_is_there|].
    intros there. apply steady_if; [apply steady_modify|]. apply steady_bind; [by apply steady_start|]. intros _.
    apply steady_bind; [apply steady_load_record|]. intros o. apply steady_modify.
Qed.

Lemma hoare_turn env : hoare (rooted J) (rooted I) (staging_turn wreck cf env) (λ _, rooted J) (λ _, rooted J).
Proof.
  unfold staging_turn. apply steady_then; [apply steady_recall|apply HIJ|]. intros m. destruct (_ || _); [apply hoare_ret; intros k; apply HIJ|].
  eapply (hoare_rescue _ _ _ _ _ _ (λ _, rooted J)); [apply hoare_cycle|]. intros e. apply hoare_modify.
Qed.
End turn.

(** ** What holds of every turn *)

Section outcome.
Context (k0 : droot).

(** The generations that are served, as [k0] has them. *)
Definition same_served (k : droot) : Prop :=
  d_gens k = d_gens k0 ∧ d_delta k = d_delta k0 ∧ d_active k = d_active k0 ∧ d_rollback k = d_rollback k0 ∧ d_isolated k = d_isolated k0.

(** The staging [id] has a usable record that says [ready]. *)
Definition ready_at (k : droot) (id : string) (m : obj) : Prop :=
  ∃ c, d_staging k !! id = Some c ∧ usable_progress id c = Some m ∧ status_in ["ready"] m = true.

(** Nothing became ready; or only a container that opens, the one of [id]. *)
Definition none_new (k : droot) : Prop := same_served k ∧ ∀ id m, ready_at k id m → ready_at k0 id m.
Definition verified_new (id : string) (k : droot) : Prop :=
  same_served k ∧ ∀ i m, ready_at k i m → ready_at k0 i m ∨ (i = id ∧ opens_at id k).
Definition only_verified (k : droot) : Prop := same_served k ∧ ∀ id m, ready_at k id m → ready_at k0 id m ∨ opens_at id k.

Lemma usable_record id (c c' : container) : c_progress c = c_progress c' → usable_progress id c = usable_progress id c'.
Proof. intros E. unfold usable_progress, staging_progress. by rewrite E. Qed.

Lemma none_new_tame : tame none_new.
Proof.
  split.
  - intros id f k Hf [Hs Hn]. split; [by destruct k|]. intros i m (c&Hc&Hu&Hr). simpl in Hc.
    destruct (decide (i = id)) as [->|Hne]; [|rewrite lookup_partial_alter_ne in Hc by done; apply Hn; by exists c].
    rewrite lookup_partial_alter_eq in Hc. destruct (d_staging k !! id) as [c0|] eqn:Hc0; [|done]. simpl in Hc.
    destruct (Hf c0 c Hc) as [E|E]; [|by rewrite (E m Hu) in Hr]. apply Hn. exists c0.
    by rewrite (usable_record id c0 c).
  - intros id k [Hs Hn]. split; [by destruct k|]. intros i m (c&Hc&Hu&Hr). simpl in Hc.
    destruct (decide (i = id)) as [->|Hne]; [|rewrite lookup_insert_ne in Hc by done; apply Hn; by exists c].
    rewrite lookup_insert_eq in Hc. by injection Hc as <-.
Qed.
Lemma none_verified id k : none_new k → verified_new id k.
Proof. intros [Hs Hn]. split; [done|]. intros i m Hr. left. by apply Hn. Qed.
Lemma verified_only id k : verified_new id k → only_verified k.
Proof. intros [Hs Hn]. split; [done|]. intros i m Hr. destruct (Hn i m Hr) as [?|[-> ?]]; auto. Qed.
Lemma none_only k : none_new k → only_verified k.
Proof. intros Hk. by apply (verified_only ""), none_verified. Qed.

Lemma verified_exit id k c m : verified_new id k → d_staging k !! id = Some c → usable_progress id c = Some m →
  status_in ["discarded"] m = true → none_new k.
Proof.
  intros [Hs Hn] Hc Hu Hd. split; [done|]. intros i m' Hr. destruct (Hn i m' Hr) as [?|[-> _]]; [done|].
  destruct Hr as (c'&Hc'&Hu'&Hr'). rewrite Hc in Hc'. injection Hc' as <-. rewrite Hu in Hu'. injection Hu' as <-.
  by pose proof (status_one _ _ _ Hd Hr').
Qed.

(** The dance: the record is put aside while the container is opened. *)
Definition parked_quiet (id : string) (k : droot) : Prop := none_new k ∧
  ∀ p m (F : dir), d_parked k !! id = Some p → usable_progress id (Container F (Some p)) = Some m → status_in ["ready"] m = true →
    ready_at k0 id m.
Lemma none_new_ext k k' : d_gens k' = d_gens k → d_delta k' = d_delta k → d_active k' = d_active k → d_rollback k' = d_rollback k →
  d_isolated k' = d_isolated k → d_staging k' = d_staging k → none_new k → none_new k'.
Proof.
  intros E1 E2 E3 E4 E5 E6 [Hs Hn]. split; [unfold same_served in *; intuition congruence|].
  intros i m (c&Hc&Hu). apply Hn. exists c. by rewrite <- E6.
Qed.
Lemma restore_spec id (Q : droot → Prop) :
  (∀ k c p, Q k → d_staging k !! id = Some c → Q (set_parked (delete id (d_parked k))
                                  (set_staging (<[id := Container (c_files c) (Some p)]> (d_staging k)) k))) →
  hoare (only_verified) (λ k, parked_quiet id k ∧ Q k) (rescue (restore_progress id) (on_os (mret tt)))
    (λ _ k, none_new k ∧ Q k) (λ _, none_new).
Proof.
  intros HQ. eapply (hoare_rescue _ _ _ _ _ _ (λ _ k, parked_quiet id k ∧ Q k)).
  - apply hoare_call; [done|]. intros k Hkq. destruct (d_parked k !! id) as [p|] eqn:Hpk; [|done].
    destruct (d_staging k !! id) as [c|] eqn:Hc; [|done]. destruct Hkq as [[Hk Hp] Hq].
    assert (none_new (set_parked (delete id (d_parked k)) (set_staging (<[id:=Container (c_files c) (Some p)]> (d_staging k)) k))) as Hn.
    { destruct Hk as [Hs Hn]. split; [by destruct k|]. intros i m (c'&Hc'&Hu&Hr). simpl in Hc'.
      destruct (decide (i = id)) as [->|Hne]; [|rewrite lookup_insert_ne in Hc' by done; apply Hn; by exists c'].
      rewrite lookup_insert_eq in Hc'. injection Hc' as <-. by eapply Hp. }
    split; [by apply none_only|]. split; [done|]. by apply HQ.
  - intros e. unfold on_os. case_bool_decide; [|by intros k [[? _] _]]. apply hoare_ret. by intros k [[? _] ?].
Qed.
Lemma dance_spec id :
  hoare (only_verified) (none_new) (verify_container_dance id) (λ _ k, none_new k ∧ opens_at id k) (λ _, none_new).
Proof.
  unfold verify_container_dance, park_progress. eapply (hoare_bind _ _ _ _ (λ _, parked_quiet id)).
  - eapply (hoare_bind _ _ _ _ (λ _, none_new)).
    + eapply (hoare_rescue _ _ _ _ _ _ (λ _, none_new)).
      * apply hoare_call; [done|]. intros k Hk. destruct (d_parked k !! id); [|done].
        assert (none_new (set_parked (delete id (d_parked k)) k)) by by apply (none_new_ext k). by split; [apply none_only|].
      * intros e. unfold on_os. case_bool_decide; [|done]. by apply hoare_ret.
    + intros _. apply hoare_call; [done|]. intros k Hk. destruct (d_staging k !! id) as [c|] eqn:Hc; [|done].
      destruct (c_progress c) as [p|] eqn:Hp; [|done].
      assert (none_new (set_parked (<[id:=p]> (d_parked k)) (set_staging (<[id:=Container (c_files c) None]> (d_staging k)) k))) as Hn.
      { pose proof (tame_alter _ none_new_tame id (λ c, Some (Container (c_files c) None)) k) as Ht.
        eapply none_new_ext; [..|apply Ht; [|exact Hk]]; try (by destruct k).
        - destruct k; simpl in *. apply map_eq. intros i. destruct (decide (i = id)) as [->|Hne];
            [by rewrite lookup_insert_eq, lookup_partial_alter_eq, Hc|by rewrite lookup_insert_ne, lookup_partial_alter_ne by done].
        - intros c1 c2 [= <-]. right. by intros m. }
      split; [by apply none_only|]. split; [done|]. simpl. rewrite lookup_insert_eq. intros p' m F [= <-] Hu Hr.
      apply Hk. exists c. rewrite <- (usable_record id (Container F (Some p)) c); simpl; auto.
  - intros _. eapply (hoare_finally _ _ _ _ _ _ (λ _ k, parked_quiet id k ∧ opens_at id k) (λ _, parked_quiet id)).
    + eapply (hoare_bind _ _ _ _ (λ _ k, parked_quiet id k ∧ opens_at id k)); [|intros _; by apply hoare_ret].
      eapply (hoare_bind _ _ _ _ (λ _, parked_quiet id)).
      { apply hoare_call; [done|]. intros k Hk. destruct (d_staging k !! id); [|done].
        split; [apply none_only; by destruct Hk|done]. }
      intros _. apply hoare_call; [done|]. intros k Hk. destruct (d_staging k !! id) as [c|] eqn:Hc; [|done]. simpl.
      destruct (open_generation id c) as [g|] eqn:Hg; [|done]. split; [apply none_only; by destruct Hk|].
      split; [done|]. exists c, g. split; [done|]. unfold open_generation in *. by destruct (c_progress c).
    + intros _. apply (restore_spec id (opens_at id)). intros k c p (c'&g&Hc'&Hg) Hc. rewrite Hc in Hc'. injection Hc' as <-.
      exists (Container (c_files c) (Some p)), g. simpl. by rewrite lookup_insert_eq.
    + intros e. eapply hoare_weaken; [apply (restore_spec id (λ _, True)); done|by split|by intros ? k [? _]|done].
Qed.

(** Announcing: the record is renamed into a container that opens. *)
Definition temp_at (id t : string) (k : droot) : Prop := none_new k ∧ ∃ c F g, d_staging k !! id = Some c ∧ t = gf_temp_name F ∧
  c_files c = gf_put_temp t F ∧ open_generation id (Container F None) = Some g.
Lemma announce_spec id m :
  hoare only_verified (λ k, none_new k ∧ opens_at id k) (write_progress id m) (λ _, verified_new id) (λ _, verified_new id).
Proof.
  unfold write_progress.
  eapply (hoare_bind _ _ _ _ (temp_at id)).
  - apply hoare_call; [intros k [Hk _]; by apply none_verified|]. intros k [Hk (c&g&Hc&Hg)]. rewrite Hc.
    assert (none_new (alter_staging id (λ c1, Some (Container (gf_put_temp (gf_temp_name (c_files c)) (c_files c1)) (c_progress c1))) k)) as Hn
      by (apply (tame_alter _ none_new_tame); [intros c1 c2 [= <-]; by left|done]).
    split; [by apply none_only|]. split; [exact Hn|].
    exists (Container (gf_put_temp (gf_temp_name (c_files c)) (c_files c)) (c_progress c)), (c_files c), g. simpl.
    by rewrite lookup_partial_alter_eq, Hc.
  - intros t. eapply (hoare_bind _ _ _ _ (λ _, verified_new id)).
    + eapply (hoare_rescue _ _ _ _ _ _ (λ _, none_new)).
      * eapply (hoare_bind _ _ _ _ (λ _, temp_at id t)).
        { apply hoare_call; [by intros k [Hk _]|]. intros k Hk. split; [apply none_only, Hk|exact Hk]. }
        intros _. apply hoare_call; [by intros k [Hk _]|]. intros k [Hk (c&F&g&Hc&->&HF&Hg)].
        assert (verified_new id (alter_staging id (λ c, Some (Container (gf_unlink_temp (gf_temp_name F) (c_files c)) (Some (Parsed (JObj m))))) k)) as Hv.
        { destruct Hk as [Hs Hn]. split; [by destruct k|]. intros i m' (c'&Hc'&Hu&Hr).
          change (d_staging (alter_staging id ?f k)) with (partial_alter (λ o, o ≫= f) id (d_staging k)) in Hc'.
          destruct (decide (i = id)) as [->|Hne].
          - right. split; [done|]. exists c', g. split; [exact Hc'|]. rewrite lookup_partial_alter_eq, Hc in Hc'.
            cbn [mbind option_bind] in Hc'. injection Hc' as <-. change (open_generation id (Container (gf_unlink_temp (gf_temp_name F) (c_files c)) None) = Some g).
            by rewrite HF, gf_unlink_put.
          - rewrite lookup_partial_alter_ne in Hc' by done. left. apply Hn. by exists c'. }
        split; [by eapply verified_only|exact Hv].
      * intros e. eapply hoare_weaken; [|done| |]; [|intros ? k; apply none_verified..].
        eapply (hoare_weaken _ _ none_new _ _ (λ _, none_new) _ (λ _, none_new)); [|done..].
        apply (steady_bind _ none_new); [|intros; apply steady_throw|intros k; apply none_only].
        apply steady_on_os; [|apply steady_ret]. apply steady_change. intros k Hk. apply (tame_alter _ none_new_tame); [|done].
        intros c c' [= <-]. by left.
    + intros _. apply (steady_on_os only_verified (verified_new id)); [apply steady_fsync|apply steady_throw|].
      intros k. apply verified_only.
Qed.

(** A turn leaves what is served alone, and what it announces opens. *)
Theorem turn_spec env : hoare (rooted only_verified) (rooted none_new) (staging_turn wreck cf env) (λ _, rooted only_verified) (λ _, rooted only_verified).
Proof.
  apply (hoare_turn only_verified none_new verified_new); eauto using none_new_tame, none_only, verified_only, none_verified, verified_exit, dance_spec, announce_spec.
Qed.
End outcome.

(** ** Everything that happens to the worker *)

(** A turn, or a request of another thread. *)
Inductive work :=
| Turn (env : stage_env)
| Retry | Compact | RebuildAll | PublishedOne | Retarget (p : provider) | Stop | Start | Close
| Reject (id reason : string) | Block (reason : string) (events : list string) (phase : string).
Definition perform (x : work) : Effects.io sworld build_exn unit :=
  match x with
  | Turn env => staging_turn wreck cf env
  | Retry => retry_build
  | Compact => request_compaction
  | RebuildAll => force_rebuild_from_facts
  | PublishedOne => notify_publish_success
  | Retarget p => retarget p
  | Stop => request_stop
  | Start => start_worker
  | Close => close_staging
  | Reject id reason => publish_reject id reason
  | Block reason events phase => publish_block_record reason events phase
  end.

(** It ends, under some faults; or the process dies on the way and starts anew. *)
Inductive worker_step (w : sworld) : sworld → Prop :=
| Ended x fault : worker_step w (io_world (perform x fault (IoState O w [])).2)
| Died x fault w' p force started : w' ∈ io_trace (perform x fault (IoState O w [])).2 →
    worker_step w (SWorld (sw_disk w') (new_smem p force started)).

Lemma perform_spec k0 x : hoare (rooted (only_verified k0)) (rooted (none_new k0)) (perform x)
  (λ _, rooted (only_verified k0)) (λ _, rooted (only_verified k0)).
Proof.
  assert (∀ m : Effects.io sworld build_exn unit, steady (rooted (only_verified k0)) (rooted (none_new k0)) m →
    hoare (rooted (only_verified k0)) (rooted (none_new k0)) m (λ _, rooted (only_verified k0)) (λ _, rooted (only_verified k0))) as HS.
  { intros m Hm. eapply steady_use; [|exact Hm|]; auto using none_only. }
  destruct x; [apply turn_spec|apply HS..]; cbn [perform]; try apply steady_modify.
  - apply steady_bind; [apply steady_recall|]. intros m. apply steady_if; [apply steady_ret|].
    apply steady_bind; [apply steady_modify|]. intros _. destruct (sm_dir m), (sm_progress m); try apply steady_ret.
    apply steady_if; [|apply steady_ret]. apply steady_ignoring, steady_write_record; [apply none_new_tame|]. apply status_set.
  - apply steady_discard, none_new_tame.
  - apply steady_bind; [apply steady_recall|]. intros d. apply steady_bind; [destruct d; [apply steady_load_record|apply steady_ret]|].
    intros p. destruct d, p; try apply steady_ret. apply steady_if; [|apply steady_ret].
    apply steady_bind; [|intros _; apply steady_modify]. apply steady_ignoring, steady_write_record; [apply none_new_tame|].
    unfold blocked_record. rewrite !status_set_ne by done. apply status_set.
Qed.

Lemma step_spec w w' : worker_step w w' → only_verified (sw_disk w) (sw_disk w').
Proof.
  assert (none_new (sw_disk w) (sw_disk w)) as H0' by done.
  intros Hs. destruct Hs as [x fault|x fault w1 p force started Hin];
    pose proof (perform_spec (sw_disk w) x fault (IoState O w []) H0' (Forall_nil_2 _)) as Hx.
  - destruct (perform x fault _) as [r s]. destruct Hx as [Ht Hr]. destruct r; exact Hr.
  - destruct (perform x fault _) as [r s]. destruct Hx as [Ht Hr]. rewrite Forall_forall in Ht. exact (Ht _ Hin).
Qed.

(** Whatever the staging worker does -- turns, requests of other threads,
    crashes at any call and restarts, for all faults and all views of the facts --
    the published generations, the delta checkpoints, the two pointers and the
    isolated generations stay as they are: a build never disturbs what is served. *)
Theorem staging_never_touches_served w w' : rtc worker_step w w' → same_served (sw_disk w) (sw_disk w').
Proof.
  induction 1 as [w|w1 w2 w3 Hs _ IH]; [done|]. pose proof (proj1 (step_spec _ _ Hs)) as E.
  unfold same_served in *. intuition congruence.
Qed.

(** C14: A staging record turns [ready] only over a container that
    [open_generation] accepts: in one step of the worker, crashes included, a
    record that is ready was ready before or the files of its directory open,
    with manifest, row, vector and probe checks. *)
Theorem ready_only_if_verified w w' id m : worker_step w w' → ready_at (sw_disk w') id m →
  ready_at (sw_disk w) id m ∨ opens_at id (sw_disk w').
Proof. intros Hs. apply step_spec in Hs as [_ Hr]. apply Hr. Qed.
End safety.
