(* ===== verification/StagingRuns.v ===== *)
(** * The staged build, turn by turn

    Without faults the worker's turns build, chunk by chunk, exactly the files of
    the one-shot build, whatever restarts lie between them and however the facts
    grow meanwhile: the pinned target is computed again at every turn. *)

From Stdlib Require Import SpecFloat Ascii String.
From stdpp Require Import base list strings gmap sorting.
From S2P Require Import Prelude Bytes Float64 PyJson OpStore Compat Effects Facts TextMatch Oracle OracleTheorems Delta Derived Retention Publish PublishSafety PublishRuns Build BuildTheorems BuildRuns Staging StagingSafety.
Open Scope Z_scope.

(** ** Runs that end in a set of worlds *)

Section ends.
Context {W X : Type}.
Definition ends {A} (m : Effects.io W X A) (w : W) (Q : A → W → Prop) : Prop := ∃ a w', runs m w a w' ∧ Q a w'.

Lemma ends_runs {A} (m : Effects.io W X A) w a w' (Q : A → W → Prop) : runs m w a w' → Q a w' → ends m w Q.
Proof. intros Hr HQ. by exists a, w'. Qed.
Lemma ends_bind {A B} (m : Effects.io W X A) (f : A → Effects.io W X B) w R Q :
  ends m w R → (∀ a w', R a w' → ends (f a) w' Q) → ends (m ≫= f) w Q.
Proof.
  intros (a&w1&Hm&HR) Hf. destruct (Hf a w1 HR) as (b&w2&Hr&HQ). exists b, w2. split; [by eapply runs_bind|done].
Qed.
Lemma ends_after {A B} (m : Effects.io W X A) (f : A → Effects.io W X B) w a w' Q :
  runs m w a w' → ends (f a) w' Q → ends (m ≫= f) w Q.
Proof. intros Hm (b&w2&Hr&HQ). exists b, w2. split; [by eapply runs_bind|done]. Qed.
Lemma ends_rescue {A} (m : Effects.io W X A) h w Q : ends m w Q → ends (rescue m h) w Q.
Proof. intros (a&w1&Hm&HQ). exists a, w1. split; [by apply runs_rescue|done]. Qed.
Lemma ends_weaken {A} (m : Effects.io W X A) w (P Q : A → W → Prop) : ends m w P → (∀ a w', P a w' → Q a w') → ends m w Q.
Proof. intros (a&w1&Hm&HP) HQ. exists a, w1. auto. Qed.

(** Without faults [m] goes on as [m'] from [w']. *)
Definition becomes {A} (m : Effects.io W X A) (w : W) (m' : Effects.io W X A) (w' : W) : Prop :=
  ∀ n t, ∃ n' t', m (λ _, false) (IoState n w t) = m' (λ _, false) (IoState n' w' t').
Lemma becomes_refl {A} (m : Effects.io W X A) w : becomes m w m w.
Proof. intros n t. by exists n, t. Qed.
Lemma becomes_after {A B} (m : Effects.io W X A) (f : A → Effects.io W X B) w a w1 m' w' :
  runs m w a w1 → becomes (f a) w1 m' w' → becomes (m ≫= f) w m' w'.
Proof.
  intros Hm Hf n t. destruct (Hm n t) as ([n1 k1 t1]&Hr&Hk). simpl in Hk. subst k1. destruct (Hf n1 t1) as (n2&t2&E).
  exists n2, t2. unfold mbind, io_bind. rewrite Hr. exact E.
Qed.
Lemma ends_becomes {A} (m m' : Effects.io W X A) w w' Q : becomes m w m' w' → ends m' w' Q → ends m w Q.
Proof.
  intros Hb (a&w2&Hr&HQ). exists a, w2. split; [|done]. intros n t. destruct (Hb n t) as (n'&t'&E). rewrite E. apply Hr.
Qed.
Lemma raises_becomes {A} (m m' : Effects.io W X A) w w' e w2 : becomes m w m' w' → raises m' w' e w2 → raises m w e w2.
Proof. intros Hb Hr n t. destruct (Hb n t) as (n'&t'&E). rewrite E. apply Hr. Qed.
End ends.

(** ** Usable records *)

Lemma has_key_set k k' v (m : obj) : has_key k (set_field k' v m) = bool_decide (k = k') || has_key k m.
Proof.
  unfold has_key, set_field. cbn [obj_keys fmap list_fmap fst]. rewrite <- bool_decide_or. apply bool_decide_ext.
  rewrite elem_of_cons. destruct (decide (k = k')) as [->|Hne]; [tauto|].
  enough (k ∈ obj_keys (filter (λ kv, kv.1 ≠ k') m) ↔ k ∈ obj_keys m) as Hf by (unfold obj_keys in *; tauto).
  unfold obj_keys. rewrite !list_elem_of_fmap. setoid_rewrite list_elem_of_filter. split.
  - intros (kv&->&_&?). eauto.
  - intros (kv&->&?). eauto.
Qed.

Section records.
Context `{PyStdlib} `{!BuildLib} `{Unicode} `{Libm} `{IntText} `{Dictionary}.
Local Notation container := (container dir).

(** The object is a usable record of the staging [id]. *)
Definition usable (id : string) (m : obj) : bool :=
  str_is STAGING_PROGRESS_VERSION (field "progress_version" m) && str_is id (field "generation_id" m) &&
  status_in progress_states m && forallb (λ k, has_key k m) ["total_rows"; "rows_fingerprint"; "identity"; "chunks"] &&
  is_dict (field "identity" m) && match field "chunks" m with JList _ => true | _ => false end.

Lemma usable_loaded id m (F : dir) :
  usable_progress id (Container F (Some (Parsed (JObj m)))) = if usable id m then Some m else None.
Proof.
  unfold usable_progress, usable, staging_progress. cbn [c_progress]. unfold status_in.
  destruct (str_is STAGING_PROGRESS_VERSION _), (str_is id _); try done.
  destruct (field "status" m); try done. case_bool_decide; cbn [andb]; [|done].
  by destruct (forallb _ _), (is_dict _), (field "chunks" m).
Qed.

Lemma usable_chunks id l m : usable id m = true → usable id (set_field "chunks" (JList l) m) = true.
Proof.
  unfold usable. rewrite !status_set_ne, !field_set_ne, field_set_eq by done. cbn [forallb]. rewrite !has_key_set.
  rewrite !andb_true_iff, !orb_true_iff. tauto.
Qed.
Lemma usable_status id s m : s ∈ progress_states → usable id m = true → usable id (set_field "status" (JStr s) m) = true.
Proof.
  intros Hs. unfold usable. rewrite status_set, bool_decide_eq_true_2, !field_set_ne by done. cbn [forallb]. rewrite !has_key_set.
  rewrite !andb_true_iff, !orb_true_iff. tauto.
Qed.

Lemma field_after k m recs : k ≠ "chunks" → field k (after_chunks m recs) = field k m.
Proof.
  intros Hk. unfold after_chunks. revert m. induction recs as [|r recs IH]; intros m; [done|]. cbn [foldl]. rewrite IH.
  by apply field_set_ne.
Qed.
Lemma chunks_after m recs : progress_chunks (after_chunks m recs) = progress_chunks m ++ recs.
Proof.
  unfold after_chunks. revert m. induction recs as [|r recs IH]; intros m; cbn [foldl]; [by rewrite app_nil_r|].
  rewrite IH. unfold progress_chunks, add_chunk. rewrite field_set_eq. by rewrite <- app_assoc.
Qed.
Lemma usable_after id m recs : usable id m = true → usable id (after_chunks m recs) = true.
Proof.
  unfold after_chunks. revert m. induction recs as [|r recs IH]; intros m Hm; [done|]. cbn [foldl]. by apply IH, usable_chunks.
Qed.
Lemma after_snoc m recs r : after_chunks m (recs ++ [r]) = add_chunk r (after_chunks m recs).
Proof. unfold after_chunks. by rewrite foldl_app. Qed.
End records.

(** ** Steps that leave the root alone *)

Section steps.
Context `{PyStdlib} `{!BuildLib} `{Unicode} `{Libm} `{IntText} `{Dictionary}.
Local Notation droot := (droot dir).

Lemma runs_on_disk {A} (m : Effects.io droot build_exn A) k mem a k' :
  runs m k a k' → runs (on_disk m) (SWorld k mem) a (SWorld k' mem).
Proof.
  intros Hm n t. destruct (Hm n []) as ([n1 k1 t1]&Hr&Hk). cbn in Hk. subst k1. unfold on_disk. cbn [io_world io_count sw_disk].
  rewrite Hr. by eexists.
Qed.
Lemma runs_on_root {A} (m : Effects.io droot derived_exn A) k mem a k' :
  runs m k a k' → runs (on_root m) (SWorld k mem) a (SWorld k' mem).
Proof. intros Hm. by apply runs_on_disk, runs_disk. Qed.
Lemma runs_modify f k mem : runs (modify f) (SWorld k mem) tt (SWorld k (f mem)).
Proof. intros n t. by eexists. Qed.
Lemma runs_recall {A} (f : smem → A) k mem : runs (recall f) (SWorld k mem) (f mem) (SWorld k mem).
Proof. intros n t. by eexists. Qed.
Lemma runs_isdir f k mem : runs (isdir f) (SWorld k mem) (f k) (SWorld k mem).
Proof. apply runs_on_root, runs_is_there. Qed.

(** The usable record of a staging. *)
Definition record_of (k : droot) (id : string) : option obj := c ← d_staging k !! id; usable_progress id c.
Lemma runs_load id k mem : runs (_load_progress id) (SWorld k mem) (record_of k id) (SWorld k mem).
Proof. apply runs_on_root, runs_rescue. exact (runs_look (λ k, record_of k id) k). Qed.
Lemma record_of_at id F m k : usable id m = true → record_of (at_staging id (Container F (Some (Parsed (JObj m)))) k) id = Some m.
Proof. intros Hm. unfold record_of. rewrite at_staging_lookup. cbn [mbind option_bind]. by rewrite usable_loaded, Hm. Qed.
Lemma record_of_other id id' c k : id' ≠ id → record_of (at_staging id c k) id' = record_of k id'.
Proof. intros Hne. unfold record_of, at_staging, set_staging. cbn [d_staging]. by rewrite lookup_insert_ne. Qed.

(** *** Scans *)

(** The record of an entry, once it is known to be a directory or not. *)
Lemma runs_entry id k mem :
  runs (if in_staging id k then _load_progress id else mret None) (SWorld k mem) (record_of k id) (SWorld k mem).
Proof.
  unfold in_staging. case_bool_decide as Hs; [apply runs_load|]. unfold record_of.
  destruct (d_staging k !! id); [destruct Hs; eauto|apply runs_ret].
Qed.

Fixpoint first_such (P : obj → bool) (k : droot) (names : list string) : option (string * obj) :=
  match names with
  | [] => None
  | id :: names =>
      match record_of k id with
      | Some m => if P m then Some (id, m) else first_such P k names
      | None => first_such P k names
      end
  end.
Lemma runs_first P names k mem : runs (first_record (λ m, mret (P m)) names) (SWorld k mem) (first_such P k names) (SWorld k mem).
Proof.
  induction names as [|id names IH]; [apply runs_ret|]. cbn [first_record first_such].
  eapply runs_bind; [apply runs_isdir|]. eapply (runs_bind _ _ _ (record_of k id)).
  - apply runs_entry.
  - destruct (record_of k id) as [m|]; [|exact IH]. eapply runs_bind; [apply runs_ret|]. cbn beta.
    destruct (P m); [apply runs_ret|exact IH].
Qed.
Definition staged_names (k : droot) : list string := sort_names (map_to_list (d_staging k)).*1.
Lemma runs_scan P k mem : runs (scan (λ m, mret (P m))) (SWorld k mem) (first_such P k (staged_names k)) (SWorld k mem).
Proof.
  eapply runs_bind.
  - apply runs_rescue. eapply runs_bind; [apply runs_on_root, runs_look|apply runs_ret].
  - apply runs_first.
Qed.
Lemma staged_names_elem k id m : record_of k id = Some m → id ∈ staged_names k.
Proof.
  unfold record_of. destruct (d_staging k !! id) as [c|] eqn:Hc; [|done]. intros _. unfold staged_names, sort_names.
  rewrite merge_sort_Permutation, list_elem_of_fmap. exists (id, c). split; [done|]. by apply elem_of_map_to_list.
Qed.
Lemma first_such_none P k names : (∀ id m, record_of k id = Some m → P m = false) → first_such P k names = None.
Proof.
  intros HP. induction names as [|id names IH]; [done|]. cbn [first_such]. destruct (record_of k id) as [m|] eqn:Hm; [|done].
  by rewrite (HP _ _ Hm).
Qed.
Lemma first_such_sole P k names id m : id ∈ names → record_of k id = Some m → P m = true →
  (∀ id' m', id' ≠ id → record_of k id' = Some m' → P m' = false) → first_such P k names = Some (id, m).
Proof.
  intros Hin Hm HP Ho. induction names as [|id' names IH]; [by apply elem_of_nil in Hin|]. cbn [first_such].
  destruct (decide (id' = id)) as [->|Hne]; [by rewrite Hm, HP|]. apply elem_of_cons in Hin as [->|Hin]; [done|].
  destruct (record_of k id') as [m'|] eqn:Hm'; [|auto]. rewrite (Ho _ _ Hne Hm'). auto.
Qed.

Lemma runs_stale epoch repr keep names k mem :
  (∀ id m, record_of k id = Some m → keep = Some id ∨ status_in ["discarded"] m = true) →
  runs (discard_stale epoch repr keep names) (SWorld k mem) tt (SWorld k mem).
Proof.
  intros Hk. induction names as [|id names IH]; [apply runs_ret|]. cbn [discard_stale]. eapply (runs_bind _ _ _ tt); [|exact IH].
  case_bool_decide as Hkeep; [apply runs_ret|]. eapply runs_bind; [apply runs_isdir|]. eapply (runs_bind _ _ _ (record_of k id)).
  - apply runs_entry.
  - destruct (record_of k id) as [m|] eqn:Hm; [|apply runs_ret]. destruct (Hk _ _ Hm) as [|Hd]; [done|]. rewrite Hd. apply runs_ret.
Qed.
Lemma runs_mark epoch repr keep k mem :
  (∀ id m, record_of k id = Some m → keep = Some id ∨ status_in ["discarded"] m = true) →
  runs (_mark_stale_records_discarded epoch repr keep) (SWorld k mem) tt (SWorld k mem).
Proof.
  intros Hk. eapply runs_bind.
  { apply runs_rescue. eapply runs_bind; [apply runs_on_root, runs_look|apply runs_ret]. }
  by apply runs_stale.
Qed.
End steps.

(** ** The verified prefix *)

Section prefix.
Context `{PyStdlib} `{!BuildLib} `{Unicode} `{Libm} `{IntText} `{Dictionary}.
Context (dimension : Z).

Lemma verified_app content l1 l2 s q :
  verified_prefix dimension content (l1 ++ l2) s q =
  (r ← verified_prefix dimension content l1 s q; verified_prefix dimension content l2 r.1 r.2).
Proof.
  revert s q. induction l1 as [|c l1 IH]; intros s q; [done|]. cbn [verified_prefix app]. destruct c; try done.
  destruct (as_int (field "start_row" m)), (as_int (field "end_row" m)); try done. repeat (case_match; [done|]). apply IH.
Qed.

Lemma slice_more c tail o n : String.length (slice o n c) = n → slice o n (c +:+ tail) = slice o n c.
Proof.
  intros Hl. destruct (decide (n = 0)%nat) as [->|Hn]; [unfold slice; by rewrite !str_take_0|].
  apply slice_app_l. unfold slice in Hl. rewrite str_length_take, str_length_drop in Hl. lia.
Qed.
Lemma verified_more content tail l s q r :
  verified_prefix dimension content l s q = Ok r → verified_prefix dimension (content +:+ tail) l s q = Ok r.
Proof.
  revert s q. induction l as [|c l IH]; intros s q; [done|]. cbn [verified_prefix]. destruct c; try done.
  destruct (as_int (field "start_row" m)), (as_int (field "end_row" m)); try done. repeat (case_match; [done|]).
  assert (String.length (slice (Z.to_nat (z * (dimension * 4))) (Z.to_nat ((z0 - z) * (dimension * 4))) content) =
    Z.to_nat ((z0 - z) * (dimension * 4))) as Hl by (apply Nat.eqb_eq; by apply negb_false_iff).
  rewrite (slice_more _ tail _ _ Hl).
  repeat match goal with E : _ = false |- _ => rewrite E; clear E end. apply IH.
Qed.
End prefix.

(** ** A resumed turn *)

Section resuming.
Context `{PyStdlib} `{!BuildLib} `{Unicode} `{Libm} `{IntText} `{Dictionary}.
Context (wreck : container dir → container dir) (cf : sconfig) (p : provider).
Context (epoch : string) (source : hlc) (events : list stored_event) (t : target).
Local Notation droot := (droot dir).
Local Notation src := (event_vector p).
Local Notation dimension := (vector_dimension p).
Local Notation n := (sc_chunk_rows cf).

Hypothesis chunked : (0 < n)%nat.
Hypothesis positive : 1 <= dimension.
Hypothesis prepared : prepare cf p ((epoch, source), events) = Ok t.

(** The pinned view gives the snapshot the target was prepared from. *)
Definition gate_open (v : facts_view) : Prop := _read_snapshot v (Some source) = Ok ((epoch, source), events).

Definition start_record : obj := staging_progress_record t.
Lemma start_fields :
  field "identity" start_record = JObj (t_identity t) ∧ field "generation_id" start_record = JStr (t_id t) ∧
  field "rows_fingerprint" start_record = JStr (t_fingerprint t) ∧ usable (t_id t) start_record = true ∧
  field "status" start_record = JStr "running" ∧ progress_chunks start_record = [] ∧
  total_rows start_record = Some (Z.of_nat (length events)).
Proof.
  split_and!; try done.
  - unfold usable. change (field "generation_id" start_record) with (JStr (t_id t)). cbn [str_is]. by rewrite String.eqb_refl.
  - apply prepare_target_spec in prepared as (Hr&_). change (total_rows start_record) with (Some (Z.of_nat (length (t_rows t)))).
    by rewrite Hr, length_fmap.
Qed.

Lemma identity_pinned :
  field "store_epoch" (t_identity t) = JStr epoch ∧ field "source_hlc" (t_identity t) = hlc_json source ∧
  field "representation_id" (t_identity t) = JStr (representation_id p) ∧
  field "builder_version" (t_identity t) = JStr BUILD_VERSION ∧ has_key "store_epoch" (t_identity t) = true.
Proof.
  apply prepare_target_spec in prepared as (_&_&_&_&_&i&->&_).
  pose proof (identity_fields p epoch source (sc_projection cf) i (sc_tag cf) EXACT_BACKEND []) as (?&?&?&_&_&_&_&_&?&_).
  split_and!; try done. by destruct (sc_tag cf).
Qed.

(** The record after some chunks, with another status. *)
Definition record_with (recs : list json) : obj := after_chunks start_record recs.
Lemma record_field k recs : k ≠ "chunks" → field k (record_with recs) = field k start_record.
Proof. apply field_after. Qed.

Lemma resume_gate_pass v m : gate_open v → field "identity" m = JObj (t_identity t) → field "generation_id" m = JStr (t_id t) →
  field "rows_fingerprint" m = JStr (t_fingerprint t) → _resume_gate cf v p m = Ok (events, t).
Proof.
  intros Hv Hi Hid Hf. destruct identity_pinned as (He&Hs&_&_&Hh). unfold _resume_gate, identity_of.
  assert (_read_snapshot v (Some (source.1, source.2)) = Ok ((epoch, source), events)) as Hv' by (rewrite <- surjective_pairing; exact Hv).
  rewrite Hi, Hs. unfold hlc_json. cbn beta iota. rewrite Hv', Hh, He.
  cbn [negb str_is]. rewrite String.eqb_refl. cbn [negb]. rewrite prepared, Hid, Hf. cbn [str_is]. by rewrite !String.eqb_refl.
Qed.
Lemma gate_record v recs : gate_open v → _resume_gate cf v p (record_with recs) = Ok (events, t).
Proof. intros Hv. destruct start_fields as (Hi&Hid&Hf&_). apply resume_gate_pass; [done|by rewrite record_field..]. Qed.

(** The first [start] rows are built: their records, their bytes, what is left. *)
Record built (recs : list json) (bytes : string) (start : nat) : Prop := {
  b_start : (start <= length events)%nat;
  b_length : String.length bytes = (start * row_bytes dimension)%nat;
  b_verified : verified_prefix dimension bytes recs 0 "" = Ok (Z.of_nat start, bytes);
  b_first : recs = [] ↔ start = O }.

Definition built_dir (bytes : string) (start : nat) : dir := match start with O => ∅ | S _ => {["vectors.fp32" := bytes]} end.
Definition build_root (recs : list json) (bytes : string) (start : nat) (k : droot) : droot :=
  at_staging (t_id t) (Container (built_dir bytes start) (Some (Parsed (JObj (record_with recs))))) k.

Lemma built_start : built [] "" 0.
Proof. split; try done; try lia. Qed.

Lemma built_next recs bytes start batch b :
  built recs bytes start → batch ≠ [] → (start + length batch <= length events)%nat → embed_rows src dimension batch = Ok b →
  built (recs ++ [chunk_record (Z.of_nat start) (Z.of_nat start + Z.of_nat (length batch)) b]) (bytes +:+ b) (start + length batch).
Proof.
  intros [Hs Hl Hv Hf] Hne Hle Hb. pose proof (embed_rows_length src dimension positive _ _ Hb) as Hbl. split.
  - done.
  - rewrite str_length_app, Hl, Hbl. lia.
  - rewrite verified_app, (verified_more _ _ _ _ _ _ _ Hv). cbn [mbind result_bind fst snd]. rewrite (prefix_chunk _ n chunked).
    + cbn [verified_prefix]. do 2 f_equal. lia.
    + pose proof (record_of_batch _ _ positive n chunked (Z.of_nat start) batch b bytes "" Hb Hne) as Hr.
      rewrite str_app_nil, Nat2Z.id in Hr. apply Hr; [lia|done].
  - split; [by intros [_ ?]%app_nil|]. destruct batch; [done|]. simpl. lia.
Qed.

Lemma runs_verified recs bytes start k : built recs bytes start →
  runs (_verify_progress_chunks (t_id t) (record_with recs) dimension) (build_root recs bytes start k)
       (Z.of_nat start, bytes) (build_root recs bytes start k).
Proof.
  intros [Hs Hl Hv Hf]. unfold _verify_progress_chunks.
  assert (field "chunks" (record_with recs) = JList recs) as ->.
  { destruct recs as [|r recs _] using rev_ind; [done|]. unfold record_with. rewrite after_snoc. unfold add_chunk. rewrite field_set_eq.
    by rewrite chunks_after. }
  destruct recs as [|r recs]; [|].
  { assert (start = O) as E by (apply (proj1 Hf); reflexivity). revert Hv. rewrite E. intros [= <-]. apply runs_ret. }
  destruct start as [|start]; [by pose proof (proj2 Hf eq_refl)|].
  eapply runs_bind. { apply runs_rescue, runs_disk, runs_call. unfold build_root. by rewrite file_at_staging. }
  eapply runs_bind; [by apply runs_read_file|]. by apply runs_of_build.
Qed.

Lemma runs_one_chunk recs bytes start batch b k :
  built recs bytes start → (start < length events)%nat → batch = take n (drop start events) → embed_rows src dimension batch = Ok b →
  ∃ a, runs (_build_chunks (t_id t) events src dimension n (record_with recs) (Z.of_nat start) bytes (Some 1%nat))
         (build_root recs bytes start k) a
         (build_root (recs ++ [chunk_record (Z.of_nat start) (Z.of_nat start + Z.of_nat (length batch)) b]) (bytes +:+ b)
            (start + length batch) k).
Proof.
  intros Hb Hlt -> He. set (batch := take n (drop start events)) in *.
  exists ([chunk_record (Z.of_nat start) (Z.of_nat start + Z.of_nat (length batch)) b], bytes +:+ b). unfold _build_chunks.
  assert (0 < length batch)%nat as Hpos by (unfold batch; rewrite length_take, length_drop; lia).
  set (F := built_dir bytes start). set (P := Some (Parsed (JObj (record_with recs)))).
  eapply (runs_bind _ _ _ tt (at_staging (t_id t) (Container (<["vectors.fp32" := bytes]> F) P) k)).
  { unfold build_root, F, P. destruct start as [|start']; cbn [built_dir].
    - assert (bytes = "") as -> by (apply str_length_zero; rewrite (b_length _ _ _ Hb); lia). by apply runs_create.
    - rewrite (proj2 (Z.eqb_neq _ _)) by lia. rewrite insert_singleton_eq. apply runs_disk, runs_call. by rewrite file_at_staging. }
  eapply (runs_bind _ _ _ tt (at_staging (t_id t) (Container (<["vectors.fp32" := bytes]> F) P) k)).
  { destruct (Z.ltb_spec 0 (Z.of_nat start)) as [Hz|Hz]; [|apply runs_ret]. apply runs_disk, runs_call. cbv zeta.
    rewrite file_at_staging, lookup_insert_eq. change (default "" (Some bytes)) with bytes.
    assert (Z.to_nat (Z.of_nat start * (dimension * 4)) = String.length bytes) as ->
      by (rewrite (b_length _ _ _ Hb); unfold row_bytes; nia).
    rewrite str_take_ge, Nat.sub_diag by done. cbn [zeros]. by rewrite str_app_nil, put_file_at, insert_insert_eq. }
  rewrite Nat2Z.id. destruct (drop start events) as [|e pending] eqn:Hd.
  { apply (f_equal length) in Hd. rewrite length_drop in Hd. simpl in Hd. lia. }
  cbn [length chunk_loop]. fold batch. eapply runs_bind; [by apply runs_of_build|].
  eapply runs_bind; [by apply runs_write_all; [done|apply lookup_insert_eq]|].
  eapply runs_bind; [apply runs_disk, runs_write_progress|]. eapply runs_bind; [apply runs_disk, runs_look|].
  rewrite insert_insert_eq. unfold record_with. rewrite <- after_snoc. fold (record_with (recs ++ [chunk_record (Z.of_nat start) (Z.of_nat start + Z.of_nat (length batch)) b])).
  assert (<["vectors.fp32" := bytes +:+ b]> F = built_dir (bytes +:+ b) (start + length batch)) as ->.
  { unfold F. destruct (start + length batch)%nat eqn:E; [lia|]. cbn [built_dir].
    destruct start; [done|]. apply insert_singleton_eq. }
  change (pred <$> Some 1%nat) with (Some O). generalize (drop n (e :: pending)). intros rest.
  destruct (length pending), rest; apply runs_ret.
Qed.

(** The plan asks for no reuse of vectors. *)
Definition embeds_anew (m : smem) : Prop :=
  match sm_plan m with Some pl => p_reuse pl = ReuseNone ∨ sc_active_gen cf = "" | None => True end.
Lemma runs_source pl k mem : p_reuse pl = ReuseNone ∨ sc_active_gen cf = "" →
  runs (_vector_source_for cf pl t) (SWorld k mem) None (SWorld k mem).
Proof.
  intros Hpl. unfold _vector_source_for. replace (_ || _) with true; [apply runs_ret|]. symmetry. apply orb_true_iff.
  destruct Hpl as [?| ->]; [left|by right]. by apply bool_decide_eq_true.
Qed.

Lemma runs_resume env recs bytes start k mem a w' :
  gate_open (se_gate env) → built recs bytes start →
  runs (resume_chunks cf env p (t_id t) (record_with recs) t events (Z.of_nat (length events)) (Z.of_nat start) bytes)
    (SWorld (build_root recs bytes start k) mem) a w' →
  runs (_resume_build cf env p (t_id t) (record_with recs)) (SWorld (build_root recs bytes start k) mem) a w'.
Proof.
  intros Hg Hb Hr. unfold _resume_build. rewrite gate_record by done.
  eapply runs_bind. { apply runs_rescue. eapply runs_bind; [by apply runs_on_disk, runs_verified|apply runs_ret]. }
  cbn beta iota. unfold total_rows. rewrite record_field by done. fold (total_rows start_record).
  destruct start_fields as (_&_&_&_&_&_&->). exact Hr.
Qed.

Lemma runs_resume_chunk env recs bytes start batch b k mem :
  gate_open (se_gate env) → embeds_anew mem → built recs bytes start → (start < length events)%nat →
  batch = take n (drop start events) → embed_rows src dimension batch = Ok b →
  runs (_resume_build cf env p (t_id t) (record_with recs)) (SWorld (build_root recs bytes start k) mem) tt
    (SWorld (build_root (recs ++ [chunk_record (Z.of_nat start) (Z.of_nat start + Z.of_nat (length batch)) b]) (bytes +:+ b)
       (start + length batch) k) mem).
Proof.
  intros Hg Hm Hb Hlt Hbatch He. apply runs_resume; [done..|]. unfold resume_chunks. rewrite (proj2 (Z.ltb_lt _ _)) by lia.
  eapply runs_bind; [apply runs_recall|]. eapply (runs_bind _ _ _ None (SWorld (build_root recs bytes start k) mem)).
  { unfold embeds_anew in Hm. destruct (sm_plan mem); [by apply runs_source|apply runs_ret]. }
  change (default src None) with src. destruct (runs_one_chunk recs bytes start batch b k Hb Hlt Hbatch He) as [a Ha].
  apply runs_rescue. eapply runs_bind; [by apply runs_on_disk|apply runs_ret].
Qed.

(** *** The last turn *)

Definition ready_record (recs : list json) : obj := set_field "status" (JStr "ready") (record_with recs).
Definition announced (m : smem) : smem :=
  Mem.set_error None (Mem.set_ready_dir (Some (t_id t)) (Mem.set_ready_id (Some (t_id t)) (Mem.set_reuse None m))).
Definition ready_root (recs : list json) (bytes : string) (probes : json) (k : droot) : droot :=
  at_staging (t_id t) (Container (container_files t recs bytes probes) (Some (Parsed (JObj (ready_record recs)))))
    (unparked_root (t_id t) k).

Lemma runs_finalize env recs bytes probes g k mem :
  compute_probes (se_probes env) p (se_competition env) events bytes dimension (sc_params cf) source = Ok probes →
  open_generation (t_id t) (Container (container_files t recs bytes probes) None) = Some g →
  runs (_finalize_build cf env p (t_id t) (record_with recs) t events (sha256_hex bytes))
    (SWorld (at_staging (t_id t) (Container {["vectors.fp32" := bytes]} (Some (Parsed (JObj (record_with recs))))) k) mem) tt
    (SWorld (ready_root recs bytes probes k) (announced mem)).
Proof.
  intros Hp Hg. unfold _finalize_build. destruct start_fields as (_&_&_&_&_&Hc&_). destruct identity_pinned as (_&Hs&_).
  eapply runs_bind.
  { apply runs_rescue. eapply runs_bind.
    - eapply runs_bind; [apply runs_on_disk, runs_disk, runs_is_there|]. rewrite file_at_staging, lookup_singleton_ne by done.
      rewrite bool_decide_eq_false_2 by (by intros [? ?]). apply runs_on_disk, runs_write_file. by rewrite lookup_singleton_ne.
    - eapply runs_bind; [apply runs_on_disk, runs_disk, runs_is_there|].
      rewrite file_at_staging, lookup_insert_ne, lookup_singleton_ne by done.
      rewrite bool_decide_eq_false_2 by (by intros [? ?]). rewrite Hs. unfold hlc_json. cbn beta iota. rewrite <- surjective_pairing.
      eapply runs_bind.
      { apply runs_rescue. eapply runs_bind; [|apply runs_ret].
        apply runs_on_disk, runs_probes with (bytes := bytes); [exact Hp|]. rewrite lookup_insert_ne by done. apply lookup_singleton_eq. }
      cbn beta iota. eapply runs_bind; [|apply runs_ret]. unfold record_with. rewrite chunks_after, Hc. cbn [app].
      apply runs_on_disk, runs_manifest; [apply lookup_insert_eq|rewrite lookup_insert_ne by done; apply lookup_singleton_eq|].
      by rewrite lookup_insert_ne, lookup_singleton_ne. }
  cbn [negb]. fold (container_files t recs bytes probes).
  eapply runs_bind.
  { apply runs_rescue. eapply runs_bind; [|apply runs_ret]. apply runs_on_root. eapply runs_dance; [apply at_staging_lookup|exact Hg]. }
  cbn [negb]. change (unparked_root (t_id t) (at_staging (t_id t) ?c k)) with (at_staging (t_id t) c (unparked_root (t_id t) k)).
  eapply runs_bind.
  { apply runs_rescue. eapply runs_bind; [|apply runs_ret]. apply runs_on_root, runs_write_progress. }
  cbn [negb]. eapply runs_bind; [apply runs_modify|].
  exact (runs_modify _ (ready_root recs bytes probes k) (Mem.set_reuse None mem)).
Qed.

Lemma runs_resume_last env recs bytes probes g k mem :
  gate_open (se_gate env) → built recs bytes (length events) →
  compute_probes (se_probes env) p (se_competition env) events bytes dimension (sc_params cf) source = Ok probes →
  open_generation (t_id t) (Container (container_files t recs bytes probes) None) = Some g →
  runs (_resume_build cf env p (t_id t) (record_with recs)) (SWorld (build_root recs bytes (length events) k) mem) tt
    (SWorld (ready_root recs bytes probes k) (announced mem)).
Proof.
  intros Hgate Hb Hp Hg. apply runs_resume; [done..|]. unfold resume_chunks. rewrite (proj2 (Z.ltb_ge _ _)) by lia.
  eapply runs_bind; [apply runs_on_disk, runs_disk, runs_is_there|]. unfold build_root. rewrite file_at_staging.
  destruct (length events) as [|l] eqn:Hl; cbn [built_dir].
  - assert (bytes = "") as -> by (apply str_length_zero; rewrite (b_length _ _ _ Hb); lia).
    rewrite lookup_empty, bool_decide_eq_false_2 by (by intros [? ?]).
    eapply runs_bind. { apply runs_rescue. eapply runs_bind; [by apply runs_on_disk, runs_create|apply runs_ret]. }
    cbn [negb]. by eapply runs_finalize.
  - rewrite lookup_singleton_eq, bool_decide_eq_true_2 by eauto. eapply runs_bind; [apply runs_ret|]. cbn [negb].
    by eapply runs_finalize.
Qed.

(** ** Whole turns *)

(** A worker that may build, and facts that let it: every look succeeds, the
    pinned view is the one the target was prepared from, the plan asks for a
    build. *)
Record fit (m : smem) : Prop := {
  fit_provider : sm_provider m = p; fit_open : sm_closed m = false; fit_runs : sm_stopped m = false;
  fit_unblocked : sm_blocked m = None }.
Record calm (bytes : string) (probes : json) (env : stage_env) : Prop := {
  cm_identity : ∃ clock, read_facts_identity (se_identity env) = Ok (Some (epoch, clock));
  cm_target : ∃ t', _compute_target cf (se_target env) p = Ok t';
  cm_plan : ∃ fsv pl, read_facts_schema_version (se_schema env) = Ok fsv ∧
    plan_actions (se_order env) (Some (_desired_identity cf p epoch fsv)) (Some (_active_identity_value cf epoch fsv))
      (sc_registry cf) (JStr <$> fsv) = Ok pl ∧
    p_refuse pl = None ∧ is_noop pl = false ∧ (p_reuse pl = ReuseNone ∨ sc_active_gen cf = "");
  cm_gate : gate_open (se_gate env);
  cm_space : no_space cf env p t = None;
  cm_probes : compute_probes (se_probes env) p (se_competition env) events bytes dimension (sc_params cf) source = Ok probes }.

Hypothesis not_refused : sc_refuse cf = None.
Hypothesis not_active : t_id t ≠ sc_active_gen cf.

(** A cycle goes as far as [build_cycle]. *)
Lemma cycle_builds bytes probes env k mem :
  calm bytes probes env → fit mem → ∃ t' mem', _compute_target cf (se_target env) p = Ok t' ∧ fit mem' ∧ embeds_anew mem' ∧
    becomes (_cycle wreck cf env) (SWorld k mem) (build_cycle wreck cf env p epoch t') (SWorld k mem').
Proof.
  intros [(clock&Hi) (t'&Ht) (fsv&pl&Hfsv&Hpl&Hno&Hn&Hreuse) _ _ _] [Hp Hc Hs Hbl].
  exists t', (Mem.set_plan (Some pl) mem). split; [done|]. split; [by split|]. split; [exact Hreuse|].
  unfold _cycle. rewrite Hi, not_refused. cbn beta iota.
  eapply becomes_after.
  { unfold past_block. eapply runs_bind; [apply runs_recall|]. change (id mem) with mem. rewrite Hbl. apply runs_ret. }
  cbn [negb]. eapply becomes_after; [apply runs_recall|]. rewrite Hp, Ht. unfold planned_cycle. rewrite Hfsv, Hpl.
  eapply becomes_after; [apply runs_modify|]. rewrite Hno. eapply becomes_after; [apply runs_recall|]. rewrite Hn. cbn [andb].
  apply becomes_refl.
Qed.
Lemma turn_ends env k mem Q : fit mem → ends (_cycle wreck cf env) (SWorld k mem) Q → ends (staging_turn wreck cf env) (SWorld k mem) Q.
Proof.
  intros [_ Hc Hs _] Hq. eapply ends_after; [apply runs_recall|]. change (id mem) with mem. rewrite Hc, Hs. by apply ends_rescue.
Qed.

(** *** The first turn *)

Definition all_discarded (k : droot) : Prop := ∀ id m, record_of k id = Some m → status_in ["discarded"] m = true.
Lemma discarded_not_live l m : status_in ["discarded"] m = true → "discarded" ∉ l → status_in l m = false.
Proof.
  unfold status_in. destruct (field "status" m); try done. intros Hs%bool_decide_eq_true Hl.
  apply bool_decide_eq_false. apply list_elem_of_singleton in Hs. by subst.
Qed.

Lemma alter_none_at id c k : alter_staging id (λ _, None) (at_staging id c k) = set_staging (delete id (d_staging k)) k.
Proof.
  unfold alter_staging, at_staging, set_staging. cbn. f_equal. apply map_eq. intros i. destruct (decide (i = id)) as [->|Hne].
  - by rewrite lookup_partial_alter_eq, lookup_insert_eq, lookup_delete_eq.
  - by rewrite lookup_partial_alter_ne, lookup_insert_ne, lookup_delete_ne.
Qed.
Lemma runs_renew id k mem : runs (renew_staging wreck id) (SWorld k mem) tt (SWorld (at_staging id (Container ∅ None) k) mem).
Proof.
  unfold renew_staging. eapply runs_bind; [apply runs_isdir|]. unfold in_staging. case_bool_decide as Hs.
  - destruct Hs as [c Hc].
    assert (k = at_staging id c k) as Hk by (destruct k; unfold at_staging, set_staging; cbn in *; by rewrite insert_id).
    eapply runs_bind.
    { apply runs_on_root. eapply runs_bind; [by apply runs_call|]. apply runs_call. reflexivity. }
    rewrite Hk at 1. rewrite (alter_at id (λ c, Some (wreck c)) c (wreck c)), alter_none_at by done.
    apply runs_on_disk, runs_disk, runs_call. cbn [d_staging set_staging]. rewrite lookup_delete_eq. do 2 f_equal.
    unfold at_staging, set_staging. cbn. by rewrite insert_delete_eq.
  - eapply runs_bind; [apply runs_ret|]. apply runs_on_disk, runs_disk, runs_call.
    destruct (d_staging k !! id) eqn:E; [destruct Hs; eauto|]. done.
Qed.

Definition synced (t' : target) (r : option obj) (m : smem) : smem :=
  Mem.set_progress r (Mem.set_target (Some (t_id t')) (Mem.set_dir (Some (t_id t')) m)).

Lemma turn_start bytes probes env k mem :
  calm bytes probes env → _compute_target cf (se_target env) p = Ok t → fit mem → all_discarded k → d_gens k !! t_id t = None →
  ends (staging_turn wreck cf env) (SWorld k mem) (λ _ w, sw_disk w = build_root [] "" 0 k ∧ fit (sw_mem w)).
Proof.
  intros Hcalm Ht Hfit Hd Hg. apply turn_ends; [done|].
  destruct (cycle_builds _ _ _ k _ Hcalm Hfit) as (t'&mem'&Ht'&Hfit'&_&Hb). rewrite Ht in Ht'. injection Ht' as <-.
  eapply ends_becomes; [exact Hb|]. unfold build_cycle.
  eapply ends_after.
  { unfold _find_own_record. eapply runs_scan. }
  rewrite first_such_none.
  2:{ intros id m Hm. by rewrite (discarded_not_live _ m (Hd _ _ Hm)) by set_solver. }
  cbn beta iota. eapply ends_after; [apply runs_mark; eauto|].
  eapply ends_after; [apply runs_isdir|]. unfold in_gens. rewrite Hg, bool_decide_eq_false_2 by (by intros [? ?]).
  eapply ends_after.
  { unfold _start_build. rewrite (cm_space _ _ _ Hcalm). eapply runs_bind.
    { apply runs_rescue. eapply runs_bind; [apply runs_renew|apply runs_ret]. }
    cbn [negb]. eapply runs_bind.
    { apply runs_rescue. eapply runs_bind; [apply runs_on_root, runs_write_progress|apply runs_ret]. }
    cbn [negb]. apply runs_modify. }
  eapply ends_after; [apply runs_load|]. eapply ends_runs; [apply runs_modify|]. split; [done|].
  destruct Hfit' as [? ? ? ?]. by split.
Qed.

(** *** The turns after it *)

Lemma same_build_record recs : same_build epoch (representation_id p) (record_with recs) = true.
Proof.
  unfold same_build, identity_of. rewrite record_field by done. destruct start_fields as (-> & _).
  destruct identity_pinned as (->&_&->&->&_). cbn [str_is]. by rewrite !String.eqb_refl.
Qed.
Lemma record_running recs l : status_in l (record_with recs) = bool_decide ("running" ∈ l).
Proof. unfold status_in. rewrite record_field by done. by destruct start_fields as (_&_&_&_&->&_). Qed.
Lemma record_usable recs : usable (t_id t) (record_with recs) = true.
Proof. apply usable_after. apply start_fields. Qed.

(** The own record is continued with [_resume_build]. *)
Definition after_resume (env : stage_env) (t' : target) (id : string) : Effects.io sworld build_exn unit :=
  after ← _load_progress id;
  after ← match after with
          | Some m' => if status_in ["discarded"] m' then _ ← _start_build wreck cf env p t'; _load_progress id else mret after
          | None => mret after
          end;
  _sync_state (Some t') after.
Lemma build_resumes env t' recs F k mem :
  let k1 := at_staging (t_id t) (Container F (Some (Parsed (JObj (record_with recs))))) k in
  fit mem → embeds_anew mem → all_discarded k → d_gens k !! t_id t = None →
  ∃ mem', fit mem' ∧ embeds_anew mem' ∧
    becomes (build_cycle wreck cf env p epoch t') (SWorld k1 mem)
      (_ ← _resume_build cf env p (t_id t) (record_with recs); after_resume env t' (t_id t)) (SWorld k1 mem').
Proof.
  intros k1 [? ? ? ?] Hanew Hd Hg.
  exists (Mem.set_target (Some (t_id t)) (Mem.set_progress (Some (record_with recs)) (Mem.set_dir (Some (t_id t)) mem))).
  split; [by split|]. split; [exact Hanew|].
  assert (record_of k1 (t_id t) = Some (record_with recs)) as Hown by apply record_of_at, record_usable.
  assert (∀ id m, id ≠ t_id t → record_of k1 id = Some m → status_in ["discarded"] m = true) as Hother.
  { intros id m Hne Hm. unfold k1 in Hm. rewrite record_of_other in Hm by done. eauto. }
  eapply becomes_after; [unfold _find_own_record; apply runs_scan|].
  rewrite (first_such_sole _ _ _ (t_id t) (record_with recs)).
  2: by eapply staged_names_elem. 2: done.
  2: by rewrite record_running, same_build_record, bool_decide_eq_true_2 by set_solver.
  2:{ intros id' m' Hne Hm'. by rewrite (discarded_not_live _ m' (Hother _ _ Hne Hm')) by set_solver. }
  cbn beta iota. unfold continue_cycle. eapply becomes_after; [apply runs_modify|].
  eapply becomes_after.
  { apply runs_mark. intros id m Hm. destruct (decide (id = t_id t)) as [->|]; [by left|right; eauto]. }
  eapply becomes_after; [apply runs_isdir|]. unfold in_gens. change (d_gens k1) with (d_gens k).
  rewrite Hg, bool_decide_eq_false_2 by (by intros [? ?]). rewrite (proj2 (String.eqb_neq _ _)) by done.
  rewrite !record_running, !bool_decide_eq_false_2 by set_solver. apply becomes_refl.
Qed.

Lemma turn_continues all probes env recs bytes start k k2 m2 (f : smem → smem) mem :
  calm all probes env → fit mem → all_discarded k → d_gens k !! t_id t = None →
  (∀ mem, embeds_anew mem → runs (_resume_build cf env p (t_id t) (record_with recs)) (SWorld (build_root recs bytes start k) mem) tt
     (SWorld k2 (f mem))) →
  record_of k2 (t_id t) = Some m2 → status_in ["discarded"] m2 = false →
  ends (staging_turn wreck cf env) (SWorld (build_root recs bytes start k) mem)
    (λ _ w, sw_disk w = k2 ∧ ∃ mem' t', fit mem' ∧ sw_mem w = synced t' (Some m2) (f mem')).
Proof.
  intros Hcalm Hfit Hd Hg Hres Hrec Hst. apply turn_ends; [done|].
  destruct (cycle_builds _ _ _ (build_root recs bytes start k) _ Hcalm Hfit) as (t'&mem'&_&Hfit'&Hanew&Hb).
  eapply ends_becomes; [exact Hb|].
  destruct (build_resumes env t' recs (built_dir bytes start) k mem' Hfit' Hanew Hd Hg) as (mem1&Hfit1&Hanew1&Hb1).
  eapply ends_becomes; [exact Hb1|]. eapply ends_after; [apply (Hres mem1 Hanew1)|].
  eapply ends_after; [apply runs_load|]. rewrite Hrec. eapply ends_after; [rewrite Hst; apply runs_ret|].
  eapply ends_runs; [apply runs_modify|]. split; [done|]. by exists mem1, t'.
Qed.

Lemma turn_chunk all probes env recs bytes start batch b k mem :
  calm all probes env → fit mem → all_discarded k → d_gens k !! t_id t = None →
  built recs bytes start → (start < length events)%nat → batch = take n (drop start events) → embed_rows src dimension batch = Ok b →
  ends (staging_turn wreck cf env) (SWorld (build_root recs bytes start k) mem)
    (λ _ w, sw_disk w = build_root (recs ++ [chunk_record (Z.of_nat start) (Z.of_nat start + Z.of_nat (length batch)) b]) (bytes +:+ b)
              (start + length batch) k ∧ fit (sw_mem w)).
Proof.
  intros Hcalm Hfit Hd Hg Hb Hlt Hbatch He. eapply ends_weaken.
  - eapply turn_continues with (f := λ mem, mem); [done..| | |].
    + intros mem' Hm. eapply runs_resume_chunk; [apply Hcalm|done..].
    + apply record_of_at, record_usable.
    + rewrite record_running. by apply bool_decide_eq_false_2; set_solver.
  - intros _ w (->&mem'&t'&[? ? ? ?]&->). split; [done|by split].
Qed.

Lemma turn_last all probes g env recs k mem :
  calm all probes env → fit mem → all_discarded k → d_gens k !! t_id t = None →
  built recs all (length events) → open_generation (t_id t) (Container (container_files t recs all probes) None) = Some g →
  ends (staging_turn wreck cf env) (SWorld (build_root recs all (length events) k) mem)
    (λ _ w, sw_disk w = ready_root recs all probes k ∧ sm_ready_id (sw_mem w) = Some (t_id t) ∧
       sm_ready_dir (sw_mem w) = Some (t_id t) ∧ sm_progress (sw_mem w) = Some (ready_record recs)).
Proof.
  intros Hcalm Hfit Hd Hg Hb Hopen. eapply ends_weaken.
  - eapply turn_continues with (f := announced) (m2 := ready_record recs); [done..| | |].
    + intros mem' Hm. eapply runs_resume_last; [apply Hcalm|done|apply Hcalm|exact Hopen].
    + apply record_of_at. apply usable_status; [set_solver|apply record_usable].
    + unfold ready_record. rewrite status_set. by apply bool_decide_eq_false_2; set_solver.
  - by intros _ w (->&mem'&t'&_&->).
Qed.

(** ** A session: turns, with restarts between them *)

(** [Some force]: the worker is started anew before the turn. *)
Fixpoint work_on (l : list (stage_env * option bool)) : Effects.io sworld build_exn unit :=
  match l with
  | [] => mret tt
  | (env, restart) :: l =>
      _ ← match restart with Some force => modify (λ m, new_smem (sm_provider m) force true) | None => mret tt end;
      _ ← staging_turn wreck cf env;
      work_on l
  end.

Lemma work_step env restart l k mem Q R :
  fit mem → (∀ mem, fit mem → ends (staging_turn wreck cf env) (SWorld k mem) R) →
  (∀ w, R tt w → ends (work_on l) w Q) → ends (work_on ((env, restart) :: l)) (SWorld k mem) Q.
Proof.
  intros Hf Ht Hl. cbn [work_on]. eapply (ends_bind _ _ _ (λ _ w, ∃ mem', w = SWorld k mem' ∧ fit mem')).
  - destruct restart as [force|]; [|by eapply ends_runs; [apply runs_ret|eauto]].
    eapply ends_runs; [apply runs_modify|]. eexists. split; [reflexivity|]. destruct Hf. by split.
  - intros _ w (mem'&->&Hf'). eapply ends_bind; [by apply Ht|]. intros [] w HR. by apply Hl.
Qed.

Section session.
Context (recs : list json) (all : string) (probes : json) (g : generation) (k : droot).
Hypothesis discarded : all_discarded k.
Hypothesis unpublished : d_gens k !! t_id t = None.
Hypothesis opens : open_generation (t_id t) (Container (container_files t recs all probes) None) = Some g.

Definition staged_ready (w : sworld) : Prop :=
  sw_disk w = ready_root recs all probes k ∧ sm_ready_id (sw_mem w) = Some (t_id t) ∧
  sm_ready_dir (sw_mem w) = Some (t_id t) ∧ sm_progress (sw_mem w) = Some (ready_record recs).

Lemma work_chunks fuel : ∀ start pending done_ bytes recs' bytes' l mem,
  chunks_from fuel src dimension n (Z.of_nat start) pending = Ok (recs', bytes') → (length pending <= fuel)%nat →
  pending = drop start events → built done_ bytes start → recs = done_ ++ recs' → all = bytes +:+ bytes' →
  length l = S (length recs') → Forall (calm all probes) l.*1 → fit mem →
  ends (work_on l) (SWorld (build_root done_ bytes start k) mem) (λ _, staged_ready).
Proof.
  induction fuel as [|fuel IH]; intros start pending done_ bytes recs' bytes' l mem Hc Hf Hpend Hb Hrecs Hall Hl Hcalm Hfit.
  all: destruct l as [|[env restart] l]; [done|]; cbn [fmap list_fmap fst] in Hcalm; apply Forall_cons in Hcalm as [Henv Hcalm].
  all: destruct pending as [|e pending].
  2:{ simpl in Hf. lia. }
  1,2: injection Hc as <- <-; rewrite app_nil_r in Hrecs; rewrite str_app_nil in Hall; subst done_ bytes.
  1,2: assert (start = length events) as -> by (apply (f_equal length) in Hpend; rewrite length_drop in Hpend; pose proof (b_start _ _ _ Hb); simpl in *; lia).
  1,2: destruct l; [|done]; eapply work_step; [done|intros mem' Hm'; by eapply turn_last|].
  1,2: intros w Hw; eapply ends_runs; [destruct w; apply runs_ret|exact Hw].
  apply chunks_from_cons in Hc as (batch&rest&b1&recs1&b2&Hbatch&Hrest&Hne&Hlen&Hrl&He&Hc&->&->); [|done].
  assert (length (e :: pending) = length events - start)%nat as Hlp by (by rewrite Hpend, length_drop).
  assert (start < length events)%nat as Hlt by (simpl in Hlp; lia).
  eapply work_step; [done|intros mem' Hm'; apply (turn_chunk all probes env done_ bytes start batch b1); [done..|by rewrite <- Hpend, Hbatch|exact He]|].
  intros [k' mem'] [Hk' Hm']. cbn [sw_disk sw_mem] in *. subst k'.
  eapply (IH _ rest _ _ recs1 b2); [by rewrite Nat2Z.inj_add|simpl in Hf; lia| |by apply built_next; try lia| | |simpl in Hl; lia|done|done].
  - rewrite <- drop_drop, <- Hpend, <- (take_drop n (e :: pending)), Hbatch, Hrest. by rewrite drop_app_length.
  - by rewrite <- app_assoc.
  - by rewrite <- str_app_assoc.
Qed.
End session.

(** A turn's reads of the pinned view stay as they were when facts are added. *)
Lemma gate_of_growth db db' clock :
  wf_facts db → wf_facts db' → facts_ext db db' → clock_is db source →
  meta_identity db = Ok (epoch, source) → meta_identity db' = Ok (epoch, clock) → read_active_events db source = events →
  gate_open (Store db').
Proof.
  intros Hw Hw' Hext Hc Hm Hm' He. unfold gate_open, _read_snapshot. rewrite Hm'. cbn [default id].
  by rewrite (facts_ext_read_active db db' source source), He by (done || (unfold hlc_leb; rewrite Z.eqb_refl, Z.leb_refl; by rewrite orb_true_r)).
Qed.

Lemma session_ready v competition s g l k mem :
  build_files v p competition n (sc_params cf) source events = Ok s →
  open_generation (t_id t) (Container (spec_files t s) None) = Some g →
  all_discarded k → d_gens k !! t_id t = None → fit mem →
  length l = (2 + length (bs_chunks s))%nat → Forall (calm (bs_bytes s) (bs_probes s)) l.*1 →
  (∀ env r, head l = Some (env, r) → _compute_target cf (se_target env) p = Ok t) →
  ends (work_on l) (SWorld k mem) (λ _, staged_ready (bs_chunks s) (bs_bytes s) (bs_probes s) k).
Proof.
  intros Hs Hopen Hd Hg Hfit Hl Hcalm Hhead. destruct l as [|[env restart] l]; [done|].
  apply Forall_cons in Hcalm as [Henv Hcalm]. unfold build_files in Hs.
  apply bind_Ok in Hs as ([recs bytes]&Hc&(probes&Hp&[= <-])%bind_Ok). cbn [fst snd bs_chunks bs_bytes bs_probes] in *.
  eapply work_step; [done|intros mem' Hm'; eapply turn_start; [exact Henv|by eapply Hhead|done..]|].
  intros [k' mem'] [Hk' Hm']. cbn [sw_disk sw_mem] in *. subst k'.
  eapply (work_chunks recs bytes probes g k Hd Hg Hopen (length events) 0 events [] ""); [exact Hc|done|done|apply built_start|done..| |done|done].
  simpl in Hl. lia.
Qed.

Lemma ready_publishable s g k : d_gens k !! t_id t = None →
  open_generation (t_id t) (Container (spec_files t s) None) = Some g →
  publishable (t_id t) (ready_root (bs_chunks s) (bs_bytes s) (bs_probes s) k) (spec_files t s)
    (Parsed (JObj (ready_record (bs_chunks s)))) (ready_record (bs_chunks s)) g.
Proof.
  intros Hg Hopen. split; try done.
  - apply at_staging_lookup.
  - rewrite usable_loaded. unfold ready_record. by rewrite usable_status by (set_solver || apply record_usable).
Qed.
End resuming.

(** ** What the builds produce *)

Section products.
Context `{PyStdlib} `{!BuildLib} `{Unicode} `{Libm} `{IntText} `{Dictionary}.
Context (wreck : container dir → container dir).

(** C15: [build_generation] is correct: on a root where the target is neither published nor
    staged, without faults and with facts that stay as they are, it ends, publishes under the
    target's id exactly the three files the snapshot determines (rows, vectors in chunks, probes,
    manifest), which [open_generation] accepts with the target's identity, and changes nothing else. *)
Theorem build_publishes_what_opens env p chunk params backend rp epoch source events t s (k : droot dir) :
  1 <= chunk → sound_input p epoch PROJECTION_VERSION None source params events →
  _read_snapshot (be_snapshot env) None = Ok (epoch, source, events) →
  _prepare_target events p epoch source PROJECTION_VERSION None None backend rp = Ok t →
  build_files (be_probes env) p (be_competition env) (Z.to_nat chunk) params source events = Ok s →
  reads_back (metadata_json (t_rows t)) → reads_back (JObj (BuildTheorems.manifest_of t (bs_chunks s) (bs_bytes s) (bs_probes s))) →
  _check_identity_unchanged (be_final env) epoch source = Ok tt →
  d_gens k !! t_id t = None → d_staging k !! t_id t = None →
  runs (build_generation env p chunk params backend rp) k (Generation (t_id t) (t_identity t))
    (published_root (t_id t) (spec_files t s) k) ∧
  open_generation (t_id t) (Container (spec_files t s) None) = Some (Generation (t_id t) (t_identity t)).
Proof.
  intros Hc Hin Hsnap Ht Hs Hm1 Hm2 Hid Hg Hst.
  assert (open_generation (t_id t) (Container (spec_files t s) None) = Some (Generation (t_id t) (t_identity t))) as Ho
    by (eapply spec_opens; [exact Ht|exact Hs|lia|exact Hin|done|done]).
  split; [|exact Ho]. eapply build_generation_runs; try done; apply Hin.
Qed.

(** C19: the staged build is live when no call fails and every turn is calm (the facts can be
    read and keep their epoch, the plan asks for a build that embeds anew, the gate is open and
    there is space): from a root whose staging
    records are all discarded, the worker's turns -- one to start, one for every chunk, one to finish, with a restart before any
    of them, and whatever the fresh target is meanwhile -- end with the target's container ready
    and publishable: its record says [ready], its files open, and the worker names it to the
    publisher. *)
Theorem staged_build_is_ready cf p epoch source events t v competition s l (k : droot dir) mem :
  (0 < sc_chunk_rows cf)%nat → sc_refuse cf = None → t_id t ≠ sc_active_gen cf →
  sound_input p epoch (sc_projection cf) (sc_index cf) source (sc_params cf) events →
  prepare cf p ((epoch, source), events) = Ok t →
  build_files v p competition (sc_chunk_rows cf) (sc_params cf) source events = Ok s →
  reads_back (metadata_json (t_rows t)) → reads_back (JObj (BuildTheorems.manifest_of t (bs_chunks s) (bs_bytes s) (bs_probes s))) →
  all_discarded k → d_gens k !! t_id t = None → fit p mem →
  length l = (2 + length (bs_chunks s))%nat →
  Forall (calm cf p epoch source events t (bs_bytes s) (bs_probes s)) l.*1 →
  (∀ env r, head l = Some (env, r) → _compute_target cf (se_target env) p = Ok t) →
  ends (work_on wreck cf l) (SWorld k mem) (λ _ w, ∃ m,
    publishable (t_id t) (sw_disk w) (spec_files t s) (Parsed (JObj m)) m (Generation (t_id t) (t_identity t)) ∧
    sm_ready_id (sw_mem w) = Some (t_id t) ∧ sm_ready_dir (sw_mem w) = Some (t_id t) ∧ sm_progress (sw_mem w) = Some m ∧
    d_gens (sw_disk w) = d_gens k ∧ d_active (sw_disk w) = d_active k).
Proof.
  intros Hn Hr Hact Hin Hp Hs Hm1 Hm2 Hd Hg Hfit Hl Hcalm Hhead.
  assert (open_generation (t_id t) (Container (spec_files t s) None) = Some (Generation (t_id t) (t_identity t))) as Ho
    by (eapply spec_opens; [exact Hp|exact Hs|done|exact Hin|done|done]).
  eapply ends_weaken; [eapply session_ready; try done; apply Hin|].
  intros _ w (Hw&H1'&H2'&H3'). exists (ready_record t (bs_chunks s)). rewrite Hw.
  split; [eapply (ready_publishable cf); try eassumption; apply Hin|done].
Qed.

(** C13: the incremental build and the one-shot build are the same function of the facts: with the
    same snapshot, representation, chunk size and parameters they produce byte for byte the same
    container, however the staged build was cut into turns and restarted. *)
Theorem staged_build_equals_one_shot cf p epoch source events t env s l (k k' : droot dir) mem :
  (0 < sc_chunk_rows cf)%nat → sc_refuse cf = None → t_id t ≠ sc_active_gen cf →
  sc_projection cf = PROJECTION_VERSION → sc_index cf = None → sc_tag cf = None →
  sound_input p epoch (sc_projection cf) (sc_index cf) source (sc_params cf) events →
  prepare cf p ((epoch, source), events) = Ok t →
  build_files (be_probes env) p (be_competition env) (sc_chunk_rows cf) (sc_params cf) source events = Ok s →
  reads_back (metadata_json (t_rows t)) → reads_back (JObj (BuildTheorems.manifest_of t (bs_chunks s) (bs_bytes s) (bs_probes s))) →
  all_discarded k → d_gens k !! t_id t = None → fit p mem →
  length l = (2 + length (bs_chunks s))%nat →
  Forall (calm cf p epoch source events t (bs_bytes s) (bs_probes s)) l.*1 →
  (∀ e r, head l = Some (e, r) → _compute_target cf (se_target e) p = Ok t) →
  _read_snapshot (be_snapshot env) None = Ok (epoch, source, events) →
  _check_identity_unchanged (be_final env) epoch source = Ok tt →
  d_gens k' !! t_id t = None → d_staging k' !! t_id t = None →
  ∃ files g k2,
    ends (work_on wreck cf l) (SWorld k mem) (λ _ w, c_files <$> d_staging (sw_disk w) !! t_id t = Some files) ∧
    runs (build_generation env p (Z.of_nat (sc_chunk_rows cf)) (sc_params cf) EXACT_BACKEND []) k' g k2 ∧
    c_files <$> d_gens k2 !! t_id t = Some files.
Proof.
  intros Hn Hr Hact Hproj Hidx Htag Hin Hp Hs Hm1 Hm2 Hd Hg Hfit Hl Hcalm Hhead Hsnap Hfinal Hg' Hst'.
  assert (open_generation (t_id t) (Container (spec_files t s) None) = Some (Generation (t_id t) (t_identity t))) as Ho
    by (eapply spec_opens; [exact Hp|exact Hs|done|exact Hin|done|done]).
  exists (spec_files t s), (Generation (t_id t) (t_identity t)), (published_root (t_id t) (spec_files t s) k'). split_and!.
  - eapply ends_weaken; [eapply session_ready; try done; apply Hin|]. intros _ w (->&_).
    unfold ready_root. by rewrite at_staging_lookup.
  - unfold prepare in Hp. rewrite Hproj, Hidx, Htag in Hp.
    eapply build_generation_runs; try done; [lia|apply Hin|apply Hin|by rewrite Nat2Z.id].
  - cbn [published_root set_gens d_gens]. by rewrite lookup_insert_eq.
Qed.
End products.
