(* ===== verification/StagingFaults.v ===== *)
(** * What the staging worker does not survive

    Two states it does not leave by itself, for all views of the facts: a first
    chunk whose write was interrupted, and a finished compaction after a restart.
    [BuildDemo] reaches both. *)

From Stdlib Require Import SpecFloat Ascii String.
From stdpp Require Import base list strings gmap sorting.
From S2P Require Import Prelude Bytes Float64 PyJson OpStore Compat Effects Facts TextMatch Oracle Delta Derived Retention Publish PublishSafety PublishRuns Build BuildTheorems BuildRuns Staging StagingSafety StagingRuns.
Open Scope Z_scope.

Section raising.
Context `{PyStdlib} `{!BuildLib} `{Unicode} `{Libm} `{IntText} `{Dictionary}.
Local Notation droot := (droot dir).

Lemma raises_disk {A} (m : Effects.io droot derived_exn A) k e k' : raises m k e k' → raises (disk m) k (Disk e) k'.
Proof. intros Hm n t. destruct (Hm n t) as (s&Hr&Hw). exists s. unfold disk. by rewrite Hr. Qed.
Lemma raises_on_disk {A} (m : Effects.io droot build_exn A) k mem e k' :
  raises m k e k' → raises (on_disk m) (SWorld k mem) e (SWorld k' mem).
Proof.
  intros Hm n t. destruct (Hm n []) as ([n1 k1 t1]&Hr&Hk). cbn in Hk. subst k1. unfold on_disk. cbn [io_world io_count sw_disk].
  rewrite Hr. by eexists.
Qed.
End raising.

Section stuck.
Context `{PyStdlib} `{!BuildLib} `{Unicode} `{Libm} `{IntText} `{Dictionary}.
Context (wreck : container dir → container dir) (cf : sconfig) (p : provider).
Context (epoch : string) (source : hlc) (events : list stored_event) (t : target).
Local Notation droot := (droot dir).
Local Notation dimension := (vector_dimension p).

Hypothesis chunked : (0 < sc_chunk_rows cf)%nat.
Hypothesis positive : 1 <= dimension.
Hypothesis prepared : prepare cf p ((epoch, source), events) = Ok t.
Hypothesis not_refused : sc_refuse cf = None.
Hypothesis not_active : t_id t ≠ sc_active_gen cf.
Hypothesis some_rows : events ≠ [].

(** The vectors file is there and the record knows of no chunk: the first chunk
    was being written when the process died, a write failed or an event blocked. *)
Definition first_interrupted (F : dir) (k : droot) : droot :=
  at_staging (t_id t) (Container F (Some (Parsed (JObj (start_record t))))) k.

Lemma resume_refused env F k mem :
  is_Some (F !! "vectors.fp32") → gate_open epoch source events (se_gate env) → embeds_anew cf mem →
  raises (_resume_build cf env p (t_id t) (start_record t)) (SWorld (first_interrupted F k) mem) (Disk OsError)
    (SWorld (first_interrupted F k) mem).
Proof.
  intros [junk HF] Hg Hm. unfold _resume_build. change (start_record t) with (record_with t []).
  rewrite (gate_record cf p epoch source events t prepared) by done.
  eapply runs_then_raises.
  { apply runs_rescue. eapply runs_bind; [|apply runs_ret]. apply runs_on_disk. apply runs_ret. }
  cbn beta iota. destruct (start_fields cf p epoch source events t prepared) as (_&_&_&_&_&_&Ht).
  change (total_rows (record_with t [])) with (total_rows (start_record t)). rewrite Ht. unfold resume_chunks.
  assert (0 <? Z.of_nat (length events) = true) as -> by (destruct events; [done|apply Z.ltb_lt; simpl; lia]).
  eapply runs_then_raises; [apply runs_recall|]. eapply runs_then_raises.
  { instantiate (1 := SWorld (first_interrupted F k) mem). instantiate (1 := None). unfold embeds_anew in Hm.
    destruct (sm_plan mem); [by apply runs_source|apply runs_ret]. }
  apply raises_rescue; [|done]. apply raises_bind, raises_on_disk. unfold _build_chunks. cbn [Z.eqb].
  apply raises_bind, raises_disk, raises_call. unfold first_interrupted. by rewrite at_staging_lookup, file_at_staging, HF.
Qed.

Lemma turn_refused all probes env F k mem :
  is_Some (F !! "vectors.fp32") → calm cf p epoch source events t all probes env → fit p mem → all_discarded k → d_gens k !! t_id t = None →
  ends (staging_turn wreck cf env) (SWorld (first_interrupted F k) mem)
    (λ _ w, sw_disk w = first_interrupted F k ∧ fit p (sw_mem w) ∧ sm_error (sw_mem w) = Some "staging worker fault").
Proof.
  intros HF Hcalm Hfit Hd Hg.
  destruct (cycle_builds wreck cf p epoch source events t not_refused _ _ _ (first_interrupted F k) _ Hcalm Hfit) as (t'&mem1&_&Hfit1&Ha1&Hb1).
  destruct (build_resumes wreck cf p epoch source events t chunked positive prepared not_refused not_active env t' [] F k mem1 Hfit1 Ha1 Hd Hg)
    as (mem2&Hfit2&Ha2&Hb2).
  unfold staging_turn. eapply ends_after; [apply runs_recall|]. change (id mem) with mem. destruct Hfit as [_ Hc Hs _]. rewrite Hc, Hs.
  eapply ends_runs.
  - eapply runs_rescued; [|reflexivity|apply runs_modify].
    eapply raises_becomes; [exact Hb1|]. eapply raises_becomes; [exact Hb2|]. apply raises_bind.
    apply resume_refused; [done|apply Hcalm|done].
  - split; [done|]. destruct Hfit2. by split.
Qed.

Lemma session_stuck all probes l F k mem :
  is_Some (F !! "vectors.fp32") → Forall (calm cf p epoch source events t all probes) l.*1 → fit p mem → all_discarded k →
  d_gens k !! t_id t = None →
  ends (work_on wreck cf l) (SWorld (first_interrupted F k) mem) (λ _ w, sw_disk w = first_interrupted F k).
Proof.
  intros HF Hl Hfit Hd Hg. revert mem Hfit Hl. induction l as [|[env restart] l IH]; intros mem Hfit Hl.
  - by eapply ends_runs; [apply runs_ret|].
  - apply Forall_cons in Hl as [Henv Hl]. eapply work_step; [done|intros mem' Hm'; by eapply turn_refused|].
    intros [k' mem'] (Hk'&Hfit'&_). cbn [sw_disk sw_mem] in *. subst k'. by apply IH.
Qed.
End stuck.

(** ** A finished compaction *)

Section compaction.
Context `{PyStdlib} `{!BuildLib} `{Unicode} `{Libm} `{IntText} `{Dictionary}.
Context (wreck : container dir → container dir) (cf : sconfig) (p : provider) (epoch : string).
Local Notation droot := (droot dir).

(** The record of a target names no vector format version, the desired identity
    does. *)
Lemma never_same_fingerprint v m source i tag backend rp :
  field "identity" m = JObj (target_identity p epoch source (sc_projection cf) i tag backend rp) →
  _same_fingerprint cf v p epoch m = false.
Proof.
  intros Hi. unfold _same_fingerprint. destruct (read_facts_schema_version v) as [fsv|]; [|done].
  unfold identity_of. rewrite Hi. cbn [forallb].
  assert (py_eq (field LAYER_VECTOR_FORMAT (target_identity p epoch source (sc_projection cf) i tag backend rp))
    (field LAYER_VECTOR_FORMAT (_desired_identity cf p epoch fsv)) = false) as -> by by destruct tag.
  cbn [andb]. by rewrite !andb_false_r.
Qed.

Definition dropped (m : obj) : obj :=
  set_field "reason" (JStr (stale_reason epoch (representation_id p) m)) (set_field "status" (JStr "discarded") m).
Definition staged_at (id : string) (F : dir) (m : obj) (k : droot) : droot := at_staging id (Container F (Some (Parsed (JObj m)))) k.

Lemma usable_dropped id m : usable id m = true → usable id (dropped m) = true.
Proof.
  intros Hm. pose proof (usable_status id "discarded" m ltac:(set_solver) Hm) as Hu. revert Hu. unfold dropped, usable.
  set (m' := set_field "status" _ m). rewrite !field_set_ne, status_set_ne by done. cbn [forallb]. rewrite !has_key_set.
  rewrite !andb_true_iff, !orb_true_iff. tauto.
Qed.

Lemma stale_one names id F m k mem :
  usable id m = true → status_in ["discarded"] m = false → all_discarded k → id ∈ names →
  ends (discard_stale epoch (representation_id p) None names) (SWorld (staged_at id F m k) mem)
    (λ _ w, sw_disk w = staged_at id F (dropped m) k).
Proof.
  intros Hu Hs Hd. revert mem. induction names as [|i names IH]; intros mem Hin; [by apply elem_of_nil in Hin|]. cbn [discard_stale].
  rewrite bool_decide_eq_false_2 by done.
  destruct (decide (i = id)) as [->|Hne].
  - clear IH Hin. eapply (ends_bind _ _ _ (λ _ w, sw_disk w = staged_at id F (dropped m) k)).
    + eapply ends_after; [apply runs_isdir|]. eapply ends_after; [apply runs_entry|]. unfold staged_at.
      rewrite record_of_at, Hs by done. unfold _discard. eapply ends_after; [apply runs_isdir|].
      unfold in_staging. rewrite at_staging_lookup, bool_decide_eq_true_2 by eauto.
      eapply ends_after.
      { eapply runs_bind; [apply runs_load|]. rewrite record_of_at, Hs by done. apply runs_rescue, runs_on_root, runs_write_progress. }
      eapply ends_after; [apply runs_modify|]. by eapply ends_runs; [apply runs_ret|].
    + intros _ [k' mem'] Hk. cbn [sw_disk] in Hk. subst k'. eapply ends_runs; [apply runs_stale|reflexivity]. intros i m' Hm'. right.
      destruct (decide (i = id)) as [->|Hne].
      * unfold staged_at in Hm'. rewrite record_of_at in Hm' by by apply usable_dropped. injection Hm' as <-.
        unfold dropped. by rewrite status_set_ne, status_set by done.
      * unfold staged_at in Hm'. rewrite record_of_other in Hm' by done. eauto.
  - apply elem_of_cons in Hin as [->|Hin]; [done|]. eapply ends_after; [|by apply IH].
    eapply runs_bind; [apply runs_isdir|]. eapply runs_bind; [apply runs_entry|]. unfold staged_at.
    rewrite record_of_other by done. destruct (record_of k i) as [m'|] eqn:Hm'; [|apply runs_ret]. rewrite (Hd _ _ Hm'). apply runs_ret.
Qed.
End compaction.

(** ** The properties *)

Section properties.
Context `{PyStdlib} `{!BuildLib} `{Unicode} `{Libm} `{IntText} `{Dictionary}.
Context (wreck : container dir → container dir).

(** An interrupted first chunk wedges the build: once the vectors file exists and the record
    has no chunk, no number of turns, restarts included, moves the staging forward or throws it
    away -- every turn fails to create the file that is there -- although nothing else fails. *)
Theorem interrupted_first_chunk_is_stuck cf p epoch source events t all probes l F (k : droot dir) mem :
  (0 < sc_chunk_rows cf)%nat → sc_refuse cf = None → t_id t ≠ sc_active_gen cf → 1 <= vector_dimension p → events ≠ [] →
  prepare cf p ((epoch, source), events) = Ok t → is_Some (F !! "vectors.fp32") →
  Forall (calm cf p epoch source events t all probes) l.*1 → fit p mem → all_discarded k → d_gens k !! t_id t = None →
  ends (work_on wreck cf l) (SWorld (first_interrupted t F k) mem) (λ _ w, sw_disk w = first_interrupted t F k).
Proof. intros. by eapply session_stuck. Qed.

(** A finished compaction does not survive a restart: when desired and active agree, the first
    turn of a worker that was not told to compact discards the ready record, although it belongs
    to the desired fingerprint, because the record's identity has no vector format version to
    compare. *)
Theorem ready_compaction_is_discarded cf p env epoch clock source events t t' fsv pl F m (k : droot dir) mem :
  sc_refuse cf = None → prepare cf p ((epoch, source), events) = Ok t →
  read_facts_identity (se_identity env) = Ok (Some (epoch, clock)) → _compute_target cf (se_target env) p = Ok t' →
  read_facts_schema_version (se_schema env) = Ok fsv →
  plan_actions (se_order env) (Some (_desired_identity cf p epoch fsv)) (Some (_active_identity_value cf epoch fsv))
    (sc_registry cf) (JStr <$> fsv) = Ok pl → p_refuse pl = None → is_noop pl = true →
  fit p mem → sm_compaction mem = false → sm_force mem = false →
  field "identity" m = JObj (t_identity t) → usable (t_id t) m = true → status_in ["ready"] m = true → all_discarded k →
  ends (staging_turn wreck cf env) (SWorld (staged_at (t_id t) F m k) mem)
    (λ _ w, ∃ m', record_of (sw_disk w) (t_id t) = Some m' ∧ status_in ["discarded"] m' = true).
Proof.
  intros Hr Hp Hi Ht Hfsv Hpl Hno Hn Hfit Hc Hf Hm Hu Hs Hd. apply (turn_ends wreck cf p); [done|].
  destruct Hfit as [Hprov Hcl Hst Hbl]. unfold _cycle. rewrite Hi, Hr. cbn beta iota.
  eapply ends_after.
  { unfold past_block. eapply runs_bind; [apply runs_recall|]. change (id mem) with mem. rewrite Hbl. apply runs_ret. }
  cbn [negb]. eapply ends_after; [apply runs_recall|]. rewrite Hprov, Ht. unfold planned_cycle. rewrite Hfsv, Hpl.
  eapply ends_after; [apply runs_modify|]. rewrite Hno. eapply ends_after; [apply runs_recall|].
  change (sm_compaction (Mem.set_plan (Some pl) mem)) with (sm_compaction mem). change (sm_force (Mem.set_plan (Some pl) mem)) with (sm_force mem).
  rewrite Hc, Hf, Hn. cbn [orb negb andb]. unfold noop_cycle.
  eapply ends_after; [unfold _find_ready_pending; apply runs_scan|]. rewrite first_such_none.
  2:{ intros i m' Hm'. destruct (decide (i = t_id t)) as [->|Hne].
      - unfold staged_at in Hm'. rewrite record_of_at in Hm' by done. injection Hm' as <-.
        apply prepare_target_spec in Hp as (_&_&_&_&_&j&E&_). rewrite E in Hm.
        by rewrite (never_same_fingerprint cf p epoch _ _ _ _ _ _ _ Hm), andb_false_r.
      - unfold staged_at in Hm'. rewrite record_of_other in Hm' by done.
        by rewrite (discarded_not_live _ m' (Hd _ _ Hm')) by set_solver. }
  cbn beta iota. eapply (ends_bind _ _ _ (λ _ w, sw_disk w = staged_at (t_id t) F (dropped p epoch m) k)).
  - unfold _mark_stale_records_discarded. eapply ends_after.
    { apply runs_rescue. eapply runs_bind; [apply runs_on_root, runs_look|apply runs_ret]. }
    cbn beta iota. apply (stale_one p epoch); [done| |done|].
    + destruct (status_in ["discarded"] m) eqn:E; [|done]. by pose proof (status_one _ _ _ E Hs).
    + rewrite list_elem_of_fmap. exists (t_id t, Container F (Some (Parsed (JObj m)))). split; [done|].
      apply elem_of_map_to_list, at_staging_lookup.
  - intros _ [k' mem'] Hk. cbn [sw_disk] in Hk. subst k'. eapply ends_runs; [apply runs_modify|]. exists (dropped p epoch m).
    split; [by apply record_of_at, usable_dropped|]. unfold dropped. by rewrite status_set_ne, status_set by done.
Qed.
End properties.
