(* ===== verification/BuildDemo.v ===== *)
(** * A concrete build

    Three events with vectors in the plane, chunks of two rows: the one-shot
    build, the same build in turns with restarts while a fourth event arrives, and
    what the builder and the staging worker do not survive.  The witnesses of
    [BuildRuns], [StagingRuns] and [StagingSafety] use it. *)

From Stdlib Require Import SpecFloat Ascii String.
From stdpp Require Import base list strings gmap sorting pretty.
From S2P Require Import Prelude Bytes Float64 PyJson OpStore Compat Effects Facts TextMatch Oracle OracleTheorems Delta DeltaDemo OracleDemo Derived Retention Publish PublishSafety PublishRuns Build BuildTheorems BuildRuns Staging StagingSafety StagingRuns StagingFaults.
Open Scope Z_scope.

(** ** The libraries, on what the examples use *)

(** A checksum that tells the texts of the examples apart. *)
Fixpoint text_sum (s : string) : Z :=
  match s with EmptyString => 7 | String c s => (31 * text_sum s + Z.of_N (N_of_ascii c)) mod 1000003 end.
Definition float_text (x : float) : string :=
  match x with
  | S754_zero s => if s then "-0" else "0"
  | S754_infinity s => if s then "-inf" else "inf"
  | S754_nan => "nan"
  | S754_finite s m e => (if s then "-" else "") +:+ pretty (Zpos m) +:+ "p" +:+ pretty e
  end.
#[export] Instance build_stdlib : PyStdlib :=
  {| sha256_hex s := "h" +:+ pretty (text_sum s); iso_tz_aware _ := true; float_repr := float_text |}.
#[export] Instance build_dictionary : Dictionary := {| dictionary := demo_dict |}.

(** [loads] of the given values; [os.write] takes up to three bytes. *)
Program Definition lib_of (known : list json) : BuildLib := {|
  loads s := List.find (λ v, String.eqb (dumps v) s) known; format_17g := float_text;
  accepts s := Nat.min 3 (String.length s) |}.
Next Obligation. done. Qed.
Next Obligation. intros _ s Hs. destruct s; [done|]. cbn [String.length]. lia. Qed.

(** ** The facts *)

Definition typed (id input text : string) : stored_event := StoredEvent id "" "luna_pinyin" input "abc" text (0, 0) "before".
Definition store0 : facts_db := new_store "e1" 10 [("fact_schema_version", JStr "1")].
Definition stored (commit : string) (events : list (Z * stored_event)) (db : facts_db) : facts_db :=
  default db (persist_batch commit events db).
Definition store3 : facts_db := stored "c1" [(20, typed "a1" "nihao" "you"); (21, typed "a2" "nihao" "me"); (22, typed "a3" "hao" "good")] store0.
Definition store4 : facts_db := stored "c2" [(30, typed "a4" "nihao" "late")] store3.

Definition east : list float := [fone; fzero].
Definition north : list float := [fzero; fone].
Definition plane : provider := Provider "repr" 2 (λ e, Some (if String.eqb (ev_input e) "hao" then north else east)) false
  (λ _, Some east) (λ _ _, None).

Definition build_source : hlc := match meta_identity store3 with Ok i => i.2 | Err _ => (0, 0) end.
Definition build_events : list stored_event := read_active_events store3 build_source.
Definition competition (id : string) : list string := if String.eqb id "a1" then ["you"; "me"] else [].
Definition build_config : sconfig :=
  SConfig "old" "shadow-gen-v1:old" None PROJECTION_VERSION None FP32_ROW_MAJOR_LE 2 demo_params None None None CONVERTER_REGISTRY (λ _ v, v).

(** The values that are parsed are composed without parsing. *)
Definition build_target : target :=
  match @prepare build_stdlib demo_unicode build_config plane (("e1", build_source), build_events) with
  | Ok t => t
  | Err _ => Target [] "" [] ""
  end.
Definition build_product : build_spec :=
  match @build_files build_stdlib (lib_of []) demo_unicode demo_libm build_dictionary (Store store3) plane competition 2 demo_params build_source build_events with
  | Ok s => s
  | Err _ => BuildSpec [] "" JNull
  end.
Definition demo_values : list json :=
  [metadata_json (t_rows build_target);
   JObj (BuildTheorems.manifest_of build_target (bs_chunks build_product) (bs_bytes build_product) (bs_probes build_product))].
Definition parsed_values : list json := Eval vm_compute in demo_values.
#[export] Instance build_lib : BuildLib := lib_of parsed_values.

Example product_rows : (length build_events, length (bs_chunks build_product), String.length (bs_bytes build_product)) = (3%nat, 2%nat, 24%nat).
Proof. by vm_compute. Qed.

(** ** The one-shot build *)

Definition empty_root : droot dir := DRoot ∅ ∅ ∅ ∅ None None [].
Definition one_shot_env : build_env := BuildEnv (Store store3) (Store store3) competition (Store store3).

Definition demo_events : list stored_event := Eval vm_compute in build_events.
Lemma demo_sound_input : sound_input plane "e1" PROJECTION_VERSION None build_source demo_params build_events.
Proof.
  assert (build_events = demo_events) as -> by (vm_compute; reflexivity).
  split; [|repeat constructor; vm_compute; congruence| |done..|vm_compute; split; congruence|vm_compute; reflexivity].
  - apply (bool_decide_unpack _). vm_compute. reflexivity.
  - repeat constructor; intros v w Hv Hw; injection Hv as <-; vm_compute in Hw; injection Hw as <-; vm_compute; reflexivity.
Qed.
Lemma build_prepared : prepare build_config plane (("e1", build_source), build_events) = Ok build_target.
Proof. vm_compute. reflexivity. Qed.
Lemma demo_built : build_files (Store store3) plane competition 2 demo_params build_source build_events = Ok build_product.
Proof. vm_compute. reflexivity. Qed.
Lemma demo_reads : reads_back (metadata_json (t_rows build_target)) ∧
  reads_back (JObj (BuildTheorems.manifest_of build_target (bs_chunks build_product) (bs_bytes build_product) (bs_probes build_product))).
Proof. split; vm_compute; reflexivity. Qed.

Lemma build_publishes_what_opens_witness : ∃ g k, runs (build_generation one_shot_env plane 2 demo_params EXACT_BACKEND []) empty_root g k ∧
  (c_files <$> d_gens k !! t_id build_target) = Some (spec_files build_target build_product).
Proof.
  destruct (build_publishes_what_opens one_shot_env plane 2 demo_params EXACT_BACKEND [] "e1" build_source build_events
    build_target build_product empty_root) as [Hr _].
  - lia.
  - exact demo_sound_input.
  - vm_compute. reflexivity.
  - exact build_prepared.
  - exact demo_built.
  - apply demo_reads.
  - apply demo_reads.
  - vm_compute. reflexivity.
  - done.
  - done.
  - eexists _, _. split; [exact Hr|]. cbn [published_root set_gens d_gens]. by rewrite lookup_insert_eq.
Defined.

(** ** The build in turns *)

Definition all_orders (n : nat) (l : list action) : list action := l.
Definition seen (db : facts_db) : stage_env :=
  StageEnv (Store db) (Store db) (Store db) (Store db) (Store db) (Store db) competition (Store db) all_orders (Some 0).
Definition demo_session : list (stage_env * option bool) :=
  [(seen store3, None); (seen store3, Some false); (seen store4, None); (seen store4, Some true)].
Definition idle : smem := new_smem plane false true.

Definition settles : bool :=
  match read_facts_schema_version (Store store3) with
  | Ok fsv =>
      match plan_actions all_orders (Some (_desired_identity build_config plane "e1" fsv))
              (Some (_active_identity_value build_config "e1" fsv)) CONVERTER_REGISTRY (JStr <$> fsv) with
      | Ok pl => bool_decide (p_refuse pl = None) && negb (is_noop pl) && bool_decide (p_reuse pl = ReuseNone)
      | Err _ => false
      end
  | Err _ => false
  end.
Example demo_settles : settles = true.
Proof. by vm_compute. Qed.

Lemma demo_calm db : db = store3 ∨ db = store4 →
  calm build_config plane "e1" build_source build_events build_target (bs_bytes build_product) (bs_probes build_product) (seen db).
Proof.
  intros Hdb. split.
  - destruct Hdb as [-> | ->]; eexists; vm_compute; reflexivity.
  - destruct Hdb as [-> | ->]; eexists; vm_compute; reflexivity.
  - destruct Hdb as [-> | ->]; do 2 eexists; (split; [vm_compute; reflexivity|]); (split; [vm_compute; reflexivity|]);
      split_and!; try (by vm_compute); left; by vm_compute.
  - destruct Hdb as [-> | ->]; vm_compute; reflexivity.
  - done.
  - destruct Hdb as [-> | ->]; vm_compute; reflexivity.
Qed.
Lemma demo_session_calm : Forall (calm build_config plane "e1" build_source build_events build_target
  (bs_bytes build_product) (bs_probes build_product)) demo_session.*1.
Proof. repeat constructor; apply demo_calm; auto. Qed.
Lemma demo_not_active : t_id build_target ≠ sc_active_gen build_config.
Proof. by vm_compute. Qed.
Lemma demo_first e r : head demo_session = Some (e, r) → _compute_target build_config (se_target e) plane = Ok build_target.
Proof. intros [= <- <-]. vm_compute. reflexivity. Qed.
Lemma demo_none_live : all_discarded empty_root.
Proof. by intros id m. Qed.

Lemma staged_build_is_ready_witness : ∃ w, runs (work_on id build_config demo_session) (SWorld empty_root idle) tt w ∧
  sm_ready_id (sw_mem w) = Some (t_id build_target).
Proof.
  destruct (staged_build_is_ready id build_config plane "e1" build_source build_events build_target (Store store3) competition
    build_product demo_session empty_root idle) as ([]&w&Hr&m&_&Hid&_).
  - simpl. lia.
  - done.
  - exact demo_not_active.
  - exact demo_sound_input.
  - exact build_prepared.
  - exact demo_built.
  - apply demo_reads.
  - apply demo_reads.
  - exact demo_none_live.
  - done.
  - by split.
  - vm_compute. reflexivity.
  - exact demo_session_calm.
  - exact demo_first.
  - by exists w.
Defined.

Lemma staged_build_equals_one_shot_witness : ∃ files g k w,
  runs (work_on id build_config demo_session) (SWorld empty_root idle) tt w ∧
  runs (build_generation one_shot_env plane 2 demo_params EXACT_BACKEND []) empty_root g k ∧
  c_files <$> d_staging (sw_disk w) !! t_id build_target = Some files ∧ c_files <$> d_gens k !! t_id build_target = Some files.
Proof.
  destruct (staged_build_equals_one_shot id build_config plane "e1" build_source build_events build_target one_shot_env
    build_product demo_session empty_root empty_root idle) as (files&g&k2&([]&w&Hr&Hf)&Ho&Hg).
  - simpl. lia.
  - done.
  - exact demo_not_active.
  - done.
  - done.
  - done.
  - exact demo_sound_input.
  - exact build_prepared.
  - exact demo_built.
  - apply demo_reads.
  - apply demo_reads.
  - exact demo_none_live.
  - done.
  - by split.
  - vm_compute. reflexivity.
  - exact demo_session_calm.
  - exact demo_first.
  - vm_compute. reflexivity.
  - vm_compute. reflexivity.
  - done.
  - done.
  - exists files, g, k2, w. by split_and!.
Defined.

(** ** What a turn may do *)

Definition run_session (l : list (stage_env * option bool)) (w : sworld) : sworld :=
  io_world (work_on id build_config l (λ _, false) (IoState 0 w [])).2.
(** All rows are embedded. *)
Definition embedded : sworld := run_session (take 3 demo_session) (SWorld empty_root idle).
Definition finished : sworld := io_world (perform id build_config (Turn (seen store4)) (λ _, false) (IoState 0 embedded [])).2.
Definition finished_record : obj := default [] (record_of (sw_disk finished) (t_id build_target)).

Lemma demo_wreck (c : container dir) : c_progress (id c) = None ∨ c_progress (id c) = c_progress c.
Proof. by right. Qed.

Definition says_ready (k : droot dir) (i : string) : bool :=
  match record_of k i with Some m => status_in ["ready"] m | None => false end.
Lemma says_ready_at k i : says_ready k i = true → ready_at k i (default [] (record_of k i)).
Proof.
  unfold says_ready. destruct (record_of k i) as [m|] eqn:Hm; [|done]. intros Hs. unfold record_of in Hm.
  destruct (d_staging k !! i) as [c|] eqn:Hc; [|done]. by exists c.
Qed.
Lemma never_ready_at k i m : says_ready k i = false → ¬ ready_at k i m.
Proof.
  intros Hn (c&Hc&Hu&Hs). unfold says_ready, record_of in Hn. rewrite Hc in Hn. cbn [mbind option_bind] in Hn. by rewrite Hu, Hs in Hn.
Qed.
Example demo_not_ready : says_ready (sw_disk embedded) (t_id build_target) = false.
Proof. vm_compute. reflexivity. Qed.
Example demo_ready : says_ready (sw_disk finished) (t_id build_target) = true.
Proof. vm_compute. reflexivity. Qed.

Lemma ready_only_if_verified_witness : opens_at (t_id build_target) (sw_disk finished).
Proof.
  destruct (ready_only_if_verified id demo_wreck build_config embedded finished (t_id build_target) finished_record) as [Hold|Ho].
  - exact (Ended id build_config embedded (Turn (seen store4)) (λ _, false)).
  - exact (says_ready_at _ _ demo_ready).
  - destruct (never_ready_at (sw_disk embedded) (t_id build_target) finished_record demo_not_ready Hold).
  - exact Ho.
Defined.

(** The process dies in the middle of the last turn. *)
Definition last_turn : list sworld := io_trace (perform id build_config (Turn (seen store4)) (λ _, false) (IoState 0 embedded [])).2.
Definition died_at : sworld := default embedded (last_turn !! 3%nat).
Example demo_long_turn : (3 <? length last_turn)%nat = true.
Proof. vm_compute. reflexivity. Qed.
Definition restarted : sworld := SWorld (sw_disk died_at) idle.
Lemma never_touches_served_witness : rtc (worker_step id build_config) embedded restarted ∧
  same_served (sw_disk embedded) (sw_disk restarted).
Proof.
  assert (rtc (worker_step id build_config) embedded restarted) as Hr.
  { apply rtc_once, (Died _ _ _ (Turn (seen store4)) (λ _, false) died_at plane false true). fold last_turn.
    destruct (lookup_lt_is_Some_2 last_turn 3 (proj1 (Nat.ltb_lt 3 (length last_turn)) demo_long_turn)) as [w Hw].
    apply (list_elem_of_lookup_2 _ 3). unfold died_at. rewrite Hw. reflexivity. }
  split; [exact Hr|]. exact (staging_never_touches_served id demo_wreck build_config _ _ Hr).
Defined.

(** ** What goes wrong *)

Definition faulted (env : stage_env) (i : nat) (w : sworld) : sworld :=
  io_world (staging_turn id build_config env (λ n, Nat.eqb n i) (IoState 0 w [])).2.
Definition status_of (w : sworld) : json :=
  match record_of (sw_disk w) (t_id build_target) with Some m => field "status" m | None => JNull end.
Definition chunks_of (w : sworld) : list json := default [] (progress_chunks <$> record_of (sw_disk w) (t_id build_target)).
Definition files_of (w : sworld) : list string :=
  match d_staging (sw_disk w) !! t_id build_target with Some c => (map_to_list (c_files c)).*1 | None => [] end.

(** The first write of the first chunk fails. *)
Definition started : sworld := run_session (take 1 demo_session) (SWorld empty_root idle).
Definition interrupted : sworld := faulted (seen store3) 7 started.
Definition half_written : dir :=
  match d_staging (sw_disk interrupted) !! t_id build_target with Some c => c_files c | None => ∅ end.
Example interrupted_is : sw_disk interrupted = first_interrupted build_target half_written empty_root ∧
  is_Some (half_written !! "vectors.fp32").
Proof. split; [|apply (bool_decide_unpack _)]; vm_compute; reflexivity. Qed.

Lemma interrupted_first_chunk_is_stuck_witness : ∃ w,
  runs (work_on id build_config demo_session) (SWorld (sw_disk interrupted) idle) tt w ∧ sw_disk w = sw_disk interrupted.
Proof.
  destruct interrupted_is as [E HF]. rewrite E.
  destruct (interrupted_first_chunk_is_stuck id build_config plane "e1" build_source build_events build_target
    (bs_bytes build_product) (bs_probes build_product) demo_session half_written empty_root idle) as ([]&w&Hr&Hw).
  - simpl. lia.
  - done.
  - exact demo_not_active.
  - simpl. lia.
  - vm_compute. discriminate.
  - exact build_prepared.
  - exact HF.
  - exact demo_session_calm.
  - split; reflexivity.
  - exact demo_none_live.
  - done.
  - exists w. split; [exact Hr|exact Hw].
Defined.

(** A compaction: the active generation has the desired identity. *)
Definition same_config : sconfig :=
  SConfig "repr" "shadow-gen-v1:old" None PROJECTION_VERSION None FP32_ROW_MAJOR_LE 2 demo_params None None None CONVERTER_REGISTRY (λ _ v, v).
Definition compacted_record : obj := ready_record build_target (bs_chunks build_product).
Definition compacted : droot dir := staged_at (t_id build_target) (spec_files build_target build_product) compacted_record empty_root.
Definition noop_plan : plan :=
  match plan_actions all_orders (Some (_desired_identity same_config plane "e1" (Some "1")))
          (Some (_active_identity_value same_config "e1" (Some "1"))) CONVERTER_REGISTRY (Some (JStr "1")) with
  | Ok pl => pl
  | Err _ => Plan [] [] ReuseNone None None
  end.
Lemma ready_compaction_is_discarded_witness : ∃ w, runs (staging_turn id same_config (seen store3)) (SWorld compacted idle) tt w ∧
  ∃ m, record_of (sw_disk w) (t_id build_target) = Some m ∧ status_in ["discarded"] m = true.
Proof.
  destruct (ready_compaction_is_discarded id same_config plane (seen store3) "e1" build_source build_source build_events
    build_target build_target (Some "1") noop_plan (spec_files build_target build_product) compacted_record empty_root idle)
    as ([]&w&Hr&Hw).
  - done.
  - exact build_prepared.
  - vm_compute. reflexivity.
  - vm_compute. reflexivity.
  - vm_compute. reflexivity.
  - vm_compute. reflexivity.
  - vm_compute. reflexivity.
  - vm_compute. reflexivity.
  - split; reflexivity.
  - done.
  - done.
  - vm_compute. reflexivity.
  - vm_compute. reflexivity.
  - vm_compute. reflexivity.
  - exact demo_none_live.
  - exists w. split; [exact Hr|exact Hw].
Defined.

(** One failing read of the record while the worker looks for it, and the ready
    staging is thrown away. *)
Example read_fault_discards_ready : status_of finished = JStr "ready" ∧ status_of (faulted (seen store4) 2 finished) = JStr "discarded".
Proof. split; vm_compute; reflexivity. Qed.

(** The process dies while a record is being replaced: the temporary file stays,
    the finished container has a file too many, and the build starts again. *)
Definition second_turn : list sworld :=
  io_trace (staging_turn id build_config (seen store3) (λ _, false) (IoState 0 (run_session (take 2 demo_session) (SWorld empty_root idle)) [])).2.
Definition replacing : sworld := default started (head (filter (λ w, length (files_of w) = 2%nat) second_turn)).
Definition after_replacing : sworld :=
  run_session [(seen store3, Some false); (seen store3, None)] (SWorld (sw_disk replacing) idle).
Example dead_replacement_costs_the_build :
  length (chunks_of replacing) = 1%nat ∧ chunks_of after_replacing = [] ∧
  sm_discard (sw_mem after_replacing) = Some "reopen verification failed".
Proof. split_and!; vm_compute; reflexivity. Qed.

(** The worker's directory is that of the fresh target, its record that of the
    pinned one: a retry writes to a directory that does not exist. *)
Example retry_aims_elsewhere :
  (field "generation_id" <$> sm_progress (sw_mem embedded)) = Some (JStr (t_id build_target)) ∧
  sm_dir (sw_mem embedded) ≠ Some (t_id build_target) ∧
  (sm_dir (sw_mem embedded) ≫= λ d, d_staging (sw_disk embedded) !! d) = None.
Proof. split_and!; vm_compute; [reflexivity|discriminate|reflexivity]. Qed.

(** A vector of length 1.001 is accepted, and its binary32 rounding refused. *)
Definition long_vector : list float := [S754_finite false 4508103226997866 (-52)].
Example accepted_then_refused : _validate_vector long_vector 1 = None ∧
  match stored_row long_vector with Some w => _validate_vector w 1 ≠ None | None => False end.
Proof. split; vm_compute; [reflexivity|discriminate]. Qed.

(** The Kelvin sign is composed to the letter K after the letters were lowered. *)
Definition kelvin : string := String "226"%char (String "132"%char (String "170"%char "")).
Definition kelvin_unicode : Unicode := {| nfc s := if String.eqb s kelvin then "K" else s |}.
Example canonical_not_stable :
  let canonical := @canonicalize_segment_input kelvin_unicode in canonical (canonical kelvin) ≠ canonical kelvin.
Proof. vm_compute. discriminate. Qed.

(** A zero query vector is no block: the last turn fails whenever it is tried. *)
Definition blind : provider := Provider "repr" 2 (event_vector plane) false (λ _, Some [fzero; fzero]) (λ _ _, None).
Example blind_never_finishes :
  match build_files (Store store3) blind competition 2 demo_params build_source build_events with
  | Ok _ => False
  | Err (BuildBlocked _ _ _) => False
  | Err e => is_build_error e = false
  end.
Proof. vm_compute. reflexivity. Qed.
