(* ===== verification/Recovery.v ===== *)
(** * Loading the active generation and recovering from a damaged one

    [_load_or_build_generation], [_recover_via_rollback], [_refuse_recovery] and
    [_published_identity_state] of the delta machine ([src/daemon/delta.py]), over
    the derived root of [Derived] with the faults of [Effects]: what a start loads,
    when it falls back to the explicit rollback pointer, and when it refuses.  The
    machine that is started with the result is [Delta.start_machine]. *)

From Stdlib Require Import String.
From stdpp Require Import base list strings gmap.
From S2P Require Import Prelude PyJson OpStore Compat Effects Facts Delta Derived Retention Publish PublishSafety PublishRuns.
Open Scope Z_scope.

(** Why a load is refused. *)
Inductive load_refusal :=
| BadActivePointer (why : option pointer_problem) | PublishedMissing | PublishedRejected
| RollbackIsDamaged | RollbackRejected | NoFacts | RollbackOtherEpoch | RollbackOtherRuntime
| CatchUpFailed | ActivationFailed.

(** What the start meets: the looks at the facts; the outcome of the catch-up and
    whether it made its directory; the time; the runtime's representation and
    dimension; and the builder, with the container it leaves. *)
Record load_env (G : Type) := LoadEnv {
  le_facts : facts_view; le_schema : facts_view;
  le_delta : result staging_exn unit; le_delta_dir : bool; le_now_ms : Z;
  le_repr : string; le_dim : Z;
  le_built : result derived_exn (string * G * generation) }.
Arguments LoadEnv {G}. Arguments le_facts {G}. Arguments le_schema {G}. Arguments le_delta {G}.
Arguments le_delta_dir {G}. Arguments le_now_ms {G}. Arguments le_repr {G}. Arguments le_dim {G}. Arguments le_built {G}.

(** The outcome: the generation to serve with the id the machine declares from
    now on, or a refusal. *)
Inductive load_outcome :=
| Loaded_ (g : generation) (declared : string)
| Refused (why : load_refusal).

(** [self._force_rebuild_requested] is set by every refusal. *)
Definition force_rebuild (o : load_outcome) : bool := match o with Refused _ => true | _ => false end.

Section recovery.
Context {G : Type} `{GenerationFiles G} `{IntText} (wreck : container G → container G).
Local Notation droot := (droot G).
Local Notation io := (io droot derived_exn).

(** A pointer file: an error while reading it makes it unreadable. *)
Definition read_pointer_file (read : droot → pointer_reading) : io pointer_reading :=
  rescue (look read) (on_os (mret (BadPointer None))).

(** [_published_identity_state] *)
Definition published_identity_state (declared : string) : io (result load_refusal bool) :=
  r ← read_pointer_file (λ k, read_active_manifest (d_active k));
  mret match r with
       | BadPointer why => Err (BadActivePointer why)
       | NoPointer => Ok false
       | Pointer _ => Ok (names declared r)
       end.

(** [_refuse_recovery] *)
Definition refuse_recovery (why : load_refusal) (clear_pointer : bool) : io load_outcome :=
  _ ← (if clear_pointer then clear_rollback_manifest else mret tt);
  mret (Refused why).

(** The steps 3b and 3c: catch up, then make the rollback the active. *)
Definition activate_rollback (env : load_env G) (rid : string) (g : generation) : io (option load_refusal) :=
  caught ← attempt (
    _ ← (if le_delta_dir env
         then rescue (change (λ k, set_delta ({[rid]} ∪ d_delta k) k)) (on_os (throw (PublishError "delta root")))
         else mret tt);
    match le_delta env with Ok _ => mret tt | Err _ => throw OtherError end);
  match caught with
  | Err _ => mret (Some CatchUpFailed)
  | Ok _ =>
      activated ← attempt (
        v ← of_result (read_fact_schema_version (le_schema env));
        match v with
        | Some s =>
            if String.eqb s "" then throw (DeltaError "schema version missing")
            else write_active_manifest (compose_active_manifest g (JStr (checkpoint_path rid)) (JStr s) (le_now_ms env))
        | None => throw (DeltaError "schema version missing")
        end);
      mret match activated with Err _ => Some ActivationFailed | Ok _ => None end
  end.

(** [_recover_via_rollback]; [refuse] is the diagnosis that stays when there is
    no usable rollback pointer. *)
Definition recover_via_rollback (env : load_env G) (declared : string) (refuse : load_refusal) (isolate : bool)
    : io load_outcome :=
  _ ← (if isolate then isolate_generation declared (le_now_ms env) else mret tt);
  r ← read_pointer_file (λ k, read_rollback_manifest (d_rollback k));
  match pointer_id r with
  | None => refuse_recovery refuse false
  | Some rid =>
      if String.eqb rid declared then refuse_recovery RollbackIsDamaged true
      else
        o ← attempt (open_published rid);
        match o with
        | Err GenerationRejected => refuse_recovery RollbackRejected true
        | Err e => throw e
        | Ok g =>
            match read_facts_identity (le_facts env) with
            | Err _ => throw (DeltaError "fact store read failed")
            | Ok None => refuse_recovery NoFacts false
            | Ok (Some (epoch, _)) =>
                if negb (str_is epoch (field "store_epoch" (gen_identity g)))
                then refuse_recovery RollbackOtherEpoch true
                else if negb (str_is (le_repr env) (field "representation_id" (gen_identity g))) ||
                        negb (py_eq_int (field "vector_dimension" (gen_identity g)) (le_dim env))
                then refuse_recovery RollbackOtherRuntime false
                else
                  a ← activate_rollback env rid g;
                  match a with
                  | Some why => refuse_recovery why false
                  | None =>
                      _ ← clear_rollback_manifest;
                      live ← listdir live_staging_ids;
                      _ ← retention_sweep wreck (Some rid) None live;
                      mret (Loaded_ g rid)
                  end
            end
        end
  end.

(** [_build_generation_now]; the container the builder leaves appears at once. *)
Definition build_generation_now (env : load_env G) (declared : string) : io load_outcome :=
  match le_built env with
  | Err e => throw e
  | Ok (bid, c, g) =>
      _ ← change (λ k, set_gens (<[bid := Container c None]> (d_gens k)) k);
      mret (Loaded_ g declared)
  end.

(** [_load_or_build_generation] *)
Definition load_or_build_generation (env : load_env G) (declared : string) : io load_outcome :=
  state ← published_identity_state declared;
  match state with
  | Err why => recover_via_rollback env declared why false
  | Ok published =>
      there ← is_there (in_gens declared);
      if negb there
      then if published : bool then recover_via_rollback env declared PublishedMissing true else build_generation_now env declared
      else
        o ← attempt (open_published declared);
        match o with
        | Err GenerationRejected =>
            if published then recover_via_rollback env declared PublishedRejected true else build_generation_now env declared
        | Err e => throw e
        | Ok g =>
            match read_facts_identity (le_facts env) with
            | Err e => throw (DeltaError "fact store read failed")
            | Ok None => throw (DeltaError "fact store is missing at machine startup")
            | Ok (Some (epoch, _)) =>
                if str_is epoch (field "store_epoch" (gen_identity g)) then mret (Loaded_ g declared)
                else build_generation_now env declared
            end
        end
  end.

(** The start of the machine: an injected refusal goes to the rollback first. *)
Definition load_generation (env : load_env G) (declared : string) (injected : option load_refusal) : io load_outcome :=
  match injected with
  | Some why => recover_via_rollback env declared why false
  | None => load_or_build_generation env declared
  end.

(** The cleanup at the end of [_perform_rebuild]: only the rebuilt generation and
    the live stagings are kept; errors are swallowed. *)
Definition rebuild_sweep (rebuilt : string) : io unit :=
  rescue
    (_ ← clear_rollback_manifest;
     live ← listdir live_staging_ids;
     retention_sweep wreck (Some rebuilt) None live)
    (on_any (mret tt)).
End recovery.

(** ** Recovery never loses the rollback generation *)

Section crash_safe.
Context {G : Type} `{GenerationFiles G} `{IntText} (wreck : container G → container G).
Local Notation droot := (droot G).
Local Notation io := (io droot derived_exn).
Context (k0 : droot) (rid : string) (c : container G).

(** Before the rollback is activated, after it, and on the whole way. *)
Definition waiting (k : droot) : Prop :=
  d_gens k !! rid = Some c ∧ d_gens k ⊆ d_gens k0 ∧ d_active k = d_active k0 ∧ d_rollback k = d_rollback k0.
Definition on_the_way (k : droot) : Prop :=
  d_gens k !! rid = Some c ∧ (d_active k = d_active k0 ∨ active_id k = Some rid) ∧
  (d_rollback k = d_rollback k0 ∨ d_rollback k = None).

Definition activated (k : droot) : Prop := on_the_way k ∧ active_id k = Some rid.

(** What a refusal leaves of the pointers. *)
Definition parked (why : load_refusal) (k : droot) : Prop :=
  on_the_way k ∧ (d_rollback k = d_rollback k0 ∨ why = RollbackRejected ∨ why = RollbackOtherEpoch).

Lemma waiting_way k : waiting k → on_the_way k.
Proof. intros (?&?&?&?). split_and!; auto. Qed.

Notation J := on_the_way.

Lemma waiting_look {A} (f : droot → A) :
  hoare J waiting (look f) (λ a k, waiting k ∧ a = f k) (λ e k, waiting k ∧ e = OsError).
Proof.
  eapply hoare_weaken; [apply look_spec, waiting_way|done|done|]. by intros e k [? ?].
Qed.

Lemma refuse_spec why clear :
  (clear = true → why = RollbackRejected ∨ why = RollbackOtherEpoch) →
  hoare J waiting (refuse_recovery why clear : io load_outcome)
    (λ o k, ∃ why, o = Refused why ∧ parked why k) (λ _ _, False).
Proof.
  intros Hclear. assert (∀ k, waiting k → parked why k) as Hw by (intros k Hk; split; [by apply waiting_way|]; left; by destruct Hk as (_&_&_&?)).
  unfold refuse_recovery. eapply (hoare_bind _ _ _ _ (λ _, parked why)).
  - destruct clear; [|by apply hoare_ret]. specialize (Hclear eq_refl).
    eapply (hoare_rescue _ _ _ _ _ _ (λ e k, waiting k ∧ e = OsError)).
    + apply hoare_call; [by auto|]. intros k Hk. destruct (d_rollback k); [|by auto].
      assert (on_the_way (set_rollback None k)); [|split; [done|]; split; [done|by right]].
      destruct Hk as (?&?&?&?). split_and!; auto.
    + intros e. unfold on_os. case_bool_decide; [apply hoare_ret; intros k [? _]; by apply Hw|]. by intros k [_ ?].
  - intros u. apply hoare_ret. intros k Hk. by exists why.
Qed.

Lemma catch_up_spec env :
  hoare J waiting
    (_ ← (if le_delta_dir env
          then rescue (change (λ k, set_delta ({[rid]} ∪ d_delta k) k)) (on_os (throw (PublishError "delta root")))
          else mret tt);
     match le_delta env with Ok _ => mret tt | Err _ => throw OtherError end : io unit)
    (λ _ k, waiting k ∧ le_delta (G := G) env = Ok tt) (λ _, waiting).
Proof.
  eapply (hoare_bind _ _ _ _ (λ _, waiting)).
  - destruct (le_delta_dir env); [|by apply hoare_ret].
    eapply (hoare_rescue _ _ _ _ _ _ (λ _, waiting)).
    + apply hoare_call; [done|]. intros k Hk. split; [by apply waiting_way|done].
    + intros e. unfold on_os. case_bool_decide; [by apply hoare_throw|done].
  - intros u. destruct (le_delta env) as [[]|e]; [by apply hoare_ret|by apply hoare_throw].
Qed.

Lemma activation_spec (g : generation) fsv now :
  open_generation rid c = Some g → plain_name rid → fsv ≠ "" →
  hoare J waiting
    (write_active_manifest (compose_active_manifest g (JStr (checkpoint_path rid)) (JStr fsv) now) : io unit)
    (λ _ k, activated k ∧ d_rollback k = d_rollback k0) (λ _ k, on_the_way k ∧ d_rollback k = d_rollback k0).
Proof.
  intros Hg Hplain Hfsv. unfold write_active_manifest, write_atomic. set (a := compose_active_manifest _ _ _ _).
  assert (∀ k, waiting k → activated (set_active (Some (Parsed (JObj a))) k)) as Hact.
  { intros k (H1&H2&H3&H4). assert (active_id (set_active (Some (Parsed (JObj a))) k) = Some rid) as Hid.
    { unfold active_id, a. cbn [set_active d_active]. rewrite (composed_active_valid rid c g fsv now) by done. simpl.
      by apply open_generation_inv in Hg as [-> _]. }
    split; [split_and!; auto|done]. }
  assert (∀ k, waiting k → on_the_way k ∧ d_rollback k = d_rollback k0) as Hw
    by (intros k Hk; split; [by apply waiting_way|by destruct Hk as (_&_&_&?)]).
  eapply (hoare_bind _ _ _ _ (λ _, waiting)).
  { eapply hoare_weaken; [apply waiting_look|done|by intros ? k [? _]|]. intros e k [? _]. auto. }
  intros u. eapply (hoare_bind _ _ _ _ (λ _ k, activated k ∧ d_rollback k = d_rollback k0)).
  { apply hoare_call; [by auto|]. intros k Hk. specialize (Hact k Hk). split; [apply Hact|]. split; [done|]. by destruct Hk as (_&_&_&?). }
  intros u'. set (R := λ k, activated k ∧ d_rollback k = d_rollback k0).
  assert (∀ A (f : droot → A), hoare J R (look f) (λ _, R) (λ e k, R k ∧ e = OsError)) as Hlook.
  { intros A f. apply hoare_call; [by auto|]. intros k Hk. split; [apply Hk|done]. }
  eapply (hoare_rescue _ _ _ _ _ _ (λ e k, R k ∧ e = OsError)).
  - eapply (hoare_bind _ _ _ _ (λ _, R)).
    + eapply (hoare_rescue _ _ _ _ _ _ (λ e k, R k ∧ e = OsError)).
      * eapply (hoare_bind _ _ _ _ (λ _, R)); [apply Hlook|]. intros ?. by apply hoare_ret.
      * intros e. unfold on_os. case_bool_decide; [apply hoare_ret; by intros k [? _]|]. by intros k [_ ?].
    + intros [|]; [apply Hlook|by apply hoare_ret].
  - intros e. unfold on_os. case_bool_decide; [|by intros k [_ ?]]. apply hoare_throw. intros k [[[? _] ?] _]. done.
Qed.

Lemma activate_spec (env : load_env G) (g : generation) :
  open_generation rid c = Some g → plain_name rid →
  hoare J waiting (activate_rollback env rid g : io (option load_refusal))
    (λ o k, match o with None => activated k ∧ le_delta env = Ok tt | Some why => parked why k end) (λ _ _, False).
Proof.
  intros Hg Hplain. assert (∀ why k, on_the_way k ∧ d_rollback k = d_rollback k0 → parked why k) as Hp by (intros ? ? [? ?]; split; auto).
  assert (∀ k, waiting k → on_the_way k ∧ d_rollback k = d_rollback k0) as Hw
    by (intros k Hk; split; [by apply waiting_way|by destruct Hk as (_&_&_&?)]).
  unfold activate_rollback. eapply hoare_bind; [apply hoare_attempt, catch_up_spec|]. intros [u|e]; cbn beta iota.
  2: { apply hoare_ret. auto. }
  apply hoare_pure. intros Hdelta. eapply hoare_bind.
  - eapply (hoare_attempt _ _ _ (λ _ k, activated k ∧ d_rollback k = d_rollback k0)
                           (λ _ k, on_the_way k ∧ d_rollback k = d_rollback k0)).
    eapply (hoare_bind _ _ _ _ (λ _, waiting)).
    + destruct (read_fact_schema_version (le_schema env)); [by apply hoare_ret|apply hoare_throw; auto].
    + intros [s|]; [|apply hoare_throw; auto]. destruct (String.eqb_spec s ""); [apply hoare_throw; auto|].
      by apply activation_spec.
  - intros [u'|e]; apply hoare_ret; intros k Hk; [|by apply Hp]. by destruct Hk.
Qed.

(** What is known of a generation that is served after a recovery. *)
Definition fit_to_serve (env : load_env G) (g : generation) : Prop :=
  open_generation rid c = Some g ∧ le_delta env = Ok tt ∧
  field "representation_id" (gen_identity g) = JStr (le_repr env) ∧
  ∃ epoch clock, read_facts_identity (le_facts env) = Ok (Some (epoch, clock)) ∧
    field "store_epoch" (gen_identity g) = JStr epoch.

Definition recovered_to (env : load_env G) (o : load_outcome) (k : droot) : Prop :=
  match o with
  | Loaded_ g id => id = rid ∧ fit_to_serve env g ∧ activated k
  | Refused why => parked why k
  end.

Lemma cleanup_spec env g :
  fit_to_serve env g →
  hoare J activated
    (_ ← clear_rollback_manifest; live ← listdir live_staging_ids;
     _ ← retention_sweep wreck (Some rid) None live; mret (Loaded_ g rid))
    (recovered_to env) (λ _, waiting).
Proof.
  intros Hfit. assert (∀ k, activated k → J k) as HJ by by intros k [? _].
  eapply (hoare_bind _ _ _ _ (λ _, activated)).
  - eapply (hoare_rescue _ _ _ _ _ _ (λ e k, activated k ∧ e = OsError)).
    + apply hoare_call; [by auto|]. intros k Hk. destruct (d_rollback k); [|by auto].
      assert (activated (set_rollback None k)) as Hc; [|by split; [apply HJ|]].
      destruct Hk as [(?&?&?) ?]. split; [split_and!; auto|done].
    + intros e. unfold on_os. case_bool_decide; [apply hoare_ret; by intros k [? _]|]. by intros k [_ ?].
  - intros u. eapply (hoare_bind _ _ _ _ (λ _, activated)).
    { eapply hoare_weaken; [by apply (keeps_listdir J activated live_staging_ids)|done|done|done]. }
    intros live. eapply (hoare_bind _ _ _ _ (λ _, activated)); [|intros ?; by apply hoare_ret].
    apply hoare_at. intros k Hk.
    assert (∀ k', untouched (keep_ids (Some rid) None) live k k' → activated k') as Hkeep.
    { intros k' [Hg _ _ (Ha&Hr&_)]. destruct Hk as [(H1&H3&H4) H5].
      assert (active_id k' = Some rid) by (unfold active_id in *; by rewrite Ha).
      split; [split_and!|done]; [rewrite Hg; [done|by left]|by right|by rewrite Hr]. }
    eapply hoare_weaken; [apply (sweep_keeps wreck J (Some rid) None live k)| | |done].
    + intros k' Hu. by apply Hkeep.
    + intros ? ->. apply untouched_refl.
    + intros u' k' Hu. exact (Hkeep _ Hu).
Qed.

Lemma recover_spec (env : load_env G) declared refuse isolate :
  pointer_id (read_rollback_manifest (d_rollback k0)) = Some rid → rid ≠ declared → plain_name rid →
  hoare J waiting (recover_via_rollback wreck env declared refuse isolate) (recovered_to env) (λ _, waiting).
Proof.
  intros Hid Hne Hplain. assert (∀ why k, parked why k → recovered_to env (Refused why) k) as Hpark by done.
  assert (∀ why clear, (clear = true → why = RollbackRejected ∨ why = RollbackOtherEpoch) →
    hoare J waiting (refuse_recovery why clear : io load_outcome) (recovered_to env) (λ _, waiting)) as Hrefuse.
  { intros why clear Hc. eapply hoare_weaken; [by apply refuse_spec|done| |done]. by intros o k (w&->&?). }
  unfold recover_via_rollback. eapply (hoare_bind _ _ _ _ (λ _, waiting)).
  { destruct isolate; [|by apply hoare_ret]. unfold isolate_generation. eapply (hoare_bind _ _ _ _ (λ _, waiting)).
    - eapply hoare_weaken; [apply (keeps_try J waiting)|done|done|done].
      eapply hoare_weaken; [apply waiting_look|done|by intros ? k [? _]|]. by intros e k [? ?].
    - intros found. destruct (negb found); [by apply hoare_ret|].
      eapply hoare_weaken; [apply (keeps_try J waiting)|done|done|done].
      eapply (hoare_bind _ _ _ _ (λ _, waiting)).
      + eapply hoare_weaken; [apply waiting_look|done|by intros ? k [? _]|]. by intros e k [? ?].
      + intros ?. apply hoare_call; [by auto|]. intros k Hk. destruct (d_gens k !! declared) as [bad|]; [|by auto].
        assert (waiting (set_isolated ((isolated_name declared (le_now_ms env), bad) :: d_isolated k)
                           (set_gens (delete declared (d_gens k)) k))) as Hw; [|by split; [apply waiting_way|]].
        destruct Hk as (H1&H2&H3&H4). split_and!; simpl; [by rewrite lookup_delete_ne| |done|done].
        etransitivity; [apply delete_subseteq|done]. }
  intros ?. eapply (hoare_bind _ _ _ _ (λ r k, waiting k ∧ (r = BadPointer None ∨ r = read_rollback_manifest (d_rollback k0)))).
  { eapply (hoare_rescue _ _ _ _ _ _ (λ e k, waiting k ∧ e = OsError)).
    - eapply hoare_weaken; [apply waiting_look|done| |done]. intros r k [Hk ->]. split; [done|]. right.
      by destruct Hk as (_&_&_&->).
    - intros e. unfold on_os. case_bool_decide; [|by intros k [_ ?]]. apply hoare_ret. intros k [? _]. auto. }
  intros r. apply hoare_pure. intros [->| ->]; [by apply Hrefuse|]. rewrite Hid.
  rewrite (proj2 (String.eqb_neq _ _) Hne).
  eapply hoare_bind.
  { eapply (hoare_attempt _ _ _ (λ g k, waiting k ∧ open_generation rid c = Some g) (λ _, waiting)).
    eapply (hoare_bind _ _ _ _ (λ _, waiting)).
    - apply hoare_call; [done|]. intros k Hk. destruct (d_gens k !! rid); [|done]. split; [by apply waiting_way|done].
    - intros _. apply hoare_call; [done|]. intros k Hk. pose proof Hk as (H1&_&_&_). rewrite H1. simpl.
      destruct (open_generation rid c); [|done]. split; [by apply waiting_way|done]. }
  intros [g|e]; cbn beta iota; [|destruct e; first [apply Hrefuse; by auto|by apply hoare_throw]].
  apply hoare_pure. intros Hg.
  destruct (read_facts_identity (le_facts env)) as [[[epoch clock]|]|] eqn:Hfacts; [|by apply Hrefuse|by apply hoare_throw].
  destruct (str_is epoch _) eqn:He; simpl; [|apply Hrefuse; auto].
  destruct (str_is (le_repr env) _) eqn:Hr; simpl; [|by apply Hrefuse].
  destruct (py_eq_int _ _); simpl; [|by apply Hrefuse].
  apply str_is_true in He, Hr.
  eapply hoare_bind; [eapply hoare_weaken; [by apply activate_spec|done|done|done]|].
  intros [why|]; cbn beta iota.
  - eapply hoare_pre; [|by intros k Hk; exact Hk]. unfold refuse_recovery. eapply (hoare_bind _ _ _ _ (λ _, parked why)); [by apply hoare_ret|].
    intros ?. by apply hoare_ret.
  - apply hoare_pure. intros Hdelta. apply cleanup_spec. split_and!; [done|done|done|by exists epoch, clock].
Qed.
End crash_safe.

(** ** A broken identity is never served *)

Section never_served.
Context {G : Type} `{GenerationFiles G} `{IntText} (wreck : container G → container G).
Local Notation droot := (droot G).
Local Notation io := (io droot derived_exn).
Context (k0 : droot) (declared : string).

Definition undisturbed (k : droot) : Prop :=
  d_gens k ⊆ d_gens k0 ∧ d_rollback k = d_rollback k0 ∧ d_active k = d_active k0.

(** Only the generation that the explicit rollback pointer names may be served. *)
Definition rollback_only (o : load_outcome) : Prop :=
  match o with
  | Loaded_ g id => id ≠ declared ∧ pointer_id (read_rollback_manifest (d_rollback k0)) = Some id ∧
      ∃ c, d_gens k0 !! id = Some c ∧ open_generation id c = Some g
  | Refused _ => True
  end.

Notation T := (λ _ : droot, True).

Lemma hoare_result {A} (Q : A → Prop) (P : droot → Prop) (m : io A) :
  hoare T P m (λ a _, Q a) (λ _ _, True) ↔ ∀ fault s a s', P (io_world s) → m fault s = (Ok a, s') → Q a.
Proof.
  split.
  - intros Hm fault s a s' HP Hr. specialize (Hm fault s HP ltac:(by apply Forall_true)). rewrite Hr in Hm. by destruct Hm.
  - intros Hm fault s HP _. destruct (m fault s) as [[a|e] s'] eqn:Hr; (split; [by apply Forall_true|]); [|done]. by eapply Hm.
Qed.

(** A computation that may do anything. *)
Lemma hoare_anything {A} (P : droot → Prop) (m : io A) : hoare T P m (λ _ _, True) (λ _ _, True).
Proof. by apply (hoare_result (λ _, True)). Qed.

Lemma hoare_undisturbed_look {A} (f : droot → A) :
  hoare T undisturbed (look f : io A) (λ a k, undisturbed k ∧ a = f k) (λ e k, undisturbed k ∧ e = OsError).
Proof. apply hoare_call; auto. Qed.

Lemma undisturbed_pointer (read : droot → pointer_reading) :
  hoare T undisturbed (read_pointer_file read : io pointer_reading)
    (λ r k, undisturbed k ∧ (r = BadPointer None ∨ r = read k)) (λ _ _, True).
Proof.
  eapply (hoare_rescue _ _ _ _ _ _ (λ e k, undisturbed k ∧ e = OsError)).
  - eapply hoare_weaken; [by apply hoare_undisturbed_look|done| |done]. intros r k [? ?]. auto.
  - intros e. unfold on_os. case_bool_decide; [|done]. apply hoare_ret. intros k [? _]. auto.
Qed.

Lemma undisturbed_isolate now_ms :
  hoare T undisturbed (isolate_generation declared now_ms : io unit) (λ _, undisturbed) (λ _ _, True).
Proof.
  assert (∀ k, undisturbed k → True) as HT by done.
  assert (∀ m : io unit, hoare T undisturbed m (λ _, undisturbed) (λ e k, e = OsError ∧ undisturbed k) →
            hoare T undisturbed (rescue m (on_os (mret tt))) (λ _, undisturbed) (λ _ _, True)) as Htry.
  { intros m Hm. eapply hoare_weaken; [by apply (keeps_try T undisturbed)|done|done|done]. }
  unfold isolate_generation. eapply (hoare_bind _ _ _ _ (λ _, undisturbed)).
  - eapply hoare_weaken; [apply (keeps_try T undisturbed); by apply look_keeps|done|done|done].
  - intros found. destruct (negb found); [by apply hoare_ret|]. apply Htry.
    eapply (hoare_bind _ _ _ _ (λ _, undisturbed)); [by apply look_keeps|]. intros ?.
    apply hoare_call; [by auto|]. intros k (H1&H2&H3). destruct (d_gens k !! declared); [|by split; [|split]].
    split; [done|]. split_and!; [|done|done]. simpl. etransitivity; [apply delete_subseteq|done].
Qed.

Lemma recover_rollback_only (env : load_env G) why isolate :
  hoare T undisturbed (recover_via_rollback wreck env declared why isolate) (λ o _, rollback_only o) (λ _ _, True).
Proof.
  assert (∀ w clear P, hoare T P (refuse_recovery w clear : io load_outcome) (λ o _, rollback_only o) (λ _ _, True)) as Href.
  { intros w clear P. eapply hoare_bind; [apply hoare_anything|]. intros ?. by apply hoare_ret. }
  unfold recover_via_rollback. eapply hoare_bind.
  { destruct isolate; [apply undisturbed_isolate|by apply hoare_ret]. }
  intros ?. eapply hoare_bind; [apply undisturbed_pointer|]. intros r. cbn beta.
  apply hoare_at. intros k1 [Hk1 Hr]. destruct (pointer_id r) as [rid|] eqn:Hrid; [|apply Href].
  destruct (String.eqb_spec rid declared) as [|Hne]; [apply Href|].
  assert (pointer_id (read_rollback_manifest (d_rollback k0)) = Some rid) as Hid.
  { destruct Hr as [->| ->]; [done|]. by destruct Hk1 as (_&<-&_). }
  eapply (hoare_bind _ _ _ _ (λ (o : result derived_exn generation) _, ∀ g, o = Ok g → ∃ c, d_gens k0 !! rid = Some c ∧ open_generation rid c = Some g)).
  { eapply hoare_weaken.
    - apply (hoare_attempt T (λ k, k = k1) (open_published rid)
               (λ g _, ∃ c, d_gens k0 !! rid = Some c ∧ open_generation rid c = Some g) (λ _ _, True) (λ _ _, True)).
      eapply (hoare_bind _ _ _ _ (λ _ k, k = k1)).
      { apply hoare_call; [done|]. intros ? ->. by destruct (d_gens k1 !! rid). }
      intros _. apply hoare_call; [done|]. intros ? ->. destruct (d_gens k1 !! rid) as [c|] eqn:Hc; [|done]. simpl.
      destruct (open_generation rid c) as [g|] eqn:Hg; [|done]. split; [done|]. exists c. split; [|done].
      destruct Hk1 as (Hsub&_&_). by eapply lookup_weaken.
    - done.
    - intros o k Ho g ->. exact Ho.
    - done. }
  intros [g|e]; [|destruct e; first [apply Href|by apply hoare_throw]].
  apply hoare_at. intros k2 Hg. specialize (Hg g eq_refl).
  destruct (read_facts_identity (le_facts env)) as [[[epoch clock]|]|]; [|apply Href|by apply hoare_throw].
  destruct (negb (str_is epoch _)); [apply Href|]. destruct (_ || _); [apply Href|].
  eapply hoare_bind; [apply hoare_anything|]. intros [w|]; [apply Href|].
  eapply hoare_bind; [apply hoare_anything|]. intros ?. eapply hoare_bind; [apply hoare_anything|]. intros live.
  eapply hoare_bind; [apply hoare_anything|]. intros ?. by apply hoare_ret.
Qed.

(** A published identity that is broken on disk. *)
Definition broken (k : droot) : Prop := ∀ c, d_gens k !! declared = Some c → open_generation declared c = None.

Lemma load_rollback_only (env : load_env G) :
  active_id k0 = Some declared → broken k0 →
  hoare T (λ k, k = k0) (load_or_build_generation wreck env declared) (λ o _, rollback_only o) (λ _ _, True).
Proof.
  intros Hact Hbroken. apply (hoare_pre _ _ undisturbed); [|by intros ? ->].
  unfold load_or_build_generation, published_identity_state.
  eapply (hoare_bind _ _ _ _ (λ st k, undisturbed k ∧ ((∃ why, st = Err why) ∨ st = Ok true))).
  { eapply hoare_bind; [apply undisturbed_pointer|]. intros r. apply hoare_ret. intros k [Hk Hr]. split; [done|].
    destruct Hr as [->| ->]; [left; by eexists|]. destruct Hk as (_&_&->).
    unfold active_id in Hact. destruct (read_active_manifest (d_active k0)) as [| |m] eqn:Hm; [done|done|].
    right. unfold names. by rewrite bool_decide_true. }
  intros st. apply hoare_pure. intros [[why ->]| ->]; [apply recover_rollback_only|].
  eapply (hoare_bind _ _ _ _ (λ _, undisturbed)).
  { eapply hoare_weaken; [apply (keeps_try T undisturbed); by apply look_keeps|done|done|done]. }
  intros there. destruct (negb there); [apply recover_rollback_only|].
  eapply (hoare_bind _ _ _ _ (λ o k, undisturbed k ∧ (o = Err GenerationRejected ∨ o = Err OsError))).
  { eapply hoare_weaken.
    - apply (hoare_attempt T undisturbed (open_published declared) (λ _ _, False)
               (λ e k, undisturbed k ∧ (e = GenerationRejected ∨ e = OsError)) (λ _ _, True)).
      eapply (hoare_bind _ _ _ _ (λ _, undisturbed)).
      + apply hoare_call; [by auto|]. intros k Hk. destruct (d_gens k !! declared); [done|by auto].
      + intros _. apply hoare_call; [by auto|]. intros k Hk. pose proof Hk as (Hsub&_).
        destruct (d_gens k !! declared) as [c|] eqn:Hc; [|simpl; by auto]. simpl.
        rewrite (Hbroken c); [by auto|]. by eapply lookup_weaken.
    - done.
    - intros [g|e] k Ho; [done|]. destruct Ho as [Hk [-> | ->]]; (split; [exact Hk|]); [by left|by right].
    - done. }
  intros o. apply hoare_pure. intros [-> | ->]; [apply recover_rollback_only|by apply hoare_throw].
Qed.
End never_served.

(** ** Properties *)

Section properties.
Context {G : Type} `{GenerationFiles G} `{IntText} (wreck : container G → container G).
Local Notation droot := (droot G).

(** C35: recovery is crash-safe: whatever fails and wherever it is stopped, the
    generation the rollback pointer names stays where it is, and the active
    pointer is the old one or names it; what is served is that generation, opened,
    caught up, of the epoch of the facts and the representation of the runtime,
    with the active pointer already naming it; an exception leaves both pointers as
    they were.  The rollback pointer itself is not kept for ever: it is cleared once
    the active pointer names its generation, and by a refusal when reopening that
    generation was rejected, which a directory that could not be listed for a moment
    also is ([RecoveryDemo.transient_error_forgets_rollback]), or when it is of
    another epoch; every other refusal leaves it alone. *)
Theorem rollback_recovery_crash_safe (env : load_env G) declared why isolate rid c (k : droot) fault :
  pointer_id (read_rollback_manifest (d_rollback k)) = Some rid → rid ≠ declared → plain_name rid →
  d_gens k !! rid = Some c →
  let '(r, s) := recover_via_rollback wreck env declared why isolate fault (IoState 0 k [k]) in
  Forall (λ k', d_gens k' !! rid = Some c ∧ (d_active k' = d_active k ∨ active_id k' = Some rid)) (io_world s :: io_trace s) ∧
  match r with
  | Ok (Loaded_ g id) => id = rid ∧ fit_to_serve rid c env g ∧ active_id (io_world s) = Some rid
  | Ok (Refused why') => d_rollback (io_world s) = d_rollback k ∨ why' = RollbackRejected ∨ why' = RollbackOtherEpoch
  | Err _ => d_active (io_world s) = d_active k ∧ d_rollback (io_world s) = d_rollback k
  end.
Proof.
  intros Hid Hne Hplain Hc.
  assert (waiting k rid c k) as Hw by by split_and!.
  pose proof (recover_spec wreck k rid c env declared why isolate Hid Hne Hplain fault (IoState 0 k [k]) Hw) as Hrun.
  destruct (recover_via_rollback _ _ _ _ _ _ _) as [r s].
  destruct Hrun as [Ht Hr]; [constructor; [by apply waiting_way|done]|].
  assert (on_the_way k rid c (io_world s)) as Hs.
  { destruct r as [[g id|w]|e]; [apply Hr|apply Hr|by apply waiting_way]. }
  split.
  - eapply (Forall_impl (on_the_way k rid c)); [by constructor|]. intros k' (?&?&_). done.
  - destruct r as [[g id|w]|e]; [|apply Hr|by destruct Hr as (_&_&?&?)]. by destruct Hr as (?&?&_&?).
Qed.

(** A published identity that is broken on disk is never served and never
    rebuilt in place: whatever fails, a load whose active pointer names a
    generation that is missing or does not open ends in a refusal, which asks for
    a rebuild, or serves the intact generation of the explicit rollback pointer. *)
Theorem broken_identity_never_served (env : load_env G) declared (k : droot) fault :
  active_id k = Some declared → broken declared k →
  match (load_or_build_generation wreck env declared fault (IoState 0 k [k])).1 with
  | Ok (Loaded_ g id) => id ≠ declared ∧ pointer_id (read_rollback_manifest (d_rollback k)) = Some id ∧
      ∃ c, d_gens k !! id = Some c ∧ open_generation id c = Some g
  | Ok (Refused w) => force_rebuild (Refused w) = true
  | Err _ => True
  end.
Proof.
  intros Hact Hb. destruct (load_or_build_generation wreck env declared fault (IoState 0 k [k])) as [[o|e] s] eqn:Hrun; [|done].
  pose proof (proj1 (hoare_result (rollback_only k declared) _ _) (load_rollback_only wreck k declared env Hact Hb) fault (IoState 0 k [k]) o s eq_refl Hrun) as Ho.
  by destruct o.
Qed.

Lemma runs_clear_rollback (k : droot) : runs clear_rollback_manifest k tt (set_rollback None k).
Proof.
  unfold clear_rollback_manifest. destruct (d_rollback k) eqn:Hr.
  - apply runs_rescue, runs_call. by rewrite Hr.
  - intros n t. unfold rescue, call. simpl. rewrite Hr. eexists. split; [reflexivity|]. destruct k. simpl in *. by subst.
Qed.

(** A damaged active generation is recovered from: when the rollback is
    intact, of the epoch of the facts and of the runtime's representation, the
    catch-up succeeds and nothing fails, the load serves it, makes it the active
    generation, clears the rollback pointer and has put the damaged one into
    isolation. *)
Theorem damaged_active_recovers (env : load_env G) declared rid bad c g fsv epoch clock (k : droot) :
  active_id k = Some declared → d_gens k !! declared = Some bad → open_generation declared bad = None →
  pointer_id (read_rollback_manifest (d_rollback k)) = Some rid → rid ≠ declared →
  d_gens k !! rid = Some c → open_generation rid c = Some g →
  read_facts_identity (le_facts env) = Ok (Some (epoch, clock)) → field "store_epoch" (gen_identity g) = JStr epoch →
  field "representation_id" (gen_identity g) = JStr (le_repr env) → field "vector_dimension" (gen_identity g) = JInt (le_dim env) →
  le_delta env = Ok tt → read_fact_schema_version (le_schema env) = Ok (Some fsv) → fsv ≠ "" →
  ∃ k', runs (load_or_build_generation wreck env declared) k (Loaded_ g rid) k' ∧
    d_active k' = Some (Parsed (JObj (compose_active_manifest g (JStr (checkpoint_path rid)) (JStr fsv) (le_now_ms env)))) ∧
    d_gens k' !! rid = Some c ∧ d_rollback k' = None ∧ d_gens k' !! declared = None ∧
    d_isolated k' = (isolated_name declared (le_now_ms env), bad) :: d_isolated k.
Proof.
  intros Hact Hbad Hbroken Hrb Hne Hc Hg Hfacts Hepoch Hrepr Hdim Hdelta Hschema Hfsv.
  set (k1 := set_isolated ((isolated_name declared (le_now_ms env), bad) :: d_isolated k) (set_gens (delete declared (d_gens k)) k)).
  set (k2 := if le_delta_dir env then set_delta ({[rid]} ∪ d_delta k1) k1 else k1).
  set (k3 := set_rollback None (set_active (Some (Parsed (JObj (compose_active_manifest g (JStr (checkpoint_path rid)) (JStr fsv) (le_now_ms env))))) k2)).
  assert (d_gens k3 = delete declared (d_gens k) ∧ d_isolated k3 = d_isolated k1) as [Hg3 Hi3]
    by (unfold k3, k2; by destruct (le_delta_dir env)).
  eexists. split; [|split_and!].
  { eapply runs_bind.
    { eapply runs_bind; [apply runs_rescue, runs_look|]. apply runs_ret. }
    unfold active_id in Hact. destruct (read_active_manifest (d_active k)) as [| |m] eqn:Hm; [done|done|].
    cbn beta iota. unfold names. rewrite Hact, bool_decide_true by done.
    eapply runs_bind; [apply runs_is_there|]. unfold in_gens. rewrite Hbad, bool_decide_true by by eexists. cbn [negb].
    eapply runs_bind with (a := Err GenerationRejected) (k1 := k).
    { intros n t. unfold attempt, open_published, open_container, mbind, io_bind, call. simpl. rewrite Hbad. simpl. rewrite Hbad. simpl. rewrite Hbroken. eexists. split; reflexivity. }
    cbn beta iota. unfold recover_via_rollback. eapply runs_bind.
    { eapply runs_bind; [apply runs_rescue, runs_look|]. cbn beta. rewrite bool_decide_true by by eexists. cbn [negb].
      apply runs_rescue. eapply runs_bind; [apply runs_look|]. apply (runs_call _ _ k tt k1). by rewrite Hbad. }
    cbn beta iota. eapply runs_bind; [apply runs_rescue, runs_look|]. change (d_rollback k1) with (d_rollback k). rewrite Hrb.
    rewrite (proj2 (String.eqb_neq _ _) Hne). eapply runs_bind.
    { apply runs_attempt, (runs_open_published rid c g); [simpl; by rewrite lookup_delete_ne|done]. }
    cbn beta iota. rewrite Hfacts, (proj2 (str_is_true _ _) Hepoch), (proj2 (str_is_true _ _) Hrepr), Hdim.
    simpl. rewrite Z.eqb_refl. simpl. eapply runs_bind with (k1 := set_active _ k2).
    { eapply runs_bind.
      { apply runs_attempt. eapply runs_bind with (k1 := k2).
        - unfold k2. destruct (le_delta_dir env); [by apply runs_rescue, runs_call|apply runs_ret].
        - rewrite Hdelta. apply runs_ret. }
      cbn beta iota. eapply runs_bind; [|apply runs_ret]. apply runs_attempt. rewrite Hschema.
      eapply runs_bind; [apply runs_ret|]. cbn beta iota. rewrite (proj2 (String.eqb_neq _ _) Hfsv). apply runs_write_atomic. }
    cbn beta iota. eapply runs_bind; [apply runs_clear_rollback|].
    eapply runs_bind; [apply runs_listdir|]. eapply runs_bind; [apply runs_retention_sweep|]. apply runs_ret. }
  - reflexivity.
  - cbn -[keep_ids]. apply drop_entries_lookup.
    + change (d_gens k3 !! rid = Some c). by rewrite Hg3, lookup_delete_ne.
    + rewrite bool_decide_true; [done|by left].
  - reflexivity.
  - apply drop_entries_none. change (d_gens k3 !! declared = None). by rewrite Hg3, lookup_delete_eq.
  - change (d_isolated k3 = (isolated_name declared (le_now_ms env), bad) :: d_isolated k). by rewrite Hi3.
Qed.
End properties.
