(* ===== verification/RecoveryDemo.v ===== *)
(** * A concrete recovery

    The active pointer names ["g1"], whose container belongs to another id, and the
    rollback pointer names the intact ["g0"].  The witnesses of [Recovery] use
    it. *)

From Stdlib Require Import String.
From stdpp Require Import base list strings gmap.
From S2P Require Import Prelude PyJson OpStore Compat Effects Facts Delta DeltaDemo Derived Retention Publish PublishSafety PublishRuns PublishDemo Recovery.
Open Scope Z_scope.

Definition damaged : container json := demo_container "gX" None.
Definition damaged_root : droot json :=
  DRoot (<["g1" := damaged]> {[ "g0" := demo_container "g0" None ]}) ∅ ∅ ∅
    (Some (Parsed (JObj demo_pointer))) (Some demo_rollback) [].
Definition epoch_store : facts_db := new_store "epoch-1" 10 [("fact_schema_version", JStr "1")].
Definition demo_load : load_env json :=
  LoadEnv (Store epoch_store) (Store epoch_store) (Ok tt) true 7 "r1" 4 (Err OtherError).

Lemma damaged_names_g1 : active_id damaged_root = Some "g1".
Proof. vm_compute. reflexivity. Qed.
Lemma rollback_names_g0 : pointer_id (read_rollback_manifest (d_rollback damaged_root)) = Some "g0".
Proof. vm_compute. reflexivity. Qed.
Lemma plain_g0 : plain_name "g0".
Proof. split_and!; [|done..]. apply (bool_decide_eq_true_1 (_ ∉ _)). reflexivity. Qed.
Lemma damaged_is_broken : broken "g1" damaged_root.
Proof. intros c Hc. assert (c = damaged) as -> by (vm_compute in Hc; by injection Hc as <-). vm_compute. reflexivity. Qed.

Lemma rollback_recovery_witness :
  let '(r, s) := recover_via_rollback (λ c, c) demo_load "g1" PublishedRejected true (λ n, Nat.eqb n 20) (IoState 0 damaged_root [damaged_root]) in
  Forall (λ k', d_gens k' !! "g0" = Some (demo_container "g0" None) ∧
                (d_active k' = d_active damaged_root ∨ active_id k' = Some "g0")) (io_world s :: io_trace s) ∧
  match r with
  | Ok (Loaded_ g id) => id = "g0" ∧ fit_to_serve "g0" (demo_container "g0" None) demo_load g ∧ active_id (io_world s) = Some "g0"
  | Ok (Refused why') => d_rollback (io_world s) = d_rollback damaged_root ∨ why' = RollbackRejected ∨ why' = RollbackOtherEpoch
  | Err _ => d_active (io_world s) = d_active damaged_root ∧ d_rollback (io_world s) = d_rollback damaged_root
  end.
Proof.
  apply rollback_recovery_crash_safe; [exact rollback_names_g0|discriminate|exact plain_g0|vm_compute; reflexivity].
Defined.

Lemma broken_identity_witness :
  match (load_or_build_generation (λ c, c) demo_load "g1" (λ n, Nat.eqb n 2) (IoState 0 damaged_root [damaged_root])).1 with
  | Ok (Loaded_ g id) => id ≠ "g1" ∧ pointer_id (read_rollback_manifest (d_rollback damaged_root)) = Some id ∧
      ∃ c, d_gens damaged_root !! id = Some c ∧ open_generation id c = Some g
  | Ok (Refused w) => force_rebuild (Refused w) = true
  | Err _ => True
  end.
Proof. apply broken_identity_never_served; [exact damaged_names_g1|exact damaged_is_broken]. Defined.

Lemma damaged_active_witness :
  ∃ k', runs (load_or_build_generation (λ c, c) demo_load "g1") damaged_root (Loaded_ (demo_generation "g0") "g0") k' ∧
    d_active k' = Some (Parsed (JObj (compose_active_manifest (demo_generation "g0") (JStr (checkpoint_path "g0")) (JStr "1") 7))) ∧
    d_gens k' !! "g0" = Some (demo_container "g0" None) ∧ d_rollback k' = None ∧ d_gens k' !! "g1" = None ∧
    d_isolated k' = [(isolated_name "g1" 7, damaged)].
Proof.
  apply (damaged_active_recovers (λ c, c) demo_load "g1" "g0" damaged (demo_container "g0" None) (demo_generation "g0") "1" "epoch-1" (10, 0));
    try (vm_compute; reflexivity); discriminate.
Defined.

(** What the damaged load does without faults. *)
Example damaged_load_serves_rollback :
  (load_or_build_generation (λ c, c) demo_load "g1" (λ _, false) (IoState 0 damaged_root [])).1 =
  Ok (Loaded_ (demo_generation "g0") "g0").
Proof. vm_compute. reflexivity. Qed.

(** Listing the directory of the intact rollback generation fails once: recovery
    takes it for damaged and clears the pointer.  Nothing names the generation any
    more, and the next sweep deletes it. *)
Example transient_error_forgets_rollback :
  let '(r, s) := recover_via_rollback (λ c, c) demo_load "g1" PublishedRejected true (λ n, Nat.eqb n 4)
                   (IoState 0 damaged_root [damaged_root]) in
  let s' := (sweep_from_manifests (λ c, c) None None (λ _, false) (IoState 0 (io_world s) [])).2 in
  r = Ok (Refused RollbackRejected) ∧ d_rollback (io_world s) = None ∧
  option_map (λ c, bool_decide (is_Some (open_generation "g0" c))) (d_gens (io_world s) !! "g0") = Some true ∧
  d_gens (io_world s') !! "g0" = None.
Proof. vm_compute. done. Qed.

(** A sweep with the pointers to ["g1"] and ["g0"], two of whose deletions fail:
    what the pointers name stays, a third generation goes. *)
Definition swept_root : droot json := set_gens (<["g2" := demo_container "g2" None]> (d_gens damaged_root)) damaged_root.

