(* ===== verification/Evidence.v ===== *)
(** * The evidence service: [src/daemon/evidence.py]

    For one group of candidates the service answers with the oracle's scores, or
    with a fault.  With a delta machine it serves the snapshot that the gate of
    [Delta] returns, otherwise it reads the store directly; each read of the store
    sees it at another moment.  The file holds the configuration identity, the
    fixture providers, the watermark check, the choice of the retrieval backend,
    both paths, and the traces a request leaves.

    Vectors are lists of floats; the backends that call numerical libraries are
    engines ([Oracle.engine]) or neighbour indexes ([Ann.neighbor_index]). *)

From Stdlib Require Import SpecFloat Ascii String.
From stdpp Require Import base list strings gmap pretty sorting.
From S2P Require Import Prelude Bytes Float64 SixDigits PyJson Facts TextMatch Oracle Ann Derived Build Delta.
Open Scope Z_scope.

(** ** Constants and faults *)

Definition BACKEND_ORACLE : string := "exact".
Definition BACKEND_ACCELERATE : string := "accelerate-cblas-sgemv".
Definition BACKEND_MLX : string := "mlx-exact-matmul".
Definition BACKEND_USEARCH : string := "usearch-hnsw".
Definition BACKEND_HNSWLIB : string := "hnswlib-hnsw".
Definition ANN_BACKENDS : list string := [BACKEND_USEARCH; BACKEND_HNSWLIB].
Definition EVIDENCE_CONFIG_ID_VERSION : string := "evidence-v1".

(** [EvidenceError] with its code, and any other exception. *)
Inductive serve_exn := EvidenceError (code : string) | OtherException.
#[export] Instance serve_exn_eq_dec : EqDecision serve_exn.
Proof. solve_decision. Defined.

(** ** The configuration identity *)

Definition quantize_identity_double (v : float) : result serve_exn float :=
  if is_inf v then Ok (S754_infinity false)
  else if negb (is_finite v) then Err (EvidenceError "config_identity")
  else Ok (through_6g v).

Definition format_identity_double (v : float) : result serve_exn string :=
  q ← quantize_identity_double v; Ok (if is_inf q then "inf" else format_6g q).

(** [compose_config_identity]; the parameters are those of [OracleParams]. *)
Definition compose_config_identity (representation : string) (p : oracle_params) (gamma : float)
    (overfetch query_search : option Z) : result serve_exn string :=
  let bad := EvidenceError "config_identity" in
  _ ← guard_err (String.eqb representation "") bad;
  _ ← guard_err (negb (is_finite gamma)) bad;
  tau ← format_identity_double (tau p);
  life ← format_identity_double (half_life p);
  sat ← format_identity_double (saturation_k p);
  g ← format_identity_double gamma;
  let identity := EVIDENCE_CONFIG_ID_VERSION +:+ ":repr=" +:+ representation +:+ ":tau=" +:+ tau +:+
                  ":kev=" +:+ pretty (k_evidence p) +:+ ":H=" +:+ life +:+ ":sat=" +:+ sat +:+ ":gamma=" +:+ g in
  match overfetch, query_search with
  | None, None => Ok identity
  | Some o, Some q =>
      _ ← guard_err (o <? 1) bad;
      _ ← guard_err (q <? 1) bad;
      Ok (identity +:+ ":overfetch=" +:+ pretty o +:+ ":qs=" +:+ pretty q)
  | _, _ => Err bad
  end.

(** ** Providers *)

(** The query side of [RepresentationProvider]; its event side is the class
    [Vectors] of [Delta]. *)
Class QuerySeam (P : Type) := {
  is_candidate_conditioned : P → bool;
  query_vector : P → string → result serve_exn (list float);
  query_vector_for_candidate : P → string → string → result serve_exn (list float) }.

(** [_normalize] of floats. *)
Definition _normalize (v : list float) : result serve_exn (list float) :=
  let bad := EvidenceError "representation_fault" in
  _ ← guard_err (bool_decide (v = [])) bad;
  _ ← guard_err (negb (forallb is_finite v)) bad;
  let norm := fsqrt (py_sum ((λ x, fmul x x) <$> v)) in
  _ ← guard_err (negb (is_finite norm) || feqb norm fzero) bad;
  Ok ((λ x, fdiv x norm) <$> v).

(** A key of a vector map in the configuration: a JSON string, or a tuple in a
    test. *)
Inductive raw_key := KeyText (s : string) | KeyTuple (l : list string).

(** The parts when all are strings. *)
Fixpoint json_strings (l : list json) : option (list string) :=
  match l with
  | [] => Some []
  | JStr s :: l => (cons s) <$> json_strings l
  | _ :: _ => None
  end.
Definition decoded_strings (v : option json) : option (list string) :=
  match v with Some (JList l) => json_strings l | _ => None end.

Section keys.
Context `{PyStdlib} `{BuildLib}.

(** One key of [_parse_event_vector_keys]. *)
Definition event_vector_key (k : raw_key) : result serve_exn (list string) :=
  match k with
  | KeyTuple l => Ok l
  | KeyText s =>
      let by_bars := match split_on "|"%char s with [a; b; c] => Ok [a; b; c] | _ => Err (EvidenceError "representation_fault") end in
      match decoded_strings (loads s) with
      | Some l => if (length l =? 3)%nat || (length l =? 4)%nat then Ok l else by_bars
      | None => by_bars
      end
  end.

(** [CandidateFixtureRepresentationProvider._query_key] *)
Definition candidate_query_key (k : raw_key) : result serve_exn (string * string) :=
  let bad := Err (EvidenceError "representation_fault") in
  match k with
  | KeyTuple [a; b] => Ok (a, b)
  | KeyTuple _ => bad
  | KeyText s =>
      match loads s with
      | Some v => match decoded_strings (Some v) with Some [a; b] => Ok (a, b) | _ => bad end
      | None => match partition "|"%char s with Some (a, b) => Ok (a, b) | None => bad end
      end
  end.
End keys.

(** A dict comprehension whose values may raise; a later key wins. *)
Fixpoint build_map {K V} `{Countable K} {A} (key : A → result serve_exn K) (value : A → result serve_exn V) (l : list A)
    (m : gmap K V) : result serve_exn (gmap K V) :=
  match l with
  | [] => Ok m
  | x :: l => k ← key x; v ← value x; build_map key value l (<[k := v]> m)
  end.

(** [FixtureRepresentationProvider] *)
Record fixture := Fixture {
  fx_id : string; fx_query : gmap string (list float); fx_event : gmap (list string) (list float);
  fx_default_query : list float; fx_default_event : list float }.

Definition default_query_axis : list float := [fone; fzero; fzero; fzero].
Definition default_event_axis : list float := [fzero; fone; fzero; fzero].

Definition make_fixture `{PyStdlib} `{BuildLib} (id : string) (queries : list (string * list float))
    (events : list (raw_key * list float)) (default_query default_event : list float) : result serve_exn fixture :=
  _ ← guard_err (String.eqb id "") (EvidenceError "representation_fault");
  qs ← build_map (λ kv, Ok kv.1) (λ kv, _normalize kv.2) queries ∅;
  keyed ← build_map (λ kv, event_vector_key kv.1) (λ kv, Ok kv.2) events ∅;
  es ← build_map (λ kv, Ok kv.1) (λ kv, _normalize kv.2) (map_to_list keyed) ∅;
  dq ← _normalize default_query;
  de ← _normalize default_event;
  Ok (Fixture id qs es dq de).

Definition fixture_query_vector (f : fixture) (preceding : string) : list float :=
  default (fx_default_query f) (fx_query f !! preceding).
Definition fixture_event_vector (f : fixture) (e : stored_event) : list float :=
  default (fx_default_event f) (fx_event f !! [ev_schema e; ev_input e; ev_text e]).
Definition fixture_dimension (f : fixture) : Z := Z.of_nat (length (fx_default_query f)).

#[export] Instance fixture_seam : QuerySeam fixture := {|
  is_candidate_conditioned _ := false;
  query_vector f preceding := Ok (fixture_query_vector f preceding);
  query_vector_for_candidate f preceding _ := Ok (fixture_query_vector f preceding) |}.

(** The last 64 characters and the candidate
    ([representations.candidate_conditioned_payload]). *)
Definition window_text (n : nat) (context : string) : string :=
  let cs := chars context in concat_str (drop (length cs - n) cs).
Definition candidate_conditioned_payload (preceding candidate : string) : option string :=
  if String.eqb candidate "" then None else Some (window_text 64 preceding +:+ candidate).

(** [CandidateFixtureRepresentationProvider] *)
Record candidate_fixture := CandidateFixture {
  cf_id : string; cf_query : gmap (string * string) (list float); cf_event : gmap (list string) (list float);
  cf_default_query : list float; cf_default_event : list float }.

Definition make_candidate_fixture `{PyStdlib} `{BuildLib} (id : string) (queries : list (raw_key * list float))
    (events : list (raw_key * list float)) (default_query default_event : list float) : result serve_exn candidate_fixture :=
  _ ← guard_err (String.eqb id "") (EvidenceError "representation_fault");
  qs ← build_map (λ kv, candidate_query_key kv.1) (λ kv, _normalize kv.2) queries ∅;
  keyed ← build_map (λ kv, event_vector_key kv.1) (λ kv, Ok kv.2) events ∅;
  es ← build_map (λ kv, Ok kv.1) (λ kv, _normalize kv.2) (map_to_list keyed) ∅;
  dq ← _normalize default_query;
  de ← _normalize default_event;
  Ok (CandidateFixture id qs es dq de).

(** The dict has pairs as keys, so the lookup of the bare text never answers. *)
Definition candidate_query_vector (f : candidate_fixture) (preceding candidate : string) : result serve_exn (list float) :=
  match cf_query f !! (preceding, candidate) with
  | Some v => Ok v
  | None =>
      match candidate_conditioned_payload preceding candidate with
      | None => Err OtherException
      | Some text => Ok (default (cf_default_query f) (cf_query f !! (text, candidate)))
      end
  end.

(** [event_vector_for_candidate] with the event's own selection. *)
Definition candidate_event_vector (f : candidate_fixture) (e : stored_event) : option (list float) :=
  match cf_event f !! [ev_schema e; ev_input e; ev_text e] with
  | Some v => Some v
  | None =>
      text ← candidate_conditioned_payload (ev_preceding e) (ev_text e);
      Some (default (cf_default_event f) (cf_event f !! [text; ev_schema e; ev_input e; ev_text e]))
  end.

#[export] Instance candidate_fixture_seam : QuerySeam candidate_fixture := {|
  is_candidate_conditioned _ := true;
  query_vector _ _ := Err (EvidenceError "representation_fault");
  query_vector_for_candidate := candidate_query_vector |}.

(** ** Requests and responses *)

(** A JSON number as Python holds it; order and sums are exact where Python's
    are. *)
Inductive num := NInt (z : Z) | NFloat (f : float).
Definition num_float (x : num) : float := match x with NInt z => float_of_Z z | NFloat f => f end.
(** Mantissa and exponent of a number that is no infinity and no NaN. *)
Definition num_parts (x : num) : option (Z * Z) :=
  match x with
  | NInt z => Some (z, 0)
  | NFloat (S754_zero _) => Some (0, 0)
  | NFloat (S754_finite s m e) => Some (if s then Zneg m else Zpos m, e)
  | _ => None
  end.
Definition num_ltb (x y : num) : bool :=
  match num_parts x, num_parts y with
  | Some (a, e), Some (b, e') => let k := Z.min e e' in a * 2 ^ (e - k) <? b * 2 ^ (e' - k)
  | _, _ => fltb (num_float x) (num_float y)
  end.

(** The trial envelope: the complete-comparable bit and the base scores. *)
Record trial := Trial { tr_complete : bool; tr_scores : list num }.

(** An evidence request whose fields were validated; the watermark is still any
    JSON value. *)
Record request := Request {
  rq_id : string; rq_plan : string; rq_schema : string; rq_category : string; rq_input : string;
  rq_preceding : string; rq_candidates : list string; rq_config : string; rq_water : json; rq_trial : option trial }.

Record response := Response {
  rs_zero : bool; rs_evidence : list (nat * float); rs_point : option hlc; rs_result : option oracle_result }.

(** The evidence of a result: one entry per candidate. *)
Definition zero_entry (entry : nat * float) : bool := feqb (SFabs entry.2) fzero.
Definition respond (n : nat) (r : oracle_result) : response :=
  let evidence := (λ i, (i, default fzero (snd <$> or_candidates r !! i))) <$> seq 0 n in
  Response (forallb zero_entry evidence) evidence (Some (or_query_point r)) (Some r).

(** [isinstance(v, int)]; bools are ints. *)
Definition int_like (v : json) : option Z :=
  match v with JInt z => Some z | JBool b => Some (Z.b2z b) | _ => None end.

(** [_check_watermark] *)
Definition check_watermark (water : json) (epoch : string) (clock : hlc) : result serve_exn unit :=
  match water with
  | JNull => Ok tt
  | JObj m =>
      match obj_get "store_epoch" m, int_like (obj_get_or_null "hlc_physical_ms" m), int_like (obj_get_or_null "hlc_logical" m) with
      | Some (JStr e), Some p, Some l =>
          if String.eqb e "" || (p <? 0) || (l <? 0) then Err (EvidenceError "invalid_request")
          else if negb (String.eqb e epoch) then Err (EvidenceError "fact_identity_mismatch")
          else if hlc_ltb clock (p, l) then Err (EvidenceError "not_caught_up")
          else Ok tt
      | _, _, _ => Err (EvidenceError "invalid_request")
      end
  | _ => Err (EvidenceError "invalid_request")
  end.

(** [_oracle_query]; the constructor of the query may refuse. *)
Definition oracle_query_of `{QuerySeam P} (p : P) (rq : request) : result serve_exn oracle_query :=
  let query v vs := OracleQuery (rq_schema rq) (rq_input rq) (rq_candidates rq) v (rq_category rq) None ∅ vs in
  q ← (if is_candidate_conditioned p then
         vs ← mapM (query_vector_for_candidate p (rq_preceding rq)) (rq_candidates rq);
         match vs with
         | [] => Err (EvidenceError "representation_fault")
         | v :: _ => Ok (query v (Some vs))
         end
       else v ← query_vector p (rq_preceding rq); Ok (query v None));
  _ ← guard_err (negb (query_ok q)) OtherException;
  Ok q.

(** [except EvidenceError: raise], and every other exception as [code]. *)
Definition fail_closed {A} (code : string) (r : result serve_exn A) : result serve_exn A :=
  match r with Err OtherException => Err (EvidenceError code) | _ => r end.

(** ** The service *)

(** What the base generation of a snapshot gives: its vectors and rows, its
    backend, and the engines over it or their failure. *)
Record generation_handle := GenerationHandle {
  gh_vectors : vector_file; gh_ids : list string; gh_backend : option string;
  gh_accelerate : result serve_exn engine; gh_mlx : result serve_exn engine }.

(** [_facts_root] and the trace store are outside; [sv_machine]: whether there is
    a delta machine. *)
Record service (P : Type) := Service {
  sv_params : oracle_params; sv_provider : P; sv_gamma : float; sv_machine : bool; sv_backend : string;
  sv_index : option neighbor_index; sv_overfetch : option Z; sv_query_search : option Z; sv_identity : string }.
Arguments Service {P}.
Arguments sv_params {P}. Arguments sv_provider {P}. Arguments sv_gamma {P}. Arguments sv_machine {P}.
Arguments sv_backend {P}. Arguments sv_index {P}. Arguments sv_overfetch {P}. Arguments sv_query_search {P}.
Arguments sv_identity {P}.

(** The reads of the direct path, in order; [None]: SQLite fails.  After the open
    they go through one connection. *)
Record direct_look := DirectLook {
  dl_isfile : bool; dl_open : bool; dl_identity : option facts_db; dl_clock : option facts_db;
  dl_events : option facts_db; dl_clock2 : option facts_db; dl_events2 : option facts_db }.

(** The environment of one request: whether the store is there, the answer of the
    gate, the base generation of the snapshot, and the direct reads. *)
Record serve_env (P : Type) := ServeEnv {
  se_isfile : bool; se_gate : result delta_exn (gate_answer (P := P) (V := list float));
  se_generation : snapshot P (list float) → generation_handle; se_direct : direct_look }.
Arguments ServeEnv {P}.
Arguments se_isfile {P}. Arguments se_gate {P}. Arguments se_generation {P}. Arguments se_direct {P}.

Section service.
Context {P B : Type} `{Vectors P (list float) B} `{QuerySeam P} `{IntText} `{Unicode} `{Libm} `{Dictionary}.

(** [EvidenceService.__init__], with a facts root and parameters that their
    constructor accepted. *)
Definition make_service (p : oracle_params) (provider : P) (gamma : float) (machine : bool) (backend : string)
    (index : option neighbor_index) (overfetch query_search : option Z) : result serve_exn (service P) :=
  let bad := EvidenceError "evidence_unavailable" in
  _ ← guard_err (negb (is_finite gamma)) bad;
  _ ← guard_err (negb (bool_decide (backend ∈ [BACKEND_ORACLE; BACKEND_ACCELERATE; BACKEND_MLX] ++ ANN_BACKENDS))) bad;
  _ ← guard_err (bool_decide (backend ∈ ANN_BACKENDS) &&
                 (bool_decide (overfetch = None) || bool_decide (query_search = None))) bad;
  _ ← guard_err (bool_decide (backend ∈ ANN_BACKENDS) && match index with None => negb machine | _ => false end) bad;
  identity ← compose_config_identity (representation_id provider) p gamma overfetch query_search;
  Ok (Service p provider gamma machine backend index overfetch query_search identity).

(** [DeltaStateMachine.snapshot_representation_id] *)
Definition snapshot_representation_id (m : machine (P := P) (V := list float) (B := B)) : string :=
  match m_snapshot m with Some s => sn_repr s | None => representation_id (m_provider m) end.

(** [config_identity] at the machine [m]. *)
Definition config_identity (sv : service P) (m : machine (P := P) (V := list float) (B := B)) : result serve_exn string :=
  if sv_machine sv
  then compose_config_identity (snapshot_representation_id m) (sv_params sv) (sv_gamma sv) (sv_overfetch sv) (sv_query_search sv)
  else Ok (sv_identity sv).

(** [_cosine_engine] *)
Definition cosine_engine (sv : service P) (g : generation_handle) : result serve_exn (option engine) :=
  if negb (bool_decide (gh_backend g = Some (sv_backend sv))) then Err (EvidenceError "backend_mismatch")
  else if String.eqb (sv_backend sv) BACKEND_ACCELERATE
  then fail_closed "accelerate_fault" (e ← gh_accelerate g; Ok (Some e))
  else if String.eqb (sv_backend sv) BACKEND_MLX
  then fail_closed "mlx_fault" (e ← gh_mlx g; Ok (Some e))
  else Ok None.

(** What becomes of the exceptions of the oracle in both paths. *)
Definition oracle_fault (e : oracle_error) : serve_exn :=
  match e with DivisionByZero | SqliteError => OtherException | _ => EvidenceError "oracle_fault" end.

(** [_run_ann]; [snapshot]: the generation's backend and the events of the
    snapshot. *)
Definition run_ann (sv : service P) (reader : fact_reader) (q : oracle_query) (vector_for : string → option (list float))
    (snapshot : option (option string * list string)) : result serve_exn oracle_result :=
  match sv_index sv with
  | None => Err (EvidenceError "ann_fault")
  | Some index =>
      delta ← match snapshot with
              | None => Ok []
              | Some (backend, ids) =>
                  if bool_decide (backend ∈ [None; Some BACKEND_ORACLE; Some BACKEND_USEARCH; Some BACKEND_HNSWLIB])
                  then Ok (filter (λ id, id ∉ ni_event_ids index) ids)
                  else Err (EvidenceError "backend_mismatch")
              end;
      match compute_ann_evidence dictionary vector_for reader (sv_params sv) q index
              (default 0 (sv_overfetch sv)) (sv_query_search sv) delta with
      | Ok r => Ok r
      | Err (AnnError code) => Err (EvidenceError code)
      | Err (AnnOracle e) => Err (oracle_fault e)
      end
  end.

(** [_run_retrieval], and the conversion of [OracleError] around it. *)
Definition run_retrieval (sv : service P) (reader : fact_reader) (q : oracle_query) (vector_for : string → option (list float))
    (snapshot : option (generation_handle * list string)) : result serve_exn oracle_result :=
  if bool_decide (sv_backend sv ∈ ANN_BACKENDS)
  then run_ann sv reader q vector_for ((λ s, (gh_backend s.1, s.2)) <$> snapshot)
  else
    eng ← match snapshot with None => Ok None | Some (g, _) => cosine_engine sv g end;
    match compute_evidence dictionary vector_for eng reader (sv_params sv) q with
    | Ok r => Ok r
    | Err e => Err (oracle_fault e)
    end.

(** ** The path through a snapshot *)

(** [DeltaSnapshot.vector_for] *)
Definition snapshot_vector (g : generation_handle) (s : snapshot P (list float)) (id : string) : option (list float) :=
  match sn_source s !! id with
  | Some false => row_vectors (gh_vectors g) (row_index_of (gh_ids g)) id
  | Some true => sn_vectors s !! id
  | None => None
  end.

(** [DeltaSnapshotReader]; a snapshot that passed the gate has a watermark. *)
Definition snapshot_reader (s : snapshot P (list float)) : fact_reader :=
  FactReader (λ _, Ok (sn_events s)) (match sn_consumed s with Some c => Ok c | None => Err ClockMissing end).

(** The exception the gate raises. *)
Definition gate_fault (a : gate_answer (P := P) (V := list float)) : result serve_exn (snapshot P (list float)) :=
  match a with
  | Serve s => Ok s
  | NotCaughtUp => Err (EvidenceError "not_caught_up")
  | RepresentationFault => Err (EvidenceError "representation_fault")
  | IdentityRefused => Err (EvidenceError "active_identity_refused")
  | FactStoreFault => Err (EvidenceError "fact_store_fault")
  end.

(** [_serve_via_snapshot] *)
Definition serve_via_snapshot (sv : service P) (rq : request) (env : serve_env P) : result serve_exn response :=
  s ← match se_gate env with Ok a => gate_fault a | Err _ => Err OtherException end;
  clock ← match sn_consumed s with Some c => Ok c | None => Err OtherException end;
  _ ← check_watermark (rq_water rq) (sn_epoch s) clock;
  q ← fail_closed "representation_fault" (oracle_query_of (sn_provider s) rq);
  let g := se_generation env s in
  r ← run_retrieval sv (snapshot_reader s) q (snapshot_vector g s) (Some (g, ev_id <$> sn_events s));
  Ok (respond (length (rq_candidates rq)) r).

(** ** The direct path *)

(** [default_as_of] and [read_active_events] of the open reader. *)
Definition read_default_as_of (d : option facts_db) : result oracle_error hlc :=
  match d with Some db => fr_default_as_of (store_reader db) | None => Err SqliteError end.
Definition direct_active (d : option facts_db) (as_of : hlc) : result oracle_error (list stored_event) :=
  match d with Some db => Ok (read_active_events db as_of) | None => Err StoreUnreadable end.

Definition of_reader {A} (r : result oracle_error A) : result serve_exn A :=
  match r with Ok a => Ok a | Err e => Err (oracle_fault e) end.

(** The closure [vector_for] over the events read first. *)
Definition direct_vector (provider : P) (events : list stored_event) (id : string) : option (list float) :=
  e ← (list_to_map ((λ e, (ev_id e, e)) <$> rev events) : gmap string stored_event) !! id;
  event_vector provider e.

(** [_serve_direct] *)
Definition serve_direct (sv : service P) (rq : request) (look : direct_look) : result serve_exn response :=
  let n := length (rq_candidates rq) in
  if negb (dl_isfile look) then
    if is_null (rq_water rq)
    then Ok (Response true ((λ i, (i, fzero)) <$> seq 0 n) None None)
    else Err (EvidenceError "fact_store_fault")
  else
    _ ← guard_err (negb (dl_open look)) (EvidenceError "fact_store_fault");
    identity ← match dl_identity look with
               | Some db => match meta_identity db with Ok i => Ok i | Err _ => Err (EvidenceError "fact_store_fault") end
               | None => Err (EvidenceError "fact_store_fault")
               end;
    _ ← check_watermark (rq_water rq) identity.1 identity.2;
    q ← fail_closed "representation_fault" (oracle_query_of (sv_provider sv) rq);
    as_of ← of_reader (read_default_as_of (dl_clock look));
    events ← of_reader (direct_active (dl_events look) as_of);
    r ← run_retrieval sv (FactReader (direct_active (dl_events2 look)) (read_default_as_of (dl_clock2 look))) q
          (direct_vector (sv_provider sv) events) None;
    Ok (respond n r).

(** [serve] up to its traces. *)
Definition serve (sv : service P) (rq : request) (env : serve_env P) : result serve_exn response :=
  if sv_machine sv && se_isfile env then serve_via_snapshot sv rq env else serve_direct sv rq (se_direct env).
End service.

(** ** Traces *)

(** [sorted(indexes, key=..., reverse=True)], which keeps the order of equals. *)
Definition order_le (key : nat → num) (i j : nat) : Prop :=
  num_ltb (key j) (key i) = true ∨ (num_ltb (key i) (key j) = false ∧ (i <= j)%nat).
#[export] Instance order_le_dec key : RelDecision (order_le key).
Proof. intros i j. unfold order_le. apply _. Defined.
Definition emit_order (key : nat → num) (n : nat) : list nat := merge_sort (order_le key) (seq 0 n).

(** [_ranks] *)
Definition ranks (order : list nat) : list nat :=
  (λ i, default (length order) (list_index i order)) <$> seq 0 (length order).

Record request_meta := RequestMeta {
  rm_schema : string; rm_category : string; rm_input : string; rm_id : string; rm_plan : string; rm_config : string;
  rm_water : json; rm_complete : bool; rm_count : nat }.

(** A neighbour of an order trace: ids and numbers, no text. *)
Record neighbor := Neighbor {
  nb_event : string; nb_commit : string; nb_cosine : float; nb_relevance : float; nb_factor : float; nb_weight : float;
  nb_age : Z; nb_matched : option nat }.

(** [_derived_watermark]: [None] without a published snapshot, else representation
    and generation as far as they could be read. *)
Notation derived_watermark := (option (option string * option string)).

Inductive trace_payload :=
| FaultTrace (code config backend : string) (water : json) (derived : derived_watermark)
| OrderTrace (config backend : string) (water : json) (base_scores : list num) (shadow final base_ranks final_ranks : list nat)
    (facts_epoch : option string) (facts_point : hlc) (derived : derived_watermark) (neighbors : list neighbor)
    (aggregate : list (nat * float)).

(** One [record_request]; constants, repetitions of the metadata and latencies are
    left out. *)
Record trace_call := TraceCall { tc_meta : request_meta; tc_outcome : string; tc_payload : option trace_payload }.

Section traces.
Context {P B : Type} `{Vectors P (list float) B}.

(** [_request_meta] *)
Definition request_meta_of (rq : request) : request_meta :=
  RequestMeta (rq_schema rq) (rq_category rq) (rq_input rq) (rq_id rq) (rq_plan rq) (rq_config rq) (rq_water rq)
    (match rq_trial rq with Some t => tr_complete t | None => false end) (length (rq_candidates rq)).

(** [_emit_orders] *)
Definition emit_orders (gamma : float) (rq : request) (r : option oracle_result) : option (list nat * list nat) :=
  match rq_trial rq, r with
  | Some t, Some r =>
      if (length (tr_scores t) =? length (rq_candidates rq))%nat then
        let base i := default (NInt 0) (tr_scores t !! i) in
        let s i := default fzero (snd <$> or_candidates r !! i) in
        let n := length (tr_scores t) in
        Some (emit_order base n, emit_order (λ i, NFloat (fadd (num_float (base i)) (fmul gamma (s i)))) n)
      else None
  | _, _ => None
  end.

(** The properties of a snapshot are called like methods, so both reads raise and
    are dropped. *)
Definition derived_watermark_of (sv : service P) (m : machine (P := P) (V := list float) (B := B)) : derived_watermark :=
  if sv_machine sv then (λ _, (None, None)) <$> m_snapshot m else None.

Definition neighbor_of (c : contribution) : neighbor :=
  Neighbor (ev_id (ct_event c)) (ev_commit (ct_event c)) (ct_cosine c) (ct_relevance c) (ct_factor c) (ct_weight c)
    (ct_age c) (ct_matched c).

(** [_trace_payload]; a result has no [store_epoch]. *)
Definition order_trace (sv : service P) (m : machine (P := P) (V := list float) (B := B)) (config : string) (rq : request)
    (t : trial) (r : oracle_result) (shadow final : list nat) : trace_payload :=
  OrderTrace config (sv_backend sv) (rq_water rq) (tr_scores t) shadow final (ranks shadow) (ranks final) None
    (or_query_point r) (derived_watermark_of sv m) (neighbor_of <$> or_kept r) (imap (λ i c, (i, c.2)) (or_candidates r)).

(** [_record_fault] and [_attach_trace]: what is recorded of a request, with the
    machine as it is then; a failure on the way records nothing. *)
Definition trace_of (sv : service P) (m : machine (P := P) (V := list float) (B := B)) (rq : request)
    (r : result serve_exn response) : option trace_call :=
  match r with
  | Err e =>
      let code := match e with EvidenceError code => code | OtherException => "oracle_fault" end in
      match config_identity sv m with
      | Ok config => Some (TraceCall (request_meta_of rq) code
                             (Some (FaultTrace code config (sv_backend sv) (rq_water rq) (derived_watermark_of sv m))))
      | Err _ => None
      end
  | Ok rs =>
      match emit_orders (sv_gamma sv) rq (rs_result rs), rq_trial rq, rs_result rs with
      | Some (shadow, final), Some t, Some r =>
          if bool_decide (final = shadow) then Some (TraceCall (request_meta_of rq) "ok" None)
          else match config_identity sv m with
               | Ok config => Some (TraceCall (request_meta_of rq) "ok" (Some (order_trace sv m config rq t r shadow final)))
               | Err _ => None
               end
      | _, _, _ => Some (TraceCall (request_meta_of rq) "ok" None)
      end
  end.
End traces.
