(* ===== verification/EvidenceTheorems.v ===== *)
(** * What the evidence service guarantees

    The configuration identity binds every parameter; an answer covers the
    watermark of the request and is the oracle's evidence over the facts as they
    were at its query point; both paths agree on a store at rest; every answer has
    one bounded score per candidate; the direct path faults when an event is
    committed between its reads; zero evidence is never traced as a change of
    order. *)

From Stdlib Require Import SpecFloat Ascii String.
From stdpp Require Import base list strings gmap pretty sorting relations.
From S2P Require Import Prelude Bytes Float64 SixDigits PyJson Facts TextMatch Oracle OracleTheorems OracleProjection Ann Build Delta DeltaProjection DeltaCheckpoint DeltaSystem DeltaTheorems Evidence.
Open Scope Z_scope.

(** ** The identity *)

Lemma format_identity_colonless v s : format_identity_double v = Ok s → colonless s.
Proof.
  unfold format_identity_double. intros (q&_&[= <-])%bind_Ok. destruct (is_inf q); [by repeat constructor|apply colonless_format].
Qed.

(** Colon-separated fields after a prefix. *)
Definition field_text (prefix : string) (fields : list string) : string := foldl (λ s f, s +:+ ":" +:+ f) prefix fields.

Lemma field_text_snoc prefix l f : field_text prefix (l ++ [f]) = field_text prefix l +:+ ":" +:+ f.
Proof. unfold field_text. by rewrite foldl_app. Qed.

Lemma field_text_inj p p' l l' : length l = length l' → Forall colonless l → Forall colonless l' →
  field_text p l = field_text p' l' → p = p' ∧ l = l'.
Proof.
  revert l'. induction l as [|f l IH] using rev_ind; intros l' Hlen Hl Hl' Heq.
  { by destruct l'. }
  destruct l' as [|f' l' _] using rev_ind; [rewrite length_app in Hlen; simpl in Hlen; lia|].
  rewrite !length_app in Hlen. simpl in Hlen. apply Forall_app in Hl as [Hl [Hf _]%Forall_cons].
  apply Forall_app in Hl' as [Hl' [Hf' _]%Forall_cons]. rewrite !field_text_snoc in Heq.
  apply colon_split in Heq as [Heq ->]; [|done..]. apply IH in Heq as [-> ->]; [done|lia|done..].
Qed.

Lemma app_inv_prefix (c a b : string) : c +:+ a = c +:+ b → a = b.
Proof. induction c as [|x c IH]; [done|]. rewrite !str_app_cons. intros [= ?]. by apply IH. Qed.

(** The fields of an identity. *)
Definition ann_fields (ann : option (Z * Z)) : list string :=
  match ann with Some (o, q) => ["overfetch=" +:+ pretty o; "qs=" +:+ pretty q] | None => [] end.
Definition identity_fields (t k h s g : string) (ann : option (Z * Z)) : list string :=
  ["tau=" +:+ t; "kev=" +:+ k; "H=" +:+ h; "sat=" +:+ s; "gamma=" +:+ g] ++ ann_fields ann.

Lemma compose_fields r p gamma o q id : compose_config_identity r p gamma o q = Ok id →
  ∃ t h s g ann, format_identity_double (tau p) = Ok t ∧ format_identity_double (half_life p) = Ok h ∧
    format_identity_double (saturation_k p) = Ok s ∧ format_identity_double gamma = Ok g ∧
    o = fst <$> ann ∧ q = snd <$> ann ∧
    id = field_text ("evidence-v1:repr=" +:+ r) (identity_fields t (pretty (k_evidence p)) h s g ann).
Proof.
  unfold compose_config_identity. intros Hc.
  apply bind_Ok in Hc as (?&_&Hc). apply bind_Ok in Hc as (?&_&Hc). apply bind_Ok in Hc as (t&Ht&Hc).
  apply bind_Ok in Hc as (h&Hh&Hc). apply bind_Ok in Hc as (s&Hs&Hc). apply bind_Ok in Hc as (g&Hg&Hc).
  assert (∀ more, EVIDENCE_CONFIG_ID_VERSION +:+ ":repr=" +:+ r +:+ ":tau=" +:+ t +:+ ":kev=" +:+ pretty (k_evidence p) +:+
    ":H=" +:+ h +:+ ":sat=" +:+ s +:+ ":gamma=" +:+ g +:+ more =
    field_text ("evidence-v1:repr=" +:+ r) (identity_fields t (pretty (k_evidence p)) h s g None) +:+ more) as Htext.
  { intros more. unfold field_text, identity_fields. cbn [app foldl ann_fields]. rewrite <- !str_app_assoc. reflexivity. }
  destruct o as [o|], q as [q|]; try done.
  - apply bind_Ok in Hc as (?&_&Hc). apply bind_Ok in Hc as (?&_&[= <-]).
    exists t, h, s, g, (Some (o, q)). split_and!; try done. rewrite <- !str_app_assoc, Htext.
    unfold identity_fields, field_text. cbn [app foldl ann_fields]. rewrite <- !str_app_assoc. reflexivity.
  - injection Hc as <-. exists t, h, s, g, None. split_and!; try done.
    specialize (Htext ""). by rewrite !str_app_nil in Htext.
Qed.

Lemma identity_fields_colonless p t h s g gamma ann :
  format_identity_double (tau p) = Ok t → format_identity_double (half_life p) = Ok h →
  format_identity_double (saturation_k p) = Ok s → format_identity_double gamma = Ok g →
  Forall colonless (identity_fields t (pretty (k_evidence p)) h s g ann).
Proof.
  intros ????. apply Forall_app. split.
  - repeat (apply Forall_cons_2; [apply colonless_app; [by repeat constructor|];
      first [by apply colonless_pretty|by eapply format_identity_colonless]|]). constructor.
  - destruct ann as [[o q]|]; simpl; [|constructor].
    repeat (apply Forall_cons_2; [apply colonless_app; [by repeat constructor|apply colonless_pretty]|]). constructor.
Qed.

(** C32: The configuration identity binds the configuration: two configurations
    with the same identity have the same representation and the same number of
    kept events, agree on threshold, half-life, saturation and weight up to six
    significant digits, and use the same approximate search or none. *)
Theorem identity_binds_configuration r p gamma o q r' p' gamma' o' q' id :
  compose_config_identity r p gamma o q = Ok id → compose_config_identity r' p' gamma' o' q' = Ok id →
  r = r' ∧ k_evidence p = k_evidence p' ∧ o = o' ∧ q = q' ∧
  format_identity_double (tau p) = format_identity_double (tau p') ∧
  format_identity_double (half_life p) = format_identity_double (half_life p') ∧
  format_identity_double (saturation_k p) = format_identity_double (saturation_k p') ∧
  format_identity_double gamma = format_identity_double gamma'.
Proof.
  intros (t&h&s&g&ann&Ht&Hh&Hs&Hg&->&->&->)%compose_fields (t'&h'&s'&g'&ann'&Ht'&Hh'&Hs'&Hg'&->&->&Heq)%compose_fields.
  pose proof (identity_fields_colonless p t h s g gamma ann Ht Hh Hs Hg) as Hl.
  pose proof (identity_fields_colonless p' t' h' s' g' gamma' ann' Ht' Hh' Hs' Hg') as Hl'.
  assert (length (identity_fields t (pretty (k_evidence p)) h s g ann) =
          length (identity_fields t' (pretty (k_evidence p')) h' s' g' ann')) as Hlen.
  { unfold identity_fields. rewrite !length_app. destruct ann as [[o q]|], ann' as [[o' q']|]; try done; exfalso.
    - unfold identity_fields in Heq. cbn [ann_fields] in Heq. rewrite app_nil_r in Heq.
      change (_ ++ ["overfetch=" +:+ pretty o; "qs=" +:+ pretty q])
        with (["tau=" +:+ t; "kev=" +:+ pretty (k_evidence p); "H=" +:+ h; "sat=" +:+ s; "gamma=" +:+ g; "overfetch=" +:+ pretty o] ++ ["qs=" +:+ pretty q]) in Heq.
      change ["tau=" +:+ t'; "kev=" +:+ pretty (k_evidence p'); "H=" +:+ h'; "sat=" +:+ s'; "gamma=" +:+ g']
        with (["tau=" +:+ t'; "kev=" +:+ pretty (k_evidence p'); "H=" +:+ h'; "sat=" +:+ s'] ++ ["gamma=" +:+ g']) in Heq.
      rewrite !field_text_snoc in Heq.
      apply colon_split in Heq as [_ Heq]; [done|apply colonless_app; [by repeat constructor|apply colonless_pretty]|].
      apply colonless_app; [by repeat constructor|by eapply format_identity_colonless].
    - unfold identity_fields in Heq. cbn [ann_fields] in Heq. rewrite app_nil_r in Heq.
      change (_ ++ ["overfetch=" +:+ pretty o'; "qs=" +:+ pretty q'])
        with (["tau=" +:+ t'; "kev=" +:+ pretty (k_evidence p'); "H=" +:+ h'; "sat=" +:+ s'; "gamma=" +:+ g'; "overfetch=" +:+ pretty o'] ++ ["qs=" +:+ pretty q']) in Heq.
      change ["tau=" +:+ t; "kev=" +:+ pretty (k_evidence p); "H=" +:+ h; "sat=" +:+ s; "gamma=" +:+ g]
        with (["tau=" +:+ t; "kev=" +:+ pretty (k_evidence p); "H=" +:+ h; "sat=" +:+ s] ++ ["gamma=" +:+ g]) in Heq.
      rewrite !field_text_snoc in Heq.
      apply colon_split in Heq as [_ Heq]; [done| |apply colonless_app; [by repeat constructor|apply colonless_pretty]].
      apply colonless_app; [by repeat constructor|by eapply format_identity_colonless]. }
  apply field_text_inj in Heq as [Hr Hf]; [|done..]. apply app_inv_prefix in Hr as ->.
  unfold identity_fields in Hf. apply app_inj_1 in Hf as [Hf Hann]; [|done]. injection Hf as Htt Hk Hhh Hss Hgg.
  change (t = t') in Htt. change (h = h') in Hhh. change (s = s') in Hss. change (g = g') in Hgg. subst.
  change (pretty (k_evidence p) = pretty (k_evidence p')) in Hk. apply (inj pretty) in Hk. rewrite Ht, Ht', Hh, Hh', Hs, Hs', Hg, Hg'.
  assert (ann = ann') as ->; [|by split_and!].
  destruct ann as [[o q]|], ann' as [[o' q']|]; try done. injection Hann as Ho Hq.
  change (pretty o = pretty o') in Ho. change (pretty q = pretty q') in Hq. apply (inj pretty) in Ho as ->.
  by apply (inj pretty) in Hq as ->.
Qed.

(** The double ingestion of the identity is harmless: for a finite value that is
    zero or between [2 ^ -1000] and [2 ^ 1000], the text is that of one formatting
    with six digits, which is what the plugin composes, and the quantized value is
    a fixed point with the same text. *)
Theorem identity_double_is_formatted_once v :
  match v with S754_zero _ => True | S754_finite _ m e => moderate m e | _ => False end →
  ∃ q, quantize_identity_double v = Ok q ∧ quantize_identity_double q = Ok q ∧
    format_identity_double v = Ok (format_6g v) ∧ format_identity_double q = Ok (format_6g v).
Proof.
  destruct v as [s|s| |s m e]; [|done..|].
  { intros _. exists (S754_zero s). by split_and!. }
  intros Hm. destruct (float_digits m e) as [D X] eqn:Hd. destruct (read_digits_back s m e D X Hm Hd) as (p&e'&Hf&Hd').
  assert (through_6g (S754_finite s m e) = S754_finite s p e') as Hv by (unfold through_6g; by rewrite Hd).
  assert (through_6g (S754_finite s p e') = S754_finite s p e') as Hq by (unfold through_6g; by rewrite Hd').
  exists (S754_finite s p e'). unfold format_identity_double, quantize_identity_double. simpl is_inf. simpl is_finite.
  cbn [negb]. rewrite Hv. cbn [mbind result_bind is_inf]. rewrite Hq. cbn [mbind result_bind is_inf].
  rewrite <- (format_through (S754_finite s m e) Hm), Hv. done.
Qed.

(** ** The oracle behind the paths *)

Section oracle_lemmas.
Context `{Unicode} `{Libm} (dict : t2s).

(** The query at a point. *)
Definition at_point (w : hlc) (q : oracle_query) : oracle_query :=
  OracleQuery (q_schema q) (q_input q) (q_candidates q) (q_vector q) (q_category q) (Some w) (q_exclude q) (q_candidate_vectors q).

(** Only the query point and the events there matter of a reader. *)
Lemma evidence_at_point vector_for eng rd rd' p q w : q_as_of q = None → fr_default_as_of rd = Ok w →
  fr_active rd w = fr_active rd' w →
  compute_evidence dict vector_for eng rd p q = compute_evidence dict vector_for eng rd' p (at_point w q).
Proof. intros Hq Hw Hact. unfold compute_evidence. simpl. rewrite Hq, Hw. cbn [mbind result_bind]. by rewrite Hact. Qed.

(** Only the vectors of the active events matter. *)
Lemma evidence_vectors_ext vf vf' rd p q w events : q_as_of q = Some w → fr_active rd w = Ok events →
  (∀ e, e ∈ events → vf (ev_id e) = vf' (ev_id e)) →
  compute_evidence dict vf None rd p q = compute_evidence dict vf' None rd p q.
Proof.
  intros Hq Hact Hvf. unfold compute_evidence. rewrite Hq. cbn [mbind result_bind]. rewrite Hact.
  assert (∀ v l, (∀ e, e ∈ l → e ∈ events) → cosines_of vf None v l = cosines_of vf' None v l) as Hcos.
  { intros v l Hl. unfold cosines_of. apply mapM_congr. intros e He. unfold scalar_cosine. by rewrite Hvf by auto. }
  assert (∀ e, e ∈ same_key q events → e ∈ events) as Hkeyed.
  { intros e. unfold same_key. rewrite sort_by_elem, list_elem_of_filter. tauto. }
  destruct (q_candidate_vectors q) as [vs|].
  - destruct (mapM as_float_vector vs) as [vs'|]; [|done]. cbn [mbind result_bind]. unfold conditioned_contributions.
    assert (∀ groups m, (∀ i es, (i, es) ∈ groups → ∀ e, e ∈ es → e ∈ events) →
      grouped_cosines vf None vs' groups m = grouped_cosines vf' None vs' groups m) as Hgroup.
    { induction groups as [|[i es] groups IH]; intros m Hg; [done|]. cbn [grouped_cosines].
      rewrite (Hcos _ es) by (intros e; apply (Hg i es); by left). destruct (cosines_of _ _ _ _) as [cs|]; [|done].
      cbn [mbind result_bind]. apply IH. intros j es' Hin. apply (Hg j). by right. }
    rewrite Hgroup; [done|]. intros i es Hin e He. apply Hkeyed.
    by apply (proj1 (events_by_candidate_spec dict (match_text dict <$> q_candidates q) (same_key q events)) i e); exists es.
  - destruct (as_float_vector (q_vector q)) as [v|]; [|done]. cbn [mbind result_bind]. unfold plain_contributions.
    by rewrite (Hcos _ _ Hkeyed).
Qed.

(** More vectors change no evidence that is given. *)
Lemma cosines_of_mono (vf vf' : string → option (list float)) v l cos : (∀ e, e ∈ l → ∀ x, vf (ev_id e) = Some x → vf' (ev_id e) = Some x) →
  cosines_of vf None v l = Ok cos → cosines_of vf' None v l = Ok cos.
Proof.
  unfold cosines_of. intros Hvf. rewrite !mapM_Forall2, !Forall2_lookup. intros Hl i. specialize (Hl i).
  destruct (l !! i) as [e|] eqn:He; inversion Hl as [? c Hc|]; constructor. unfold scalar_cosine in Hc |- *.
  destruct (vf (ev_id e)) as [y|] eqn:Hy; [|done]. by rewrite (Hvf e (list_elem_of_lookup_2 _ _ _ He) y Hy).
Qed.

Lemma grouped_mono (vf vf' : string → option (list float)) vs groups m m' :
  (∀ i es, (i, es) ∈ groups → ∀ e, e ∈ es → ∀ x, vf (ev_id e) = Some x → vf' (ev_id e) = Some x) →
  grouped_cosines vf None vs groups m = Ok m' → grouped_cosines vf' None vs groups m = Ok m'.
Proof.
  revert m. induction groups as [|[i es] groups IH]; intros m Hg; [done|]. cbn [grouped_cosines].
  intros (cs&Hcs&Hrest)%bind_Ok. apply (cosines_of_mono vf vf') in Hcs; [|apply (Hg i es); by left].
  rewrite Hcs. cbn [mbind result_bind]. apply IH; [|done]. intros j es' Hin. apply (Hg j es'). by right.
Qed.

Lemma evidence_vectors_mono (vf vf' : string → option (list float)) rd p q w events r : q_as_of q = Some w → fr_active rd w = Ok events →
  (∀ e, e ∈ events → ∀ x, vf (ev_id e) = Some x → vf' (ev_id e) = Some x) →
  compute_evidence dict vf None rd p q = Ok r → compute_evidence dict vf' None rd p q = Ok r.
Proof.
  intros Hq Hact Hvf. unfold compute_evidence. rewrite Hq. cbn [mbind result_bind]. rewrite Hact.
  assert (∀ e, e ∈ same_key q events → e ∈ events) as Hkeyed.
  { intros e. unfold same_key. rewrite sort_by_elem, list_elem_of_filter. tauto. }
  destruct (q_candidate_vectors q) as [vs|].
  - destruct (mapM as_float_vector vs) as [vs'|]; [|done]. cbn [mbind result_bind].
    intros (cs&Hcs&Hrest)%bind_Ok. unfold conditioned_contributions in Hcs |- *. apply bind_Ok in Hcs as (m&Hm&Hcs).
    apply (grouped_mono vf vf') in Hm; [rewrite Hm; cbn [mbind result_bind]; by injection Hcs as ->|].
    intros i es Hin e He. apply Hvf, Hkeyed.
    by apply (proj1 (events_by_candidate_spec dict (match_text dict <$> q_candidates q) (same_key q events)) i e); exists es.
  - destruct (as_float_vector (q_vector q)) as [v|]; [|done]. cbn [mbind result_bind].
    intros (cs&Hcs&Hrest)%bind_Ok. unfold plain_contributions in Hcs |- *. apply bind_Ok in Hcs as (c&Hc&Hcs).
    apply (cosines_of_mono vf vf') in Hc; [rewrite Hc; cbn [mbind result_bind]; by injection Hcs as ->|].
    intros e He. by apply Hvf, Hkeyed.
Qed.

(** The evidence over stripped events has the scores of the evidence over the
    events. *)
Lemma evidence_strip vf eng es rd p q w : NoDup (ev_id <$> es) → q_as_of q = Some w → fr_active rd w = Ok es →
  compute_evidence dict vf eng (projection_reader (strip <$> es)) p q = on_ok (f_result strip) (compute_evidence dict vf eng rd p q).
Proof.
  intros Hnd Hq Hact. rewrite (evidence_fmap dict vf eng strip); [|done..|by apply nodup_ids_stamps].
  f_equal. unfold compute_evidence. rewrite Hq. cbn [mbind result_bind]. by rewrite Hact.
Qed.
End oracle_lemmas.

Lemma respond_strip n r : rs_zero (respond n (f_result strip r)) = rs_zero (respond n r) ∧
  rs_evidence (respond n (f_result strip r)) = rs_evidence (respond n r) ∧ rs_point (respond n (f_result strip r)) = rs_point (respond n r).
Proof. done. Qed.

(** ** What an answer covers *)

(** The watermark a request declares: epoch and clock. *)
Definition declares (water : json) (epoch : string) (w : hlc) : Prop :=
  ∃ m p l, water = JObj m ∧ obj_get "store_epoch" m = Some (JStr epoch) ∧
    int_like (obj_get_or_null "hlc_physical_ms" m) = Some p ∧ int_like (obj_get_or_null "hlc_logical" m) = Some l ∧ w = (p, l).

Lemma watermark_covered water epoch clock u : check_watermark water epoch clock = Ok u →
  water = JNull ∨ ∃ w, declares water epoch w ∧ hlc_leb w clock = true.
Proof.
  unfold check_watermark. destruct water as [| | | | | |m]; try done; [by left|].
  destruct (obj_get "store_epoch" m) as [[| | | |e| |]|] eqn:He; try done.
  destruct (int_like (obj_get_or_null "hlc_physical_ms" m)) as [p|] eqn:Hp; [|done].
  destruct (int_like (obj_get_or_null "hlc_logical" m)) as [l|] eqn:Hl; [|done].
  destruct (_ || _ || _); [done|]. destruct (String.eqb_spec e epoch) as [->|]; [|done].
  destruct (hlc_ltb clock (p, l)) eqn:Hlt; [done|]. intros _. right. exists (p, l). split; [by exists m, p, l|].
  unfold hlc_ltb in Hlt. by apply negb_false_iff in Hlt.
Qed.

Section paths.
Context {P B : Type} `{Vectors P (list float) B} `{QuerySeam P} `{IntText} `{Unicode} `{Libm} `{Dictionary}.
Local Notation service := (service P).

Lemma oracle_query_point (p : P) rq q : oracle_query_of p rq = Ok q → q_as_of q = None ∧ q_candidates q = rq_candidates rq.
Proof.
  unfold oracle_query_of. intros (q0&Hq&Hrest)%bind_Ok. apply bind_Ok in Hrest as (?&_&[= <-]).
  destruct (is_candidate_conditioned p).
  - apply bind_Ok in Hq as (vs&_&Hq). destruct vs; [done|]. by injection Hq as <-.
  - by apply bind_Ok in Hq as (v&_&[= <-]).
Qed.

Lemma fail_closed_Ok {A} code (r : result serve_exn A) a : fail_closed code r = Ok a ↔ r = Ok a.
Proof. destruct r as [|[]]; done. Qed.

(** The retrieval of an exact backend is the oracle with the engine it chose. *)
Lemma retrieval_exact (sv : service) rd q vf sn r : sv_backend sv ∉ ANN_BACKENDS → run_retrieval sv rd q vf sn = Ok r →
  ∃ eng, match sn with None => Ok None | Some (g, _) => cosine_engine sv g end = Ok eng ∧
         compute_evidence dictionary vf eng rd (sv_params sv) q = Ok r.
Proof.
  intros Hb. unfold run_retrieval. rewrite bool_decide_false by done. intros (eng&Heng&Hr)%bind_Ok. exists eng. split; [done|].
  by destruct (compute_evidence _ _ _ _ _ _); [injection Hr as ->|].
Qed.

(** C6: With an exact retrieval backend (not one of the approximate ones), an answer
    through the delta machine is the oracle's evidence over the facts themselves, as they were at one moment during the request: at a query
    point that covers everything recorded when the request arrived and the
    watermark it declares, with the representation of one snapshot and the backend
    that is configured. *)
Theorem snapshot_evidence_is_current (sv : service) rq env refuse (db : facts_db) deadline wakes a rs :
  wf_facts db → Forall (wake_ok (P := P) (V := list float) (B := B) db) wakes →
  ensure_caught_up refuse (Store db) deadline wakes = Ok (Some a) → se_gate env = Ok a →
  sv_backend sv ∉ ANN_BACKENDS → serve_via_snapshot sv rq env = Ok rs →
  ∃ sn db' c w q eng r,
    a = Serve sn ∧ rtc facts_step db db' ∧ clock_is db c ∧ hlc_leb c w = true ∧ rs_point rs = Some w ∧
    (rq_water rq = JNull ∨ ∃ h, declares (rq_water rq) (store_epoch_of db) h ∧ hlc_leb h w = true) ∧
    oracle_query_of (sn_provider sn) rq = Ok q ∧ cosine_engine sv (se_generation env sn) = Ok eng ∧
    compute_evidence dictionary (snapshot_vector (se_generation env sn) sn) eng (store_reader db') (sv_params sv) (at_point w q) = Ok r ∧
    rs_evidence rs = rs_evidence (respond (length (rq_candidates rq)) r) ∧ rs_zero rs = rs_zero (respond (length (rq_candidates rq)) r).
Proof.
  intros Hwf Hwakes Hgate Henv Hb Hserve. unfold serve_via_snapshot in Hserve. rewrite Henv in Hserve.
  apply bind_Ok in Hserve as (sn&Hsn&Hserve). destruct a as [sn'| | | |]; try done. injection Hsn as ->.
  destruct (gate_returns_projection _ _ _ _ _ Hwf Hwakes Hgate) as (_&db'&w&c&Hsteps&Hwf'&Hc&Hle&Hw&Hepoch&_&Hevs).
  rewrite Hw in Hserve. cbn [mbind result_bind] in Hserve. apply bind_Ok in Hserve as (?&Hmark&Hserve).
  apply bind_Ok in Hserve as (q&Hq%fail_closed_Ok&Hserve). apply bind_Ok in Hserve as (r&Hr&[= <-]).
  apply retrieval_exact in Hr as (eng&Heng&Hr); [|done]. destruct (oracle_query_point _ _ _ Hq) as [Hpoint _].
  rewrite (evidence_at_point dictionary _ _ _ (projection_reader (strip <$> read_active_events db' w)) _ _ w) in Hr;
    [|done|simpl; by rewrite Hw|simpl; by rewrite Hevs].
  rewrite (evidence_strip dictionary _ _ _ (store_reader db') _ _ w) in Hr; [|by apply read_active_nodup|done..].
  destruct (compute_evidence _ _ _ (store_reader db') _ _) as [r0|] eqn:Hr0; [|done]. injection Hr as <-.
  assert (or_query_point r0 = w) as Hw0.
  { destruct (evidence_inv _ _ _ _ _ _ _ Hr0) as (_&_&_&[[= Hx]|[Hx _]]&_); done. }
  exists sn, db', c, w, q, eng, r0. split_and!; try done.
  - simpl. by rewrite Hw0.
  - apply watermark_covered in Hmark. by rewrite Hepoch in Hmark.
Qed.
End paths.

(** ** The direct path *)

Section direct.
Context {P B : Type} `{Vectors P (list float) B} `{QuerySeam P} `{IntText} `{Unicode} `{Libm} `{Dictionary}.
Local Notation service := (service P).

Lemma direct_vector_spec (p : P) es id v : NoDup (ev_id <$> es) →
  direct_vector p es id = Some v ↔ ∃ e, e ∈ es ∧ ev_id e = id ∧ event_vector p e = Some v.
Proof.
  intros Hnd. unfold direct_vector.
  assert (NoDup ((λ e, (ev_id e, e)) <$> rev es).*1) as Hnd'.
  { rewrite <- list_fmap_compose. change (fst ∘ (λ e : stored_event, (ev_id e, e))) with ev_id. by rewrite <- (Permutation_rev es). }
  assert (∀ e, (list_to_map ((λ e, (ev_id e, e)) <$> rev es) : gmap string stored_event) !! id = Some e ↔ e ∈ es ∧ ev_id e = id) as Hmap.
  { intros e. rewrite <- elem_of_list_to_map by done. rewrite list_elem_of_fmap.
    assert (∀ x, x ∈ rev es ↔ x ∈ es) as Hrev by (intros x; by rewrite <- (Permutation_rev es)). setoid_rewrite Hrev. naive_solver. }
  rewrite bind_Some. setoid_rewrite Hmap. naive_solver.
Qed.

Lemma plain_query (p : P) rq q : is_candidate_conditioned p = false → oracle_query_of p rq = Ok q →
  q_candidate_vectors q = None ∧ q_exclude q = ∅ ∧ query_key q = choice_problem_key (rq_schema rq) (rq_category rq) (rq_input rq).
Proof.
  unfold oracle_query_of. intros -> (q0&Hq&Hrest)%bind_Ok. apply bind_Ok in Hrest as (?&_&[= <-]).
  by apply bind_Ok in Hq as (v&_&[= <-]).
Qed.

(** The reads of the direct path come from growing stores. *)
Inductive reads_grow (db : facts_db) (look : direct_look) : facts_db → facts_db → Prop :=
| reads_grow_at d1 d2 d3 d4 d5 :
    dl_identity look = Some d1 → dl_clock look = Some d2 → dl_events look = Some d3 →
    dl_clock2 look = Some d4 → dl_events2 look = Some d5 →
    rtc facts_step db d1 → rtc facts_step d1 d2 → rtc facts_step d2 d3 → rtc facts_step d3 d4 → rtc facts_step d4 d5 →
    reads_grow db look d2 d4.

Lemma store_reader_clock db c : wf_facts db → clock_is db c → fr_default_as_of (store_reader db) = Ok c.
Proof.
  intros Hwf (Hp&Hl&Hrp&Hrl). simpl. rewrite Hp, Hl. cbn [py_int int_text_py]. rewrite !py_int_pretty.
  assert ((c.1 <? 0) || (c.2 <? 0) = false) as -> by (apply orb_false_iff; lia). by destruct c.
Qed.

(** What the direct path read when it answers. *)
Lemma direct_answer (sv : service) rq look db d2 d4 c2 c4 rs :
  wf_facts db → reads_grow db look d2 d4 → clock_is d2 c2 → clock_is d4 c4 →
  dl_isfile look = true → sv_backend sv ∉ ANN_BACKENDS → serve_direct sv rq look = Ok rs →
  hlc_leb c2 c4 = true ∧ facts_ext d2 d4 ∧ wf_facts d4 ∧ read_active_events d4 c2 = read_active_events d2 c2 ∧
  (rq_water rq = JNull ∨ ∃ h, declares (rq_water rq) (store_epoch_of db) h ∧ hlc_leb h c4 = true) ∧
  ∃ q r, oracle_query_of (sv_provider sv) rq = Ok q ∧ rs = respond (length (rq_candidates rq)) r ∧ or_query_point r = c4 ∧
    compute_evidence dictionary (direct_vector (sv_provider sv) (read_active_events d2 c2)) None (store_reader d4)
      (sv_params sv) (at_point c4 q) = Ok r.
Proof.
  intros Hwf Hlooks Hc2 Hc4 Hfile Hb Hserve.
  destruct Hlooks as [d1 d2 d3 d4 d5 Hi Hcl Hev Hcl2 Hev2 [Hwf1 Hx1]%facts_steps [Hwf2 Hx2]%facts_steps [Hwf3 Hx3]%facts_steps
    [Hwf4 Hx4]%facts_steps [Hwf5 Hx5]%facts_steps]; try done.
  unfold serve_direct in Hserve. rewrite Hfile, Hi, Hcl, Hev, Hcl2 in Hserve. cbn [negb] in Hserve.
  apply bind_Ok in Hserve as (?&_&Hserve). destruct (wf_clock _ Hwf1) as (c1&Hc1&_).
  rewrite (meta_identity_clock _ _ Hwf1 Hc1) in Hserve. cbn [mbind result_bind fst snd] in Hserve.
  apply bind_Ok in Hserve as (?&Hmark&Hserve). apply bind_Ok in Hserve as (q&Hq%fail_closed_Ok&Hserve).
  unfold read_default_as_of in Hserve. rewrite (store_reader_clock _ _ Hwf2 Hc2) in Hserve. cbn [of_reader mbind result_bind direct_active] in Hserve.
  apply bind_Ok in Hserve as (r&Hr&[= <-]). apply retrieval_exact in Hr as (eng&[= <-]&Hr); [|done].
  destruct (oracle_query_point _ _ _ Hq) as [Hpoint _].
  rewrite (evidence_at_point dictionary _ _ _ (store_reader d4) _ _ c4) in Hr;
    [|done|exact (store_reader_clock _ _ Hwf4 Hc4)|simpl; rewrite Hev2; simpl; f_equal; eapply facts_ext_read_active; [exact Hwf4|done|done|done|hlc_solve]].
  destruct (ext_clock _ _ Hx2) as (x1&x2&Hx1c&Hx2c&Hle12&_).
  pose proof (facts_ext_trans _ _ _ Hx3 Hx4) as Hx24. destruct (ext_clock _ _ Hx24) as (y2&y4&Hy2&Hy4&Hle24&_).
  assert (x1 = c1) as -> by by eapply clock_is_inj. assert (x2 = c2) as -> by by eapply clock_is_inj.
  assert (y2 = c2) as -> by by eapply clock_is_inj. assert (y4 = c4) as -> by by eapply clock_is_inj.
  split_and!; try done.
  - eapply facts_ext_read_active; [exact Hwf2|done|done|done|hlc_solve].
  - apply watermark_covered in Hmark as [?|(h&Hh&Hle)]; [by left|right]. exists h. rewrite <- (ext_epoch _ _ Hx1). split; [done|]. hlc_solve.
  - exists q, r. split_and!; [done|done| |].
    + by destruct (evidence_inv _ _ _ _ _ _ _ Hr) as (_&_&_&[[= Hx]|[Hx _]]&_).
    + erewrite <- (facts_ext_read_active d2 d3); [exact Hr|done|done|done|done|hlc_solve].
Qed.
End direct.



(** ** Both paths *)

(** What a client sees of an answer. *)
Definition seen_answer (rs : response) : bool * list (nat * float) * option hlc := (rs_zero rs, rs_evidence rs, rs_point rs).

Lemma nodup_ids_inj es (e e' : stored_event) : NoDup (ev_id <$> es) → e ∈ es → e' ∈ es → ev_id e = ev_id e' → e = e'.
Proof.
  intros Hnd [i Hi]%list_elem_of_lookup [j Hj]%list_elem_of_lookup Heq. assert (i = j) as ->; [|congruence].
  eapply (NoDup_lookup _ _ _ (ev_id e) Hnd); rewrite list_lookup_fmap; [by rewrite Hi|rewrite Hj; simpl; by rewrite Heq].
Qed.

(** C11: With the scalar oracle as the backend of the service and of the generation,
    snapshots change nothing but the time an answer takes: over a store at rest, with
    the snapshot caught up, both paths give the same evidence, or refuse with the same
    code, provided the snapshot has the provider of the service and its vectors are
    that provider's.  (With the Accelerate or MLX backend the direct path still runs
    the scalar loop, and the two may differ.) *)
Theorem snapshot_and_direct_agree {P B : Type} `{Vectors P (list float) B} `{QuerySeam P} `{IntText} `{Unicode} `{Libm} `{Dictionary}
    (sv : service P) rq (env : serve_env P) db c sn :
  wf_facts db → clock_is db c → se_direct env = DirectLook true true (Some db) (Some db) (Some db) (Some db) (Some db) →
  se_gate env = Ok (Serve sn) → sn_consumed sn = Some c → sn_epoch sn = store_epoch_of db → sn_provider sn = sv_provider sv →
  sn_events sn = strip <$> read_active_events db c →
  (∀ e, e ∈ read_active_events db c → snapshot_vector (se_generation env sn) sn (ev_id e) = event_vector (sv_provider sv) e) →
  sv_backend sv = BACKEND_ORACLE → gh_backend (se_generation env sn) = Some BACKEND_ORACLE →
  on_ok seen_answer (serve_via_snapshot sv rq env) = on_ok seen_answer (serve_direct sv rq (se_direct env)).
Proof.
  intros Hwf Hc Hlook Hgate Hw Hepoch Hprov Hevs Hvec Hb Hgb. unfold serve_via_snapshot, serve_direct.
  rewrite Hgate, Hlook. cbn [gate_fault mbind result_bind dl_isfile dl_open dl_identity dl_clock dl_events dl_clock2 dl_events2 negb guard_err].
  rewrite Hw, Hprov, Hepoch, (meta_identity_clock _ _ Hwf Hc). cbn [mbind result_bind fst snd].
  destruct (check_watermark _ _ _); [|done]. cbn [mbind result_bind].
  destruct (fail_closed _ (oracle_query_of _ _)) as [q|] eqn:Hq; [|done]. apply fail_closed_Ok in Hq.
  cbn [mbind result_bind]. unfold read_default_as_of. rewrite (store_reader_clock _ _ Hwf Hc). cbn [of_reader mbind result_bind direct_active].
  destruct (oracle_query_point _ _ _ Hq) as [Hpoint _]. unfold run_retrieval, cosine_engine. rewrite Hb, Hgb.
  rewrite bool_decide_false by set_solver. cbn [mbind result_bind]. rewrite bool_decide_true by done. cbn [negb].
  change (String.eqb BACKEND_ORACLE BACKEND_ACCELERATE) with false. change (String.eqb BACKEND_ORACLE BACKEND_MLX) with false. cbn [mbind result_bind].
  pose proof (read_active_nodup db c Hwf) as Hnd.
  rewrite (evidence_at_point dictionary _ _ _ (projection_reader (strip <$> read_active_events db c)) _ _ c);
    [|done|simpl; by rewrite Hw|simpl; by rewrite Hevs].
  rewrite (evidence_strip dictionary _ _ _ (store_reader db) _ _ c) by done.
  rewrite (evidence_at_point dictionary (direct_vector _ _) _ _ (store_reader db) _ _ c);
    [|done|done|done].
  rewrite (evidence_vectors_ext dictionary _ (direct_vector (sv_provider sv) (read_active_events db c)) _ _ _ c (read_active_events db c)); [|done|done|].
  - by destruct (compute_evidence _ _ _ _ _ _).
  - intros e He. rewrite Hvec by done. apply option_eq. intros v. rewrite direct_vector_spec by done. split; [by exists e|].
    intros (e0&He0&Hid&<-). by rewrite <- (nodup_ids_inj _ _ _ Hnd He0 He Hid).
Qed.

(** ** The shape of an answer *)

(** The providers a request meets: the service's, and that of the snapshot the
    gate returns. *)
Definition meets {P : Type} (sv : service P) (env : serve_env P) (p : P) : Prop :=
  p = sv_provider sv ∨ ∃ sn, se_gate env = Ok (Serve sn) ∧ p = sn_provider sn.

(** Sound parameters and vectors of a service and what it reads. *)
Record sound_service {P B} `{Vectors P (list float) B} `{QuerySeam P} `{Libm} (sv : service P) (env : serve_env P) : Prop := {
  ss_params : params_ok (sv_params sv) = true;
  ss_numbers : valid (tau (sv_params sv)) ∧ valid (half_life (sv_params sv)) ∧ valid (saturation_k (sv_params sv));
  ss_exp2 : ∀ x, fleb x fzero = true → in_unit (exp2 x);
  ss_query : ∀ p t v, meets sv env p → query_vector p t = Ok v → Forall valid v;
  ss_candidate : ∀ p t s v, meets sv env p → query_vector_for_candidate p t s = Ok v → Forall valid v;
  ss_event : ∀ p e v, meets sv env p → event_vector p e = Some v → Forall valid v;
  ss_rows : ∀ sn id v, se_gate env = Ok (Serve sn) → snapshot_vector (se_generation env sn) sn id = Some v → Forall valid v;
  ss_engine : ∀ sn g, gh_accelerate (se_generation env sn) = Ok g ∨ gh_mlx (se_generation env sn) = Ok g →
              ∀ q ids b id c, g q ids = Some b → b !! id = Some (Some c) → valid c }.

Lemma respond_shape n r : length (rs_evidence (respond n r)) = n ∧
  ∀ i x, rs_evidence (respond n r) !! i = Some x ↔ (i < n)%nat ∧ x = (i, default fzero (snd <$> or_candidates r !! i)).
Proof.
  unfold respond. simpl. rewrite length_fmap, length_seq. split; [done|]. intros i x.
  rewrite list_lookup_fmap, fmap_Some. setoid_rewrite lookup_seq. split; [intros (j&[-> ?]&->)|intros [? ->]; exists i]; done.
Qed.

Section shape.
Context {P B : Type} `{Vectors P (list float) B} `{QuerySeam P} `{IntText} `{Unicode} `{Libm} `{Dictionary}.

Lemma query_vectors_valid (sv : service P) env (p : P) rq q : sound_service sv env → meets sv env p → oracle_query_of p rq = Ok q →
  Forall valid (q_vector q) ∧ ∀ vs v, q_candidate_vectors q = Some vs → v ∈ vs → Forall valid v.
Proof.
  intros Hs Hp. unfold oracle_query_of. intros (q0&Hq&Hrest)%bind_Ok. apply bind_Ok in Hrest as (?&_&[= <-]).
  destruct (is_candidate_conditioned p).
  - apply bind_Ok in Hq as (vs&Hvs&Hq). apply mapM_Forall2 in Hvs.
    assert (∀ v, v ∈ vs → Forall valid v) as Hv.
    { intros v [i Hi]%list_elem_of_lookup. destruct (Forall2_lookup_r _ _ _ _ _ Hvs Hi) as (t&_&Ht). by eapply ss_candidate. }
    destruct vs as [|v vs]; [done|]. injection Hq as <-. simpl. split; [apply Hv; by left|]. intros ? y [= <-]; apply Hv.
  - apply bind_Ok in Hq as (v&Hv&[= <-]). simpl. split; [by eapply ss_query|done].
Qed.

Lemma snapshot_answer (sv : service P) rq env rs : sound_service sv env → sv_backend sv ∉ ANN_BACKENDS →
  serve_via_snapshot sv rq env = Ok rs →
  ∃ (p : P) q vf eng rd r, meets sv env p ∧ oracle_query_of p rq = Ok q ∧ canonical_sources vf eng ∧
    compute_evidence dictionary vf eng rd (sv_params sv) q = Ok r ∧ rs = respond (length (rq_candidates rq)) r.
Proof.
  intros Hs Hb. unfold serve_via_snapshot. intros (sn&Hsn&Hserve)%bind_Ok. apply bind_Ok in Hserve as (clock&_&Hserve).
  apply bind_Ok in Hserve as (?&_&Hserve). apply bind_Ok in Hserve as (q&Hq%fail_closed_Ok&Hserve).
  apply bind_Ok in Hserve as (r&Hr&[= <-]). apply retrieval_exact in Hr as (eng&Heng&Hr); [|done].
  assert (se_gate env = Ok (Serve sn)) as Hgate by (destruct (se_gate env) as [[]|]; try done; by injection Hsn as ->).
  exists (sn_provider sn), q. eexists _, eng, _, r.
  split_and!; [right; by exists sn|exact Hq| |exact Hr|done]. split; [intros ??; by apply (ss_rows _ _ Hs)|].
  intros g ? ? ? ? ? -> . unfold cosine_engine in Heng.
  destruct (negb _); [done|]. destruct (String.eqb _ _); [|destruct (String.eqb _ _); [|done]].
  - apply fail_closed_Ok, bind_Ok in Heng as (e&He&[= <-]). eapply (ss_engine _ _ Hs); [by left|done..].
  - apply fail_closed_Ok, bind_Ok in Heng as (e&He&[= <-]). eapply (ss_engine _ _ Hs); [by right|done..].
Qed.

Lemma direct_answer_form (sv : service P) rq env rs : sound_service sv env → sv_backend sv ∉ ANN_BACKENDS →
  serve_direct sv rq (se_direct env) = Ok rs →
  (rs = Response true ((λ i, (i, fzero)) <$> seq 0 (length (rq_candidates rq))) None None) ∨
  ∃ (p : P) q vf eng rd r, meets sv env p ∧ oracle_query_of p rq = Ok q ∧ canonical_sources vf eng ∧
    compute_evidence dictionary vf eng rd (sv_params sv) q = Ok r ∧ rs = respond (length (rq_candidates rq)) r.
Proof.
  intros Hs Hb. unfold serve_direct. destruct (negb _).
  { destruct (is_null _); [|done]. intros [= <-]. by left. }
  intros (?&_&Hserve)%bind_Ok. apply bind_Ok in Hserve as (identity&_&Hserve). apply bind_Ok in Hserve as (?&_&Hserve).
  apply bind_Ok in Hserve as (q&Hq%fail_closed_Ok&Hserve). apply bind_Ok in Hserve as (w&_&Hserve).
  apply bind_Ok in Hserve as (events&_&Hserve). apply bind_Ok in Hserve as (r&Hr&[= <-]).
  apply retrieval_exact in Hr as (eng&[= <-]&Hr); [|done]. right.
  exists (sv_provider sv), q. eexists _, None, _, r. split_and!; [by left|exact Hq| |exact Hr|done]. split; [|by intros].
  intros id v. unfold direct_vector. intros (e&_&He)%bind_Some. eapply ss_event; [done|by left|done].
Qed.

Lemma respond_bounded (sv : service P) env (p : P) rq q vf eng rd r : sound_service sv env → meets sv env p → canonical_sources vf eng →
  k_evidence (sv_params sv) <= 2 ^ 53 → Z.of_nat (length (rq_candidates rq)) <= 2 ^ 53 → oracle_query_of p rq = Ok q →
  compute_evidence dictionary vf eng rd (sv_params sv) q = Ok r →
  ∀ i x, rs_evidence (respond (length (rq_candidates rq)) r) !! i = Some x → x.1 = i ∧ in_unit x.2.
Proof.
  intros Hs Hp Hcan Hk Hn Hq Hr i x [Hi ->]%(proj2 (respond_shape _ _)). split; [done|]. simpl.
  destruct (oracle_query_point _ _ _ Hq) as [_ Hcands].
  assert (sound_inputs vf eng (sv_params sv) q) as Hsound.
  { destruct (ss_numbers _ _ Hs) as (?&?&?). split; try done; [by apply Hs..|by eapply query_vectors_valid]. }
  destruct (evidence_bounded dictionary vf eng rd _ _ _ Hsound Hk ltac:(by rewrite Hcands) Hr) as (Hlen&_&Hall).
  rewrite Hcands in Hlen. destruct (lookup_lt_is_Some_2 (or_candidates r) i ltac:(lia)) as [ms Hms]. rewrite Hms. simpl.
  rewrite Forall_forall in Hall. by apply (Hall ms (list_elem_of_lookup_2 _ _ _ Hms)).
Qed.
End shape.

(** C8: With an exact retrieval backend (not one of the approximate ones), canonical
    vectors and accepted parameters, an answer has one entry per candidate, in order, each with a score between
    0 and 1 in floating-point arithmetic, and is marked as zero evidence exactly
    when every score is zero. *)
Theorem answers_are_bounded {P B : Type} `{Vectors P (list float) B} `{QuerySeam P} `{IntText} `{Unicode} `{Libm} `{Dictionary}
    (sv : service P) rq (env : serve_env P) rs :
  sound_service sv env → sv_backend sv ∉ ANN_BACKENDS → k_evidence (sv_params sv) <= 2 ^ 53 →
  Z.of_nat (length (rq_candidates rq)) <= 2 ^ 53 → serve sv rq env = Ok rs →
  length (rs_evidence rs) = length (rq_candidates rq) ∧
  (∀ i x, rs_evidence rs !! i = Some x → x.1 = i ∧ in_unit x.2) ∧
  (rs_zero rs = true ↔ ∀ x, x ∈ rs_evidence rs → feqb x.2 fzero = true).
Proof.
  intros Hs Hb Hk Hn Hserve.
  assert ((rs = Response true ((λ i, (i, fzero)) <$> seq 0 (length (rq_candidates rq))) None None) ∨
    ∃ (p : P) q vf eng rd r, meets sv env p ∧ oracle_query_of p rq = Ok q ∧ canonical_sources vf eng ∧
      compute_evidence dictionary vf eng rd (sv_params sv) q = Ok r ∧ rs = respond (length (rq_candidates rq)) r) as Hcase.
  { unfold serve in Hserve. destruct (sv_machine sv && se_isfile env).
    - right. by eapply snapshot_answer.
    - by eapply direct_answer_form. }
  destruct Hcase as [->|(p&q&vf&eng&rd&r&Hp&Hq&Hcan&Hr&->)].
  - simpl. rewrite length_fmap, length_seq. split_and!; [done| |].
    + intros i x. rewrite list_lookup_fmap, fmap_Some. setoid_rewrite lookup_seq. by intros (j&[-> ?]&->).
    + split; [|done]. intros _ x (i&->&_)%list_elem_of_fmap. done.
  - split_and!; [apply respond_shape|by eapply respond_bounded|].
    unfold respond at 1. simpl. rewrite forallb_forall. split.
    + intros Hz x Hx. apply list_elem_of_In in Hx. specialize (Hz x Hx). unfold zero_entry in Hz. by destruct x as [i [[]|[]| |[] ? ?]].
    + intros Hz x Hx. apply list_elem_of_In in Hx. specialize (Hz x Hx). unfold zero_entry. by destruct x as [i [[]|[]| |[] ? ?]].
Qed.

(** ** Traces *)

Section merge_ext.
Context {A : Type} (R R' : A → A → Prop) `{RelDecision A A R} `{RelDecision A A R'} (Hiff : ∀ x y, R x y ↔ R' x y).

Lemma list_merge_iff l1 l2 : list_merge R l1 l2 = list_merge R' l1 l2.
Proof.
  revert l2. induction l1 as [|x l1 IH1]; intros l2; [by destruct l2|]. induction l2 as [|y l2 IH2]; [done|]. cbn.
  destruct (decide (R x y)) as [Hd|Hd], (decide (R' x y)) as [Hd'|Hd'];
    [by rewrite IH1|by apply Hiff in Hd|by apply Hiff in Hd'|by f_equal].
Qed.

Lemma merge_list_to_stack_iff st l : merge_list_to_stack R st l = merge_list_to_stack R' st l.
Proof. revert l. induction st as [|[o|] st IH]; intros l; [done| |done]. cbn. by rewrite list_merge_iff, IH. Qed.

Lemma merge_sort_iff l : merge_sort R l = merge_sort R' l.
Proof.
  unfold merge_sort. generalize (@nil (option (list A))). induction l as [|x l IH]; intros st; cbn.
  - induction st as [|[o|] st IH]; cbn; [done|by rewrite IH, list_merge_iff|done].
  - by rewrite merge_list_to_stack_iff.
Qed.
End merge_ext.

Lemma order_keys_iff key key' n : (∀ i, num_parts (key i) ≠ None ∧ num_parts (key i) = num_parts (key' i)) →
  emit_order key n = emit_order key' n.
Proof.
  intros Hk. apply merge_sort_iff. intros i j.
  assert (∀ i j, num_ltb (key i) (key j) = num_ltb (key' i) (key' j)) as Hlt; [|unfold order_le; by rewrite !Hlt].
  clear i j. intros i j. destruct (Hk i) as [Hi Hi'], (Hk j) as [Hj Hj']. unfold num_ltb. rewrite <- Hi', <- Hj'.
  by destruct (num_parts (key i)), (num_parts (key j)).
Qed.

(** Adding a weighted zero keeps the number. *)
Lemma shifted_parts x gamma s : is_finite x = true → is_finite gamma = true → feqb s fzero = true →
  num_parts (NFloat (fadd x (fmul gamma s))) = num_parts (NFloat x).
Proof.
  intros Hx Hg Hs. destruct s as [b|[]| |[] ? ?]; try done. clear Hs.
  assert (∃ b', fmul gamma (S754_zero b) = S754_zero b') as [b' ->] by (destruct gamma; try done; by eexists).
  by destruct x as [[]| | |], b'.
Qed.

(** Zero evidence never counts as a change of order: with floating-point base
    scores the order under evidence is the order of the base scores, whatever the
    weight, so the trace of the request has no payload. *)
Theorem zero_evidence_keeps_order {P B : Type} `{Vectors P (list float) B} (sv : service P) m rq t r scores :
  is_finite (sv_gamma sv) = true → rq_trial rq = Some t → tr_scores t = NFloat <$> scores → forallb is_finite scores = true →
  length scores = length (rq_candidates rq) → length (or_candidates r) = length (rq_candidates rq) →
  rs_zero (respond (length (rq_candidates rq)) r) = true →
  (∃ order, emit_orders (sv_gamma sv) rq (Some r) = Some (order, order)) ∧
  trace_of sv m rq (Ok (respond (length (rq_candidates rq)) r)) = Some (TraceCall (request_meta_of rq) "ok" None).
Proof.
  intros Hg Ht Hscores Hfin Hlen Hlen' Hz.
  assert (∃ order, emit_orders (sv_gamma sv) rq (Some r) = Some (order, order)) as [order Horder].
  { unfold emit_orders. rewrite Ht, Hscores, length_fmap, Hlen, Nat.eqb_refl. eexists. do 2 f_equal.
    apply order_keys_iff. intros i. rewrite list_lookup_fmap.
    assert (feqb (default fzero (snd <$> or_candidates r !! i)) fzero = true) as Hs.
    { destruct (or_candidates r !! i) as [ms|] eqn:Hi; [|done]. simpl. unfold respond in Hz. simpl in Hz.
      rewrite forallb_forall in Hz. assert (i < length (rq_candidates rq))%nat as Hlt by (rewrite <- Hlen'; by eapply lookup_lt_Some).
      specialize (Hz (i, ms.2)). unfold zero_entry in Hz. simpl in Hz.
      assert (feqb (SFabs ms.2) fzero = true) as Ha; [|by destruct ms.2 as [[]|[]| |[] ? ?]].
      apply Hz, list_elem_of_In, list_elem_of_fmap. exists i. rewrite Hi. split; [done|]. apply elem_of_seq. lia. }
    destruct (scores !! i) as [x|] eqn:Hx; simpl default; simpl num_float.
    - rewrite forallb_forall in Hfin. assert (is_finite x = true) as Hfx by (apply Hfin, list_elem_of_In; by eapply list_elem_of_lookup_2).
      split; [|by rewrite shifted_parts]. rewrite shifted_parts by done. by destruct x.
    - split; by rewrite shifted_parts. }
  split; [by exists order|]. unfold trace_of. change (rs_result (respond (length (rq_candidates rq)) r)) with (Some r).
  rewrite Horder, Ht. by rewrite bool_decide_true.
Qed.
