(* ===== verification/EvidenceDemo.v ===== *)
(** * A small evidence service

    A fixture provider in the plane, the delta machine of [DeltaDemo] over its
    vectors, and a service over both: one request before and after an event is
    committed.  The witnesses of [EvidenceTheorems] and [Ann] use it. *)

From Stdlib Require Import SpecFloat Ascii String.
From stdpp Require Import base list strings gmap pretty sorting relations.
From S2P Require Import Prelude Bytes Float64 SixDigits PyJson Facts TextMatch Oracle OracleTheorems OracleProjection Ann Build Delta DeltaProjection DeltaCheckpoint DeltaSystem DeltaTheorems DeltaDemo OracleDemo Publish BuildDemo Evidence EvidenceTheorems.
Open Scope Z_scope.

(** ** The provider *)

#[export] Instance fixture_vectors : Vectors fixture (list float) (list float) :=
  {| representation_id := fx_id; provider_dimension := fixture_dimension; event_vector f e := Some (fixture_event_vector f e);
     pack_vector v := v; unpack_vector b := b; vector_problem _ _ := false; blob_problem _ _ := false |}.

(** A query and an event on the diagonal. *)
Definition diagonal : list float := [fone; fone].
Definition demo_fixture : fixture :=
  match make_fixture "repr" [("before", diagonal)] [(KeyTuple ["luna_pinyin"; "ni hao"; "text"], diagonal)] east north with
  | Ok f => f
  | Err _ => Fixture "" ∅ ∅ [] []
  end.
Example demo_fixture_made : fx_id demo_fixture = "repr" ∧ fx_default_query demo_fixture = east ∧
  fixture_event_vector demo_fixture demo_event = fixture_query_vector demo_fixture "before".
Proof. vm_compute. done. Qed.
Example bars_are_parts : event_vector_key (KeyText "luna|nihao|you") = Ok ["luna"; "nihao"; "you"] ∧
  event_vector_key (KeyText "luna|nihao") = Err (EvidenceError "representation_fault").
Proof. vm_compute. done. Qed.

(** ** The machine *)

Notation fixture_machine := (machine (P := fixture) (V := list float) (B := list float)).
Definition plane_gen : gen := Gen "g0" "e1" "repr" 2 (10, 0) [].
Definition plane_disk := gmap string (ckpt_file (list float)).
Definition plane_m0 : fixture_machine := new_machine "g0" "g0" demo_fixture None ∅ empty_mirror None None false.
Definition plane_start : result delta_exn fixture_machine * plane_disk :=
  start_machine (demo_looks demo_db0) false (∅ : plane_disk) "g0" "g0" demo_fixture (Some plane_gen) None None false.
Definition plane_m1 : fixture_machine := match plane_start.1 with Ok m => m | Err _ => plane_m0 end.
Definition plane_turn := run_cycle demo_weather plane_start.2 plane_m1.
Definition plane_m2 : fixture_machine := plane_turn.1.2.
Definition plane_snapshot : snapshot fixture (list float) :=
  default (Snapshot "" "" "" 0 None [] ∅ ∅ 0 demo_fixture) (m_snapshot plane_m2).

Definition plane_sys0 : sys := Sys demo_db0 plane_m0 (∅ : plane_disk).
Definition plane_sys2 : sys := Sys demo_db1 plane_m1 plane_start.2.
Definition plane_sys3 : sys := Sys demo_db1 plane_m2 plane_turn.2.

Lemma plane_reach2 : reachable sys_init sys_step plane_sys2.
Proof.
  eapply reachable_step; [eapply reachable_step; [apply reachable_init; instantiate (1 := plane_sys0)|]|].
  - split_and!; [apply demo_facts_init|done|by exists "g0", demo_fixture].
  - apply (sys_restart demo_db0 demo_db0 plane_m0 ∅ (demo_looks demo_db0) "g0" "g0" demo_fixture (Some plane_gen) None None false);
      [apply rtc_refl|apply demo_looks_ok| |vm_compute; reflexivity].
    intros g [= <-] _. split; [exists (10, 0); split; [apply demo_clock0|reflexivity]|vm_compute; reflexivity].
  - apply sys_facts, demo_facts_step.
Qed.

Lemma plane_reach3 : reachable sys_init sys_step plane_sys3.
Proof.
  eapply reachable_step; [apply plane_reach2|].
  apply (sys_cycle demo_db1 demo_db1 plane_m1 plane_start.2 demo_weather None); [apply rtc_refl| |vm_compute; reflexivity].
  split; [apply demo_looks_ok| | |]; done.
Qed.

(** ** The service and a request *)

Definition demo_service : service fixture :=
  match make_service demo_params demo_fixture half true BACKEND_ORACLE None None None with
  | Ok sv => sv
  | Err _ => Service demo_params demo_fixture half true BACKEND_ORACLE None None None ""
  end.
Example demo_identity : sv_identity demo_service = "evidence-v1:repr=repr:tau=0:kev=2:H=1:sat=1:gamma=0.5".
Proof. vm_compute. done. Qed.

Definition demo_water : json := JObj [("store_epoch", JStr "e1"); ("hlc_physical_ms", JInt 20); ("hlc_logical", JInt 0)].
Definition demo_trial : trial := Trial true [NFloat quarter; NFloat half].
Definition demo_request (water : json) : request :=
  Request "r1" "p1" "luna_pinyin" "abc" "ni hao" "before" ["text"; "other"] (sv_identity demo_service) water (Some demo_trial).

Definition empty_rows : generation_handle :=
  GenerationHandle (VectorFile 0 2 "") [] (Some BACKEND_ORACLE) (Err OtherException) (Err OtherException).
Definition at_rest (db : facts_db) : direct_look := DirectLook true true (Some db) (Some db) (Some db) (Some db) (Some db).
Definition demo_env : serve_env fixture := ServeEnv true (Ok (Serve plane_snapshot)) (λ _, empty_rows) (at_rest demo_db1).

Definition no_answer : response := Response false [] None None.
Definition demo_answered : response :=
  match serve demo_service (demo_request demo_water) demo_env with Ok rs => rs | Err _ => no_answer end.
Example the_event_counts : (rs_zero demo_answered, rs_point demo_answered, (λ x, fltb fzero x.2) <$> rs_evidence demo_answered) =
  (false, Some (20, 0), [true; false]).
Proof. vm_compute. done. Qed.

(** The evidence of the first candidate outweighs its lower base score. *)
Example the_order_changes :
  (λ c, (tc_outcome c, match tc_payload c with Some (OrderTrace _ _ _ _ shadow final _ _ _ _ _ _ _) => (shadow, final) | _ => ([], []) end))
    <$> trace_of demo_service plane_m2 (demo_request demo_water) (Ok demo_answered) = Some ("ok", ([1; 0], [0; 1]))%nat.
Proof. vm_compute. done. Qed.

(** A request that has seen more than the store is refused. *)
Example ahead_is_refused :
  serve demo_service (demo_request (JObj [("store_epoch", JStr "e1"); ("hlc_physical_ms", JInt 21); ("hlc_logical", JInt 0)])) demo_env =
    Err (EvidenceError "not_caught_up") ∧
  serve demo_service (demo_request (JObj [("store_epoch", JStr "e2"); ("hlc_physical_ms", JInt 1); ("hlc_logical", JInt 0)])) demo_env =
    Err (EvidenceError "fact_identity_mismatch").
Proof. vm_compute. done. Qed.

(** ** The theorems on it *)

Lemma snapshot_evidence_witness : ∃ sn db' w q eng r,
  Serve plane_snapshot = Serve sn ∧ rtc facts_step demo_db1 db' ∧ rs_point demo_answered = Some w ∧
  compute_evidence dictionary (snapshot_vector (se_generation demo_env sn) sn) eng (store_reader db') demo_params (at_point w q) = Ok r ∧
  rs_evidence demo_answered = rs_evidence (respond 2 r).
Proof.
  destruct (snapshot_evidence_is_current demo_service (demo_request demo_water) demo_env None demo_db1 5 [(plane_m1, 0); (plane_m2, 1)]
    (Serve plane_snapshot) demo_answered) as (sn&db'&c&w&q&eng&r&Ha&Hsteps&_&_&Hw&_&_&_&Hr&He&_).
  - exact demo_wf1.
  - repeat constructor; [exists plane_sys2|exists plane_sys3]; (split; [|split; [reflexivity|apply rtc_refl]]);
      [exact plane_reach2|exact plane_reach3].
  - vm_compute. reflexivity.
  - reflexivity.
  - apply (bool_decide_unpack _). vm_compute. reflexivity.
  - vm_compute. reflexivity.
  - exists sn, db', w, q, eng, r. split; [exact Ha|]. split; [exact Hsteps|]. split; [exact Hw|]. split; [exact Hr|exact He].
Defined.

Lemma demo_looks_grow : reads_grow demo_db0 (DirectLook true true (Some demo_db0) (Some demo_db0) (Some demo_db0) (Some demo_db1) (Some demo_db1))
  demo_db0 demo_db1.
Proof. econstructor; try reflexivity; try apply rtc_refl. apply rtc_once, demo_facts_step. Qed.
Lemma demo_looks_rest : reads_grow demo_db1 (at_rest demo_db1) demo_db1 demo_db1.
Proof. econstructor; try reflexivity; apply rtc_refl. Qed.

Lemma exact_is_no_ann : BACKEND_ORACLE ∉ ANN_BACKENDS.
Proof. apply (bool_decide_unpack _). vm_compute. reflexivity. Qed.

Definition direct_answered : response :=
  match serve_direct demo_service (demo_request demo_water) (at_rest demo_db1) with Ok rs => rs | Err _ => no_answer end.

Definition growing : direct_look :=
  DirectLook true true (Some demo_db0) (Some demo_db0) (Some demo_db0) (Some demo_db1) (Some demo_db1).
Example the_fault_is_spurious : serve_direct demo_service (demo_request JNull) growing = Err (EvidenceError "oracle_fault").
Proof. vm_compute. done. Qed.

Lemma paths_agree_witness :
  on_ok seen_answer (serve_via_snapshot demo_service (demo_request demo_water) demo_env) =
  on_ok seen_answer (serve_direct demo_service (demo_request demo_water) (se_direct demo_env)).
Proof.
  apply (snapshot_and_direct_agree demo_service (demo_request demo_water) demo_env demo_db1 (20, 0) plane_snapshot).
  - exact demo_wf1.
  - exact demo_clock1.
  - reflexivity.
  - reflexivity.
  - vm_compute. reflexivity.
  - vm_compute. reflexivity.
  - vm_compute. reflexivity.
  - vm_compute. reflexivity.
  - intros e He. vm_compute in He. apply list_elem_of_singleton in He as ->. vm_compute. reflexivity.
  - vm_compute. reflexivity.
  - reflexivity.
Defined.

Lemma serve_inj (a b : snapshot fixture (list float)) : Ok (E := delta_exn) (Serve a) = Ok (Serve b) → a = b.
Proof. by intros [= ->]. Qed.
Lemma plane_provider : sn_provider plane_snapshot = demo_fixture.
Proof. vm_compute. reflexivity. Qed.
Lemma demo_meets p : meets demo_service demo_env p → p = demo_fixture.
Proof. intros [->|(sn&Hsn&->)]; [vm_compute; reflexivity|]. apply serve_inj in Hsn as <-. exact plane_provider. Qed.

Lemma axes_valid : Forall valid diagonal ∧ Forall valid east ∧ Forall valid north.
Proof. split_and!; repeat constructor. Qed.

Definition demo_unit_vector : list float := Eval vm_compute in fixture_query_vector demo_fixture "before".
Lemma demo_unit_valid : Forall valid demo_unit_vector.
Proof. repeat (apply Forall_cons; split; [vm_compute; repeat split; first [congruence|right; congruence]|]). constructor. Qed.

Lemma fixture_query_valid t : Forall valid (fixture_query_vector demo_fixture t).
Proof.
  assert (fx_query demo_fixture = {["before" := demo_unit_vector]}) as Hq by (vm_compute; reflexivity).
  assert (fx_default_query demo_fixture = east) as Hd by (vm_compute; reflexivity).
  unfold fixture_query_vector. rewrite Hq, Hd. destruct (decide (t = "before")) as [->|Hne].
  - rewrite lookup_singleton_eq. exact demo_unit_valid.
  - rewrite lookup_singleton_ne by done. apply axes_valid.
Qed.

Lemma fixture_event_valid e : Forall valid (fixture_event_vector demo_fixture e).
Proof.
  assert (fx_event demo_fixture = {[["luna_pinyin"; "ni hao"; "text"] := demo_unit_vector]}) as Hq by (vm_compute; reflexivity).
  assert (fx_default_event demo_fixture = north) as Hd by (vm_compute; reflexivity).
  unfold fixture_event_vector. rewrite Hq, Hd.
  destruct (decide ([ev_schema e; ev_input e; ev_text e] = ["luna_pinyin"; "ni hao"; "text"])) as [Heq|Hne].
  - rewrite Heq, lookup_singleton_eq. exact demo_unit_valid.
  - rewrite lookup_singleton_ne by done. apply axes_valid.
Qed.

Lemma fixture_query_is (f : fixture) t v : query_vector f t = Ok v → v = fixture_query_vector f t.
Proof. by intros [= ->]. Qed.
Lemma fixture_candidate_is (f : fixture) t s v : query_vector_for_candidate f t s = Ok v → v = fixture_query_vector f t.
Proof. by intros [= ->]. Qed.
Lemma fixture_event_is (f : fixture) e v : event_vector f e = Some v → v = fixture_event_vector f e.
Proof. by intros [= ->]. Qed.
Lemma plane_source : sn_source plane_snapshot = {["ev1" := true]}.
Proof. vm_compute. reflexivity. Qed.
Lemma plane_vectors : sn_vectors plane_snapshot = {["ev1" := demo_unit_vector]}.
Proof. vm_compute. reflexivity. Qed.

Lemma demo_sound_service : sound_service demo_service demo_env.
Proof.
  assert (sv_params demo_service = demo_params) as Hp by (vm_compute; reflexivity).
  split; rewrite ?Hp.
  - vm_compute. reflexivity.
  - split_and!; vm_compute; reflexivity.
  - apply demo_exp2_unit.
  - intros p t v ->%demo_meets ->%fixture_query_is. apply fixture_query_valid.
  - intros p t s v ->%demo_meets ->%fixture_candidate_is. apply fixture_query_valid.
  - intros p e v ->%demo_meets ->%fixture_event_is. apply fixture_event_valid.
  - intros sn id v Hsn. apply serve_inj in Hsn as <-. unfold snapshot_vector. cbn [demo_env se_generation empty_rows gh_vectors gh_ids].
    rewrite plane_source, plane_vectors.
    destruct (decide (id = "ev1")) as [->|Hne].
    + rewrite !lookup_singleton_eq. intros [= <-]. exact demo_unit_valid.
    + by rewrite !lookup_singleton_ne by done.
  - intros sn g [?|?]; discriminate.
Qed.

Lemma answers_bounded_witness : length (rs_evidence demo_answered) = 2%nat ∧
  (∀ i x, rs_evidence demo_answered !! i = Some x → x.1 = i ∧ in_unit x.2).
Proof.
  destruct (answers_are_bounded demo_service (demo_request demo_water) demo_env demo_answered) as (Hlen&Hall&_).
  - exact demo_sound_service.
  - exact exact_is_no_ann.
  - vm_compute. discriminate.
  - vm_compute. discriminate.
  - vm_compute. reflexivity.
  - split; [exact Hlen|exact Hall].
Defined.

Definition no_events : oracle_result := OracleResult (20, 0) 0 [] [(fzero, fzero); (fzero, fzero)] fzero ("", "", "").
Lemma zero_evidence_witness : ∃ order, emit_orders (sv_gamma demo_service) (demo_request JNull) (Some no_events) = Some (order, order).
Proof.
  apply (zero_evidence_keeps_order demo_service plane_m2 (demo_request JNull) demo_trial no_events [quarter; half]); vm_compute; reflexivity.
Defined.

Definition demo_id : string := sv_identity demo_service.
Lemma identity_binds_witness :
  format_identity_double half = format_identity_double half ∧ k_evidence demo_params = 2.
Proof.
  destruct (identity_binds_configuration "repr" demo_params half None None "repr" demo_params half None None demo_id)
    as (_&Hk&_&_&_&_&_&Hg); [vm_compute; reflexivity|vm_compute; reflexivity|]. split; [exact Hg|reflexivity].
Defined.

(** 0.1, whose six digits are read back as another double than [0.1 + 2 ^ -55]. *)
Definition tenth : float := S754_finite false 7205759403792794 (-56).
Lemma identity_double_witness : ∃ q, quantize_identity_double tenth = Ok q ∧ format_identity_double q = Ok "0.1".
Proof.
  destruct (identity_double_is_formatted_once tenth) as (q&Hq&_&_&Hf).
  - apply (bool_decide_unpack _). vm_compute. reflexivity.
  - exists q. split; [exact Hq|]. rewrite Hf. vm_compute. reflexivity.
Defined.

(** ** Approximate retrieval *)

Definition demo_brute : brute_force :=
  match make_brute_force ["e1"; "e2"] [[fone; fzero]; [fone; fone]] None with Ok x => x | Err _ => BruteForce [] [] 0 end.
Lemma ann_witness : ∃ r', compute_ann_evidence demo_dict demo_vector (projection_reader demo_memory) demo_params demo_query
  (brute_force_index demo_brute) 32 None ["e3"] = Ok r' ∧ r' = demo_result.
Proof.
  destruct (ann_is_exact_on_hits demo_dict demo_vector (projection_reader demo_memory) demo_params demo_query (brute_force_index demo_brute)
    32 None ["e3"] demo_result demo_memory (list_to_set ["e1"; "e2"])) as (r'&cs&Hr&_&_&_&_&_&_&_&_&Hall).
  - lia.
  - reflexivity.
  - apply (bool_decide_unpack _). vm_compute. reflexivity.
  - vm_compute. reflexivity.
  - vm_compute. reflexivity.
  - exists r'. split; [exact Hr|]. apply Hall. intros e He. assert (ev_id e ∈ ["e1"; "e2"; "e3"]) as Hid.
    { unfold same_key in He. apply sort_by_elem, list_elem_of_filter in He as [_ He].
      change (ev_id e ∈ ev_id <$> demo_memory). by apply list_elem_of_fmap_2. }
    revert Hid. generalize (ev_id e). clear. intros id. rewrite elem_of_list_to_set, !elem_of_cons. tauto.
Defined.
