(* ===== verification/Adapter.v ===== *)
(** * The adapter a health report names: [src/daemon/personal_lora_live.py]

    [identify_adapter] digests the two files of an adapter directory, and
    [adapter_digest_for_health] of the server reports the digest when none has been
    pinned yet.  What the file system answers is a parameter: the kinds of the
    directory and of its files, their digests and sizes, and how reading the
    configuration ends. *)

From Stdlib Require Import String.
From stdpp Require Import base list strings option.
From S2P Require Import Prelude PyJson.
Open Scope Z_scope.

(** [IdentityError], and every other exception: the [OSError] of a file that
    cannot be read, the [UnicodeDecodeError] of a configuration that is no text. *)
Inductive adapter_exn := AdapterIdentity | AdapterOther.

(** A file: what [isfile] and [islink] say, its SHA-256 unless it cannot be read,
    and its size unless it cannot be asked for. *)
Record adapter_file := AdapterFile {
  af_isfile : bool; af_islink : bool; af_sha256 : option string; af_bytes : option Z }.

(** How [open] and [json.load] of the configuration end: an [OSError], a
    [JSONDecodeError], any other exception, or a value. *)
Inductive config_read := ConfigUnreadable | ConfigNotJson | ConfigRaises | ConfigValue (v : json).

(** A directory; [abspath] fails when there is no working directory. *)
Record adapter_dir := AdapterDir {
  ad_abspath : option string; ad_isdir : bool; ad_islink : bool;
  ad_weights : adapter_file; ad_config : adapter_file; ad_read : config_read }.

Record adapter_identity := AdapterIdentityOf {
  ai_path : string; ai_sha256 : string; ai_bytes : Z; ai_config_sha256 : string;
  ai_fine_tune_type : json; ai_base_model : json }.

Definition or_other {A} (x : option A) : result adapter_exn A :=
  match x with Some a => Ok a | None => Err AdapterOther end.

(** [_regular_file], and then the digest and the size. *)
Definition digest_file (f : adapter_file) : result adapter_exn (string * Z) :=
  if negb (af_isfile f) || af_islink f then Err AdapterIdentity
  else digest ← or_other (af_sha256 f); bytes ← or_other (af_bytes f); Ok (digest, bytes).

Definition identify_adapter (d : adapter_dir) : result adapter_exn adapter_identity :=
  resolved ← or_other (ad_abspath d);
  if negb (ad_isdir d) || ad_islink d then Err AdapterIdentity
  else
    weights ← digest_file (ad_weights d);
    config ← digest_file (ad_config d);
    match ad_read d with
    | ConfigUnreadable | ConfigNotJson => Err AdapterIdentity
    | ConfigRaises => Err AdapterOther
    | ConfigValue (JObj m) =>
        Ok (AdapterIdentityOf resolved weights.1 weights.2 config.1
              (obj_get_or_null "fine_tune_type" m) (obj_get_or_null "base_model_composite_sha256" m))
    | ConfigValue _ => Err AdapterIdentity
    end.

(** The digest that is pinned, or else that of the files at the path, if any. *)
Definition adapter_digest_for_health (pinned : option string) (path : string) (d : adapter_dir)
    : result adapter_exn (option string) :=
  if negb (String.eqb (default "" pinned) "") then Ok pinned
  else if String.eqb path "" then Ok None
  else match identify_adapter d with
       | Ok a => Ok (Some (ai_sha256 a))
       | Err AdapterIdentity => Ok None
       | Err AdapterOther => Err AdapterOther
       end.

(** It raises only when no digest is pinned, a path is configured, and the
    directory raises something other than [IdentityError]. *)
Lemma adapter_digest_raises pinned path d e :
  adapter_digest_for_health pinned path d = Err e →
  default "" pinned = "" ∧ path ≠ "" ∧ identify_adapter d = Err AdapterOther.
Proof.
  unfold adapter_digest_for_health. destruct (String.eqb_spec (default "" pinned) ""); [|done].
  destruct (String.eqb_spec path ""); [done|]. by destruct (identify_adapter d) as [|[]].
Qed.

(** What makes [identify_adapter] raise something else: the working directory,
    a regular file that cannot be read or sized, or a configuration that is no
    text. *)
Definition adapter_unreadable (d : adapter_dir) : Prop :=
  ad_abspath d = None ∨
  (∃ f, (f = ad_weights d ∨ f = ad_config d) ∧ af_isfile f = true ∧ af_islink f = false ∧
        (af_sha256 f = None ∨ af_bytes f = None)) ∨
  ad_read d = ConfigRaises.

Lemma digest_file_raises f : digest_file f = Err AdapterOther →
  af_isfile f = true ∧ af_islink f = false ∧ (af_sha256 f = None ∨ af_bytes f = None).
Proof.
  unfold digest_file. destruct (af_isfile f), (af_islink f); try done. simpl.
  destruct (af_sha256 f); simpl; [|by auto]. destruct (af_bytes f); [done|by auto].
Qed.

Lemma identify_adapter_raises d : identify_adapter d = Err AdapterOther → adapter_unreadable d.
Proof.
  unfold identify_adapter, adapter_unreadable. destruct (ad_abspath d); simpl; [|by left].
  destruct (negb (ad_isdir d) || ad_islink d); [done|].
  destruct (digest_file (ad_weights d)) as [w|[]] eqn:Hw; simpl; [|done|].
  - destruct (digest_file (ad_config d)) as [c|[]] eqn:Hc; simpl; [|done|].
    + destruct (ad_read d) as [| | |v]; try done; [by auto|by destruct v].
    + intros _. right. left. exists (ad_config d). split; [by right|by apply digest_file_raises].
  - intros _. right. left. exists (ad_weights d). split; [by left|by apply digest_file_raises].
Qed.
