(* ===== verification/Server.v ===== *)
(** * The scoring server: [src/daemon/server.py]

    Policy identities, the attribution of tokens to candidates, the reduction of
    log probabilities to scores, the framing and validation of requests, and the
    handlers with the leases of the maintenance coordinator.  A handler is a
    function of what its environment answers; it returns its reply or exception
    with the list of things it did, in order.  The tokenizer, the model and the
    JSON decoder are parameters. *)

From Stdlib Require Import SpecFloat Ascii String.
From stdpp Require Import base list strings gmap.
From S2P Require Import Prelude Bytes Float64 PyJson Facts TextMatch Oracle Coordinator Derived Build Delta Evidence Adapter.
Open Scope Z_scope.

(** ** Policy identities *)

Definition SCORING_STRATEGY_MEAN_TOKEN : string := "mean_token".
Definition SCORING_STRATEGY_LEGACY_SUM : string := "legacy_sum".
Definition MEAN_TOKEN_POLICY_ID : string := "mean-token-lm-v1".
Definition LEGACY_SUM_POLICY_ID : string := "first-stage-base-v1".
Definition policy_id_of (strategy : string) : option string :=
  if String.eqb strategy SCORING_STRATEGY_MEAN_TOKEN then Some MEAN_TOKEN_POLICY_ID
  else if String.eqb strategy SCORING_STRATEGY_LEGACY_SUM then Some LEGACY_SUM_POLICY_ID else None.

Definition FROZEN_BASELINE_PREFIX : string := "frozen-baseline-v1:".
Definition FROZEN_REQUIRED_KEYS : list string := ["rule"; "model"; "tokenizer"].
Definition FROZEN_KNOWN_KEYS : list string :=
  ["rule"; "model"; "tokenizer"; "norm"; "fail"; "squirrel"; "plugin"; "alpha"; "beta_sys"; "beta_usr"].

(** [s[len(p):]] when [s.startswith(p)]. *)
Fixpoint after_prefix (p s : string) : option string :=
  match p, s with
  | EmptyString, s => Some s
  | String c p, String d s => if Ascii.eqb c d then after_prefix p s else None
  | _, _ => None
  end.

(** The loop over the parts of the payload. *)
Fixpoint frozen_components (parts : list string) (m : gmap string string) : option (gmap string string) :=
  match parts with
  | [] => Some m
  | part :: parts =>
      match partition "="%char part with
      | None => None
      | Some (key, value) =>
          if negb (bool_decide (key ∈ FROZEN_KNOWN_KEYS)) || String.eqb value "" || bool_decide (is_Some (m !! key)) then None
          else frozen_components parts (<[key := value]> m)
      end
  end.

Definition parse_frozen_baseline_id (declared : string) : option (gmap string string) :=
  payload ← after_prefix FROZEN_BASELINE_PREFIX declared;
  if String.eqb payload "" then None
  else
    components ← frozen_components (split_on ":"%char payload) ∅;
    if forallb (λ k, bool_decide (is_Some (components !! k))) FROZEN_REQUIRED_KEYS then Some components else None.

(** [daemon_model_identity]; [fallback] is [MODEL_PATH]. *)
Definition daemon_model_identity (model_path fallback : string) : string :=
  basename (normpath (if String.eqb model_path "" then fallback else model_path)).

Definition accepted_by_strategy (declared strategy model_identity : string) : bool :=
  match policy_id_of strategy with
  | None => false
  | Some accepted =>
      if String.eqb declared accepted then true
      else if negb (String.eqb strategy SCORING_STRATEGY_MEAN_TOKEN) then false
      else
        match parse_frozen_baseline_id declared with
        | None => false
        | Some frozen =>
            bool_decide (frozen !! "rule" = Some MEAN_TOKEN_POLICY_ID) &&
            bool_decide (frozen !! "model" = Some model_identity) &&
            bool_decide (frozen !! "tokenizer" = Some model_identity)
        end
  end.

(** ** Scoring *)

Definition CONTEXT_WINDOW : Z := 64.
Definition TAIL_CHARS : nat := 4.

(** What scoring raises, as [handle_request] tells it apart. *)
Inductive score_exn := ScoreTimeout | IdentityError | TokenAttributionError | NonFiniteTokenScoreError | ScoreOther.

(** The tokenizer of the model. *)
Record tokenizer := Tokenizer {
  tk_encode : string → list Z; tk_decode : list Z → string; tk_eos : option Z; tk_pad : option Z }.

(** The log probabilities of the model: of a token after a prefix that is not
    empty, and of a token after the given position of a padded row. *)
Record forward := Forward {
  fw_prefix : list Z → Z → float; fw_suffix : list Z → list (list Z) → nat → nat → Z → float }.

(** [context[-window:]] *)
Definition window_context (context : string) (window : Z) : string :=
  let cs := chars context in
  concat_str (if 0 <? window then drop (length cs - Z.to_nat window) cs else drop (Z.to_nat (- window)) cs).

(** The first [k] whose tokens decode to the tail. *)
Fixpoint boundary (tk : tokenizer) (tail : string) (ids : list Z) (ks : list nat) : option nat :=
  match ks with
  | [] => None
  | k :: ks => if String.eqb (tk_decode tk (take k ids)) tail then Some k else boundary tk tail ids ks
  end.

(** Suffix ids, first target position and target count. *)
Record token_plan := Plan { pl_ids : list Z; pl_start : nat; pl_count : nat }.

Definition candidate_scoring_plan (tk : tokenizer) (tail candidate : string) : result score_exn token_plan :=
  let ids := tk_encode tk (tail +:+ candidate) in
  if String.eqb candidate "" then Err TokenAttributionError
  else if bool_decide (ids = []) then Err TokenAttributionError
  else if negb (String.eqb (tk_decode tk ids) (tail +:+ candidate)) then Err TokenAttributionError
  else if String.eqb tail "" then
    if negb (String.eqb (tk_decode tk ids) candidate) then Err TokenAttributionError
    else Ok (Plan ids 0 (length ids))
  else
    match boundary tk tail ids (seq 1 (length ids)) with
    | None => Err TokenAttributionError
    | Some k =>
        if (k =? length ids)%nat then Err TokenAttributionError
        else if negb (String.eqb (tk_decode tk (drop k ids)) candidate) then Err TokenAttributionError
        else Ok (Plan ids k (length ids - k))
    end.

(** The log probabilities of the target positions, added in order. *)
Fixpoint add_logps (logp : nat → result score_exn float) (positions : list nat) (total : float) : result score_exn float :=
  match positions with
  | [] => Ok total
  | p :: positions =>
      x ← logp p;
      if is_finite x then add_logps logp positions (fadd total x) else Err NonFiniteTokenScoreError
  end.

Definition target_logp (prefix : option (Z → float)) (lp : nat → Z → float) (ids : list Z) (position : nat) : result score_exn float :=
  match ids !! position with
  | None => Err TokenAttributionError
  | Some token =>
      match position, prefix with
      | O, None => Err TokenAttributionError
      | O, Some f => Ok (f token)
      | S before, _ => Ok (lp before token)
      end
  end.

(** One candidate of [mean_token_scores]. *)
Definition mean_score (prefix : option (Z → float)) (lp : nat → Z → float) (p : token_plan) : result score_exn float :=
  if (pl_count p =? 0)%nat then Err TokenAttributionError
  else
    total ← add_logps (target_logp prefix lp (pl_ids p)) (seq (pl_start p) (pl_count p)) fzero;
    let mean := fdiv total (float_of_Z (Z.of_nat (pl_count p))) in
    if is_finite mean then Ok mean else Err NonFiniteTokenScoreError.

Definition mean_token_scores (prefix : option (Z → float)) (lp : nat → nat → Z → float) (plans : list token_plan)
    : result score_exn (list float) :=
  mapM (λ bp : nat * token_plan, mean_score prefix (lp bp.1) bp.2) (imap pair plans).

(** One candidate of [legacy_sum_scores]: every token, the first one only after a
    prefix. *)
Definition legacy_score (prefix : option (Z → float)) (lp : nat → Z → float) (ids : list Z) : result score_exn float :=
  let first := match prefix with Some _ => seq 0 (length ids) | None => seq 1 (length ids - 1) end in
  total ← add_logps (target_logp prefix lp ids) first fzero;
  if is_finite total then Ok total else Err NonFiniteTokenScoreError.

Definition legacy_sum_scores (prefix : option (Z → float)) (lp : nat → nat → Z → float) (ids_list : list (list Z))
    : result score_exn (list float) :=
  mapM (λ bp : nat * list Z, legacy_score prefix (lp bp.1) bp.2) (imap pair ids_list).

(** [t + [pad_id] * (max_tail - len(t))]; the array constructor refuses [None]. *)
Definition padded_row (pad : option Z) (width : nat) (ids : list Z) : result score_exn (list Z) :=
  if (length ids =? width)%nat then Ok ids
  else match pad with Some p => Ok (ids ++ replicate (width - length ids) p) | None => Err ScoreOther end.

Definition pad_of (tk : tokenizer) : option Z := match tk_pad tk with Some p => Some p | None => tk_eos tk end.
Definition anchor_of (tk : tokenizer) : option Z := match tk_eos tk with Some e => Some e | None => pad_of tk end.

(** The context before the tail and the tail, of the windowed context. *)
Definition split_tail (context : string) : string * string :=
  let cs := chars context in
  if (TAIL_CHARS <? length cs)%nat
  then (concat_str (take (length cs - TAIL_CHARS) cs), concat_str (drop (length cs - TAIL_CHARS) cs))
  else ("", context).

(** [ModelState.score]; [loads]: what [load] raises. *)
Definition model_score (tk : tokenizer) (fw : forward) (loads : option score_exn) (strategy : string) (window : Z)
    (context : string) (candidates : list string) : result score_exn (list float) :=
  _ ← match loads with Some e => Err e | None => Ok tt end;
  if bool_decide (candidates = []) then Ok []
  else
    let '(prefix_text, tail) := split_tail (window_context context window) in
    let encoded := if String.eqb prefix_text "" then [] else tk_encode tk prefix_text in
    let mean := String.eqb strategy SCORING_STRATEGY_MEAN_TOKEN in
    prefix_ids ← (if mean then
                    match anchor_of tk with
                    | None => Err TokenAttributionError
                    | Some a => Ok (if bool_decide (encoded = []) && String.eqb tail "" then [a] else encoded)
                    end
                  else Ok encoded);
    let prefix := if bool_decide (prefix_ids = []) then None else Some (fw_prefix fw prefix_ids) in
    plans ← (if mean then mapM (candidate_scoring_plan tk tail) candidates
             else Ok ((λ c, Plan (tk_encode tk (tail +:+ c)) 0 0) <$> candidates));
    let rows := pl_ids <$> plans in
    padded ← mapM (padded_row (pad_of tk) (foldr max 0%nat (length <$> rows))) rows;
    let lp := fw_suffix fw prefix_ids padded in
    if mean then mean_token_scores prefix lp plans else legacy_sum_scores prefix lp rows.

(** ** Replies *)

Definition PROTOCOL_VERSION : Z := 2.
Definition MAX_REQUEST_BYTES : nat := Z.to_nat (64 * 1024).
Definition EVIDENCE_KIND : string := "evidence".

Definition REQUEST_FIELDS : list string :=
  ["version"; "request_id"; "plan_identity"; "baseline_policy_id"; "context"; "candidates"].
Definition EVIDENCE_FIELDS : list string :=
  ["version"; "kind"; "request_id"; "plan_identity"; "schema_id"; "category"; "canonical_segment_input"; "preceding_text";
   "candidates"; "config_identity"; "fact_high_water"].
Definition EVIDENCE_OPTIONAL_FIELDS : list string := ["trial"].
Definition TRIAL_FIELDS : list string := ["actionable"; "base_scores"].

(** The codes [protocol_error] has a message for. *)
Definition ERROR_CODES : list string :=
  ["invalid_json"; "invalid_request"; "inference_failed"; "identity_mismatch"; "invalid_score_result"; "score_count_mismatch";
   "non_finite_score"; "token_attribution_failed"; "policy_mismatch"; "server_error"; "maintenance_in_progress";
   "evidence_unavailable"; "config_identity_mismatch"; "active_identity_refused"; "fact_identity_mismatch"; "not_caught_up";
   "fact_store_fault"; "oracle_fault"; "accelerate_fault"; "mlx_fault"; "representation_fault"].
Definition _EVIDENCE_FAULT_CODES : list string :=
  ["evidence_unavailable"; "config_identity_mismatch"; "active_identity_refused"; "fact_identity_mismatch"; "not_caught_up";
   "fact_store_fault"; "oracle_fault"; "accelerate_fault"; "mlx_fault"; "representation_fault"; "invalid_request"].

(** What [handle_health] reports of the serving state and of the coordinator. *)
Record health_report := HealthReport {
  hr_loaded : bool; hr_strategy : string; hr_policy : option string; hr_model : string; hr_window : Z;
  hr_adapter : option string; hr_compatibility : option json;
  hr_maintenance : option (coord_state * nat * nat * option string * option string) }.

(** A reply; the time and the texts of an error are left out. *)
Inductive reply :=
| ErrorReply (code phase : string) (retryable : bool) (ids : option (string * string))
| HealthReply (request_id : string) (report : health_report)
| EvidenceReply (request_id plan_identity config : string) (water : json) (r : response)
| ScoreReply (request_id plan_identity : string) (scores : list json).

(** An exception that leaves a handler. *)
Inductive handler_exn := KeyError | HandlerException.

Definition protocol_error (code phase : string) (retryable : bool) (ids : option (string * string)) : result handler_exn reply :=
  if bool_decide (code ∈ ERROR_CODES) then Ok (ErrorReply code phase retryable ids) else Err KeyError.

(** ** What a handler does *)

Inductive server_event :=
| EBegin (granted : bool)
| EServe
| EScore
| ESink
| EComplete
| EFault (anonymous : bool) (code phase : string)
| ESend (r : reply) (ok : bool).

Notation handled := (list server_event * result handler_exn reply)%type.

(** [json.JSONDecoder.raw_decode] before the hook that rejects duplicate keys: the
    value with the pairs of its objects in order, and where it ends; a value that
    nests too deep raises [RecursionError]. *)
Inductive decode_exn := NotJson | TooDeep.
Class JsonDecoder := { raw_decode : string → result decode_exn (json * nat) }.

(** [reject_duplicate_object_fields] at every object. *)
Fixpoint no_duplicates (v : json) : bool :=
  match v with
  | JList l => forallb no_duplicates l
  | JObj m => bool_decide (NoDup m.*1) && forallb (λ kv, no_duplicates kv.2) m
  | _ => true
  end.

(** [None]: the request is not JSON. *)
Definition decode_request `{JsonDecoder} (data : string) : result handler_exn (option json) :=
  match raw_decode data with
  | Ok (v, n) => Ok (if no_duplicates v && (n =? String.length data)%nat then Some v else None)
  | Err NotJson => Ok None
  | Err TooDeep => Err HandlerException
  end.

(** ** Validation *)

Definition str_field (k : string) (m : list (string * json)) : option string :=
  match obj_get k m with Some (JStr s) => Some s | _ => None end.
Definition nonempty_field (k : string) (m : list (string * json)) : option string :=
  s ← str_field k m; if String.eqb s "" then None else Some s.
(** A list of non-empty strings. *)
Definition candidates_field (m : list (string * json)) : option (list string) :=
  match obj_get "candidates" m with
  | Some (JList l) => mapM (λ v, match v with JStr s => if String.eqb s "" then None else Some s | _ => None end) l
  | _ => None
  end.
Definition version_ok (m : list (string * json)) : bool :=
  match obj_get "version" m with Some (JInt v) => v =? PROTOCOL_VERSION | _ => false end.
Definition kind_is (k : string) (m : list (string * json)) : bool :=
  match obj_get "kind" m with Some (JStr s) => String.eqb s k | _ => false end.

(** A validated evidence request without its trial. *)
Definition evidence_request (v : json) : option request :=
  match v with
  | JObj m =>
      if forallb (λ k, bool_decide (k ∈ obj_keys m)) EVIDENCE_FIELDS &&
         forallb (λ k, bool_decide (k ∈ EVIDENCE_FIELDS ++ EVIDENCE_OPTIONAL_FIELDS)) (obj_keys m) &&
         version_ok m && kind_is EVIDENCE_KIND m
      then
        id ← nonempty_field "request_id" m;
        plan ← nonempty_field "plan_identity" m;
        schema ← nonempty_field "schema_id" m;
        category ← nonempty_field "category" m;
        input ← str_field "canonical_segment_input" m;
        preceding ← str_field "preceding_text" m;
        candidates ← candidates_field m;
        config ← nonempty_field "config_identity" m;
        if (64 <? length (chars preceding))%nat || bool_decide (candidates = []) then None
        else Some (Request id plan schema category input preceding candidates config (obj_get_or_null "fact_high_water" m) None)
      else None
  | _ => None
  end.

(** [isinstance(v, (int, float))]; bools are ints. *)
Definition number_of (v : json) : option num :=
  match v with JInt z => Some (NInt z) | JBool b => Some (NInt (Z.b2z b)) | JFloat f => Some (NFloat f) | _ => None end.
(** [math.isfinite]; [None]: [OverflowError]. *)
Definition isfinite (x : num) : option bool :=
  match x with
  | NInt z => if is_inf (float_of_Z z) then None else Some true
  | NFloat f => Some (is_finite f)
  end.

(** The envelope is malformed, or its validation raises. *)
Inductive trial_fault := TrialMalformed | TrialRaises.

Fixpoint base_scores (l : list json) : result trial_fault (list num) :=
  match l with
  | [] => Ok []
  | v :: l =>
      match number_of v with
      | None => Err TrialMalformed
      | Some x =>
          match isfinite x with
          | None => Err TrialRaises
          | Some false => Err TrialMalformed
          | Some true => xs ← base_scores l; Ok (x :: xs)
          end
      end
  end.

Definition trial_of (v : json) (n : nat) : result trial_fault (option trial) :=
  match match v with JObj m => obj_get_or_null "trial" m | _ => JNull end with
  | JNull => Ok None
  | JObj t =>
      match same_key_set t TRIAL_FIELDS, obj_get "actionable" t, obj_get "base_scores" t with
      | true, Some (JBool b), Some (JList l) =>
          if negb (length l =? n)%nat then Err TrialMalformed else xs ← base_scores l; Ok (Some (Trial b xs))
      | _, _, _ => Err TrialMalformed
      end
  | _ => Err TrialMalformed
  end.

Definition with_trial (t : option trial) (rq : request) : request :=
  Request (rq_id rq) (rq_plan rq) (rq_schema rq) (rq_category rq) (rq_input rq) (rq_preceding rq) (rq_candidates rq)
    (rq_config rq) (rq_water rq) t.

(** A validated scoring request. *)
Record scoring_request := ScoringRequest {
  sq_id : string; sq_plan : string; sq_policy : string; sq_context : string; sq_candidates : list string }.
Definition scoring_request_of (v : json) : option scoring_request :=
  match v with
  | JObj m =>
      if same_key_set m REQUEST_FIELDS && version_ok m
      then
        id ← nonempty_field "request_id" m;
        plan ← nonempty_field "plan_identity" m;
        policy ← nonempty_field "baseline_policy_id" m;
        context ← str_field "context" m;
        candidates ← candidates_field m;
        Some (ScoringRequest id plan policy context candidates)
      else None
  | _ => None
  end.

(** [isinstance(score, (int, float))] without the bools. *)
Definition is_score (v : json) : bool := match v with JInt _ | JFloat _ => true | _ => false end.
Definition finite_score (v : json) : bool :=
  match number_of v with Some x => default false (isfinite x) | None => false end.

(** ** The handlers *)

(** The state of the daemon that requests read; [st_score] is [ModelState.score],
    [st_default_path] is [MODEL_PATH], [st_traces]: whether there is a trace
    store, [st_adapter_digest] the pinned digest of the adapter. *)
Record server_state (P : Type) := ServerState {
  st_strategy : string; st_model_path : string; st_default_path : string; st_loaded : bool; st_window : Z;
  st_score : string → list string → result score_exn json; st_service : option (service P); st_traces : bool;
  st_adapter_digest : option string; st_adapter_path : string; st_compatibility : option json }.
Arguments ServerState {P}.
Arguments st_strategy {P}. Arguments st_model_path {P}. Arguments st_default_path {P}. Arguments st_loaded {P}.
Arguments st_window {P}. Arguments st_score {P}. Arguments st_service {P}. Arguments st_traces {P}.
Arguments st_adapter_digest {P}. Arguments st_adapter_path {P}. Arguments st_compatibility {P}.

(** What a handler meets: the coordinator, whether its sink raises, the delta
    machine when the identity is compared, what the service reads afterwards, and
    the directory at the path of the adapter. *)
Record handler_env (P B : Type) := HandlerEnv {
  he_coordinator : option coord; he_sink : option bool;
  he_machine : machine (P := P) (V := list float) (B := B); he_serve : serve_env P; he_adapter : adapter_dir }.
Arguments HandlerEnv {P B}.
Arguments he_coordinator {P B}. Arguments he_sink {P B}. Arguments he_machine {P B}. Arguments he_serve {P B}. Arguments he_adapter {P B}.

(** [finish] *)
Definition finish_request (held : bool) (sink : option bool) (r : result handler_exn reply) : handled :=
  match r with
  | Err e => ([], Err e)
  | Ok rep =>
      if held then
        match sink with
        | Some false => ([ESink], Ok rep)
        | Some true => ([ESink; EComplete], Err HandlerException)
        | None => ([EComplete], Err HandlerException)
        end
      else ([], Ok rep)
  end.

(** The lease of a request around the rest of its handler. *)
Definition under_lease (c : option coord) (sink : option bool) (ids : option (string * string)) (body : bool → handled) : handled :=
  match c with
  | None => body false
  | Some c =>
      match begin_request c with
      | None => ([EBegin false], protocol_error "maintenance_in_progress" "maintenance" true ids)
      | Some _ =>
          match sink with
          | None => ([EBegin true; EComplete], protocol_error "server_error" "transport" true ids)
          | Some _ => let '(evs, r) := body true in (EBegin true :: evs, r)
          end
      end
  end.

(** The reply to what [score] returned or raised. *)
Definition score_reply (id plan : string) (n : nat) (r : result score_exn json) : result handler_exn reply :=
  let ids := Some (id, plan) in
  match r with
  | Err ScoreTimeout => protocol_error "inference_failed" "score" true ids
  | Err IdentityError => protocol_error "identity_mismatch" "score" false ids
  | Err TokenAttributionError => protocol_error "token_attribution_failed" "score" false ids
  | Err NonFiniteTokenScoreError => protocol_error "non_finite_score" "score" false ids
  | Err ScoreOther => protocol_error "inference_failed" "score" false ids
  | Ok (JList scores) =>
      if negb (forallb is_score scores) then protocol_error "invalid_score_result" "validate" false ids
      else if negb (length scores =? n)%nat then protocol_error "score_count_mismatch" "validate" false ids
      else if negb (forallb finite_score scores) then protocol_error "non_finite_score" "validate" false ids
      else Ok (ScoreReply id plan scores)
  | Ok _ => protocol_error "invalid_score_result" "validate" false ids
  end.

(** The reply to what the service returned or raised. *)
Definition evidence_reply (rq : request) (r : result serve_exn response) : result handler_exn reply :=
  let ids := Some (rq_id rq, rq_plan rq) in
  match r with
  | Ok rs => Ok (EvidenceReply (rq_id rq) (rq_plan rq) (rq_config rq) (rq_water rq) rs)
  | Err (EvidenceError code) =>
      let code := if bool_decide (code ∈ _EVIDENCE_FAULT_CODES) then code else "oracle_fault" in
      protocol_error code "evidence" (String.eqb code "not_caught_up") ids
  | Err OtherException => protocol_error "oracle_fault" "evidence" false ids
  end.

Section handlers.
Context {P B : Type} `{Vectors P (list float) B} `{QuerySeam P} `{IntText} `{Unicode} `{Libm} `{Dictionary} `{JsonDecoder}.
Local Notation server_state := (server_state P).
Local Notation handler_env := (handler_env P B).

Definition model_identity (st : server_state) : string := daemon_model_identity (st_model_path st) (st_default_path st).

(** [len(req.get("candidates") or [])] does not raise. *)
Definition countable (v : json) : bool :=
  match v with
  | JObj m =>
      match obj_get_or_null "candidates" m with
      | JInt z => z =? 0
      | JBool b => negb b
      | JFloat f => feqb f fzero
      | _ => true
      end
  | _ => true
  end.

(** [_record_evidence_fault] of a parsed request, or of none. *)
Definition fault_trace (st : server_state) (req : option json) (code phase : string) : list server_event :=
  if st_traces st && match req with Some v => countable v | None => true end
  then [EFault (match req with Some (JObj _) => false | _ => true end) code phase] else [].

Definition handle_health (st : server_state) (env : handler_env) (id : string) : result handler_exn reply :=
  match adapter_digest_for_health (st_adapter_digest st) (st_adapter_path st) (he_adapter env) with
  | Err _ => Err HandlerException
  | Ok digest =>
      Ok (HealthReply id (HealthReport (st_loaded st) (st_strategy st) (policy_id_of (st_strategy st)) (model_identity st)
        (st_window st) digest (st_compatibility st)
        ((λ c, (m_state c, size (m_handles c), m_opening c, m_active_epoch c, m_target_epoch c)) <$> he_coordinator env)))
  end.

(** [handle_evidence_request] after the decoding. *)
Definition handle_evidence (st : server_state) (env : handler_env) (v : json) : handled :=
  match evidence_request v with
  | None => (fault_trace st (Some v) "invalid_request" "validate", protocol_error "invalid_request" "validate" false None)
  | Some rq0 =>
      match trial_of v (length (rq_candidates rq0)) with
      | Err TrialRaises => ([], Err HandlerException)
      | Err TrialMalformed => (fault_trace st (Some v) "invalid_request" "validate", protocol_error "invalid_request" "validate" false None)
      | Ok t =>
          let rq := with_trial t rq0 in
          let ids := Some (rq_id rq, rq_plan rq) in
          match st_service st with
          | None => (fault_trace st (Some v) "evidence_unavailable" "evidence", protocol_error "evidence_unavailable" "evidence" false ids)
          | Some sv =>
              match config_identity sv (he_machine env) with
              | Err _ => ([], Err HandlerException)
              | Ok identity =>
                  if negb (String.eqb (rq_config rq) identity)
                  then (fault_trace st (Some v) "config_identity_mismatch" "evidence",
                        protocol_error "config_identity_mismatch" "evidence" false ids)
                  else
                    under_lease (he_coordinator env) (he_sink env) ids (λ held,
                      let '(evs, r) := finish_request held (he_sink env) (evidence_reply rq (serve sv rq (he_serve env))) in
                      (EServe :: evs, r))
              end
          end
      end
  end.

(** [handle_evidence_request]; the decoding has been done with the same result. *)
Definition handle_evidence_request (st : server_state) (env : handler_env) (data : string) : handled :=
  match decode_request data with
  | Err e => ([], Err e)
  | Ok None => (fault_trace st None "invalid_json" "evidence", protocol_error "invalid_json" "validate" false None)
  | Ok (Some v) => handle_evidence st env v
  end.

(** The scoring part of [handle_request]. *)
Definition handle_scoring (st : server_state) (env : handler_env) (v : json) : handled :=
  match scoring_request_of v with
  | None => ([], protocol_error "invalid_request" "validate" false None)
  | Some sq =>
      let ids := Some (sq_id sq, sq_plan sq) in
      if negb (accepted_by_strategy (sq_policy sq) (st_strategy st) (model_identity st))
      then ([], protocol_error "policy_mismatch" "validate" false ids)
      else
        under_lease (he_coordinator env) (he_sink env) ids (λ held,
          let '(evs, r) := finish_request held (he_sink env) (score_reply (sq_id sq) (sq_plan sq) (length (sq_candidates sq))
                                                       (st_score st (sq_context sq) (sq_candidates sq))) in
          (EScore :: evs, r))
  end.

Definition handle_request (st : server_state) (env : handler_env) (data : string) : handled :=
  match decode_request data with
  | Err e => ([], Err e)
  | Ok None => ([], protocol_error "invalid_json" "validate" false None)
  | Ok (Some v) =>
      match v with
      | JObj m =>
          if kind_is "health" m then
            match nonempty_field "request_id" m with
            | Some id =>
                if same_key_set m ["version"; "request_id"; "kind"] && version_ok m then ([], handle_health st env id)
                else ([], protocol_error "invalid_request" "validate" false None)
            | None => ([], protocol_error "invalid_request" "validate" false None)
            end
          else if kind_is EVIDENCE_KIND m then handle_evidence_request st env data
          else handle_scoring st env v
      | _ => handle_scoring st env v
      end
  end.
End handlers.

(** ** Connections *)

(** What one turn of the read loop meets; when the list ends the deadline has
    passed. *)
Inductive recv := Chunk (s : string) | RecvTimeout | RecvFails.

Inductive read_outcome := ReadTimeout | ReadError | ReadNothing | ReadText (s : string).

(** Strict UTF-8 on byte values. *)
Definition between (a b x : N) : bool := (a <=? x)%N && (x <=? b)%N.
Fixpoint utf8_ok (l : list N) : bool :=
  match l with
  | [] => true
  | a :: l1 =>
      if (a <? 128)%N then utf8_ok l1
      else
        match l1 with
        | [] => false
        | b :: l2 =>
            if between 194 223 a && between 128 191 b then utf8_ok l2
            else
              match l2 with
              | [] => false
              | c :: l3 =>
                  if between 224 239 a && between (if (a =? 224)%N then 160 else 128) (if (a =? 237)%N then 159 else 191) b &&
                     between 128 191 c
                  then utf8_ok l3
                  else
                    match l3 with
                    | [] => false
                    | d :: l4 =>
                        between 240 244 a && between (if (a =? 240)%N then 144 else 128) (if (a =? 244)%N then 143 else 191) b &&
                        between 128 191 c && between 128 191 d && utf8_ok l4
                    end
              end
        end
  end.
Definition decodes (s : string) : bool := utf8_ok (N_of_ascii <$> list_ascii_of_string s).

Definition LF : ascii := ascii_of_nat 10.

(** The framing of what was read. *)
Definition unframe (framed : string) : read_outcome :=
  if String.eqb framed "" then ReadNothing
  else
    match split_on LF framed with
    | [text; ""] => if decodes text then ReadText text else ReadError
    | _ => ReadError
    end.

(** The loop of [read_request]. *)
Fixpoint recv_loop (input : list recv) (received : string) : read_outcome :=
  match input with
  | [] | RecvTimeout :: _ => ReadTimeout
  | RecvFails :: _ => ReadError
  | Chunk s :: input =>
      if String.eqb s "" then unframe received
      else if (MAX_REQUEST_BYTES <? String.length received + String.length s)%nat then ReadError
      else recv_loop input (received +:+ s)
  end.
Definition read_request (input : list recv) : read_outcome := recv_loop input "".

(** How the first [sendall] ends, and whether the one of an error succeeds. *)
Inductive sent := SendOk | SendTimeout | SendFails.
Record connection := Connection { cn_input : list recv; cn_first : sent; cn_second : bool }.

Definition transport_error (retryable : bool) : reply := ErrorReply "server_error" "transport" retryable None.

Section connections.
Context {P B : Type} `{Vectors P (list float) B} `{QuerySeam P} `{IntText} `{Unicode} `{Libm} `{Dictionary} `{JsonDecoder}.

(** [serve_scoring_connection]: the sink collects the lease, which is completed at
    the end. *)
Definition serve_scoring_connection (st : server_state P) (env : handler_env P B) (cn : connection) : list server_event :=
  let env := HandlerEnv (he_coordinator env) (Some false) (he_machine env) (he_serve env) (he_adapter env) in
  match read_request (cn_input cn) with
  | ReadTimeout => [ESend (transport_error true) (cn_second cn)]
  | ReadError => [ESend (transport_error false) (cn_second cn)]
  | ReadNothing => []
  | ReadText data =>
      let '(evs, r) := handle_request st env data in
      let sends :=
        match r with
        | Err _ => [ESend (transport_error false) (cn_second cn)]
        | Ok rep =>
            match cn_first cn with
            | SendOk => [ESend rep true]
            | SendTimeout => [ESend rep false; ESend (transport_error true) (cn_second cn)]
            | SendFails => [ESend rep false; ESend (transport_error false) (cn_second cn)]
            end
        end in
      evs ++ sends ++ concat ((λ e, match e with ESink => [EComplete] | _ => [] end) <$> evs)
  end.
End connections.
