(* ===== verification/ServerTheorems.v ===== *)
(** * What the scoring server guarantees

    A request's lease is completed once, after its reply was sent, and no work is
    done and no result sent while maintenance is prepared; results are complete,
    finite and of the policy that was declared; the handlers answer every request;
    tokens are attributed to candidates exactly; framing does not depend on how
    the bytes arrive. *)

From Stdlib Require Import SpecFloat Ascii String.
From stdpp Require Import base list strings gmap sorting relations.
From S2P Require Import Prelude Bytes Float64 PyJson OpTheorems Facts TextMatch Oracle OracleTheorems Derived Build Coordinator Delta Evidence Adapter Server.
Open Scope Z_scope.

(** ** Leases *)

(** Events that begin or complete a lease. *)
Definition lease_event (e : server_event) : bool := match e with EBegin true | EComplete => true | _ => false end.
(** Events that work on a request or send its result. *)
Definition work_event (e : server_event) : bool :=
  match e with EServe | EScore | ESend (EvidenceReply _ _ _ _ _) _ | ESend (ScoreReply _ _ _) _ => true | _ => false end.

(** Everything that has to do with a lease or the work under it. *)
Definition leased_event (e : server_event) : bool :=
  match e with EBegin true | EComplete | EServe | EScore | ESink => true | _ => false end.

Definition quiet (e : server_event) : bool := negb (leased_event e) && negb (work_event e).

(** What a handler does with a sink that does not raise: nothing with leases and
    no work, or, under a coordinator, one begin, the work and the hand-over;
    without a coordinator the work alone. *)
Inductive handled_shape (coordinated : bool) : handled → Prop :=
| shape_refused evs r : forallb quiet evs = true →
    (∀ rep, r = Ok rep → work_event (ESend rep true) = false) → handled_shape coordinated (evs, r)
| shape_served work rep : coordinated = true → work = EServe ∨ work = EScore →
    handled_shape coordinated ([EBegin true; work; ESink], Ok rep)
| shape_free work rep : coordinated = false → work = EServe ∨ work = EScore → handled_shape coordinated ([work], Ok rep).

Lemma protocol_error_total code phase retryable ids : code ∈ ERROR_CODES →
  protocol_error code phase retryable ids = Ok (ErrorReply code phase retryable ids).
Proof. intros Hc. unfold protocol_error. by rewrite bool_decide_true. Qed.

Ltac known_code := apply (bool_decide_unpack _); vm_compute; reflexivity.

Lemma protocol_error_refused code phase retryable ids rep : protocol_error code phase retryable ids = Ok rep →
  work_event (ESend rep true) = false.
Proof. unfold protocol_error. case_bool_decide; [|done]. by intros [= <-]. Qed.

Lemma refused_shape coordinated evs code phase retryable ids : forallb quiet evs = true →
  handled_shape coordinated (evs, protocol_error code phase retryable ids).
Proof. intros He. apply shape_refused; [done|]. intros rep. apply protocol_error_refused. Qed.

Lemma with_lease_shape c ids work r (body : bool → handled) : work = EServe ∨ work = EScore → (∃ rep, r = Ok rep) →
  (∀ held, body held = let '(evs, r) := finish_request held (Some false) r in (work :: evs, r)) →
  handled_shape (bool_decide (is_Some c)) (under_lease c (Some false) ids body).
Proof.
  intros Hwork [rep ->] Hbody. unfold under_lease. destruct c as [c|]; [|rewrite Hbody; by apply shape_free].
  destruct (begin_request c); [|by apply refused_shape]. rewrite Hbody. by apply shape_served.
Qed.

Section leases.
Context {P B : Type} `{Vectors P (list float) B} `{QuerySeam P} `{IntText} `{Unicode} `{Libm} `{Dictionary} `{JsonDecoder}.

Lemma fault_trace_refused (st : server_state P) v code phase : forallb quiet (fault_trace st v code phase) = true.
Proof. unfold fault_trace. by destruct (_ && _). Qed.
End leases.

Lemma score_reply_total id plan n r : ∃ rep, score_reply id plan n r = Ok rep.
Proof.
  unfold score_reply. destruct r as [v|[]]; [destruct v as [| | | | |l|]|..]; try (eexists; apply protocol_error_total; known_code).
  repeat (destruct (negb _); [eexists; apply protocol_error_total; known_code|]). by eexists.
Qed.

Lemma evidence_fault_codes code : code ∈ _EVIDENCE_FAULT_CODES → code ∈ ERROR_CODES.
Proof.
  assert (Forall (λ c, c ∈ ERROR_CODES) _EVIDENCE_FAULT_CODES) as Hall by known_code. rewrite Forall_forall in Hall. apply Hall.
Qed.

Lemma evidence_reply_total rq r : ∃ rep, evidence_reply rq r = Ok rep.
Proof.
  unfold evidence_reply. destruct r as [rs|[code|]]; [by eexists| |eexists; apply protocol_error_total; known_code].
  eexists. apply protocol_error_total. case_bool_decide as Hc; [by apply evidence_fault_codes|known_code].
Qed.

Section shapes.
Context {P B : Type} `{Vectors P (list float) B} `{QuerySeam P} `{IntText} `{Unicode} `{Libm} `{Dictionary} `{JsonDecoder}.

Lemma evidence_shape (st : server_state P) (env : handler_env P B) v : he_sink env = Some false →
  handled_shape (bool_decide (is_Some (he_coordinator env))) (handle_evidence st env v).
Proof.
  intros Hs. unfold handle_evidence. destruct (evidence_request v) as [rq|]; [|apply refused_shape, fault_trace_refused].
  destruct (trial_of _ _) as [t|[]]; [|apply refused_shape, fault_trace_refused|by apply shape_refused].
  destruct (st_service st) as [sv|]; [|apply refused_shape, fault_trace_refused].
  destruct (config_identity _ _) as [identity|]; [|by apply shape_refused].
  destruct (negb _); [apply refused_shape, fault_trace_refused|]. rewrite Hs.
  eapply with_lease_shape; [by left|apply evidence_reply_total|done].
Qed.

Lemma scoring_shape (st : server_state P) (env : handler_env P B) v : he_sink env = Some false →
  handled_shape (bool_decide (is_Some (he_coordinator env))) (handle_scoring st env v).
Proof.
  intros Hs. unfold handle_scoring. destruct (scoring_request_of v) as [sq|]; [|by apply refused_shape].
  destruct (negb _); [by apply refused_shape|]. rewrite Hs.
  eapply with_lease_shape; [by right|apply score_reply_total|done].
Qed.

Lemma request_shape (st : server_state P) (env : handler_env P B) data : he_sink env = Some false →
  handled_shape (bool_decide (is_Some (he_coordinator env))) (handle_request st env data).
Proof.
  intros Hs. unfold handle_request. destruct (decode_request data) as [[v|]|] eqn:Hd; [|by apply refused_shape|by apply shape_refused].
  destruct v as [| | | | | |m]; try by apply scoring_shape.
  destruct (kind_is "health" m).
  { destruct (nonempty_field _ _) as [id|]; [|by apply refused_shape]. destruct (_ && _); [|by apply refused_shape].
    apply shape_refused; [done|]. unfold handle_health. destruct (adapter_digest_for_health _ _ _); [|done]. by intros rep [= <-]. }
  destruct (kind_is EVIDENCE_KIND m); [|by apply scoring_shape].
  unfold handle_evidence_request. rewrite Hd. by apply evidence_shape.
Qed.

(** The events of a connection: nothing leased and no result, or, under a
    coordinator, one lease around the work and the sends. *)
Inductive connection_shape (coordinated : bool) : list server_event → Prop :=
| connection_refused evs : forallb quiet evs = true → connection_shape coordinated evs
| connection_served work sends : coordinated = true → work = EServe ∨ work = EScore →
    Forall (λ e, ∃ r ok, e = ESend r ok) sends → sends ≠ [] →
    connection_shape coordinated (EBegin true :: work :: ESink :: sends ++ [EComplete])
| connection_free work sends : coordinated = false → work = EServe ∨ work = EScore →
    Forall (λ e, ∃ r ok, e = ESend r ok) sends → sends ≠ [] → connection_shape coordinated (work :: sends).

Lemma work_send rep ok ok' : work_event (ESend rep ok) = work_event (ESend rep ok').
Proof. by destruct rep. Qed.

Lemma serve_shape (st : server_state P) (env : handler_env P B) cn :
  connection_shape (bool_decide (is_Some (he_coordinator env))) (serve_scoring_connection st env cn).
Proof.
  unfold serve_scoring_connection. destruct (read_request _) as [| | |data]; try by apply connection_refused.
  pose proof (request_shape st (HandlerEnv (he_coordinator env) (Some false) (he_machine env) (he_serve env) (he_adapter env)) data eq_refl) as Hshape.
  cbn [he_coordinator] in Hshape. destruct (handle_request _ _ _) as [evs r].
  set (sends := match r with Ok rep => _ | Err _ => _ end).
  assert (sends ≠ [] ∧ Forall (λ e, ∃ r ok, e = ESend r ok) sends) as [Hne Hsends].
  { unfold sends. destruct r; [destruct (cn_first cn)|]; (split; [done|]); repeat constructor; eauto. }
  inversion Hshape as [? ? Hevs Hr|work rep Hc Hwork|work rep Hc Hwork]; subst evs.
  - apply connection_refused. rewrite !forallb_app, Hevs. simpl. apply andb_true_intro. split.
    + unfold sends. destruct r as [rep|]; [|done]. specialize (Hr rep eq_refl).
      assert (∀ ok, quiet (ESend rep ok) = true) as Hq by (intros ok; unfold quiet; by rewrite (work_send rep ok true), Hr).
      destruct (cn_first cn); simpl; by rewrite Hq.
    + clear -Hevs. induction evs0 as [|e evs IH]; [done|]. simpl in Hevs. apply andb_true_iff in Hevs as [He Hevs].
      rewrite fmap_cons. cbn [concat]. rewrite forallb_app, (IH Hevs). by destruct e.
  - destruct Hwork as [-> | ->]; [exact (connection_served _ EServe sends Hc (or_introl eq_refl) Hsends Hne)|].
    exact (connection_served _ EScore sends Hc (or_intror eq_refl) Hsends Hne).
  - destruct Hwork as [-> | ->]; simpl; rewrite app_nil_r; [exact (connection_free _ EServe sends Hc (or_introl eq_refl) Hsends Hne)|].
    exact (connection_free _ EScore sends Hc (or_intror eq_refl) Hsends Hne).
Qed.
End shapes.

(** ** Under the coordinator *)

(** The events of one connection, served by thread [i], between the steps of all
    threads of the coordinator; nothing but its own requests moves thread [i]. *)
Inductive follows (i : nat) : list server_event → csys → csys → Prop :=
| follows_nil x : follows i [] x x
| follows_other evs x y z : coord_step x y → y_t y i = y_t x i → follows i evs y z → follows i evs x z
| follows_begin evs c T L U c' z : begin_request c = Some c' → T i = TIdle →
    follows i evs (CSys c' (<[i := TServe]> T) L U) z → follows i (EBegin true :: evs) (CSys c T L U) z
| follows_refused evs x z : begin_request (y_c x) = None → follows i evs x z → follows i (EBegin false :: evs) x z
| follows_complete evs c T L U z : T i = TServe →
    follows i evs (CSys (complete_request c) (<[i := TIdle]> T) L U) z → follows i (EComplete :: evs) (CSys c T L U) z
| follows_event e evs x z : match e with EBegin _ | EComplete => False | _ => True end →
    follows i evs x z → follows i (e :: evs) x z.

Lemma follows_steps i evs x y : follows i evs x y → rtc coord_step x y.
Proof.
  induction 1 as [|evs x y z Hstep _ _ IH|evs c T L U c' z Hb Hi _ IH|evs x z _ _ IH|evs c T L U z Hi _ IH|e evs x z _ _ IH]; try done.
  - by eapply rtc_l.
  - eapply rtc_l; [|exact IH]. apply (coord_thread i). rewrite Hi. by apply s_begin.
  - eapply rtc_l; [|exact IH]. apply (coord_thread i). rewrite Hi. by apply s_complete.
Qed.

(** Without a lease event the thread stays where it is. *)
Lemma follows_stays i evs x y : forallb (λ e, negb (lease_event e)) evs = true → follows i evs x y → y_t y i = y_t x i.
Proof.
  intros Hevs Hf. induction Hf as [|evs x y z _ Hi _ IH|evs c T L U c' z _ _ _ IH|evs x z _ _ IH|evs c T L U z _ _ IH|e evs x z _ _ IH]; try done.
  - by rewrite IH.
  - by apply IH.
  - simpl in Hevs. apply andb_true_iff in Hevs as [_ Hevs]. by apply IH.
Qed.

Lemma follows_granted i evs x z : follows i (EBegin true :: evs) x z →
  ∃ y, rtc coord_step x y ∧ y_t y i = TServe ∧ follows i evs y z.
Proof.
  intros Hf. remember (EBegin true :: evs) as l eqn:Hl. revert Hl.
  induction Hf as [|evs' x y z Hstep _ _ IH|evs' c T L U c' z Hb Hi Hf _|evs' x z _ _ _|evs' c T L U z _ _ _|e evs' x z He _ _]; try done.
  - intros Hl. destruct (IH Hl) as (y'&Hr&Hy'&Hf'). exists y'. split_and!; [by eapply rtc_l|done..].
  - intros [= ->]. exists (CSys c' (<[i := TServe]> T) L U). split_and!; [|simpl; apply insert_at|exact Hf].
    apply rtc_once, (coord_thread i). rewrite Hi. by apply s_begin.
  - by intros [= -> ->].
Qed.

Lemma follows_app i evs evs' x z : follows i (evs ++ evs') x z → ∃ y, follows i evs x y ∧ follows i evs' y z.
Proof.
  intros Hf. remember (evs ++ evs') as l eqn:Hl. revert evs Hl.
  induction Hf as [x|l x y z Hstep Hi _ IH|l c T L U c' z Hb Hi Hf IH|l x z Hb Hf IH|l c T L U z Hi Hf IH|e l x z He Hf IH]; intros evs Hl.
  - destruct evs; [|done]. simpl in Hl. subst. exists x. split; constructor.
  - destruct (IH _ Hl) as (w&H1&H2). exists w. split; [by eapply follows_other|done].
  - destruct evs as [|e evs]; simpl in Hl.
    + subst evs'. eexists. split; [constructor|]. by eapply follows_begin.
    + injection Hl as <- Hl. destruct (IH _ Hl) as (w&H1&H2). exists w. split; [by eapply follows_begin|done].
  - destruct evs as [|e evs]; simpl in Hl.
    + subst evs'. eexists. split; [constructor|]. by eapply follows_refused.
    + injection Hl as <- Hl. destruct (IH _ Hl) as (w&H1&H2). exists w. split; [by eapply follows_refused|done].
  - destruct evs as [|e evs]; simpl in Hl.
    + subst evs'. eexists. split; [constructor|]. by eapply follows_complete.
    + injection Hl as <- Hl. destruct (IH _ Hl) as (w&H1&H2). exists w. split; [by eapply follows_complete|done].
  - destruct evs as [|e' evs]; simpl in Hl.
    + subst evs'. eexists. split; [constructor|]. by eapply follows_event.
    + injection Hl as <- Hl. destruct (IH _ Hl) as (w&H1&H2). exists w. split; [by eapply follows_event|done].
Qed.

Lemma follows_returned i evs x z : follows i (evs ++ [EComplete]) x z → y_t z i = TIdle.
Proof.
  intros (w&_&Hf)%follows_app. remember [EComplete] as l eqn:Hl. revert Hl.
  induction Hf as [|l s1 s2 s3 _ Hi Hf IH|l c T L U c' s3 _ _ _ _|l s1 s3 _ _ _|l c T L U s3 Hi Hf _|e l s1 s3 He _ _]; try done.
  - intros [= ->]. rewrite (follows_stays _ _ _ _ (eq_refl : forallb _ [] = true) Hf). simpl. apply insert_at.
  - by intros [= -> _].
Qed.

Lemma snoc_prefix {A} (l pre post : list A) z e : l ++ [z] = pre ++ e :: post → (e = z ∧ post = [] ∧ pre = l) ∨ ∃ post', l = pre ++ e :: post'.
Proof.
  destruct post as [|y post _] using rev_ind.
  - intros [-> [= ->]]%app_inj_tail. by left.
  - rewrite app_comm_cons, app_assoc. intros [-> _]%app_inj_tail. right. by exists post.
Qed.

Lemma sends_quiet sends : Forall (λ e, ∃ r ok, e = ESend r ok) sends → forallb (λ e, negb (lease_event e)) sends = true.
Proof. induction 1 as [|e l (r&ok&->) _ IH]; [done|]. exact IH. Qed.

(** C26: Maintenance sees no request at work: while a maintenance operation is
    prepared, no connection asks the model or the evidence service, and none sends
    a result, however the threads of the daemon interleave. *)
Theorem no_work_while_prepared {P B : Type} `{Vectors P (list float) B} `{QuerySeam P} `{IntText} `{Unicode} `{Libm} `{Dictionary} `{JsonDecoder}
    (st : server_state P) (env : handler_env P B) cn i x y pre e post :
  reachable coord_init coord_step x → y_t x i = TIdle → is_Some (he_coordinator env) →
  serve_scoring_connection st env cn = pre ++ e :: post → work_event e = true → follows i pre x y →
  m_state (y_c y) ≠ Prepared.
Proof.
  intros Hx Hidle Hc Hevs He Hf Hst.
  assert (y_t y i = TServe) as Hserve.
  { pose proof (serve_shape st env cn) as Hshape. rewrite Hevs in Hshape. rewrite bool_decide_true in Hshape by done.
    inversion Hshape as [evs0 Hq Heq0|work sends Hc0 Hwork Hsends Hne Heq|work sends Hc0 Hwork Hsends Hne Heq]; [|clear Hshape|done].
    - rewrite forallb_app in Hq. simpl in Hq. unfold quiet at 2 in Hq. rewrite He in Hq. by rewrite andb_false_r, andb_false_r in Hq.
    - change (EBegin true :: work :: ESink :: sends ++ [EComplete]) with ((EBegin true :: work :: ESink :: sends) ++ [EComplete]) in Heq.
      apply snoc_prefix in Heq as [(->&_&_)|(post'&Heq)]; [done|].
      destruct pre as [|b pre]; [injection Heq as <- _; by destruct Hwork as [-> | ->]|]. injection Heq as <- Heq.
      apply follows_granted in Hf as (y'&_&Hy'&Hf'). rewrite <- Hy'. eapply follows_stays; [|exact Hf'].
      assert (forallb (λ e, negb (lease_event e)) (work :: ESink :: sends) = true) as Hall.
      { simpl. rewrite (sends_quiet _ Hsends). by destruct Hwork as [-> | ->]. }
      rewrite Heq, forallb_app in Hall. by apply andb_true_iff in Hall as [? _]. }
  assert (reachable coord_init coord_step y) as Hy.
  { destruct Hx as (x0&Hinit&Hx0). exists x0. split; [done|]. etrans; [exact Hx0|]. by eapply follows_steps. }
  apply coord_inv_reachable in Hy. destruct (ci_prepared y Hy Hst) as (Hr&_). pose proof (ci_requests y Hy) as Hcount.
  rewrite Hr in Hcount. pose proof (counts_zero _ _ i Hcount) as Hz. by rewrite Hserve in Hz.
Qed.

(** C27: Every connection gives back what it took: whatever the request, the model,
    the service and the socket do, the thread holds no lease when it is done, and a
    lease is completed once, as the last thing, after a reply was sent or its
    sending failed. *)
Theorem lease_completed_after_reply {P B : Type} `{Vectors P (list float) B} `{QuerySeam P} `{IntText} `{Unicode} `{Libm} `{Dictionary} `{JsonDecoder}
    (st : server_state P) (env : handler_env P B) cn :
  is_Some (he_coordinator env) →
  (∀ i x y, y_t x i = TIdle → follows i (serve_scoring_connection st env cn) x y → y_t y i = TIdle) ∧
  (∀ pre post, serve_scoring_connection st env cn = pre ++ EComplete :: post →
     post = [] ∧ EBegin true ∈ pre ∧ ∃ r ok, ESend r ok ∈ pre).
Proof.
  intros Hc. pose proof (serve_shape st env cn) as Hshape. rewrite bool_decide_true in Hshape by done.
  inversion Hshape as [evs0 Hq Heq0|work sends Hc0 Hwork Hsends Hne Heq|work sends Hc0 Hwork Hsends Hne Heq]; [| |done].
  - split.
    + intros i x y Hi Hf. rewrite <- Hi. eapply follows_stays; [|exact Hf]. rewrite forallb_forall in Hq |- *. intros e He.
      specialize (Hq e He). by destruct e as [[]| | | | | |].
    + intros pre post Heq. rewrite Heq in Hq. rewrite forallb_app in Hq. simpl in Hq. by rewrite andb_false_r in Hq.
  - change (EBegin true :: work :: ESink :: sends ++ [EComplete]) with ((EBegin true :: work :: ESink :: sends) ++ [EComplete]). split.
    + intros i x y _. apply follows_returned.
    + intros pre post Heq1. apply snoc_prefix in Heq1 as [(_&->&->)|(post'&Heq')].
      * split_and!; [done|by left|]. destruct Hsends as [|e sends (r&ok&->) _]; [done|]. exists r, ok. do 3 right. by left.
      * exfalso. assert (EComplete ∈ EBegin true :: work :: ESink :: sends) as Hin by (rewrite Heq'; apply elem_of_app; right; by left).
        apply elem_of_cons in Hin as [?|[?|[?|Hin]%elem_of_cons]%elem_of_cons]; try done; [by destruct Hwork as [-> | ->]|].
        rewrite Forall_forall in Hsends. by destruct (Hsends _ Hin) as (?&?&?).
Qed.

(** ** Replies *)

Section replies.
Context {P B : Type} `{Vectors P (list float) B} `{QuerySeam P} `{IntText} `{Unicode} `{Libm} `{Dictionary} `{JsonDecoder}.

Lemma protocol_error_is code phase retryable ids rep : protocol_error code phase retryable ids = Ok rep →
  rep = ErrorReply code phase retryable ids.
Proof. unfold protocol_error. case_bool_decide; [|done]. by intros [= <-]. Qed.

Lemma finish_inv held sink r evs x : finish_request held sink r = (evs, Ok x) → r = Ok x.
Proof. unfold finish_request. destruct r as [rep|]; [|done]. destruct held, sink as [[]|]; intros [= _ <-]; done. Qed.

Lemma with_lease_inv c sink ids body evs rep : under_lease c sink ids body = (evs, Ok rep) →
  (∃ code phase retryable, rep = ErrorReply code phase retryable ids) ∨ ∃ held evs', body held = (evs', Ok rep).
Proof.
  unfold under_lease. destruct c as [c|]; [|by right; exists false, evs].
  destruct (begin_request c); [destruct sink|]; intros Hrun;
    [|apply (f_equal snd), protocol_error_is in Hrun; left; by eexists _, _, _..].
  destruct (body true) as [evs' r] eqn:Hb. injection Hrun as _ ->. right. by exists true, evs'.
Qed.

(** What a result says of the request it answers. *)
Definition answers (st : server_state P) (env : handler_env P B) (data : string) (rep : reply) : Prop :=
  match rep with
  | ScoreReply id plan scores =>
      ∃ v sq, decode_request data = Ok (Some v) ∧ scoring_request_of v = Some sq ∧ id = sq_id sq ∧ plan = sq_plan sq ∧
        accepted_by_strategy (sq_policy sq) (st_strategy st) (model_identity st) = true ∧
        st_score st (sq_context sq) (sq_candidates sq) = Ok (JList scores) ∧
        length scores = length (sq_candidates sq) ∧ Forall (λ s, is_score s = true ∧ finite_score s = true) scores
  | EvidenceReply id plan config water rs =>
      ∃ v rq t sv, decode_request data = Ok (Some v) ∧ evidence_request v = Some rq ∧ trial_of v (length (rq_candidates rq)) = Ok t ∧
        id = rq_id rq ∧ plan = rq_plan rq ∧ config = rq_config rq ∧ water = rq_water rq ∧ st_service st = Some sv ∧
        config_identity sv (he_machine env) = Ok config ∧ serve sv (with_trial t rq) (he_serve env) = Ok rs
  | _ => True
  end.

Lemma score_reply_answers id plan n r rep : score_reply id plan n r = Ok rep →
  (∃ code phase retryable ids, rep = ErrorReply code phase retryable ids) ∨
  ∃ scores, rep = ScoreReply id plan scores ∧ r = Ok (JList scores) ∧ length scores = n ∧
    Forall (λ s, is_score s = true ∧ finite_score s = true) scores.
Proof.
  unfold score_reply. intros Hr.
  assert ((∃ scores, r = Ok (JList scores) ∧ forallb is_score scores = true ∧ length scores = n ∧ forallb finite_score scores = true ∧
            rep = ScoreReply id plan scores) ∨
          ∃ code phase retryable ids, protocol_error code phase retryable ids = Ok rep) as [(l&->&Hs&Hn&Hf&->)|(?&?&?&?&He)].
  { destruct r as [v|[]]; [|right; eexists _, _, _, _; exact Hr ..].
    destruct v as [| | | | |l|]; try (right; eexists _, _, _, _; exact Hr).
    destruct (forallb is_score l) eqn:Hs; cbn [negb] in Hr; [|right; eexists _, _, _, _; exact Hr].
    destruct (length l =? n)%nat eqn:Hn; cbn [negb] in Hr; [|right; eexists _, _, _, _; exact Hr].
    destruct (forallb finite_score l) eqn:Hf; cbn [negb] in Hr; [|right; eexists _, _, _, _; exact Hr].
    injection Hr as <-. left. exists l. apply Nat.eqb_eq in Hn. done. }
  - right. exists l. split_and!; [done..|]. rewrite forallb_forall in Hs, Hf. apply Forall_forall. intros s Hin%list_elem_of_In. auto.
  - left. eexists _, _, _, _. by eapply protocol_error_is.
Qed.

Lemma evidence_reply_answers rq r rep : evidence_reply rq r = Ok rep →
  (∃ code phase retryable ids, rep = ErrorReply code phase retryable ids) ∨
  ∃ rs, rep = EvidenceReply (rq_id rq) (rq_plan rq) (rq_config rq) (rq_water rq) rs ∧ r = Ok rs.
Proof.
  unfold evidence_reply. destruct r as [rs|[code|]].
  - intros [= <-]. right. by exists rs.
  - intros Hp. left. eexists _, _, _, _. by eapply protocol_error_is.
  - intros Hp. left. eexists _, _, _, _. by eapply protocol_error_is.
Qed.

Lemma handle_scoring_answers (st : server_state P) (env : handler_env P B) data v evs rep :
  decode_request data = Ok (Some v) → handle_scoring st env v = (evs, Ok rep) → answers st env data rep.
Proof.
  intros Hd. unfold handle_scoring. destruct (scoring_request_of v) as [sq|] eqn:Hsq; [|by intros [= _ <-]].
  destruct (accepted_by_strategy _ _ _) eqn:Hacc; [|by intros [= _ <-]]. cbn [negb].
  intros [(code&phase&retryable&->)|(held&evs'&Hbody)]%with_lease_inv; [done|].
  destruct (finish_request held _ _) as [evs2 r2] eqn:Hf. injection Hbody as _ ->. apply finish_inv in Hf.
  apply score_reply_answers in Hf as [(?&?&?&?&->)|(scores&->&Hr&Hn&Hall)]; [done|]. exists v, sq. split_and!; done.
Qed.

Lemma handle_evidence_answers (st : server_state P) (env : handler_env P B) data v evs rep :
  decode_request data = Ok (Some v) → handle_evidence st env v = (evs, Ok rep) → answers st env data rep.
Proof.
  intros Hd. unfold handle_evidence. destruct (evidence_request v) as [rq|] eqn:Hrq; [|by intros [= _ <-]].
  destruct (trial_of _ _) as [t|[]] eqn:Ht; [|by intros [= _ <-]|done].
  destruct (st_service st) as [sv|] eqn:Hsv; [|by intros [= _ <-]].
  destruct (config_identity sv _) as [identity|] eqn:Hid; [|done].
  destruct (String.eqb_spec (rq_config (with_trial t rq)) identity) as [Heq|]; [|by intros [= _ <-]]. cbn [negb].
  intros [(code&phase&retryable&->)|(held&evs'&Hbody)]%with_lease_inv; [done|].
  destruct (finish_request held _ _) as [evs2 r2] eqn:Hf. injection Hbody as _ ->. apply finish_inv in Hf.
  apply evidence_reply_answers in Hf as [(?&?&?&?&->)|(rs&->&Hr)]; [done|]. exists v, rq, t, sv. split_and!; try done. by rewrite Heq.
Qed.
End replies.

(** C9: A result is the answer to its request: scores are sent only for a request
    whose declared policy this daemon serves, one finite number per candidate as the
    model returned them; evidence only under the configuration identity that was
    declared, as the service returned it for exactly this request; and both carry
    the identities of the request. *)
Theorem results_answer_their_request {P B : Type} `{Vectors P (list float) B} `{QuerySeam P} `{IntText} `{Unicode} `{Libm} `{Dictionary} `{JsonDecoder}
    (st : server_state P) (env : handler_env P B) data evs rep :
  handle_request st env data = (evs, Ok rep) → answers st env data rep.
Proof.
  unfold handle_request. destruct (decode_request data) as [[v|]|] eqn:Hd; [|by intros [= _ <-]|done].
  destruct v as [| | | | | |m]; try by apply handle_scoring_answers.
  destruct (kind_is "health" m).
  { destruct (nonempty_field _ _); [|by intros [= _ <-]]. destruct (_ && _); [|by intros [= _ <-]].
    unfold handle_health. destruct (adapter_digest_for_health _ _ _); [|done]. by intros [= _ <-]. }
  destruct (kind_is EVIDENCE_KIND m); [|by apply handle_scoring_answers].
  unfold handle_evidence_request. rewrite Hd. by apply handle_evidence_answers.
Qed.

(** An answer is not an exception. *)
Ltac answered := let E := fresh in intros E; apply (f_equal snd) in E; cbn in E; discriminate E.

(** C30: every request is answered: a handler whose sink does not raise lets no
    exception out but in four cases: a request that nests too deep, a health request
    when no adapter digest is pinned and the configured adapter directory raises
    something other than [IdentityError] (an unreadable file, a configuration that is
    no text), a trial score too large for a float, and a configuration identity that
    cannot be composed; every error it names has a message. *)
Theorem handler_raises_only {P B : Type} `{Vectors P (list float) B} `{QuerySeam P} `{IntText} `{Unicode} `{Libm} `{Dictionary} `{JsonDecoder}
    (st : server_state P) (env : handler_env P B) data evs x :
  he_sink env ≠ Some true → handle_request st env data = (evs, Err x) →
  x = HandlerException ∧
  (raw_decode data = Err TooDeep ∨
   (∃ m, decode_request data = Ok (Some (JObj m)) ∧ kind_is "health" m = true ∧
     default "" (st_adapter_digest st) = "" ∧ st_adapter_path st ≠ "" ∧ adapter_unreadable (he_adapter env)) ∨
   ∃ v rq, decode_request data = Ok (Some v) ∧ evidence_request v = Some rq ∧
     (trial_of v (length (rq_candidates rq)) = Err TrialRaises ∨
      ∃ sv e, st_service st = Some sv ∧ config_identity sv (he_machine env) = Err e)).
Proof.
  intros Hsink.
  assert (∀ held (r : result handler_exn reply), (held = true → he_sink env ≠ None) → (∃ rep, r = Ok rep) →
    ∃ evs' rep, finish_request held (he_sink env) r = (evs', Ok rep)) as Hfinish.
  { intros held r Hheld [rep ->]. unfold finish_request. destruct held; [|eauto]. specialize (Hheld eq_refl).
    destruct (he_sink env) as [[]|]; try done. eauto. }
  assert (∀ ids work r evs', (∃ rep, r = Ok rep) → under_lease (he_coordinator env) (he_sink env) ids (λ held,
      let '(e, r) := finish_request held (he_sink env) r in (work :: e, r)) ≠ (evs', Err x)) as Hlease.
  { intros ids work r evs' Hr. unfold under_lease. destruct (he_coordinator env) as [c|].
    - destruct (begin_request c); [|answered]. destruct (he_sink env) as [b|] eqn:Hb; [|answered].
      destruct (Hfinish true r ltac:(done) Hr) as (e&rep&->). answered.
    - destruct (Hfinish false r ltac:(done) Hr) as (e&rep&->). answered. }
  assert (∀ v, handle_scoring st env v ≠ (evs, Err x)) as Hscore.
  { intros v. unfold handle_scoring. destruct (scoring_request_of v); [|answered]. destruct (negb _); [answered|]. apply Hlease, score_reply_total. }
  unfold handle_request, decode_request. destruct (raw_decode data) as [[v n]|[]] eqn:Hd; [|answered|intros [= _ <-]; split; [done|by left]].
  destruct (no_duplicates v && (n =? String.length data)%nat) eqn:Hok; [|answered].
  destruct v as [| | | | | |m]; try (intros Hr; by destruct (Hscore _ Hr)).
  destruct (kind_is "health" m) eqn:Hhealth.
  { destruct (nonempty_field _ _); [destruct (same_key_set _ _ && version_ok _)|]; [|answered..].
    unfold handle_health. destruct (adapter_digest_for_health _ _ _) as [|e] eqn:He; [answered|].
    apply adapter_digest_raises in He as (?&?&?%identify_adapter_raises).
    intros [= _ <-]. split; [done|]. right. left. by exists m. }
  destruct (kind_is EVIDENCE_KIND m); [|intros Hr; by destruct (Hscore _ Hr)].
  unfold handle_evidence_request, decode_request. rewrite Hd, Hok. unfold handle_evidence.
  destruct (evidence_request (JObj m)) as [rq|] eqn:Hrq; [|answered].
  destruct (trial_of _ _) as [t|[]] eqn:Ht; [|answered|].
  - destruct (st_service st) as [sv|] eqn:Hsv; [|answered]. destruct (config_identity sv _) as [identity|e] eqn:Hid.
    + destruct (negb _); [answered|]. intros []%Hlease. apply evidence_reply_total.
    + intros [= _ <-]. split; [done|]. right. right. exists (JObj m), rq. split_and!; [done..|]. right. by exists sv, e.
  - intros [= _ <-]. split; [done|]. right. right. exists (JObj m), rq. split_and!; [done..|]. by left.
Qed.

(** ** Frozen baselines *)

Lemma after_prefix_spec p s t : after_prefix p s = Some t ↔ s = p +:+ t.
Proof.
  revert s. induction p as [|c p IH]; intros s; [simpl; split; [by intros [= ->]|by intros ->]|].
  destruct s as [|d s]; [done|]. simpl. destruct (Ascii.eqb_spec c d) as [->|Hne].
  - rewrite IH, str_app_cons. split; [by intros ->|by intros [= ->]].
  - split; [done|]. rewrite str_app_cons. by intros [= ->].
Qed.

Lemma partition_spec c s k v : partition c s = Some (k, v) ↔ s = k +:+ String c v ∧ c ∉ list_ascii_of_string k.
Proof.
  revert k. induction s as [|d s IH]; intros k; simpl.
  { split; [done|]. intros [Heq _]. by destruct k. }
  destruct (Ascii.eqb_spec c d) as [->|Hne].
  - split; [intros [= <- <-]; split; [done|set_solver]|]. intros [Heq Hk]. destruct k as [|e k]; [by injection Heq as ->|].
    rewrite str_app_cons in Heq. injection Heq as <- _. simpl in Hk. set_solver.
  - split.
    + destruct (partition c s) as [[k' v']|] eqn:Hp; [|done]. intros [= <- <-]. destruct (proj1 (IH k')) as [-> Hk]; [done|].
      split; [done|]. simpl. set_solver.
    + intros [Heq Hk]. destruct k as [|e k]; [injection Heq as ->; done|]. rewrite str_app_cons in Heq. injection Heq as <- ->.
      rewrite (proj2 (IH k)); [done|]. split; [done|]. simpl in Hk. set_solver.
Qed.

Lemma split_join_with c l : l ≠ [] → Forall (λ s, c ∉ list_ascii_of_string s) l → split_on c (join_with (String c "") l) = l.
Proof.
  intros Hne. induction 1 as [|w l Hw Hl IH]; [done|]. destruct l as [|w' l]; [by apply split_on_plain|].
  change (join_with (String c "") (w :: w' :: l)) with (w +:+ String c (join_with (String c "") (w' :: l))).
  rewrite split_on_app by done. by rewrite IH.
Qed.

Lemma split_on_pieces c s : Forall (λ w, c ∉ list_ascii_of_string w) (split_on c s) ∧ join_with (String c "") (split_on c s) = s ∧ split_on c s ≠ [].
Proof.
  induction s as [|d s (Hall&Hjoin&Hne)]; [split_and!; [repeat constructor; set_solver|done|done]|]. simpl.
  destruct (Ascii.eqb_spec c d) as [->|Hcd].
  - split_and!; [by constructor; [set_solver|]| |done]. destruct (split_on d s) as [|w ws]; [done|].
    change (join_with (String d "") ("" :: w :: ws)) with (String d (join_with (String d "") (w :: ws))). by rewrite Hjoin.
  - destruct (split_on c s) as [|w ws]; [done|]. apply Forall_cons in Hall as [Hw Hws].
    split_and!; [constructor; [simpl; set_solver|done]| |done]. destruct ws as [|w' ws]; simpl in *; [by rewrite Hjoin|].
    rewrite str_app_cons. by rewrite Hjoin.
Qed.

(** The text of a list of components. *)
Definition component_text (kv : string * string) : string := kv.1 +:+ "=" +:+ kv.2.
Definition frozen_text (parts : list (string * string)) : string :=
  FROZEN_BASELINE_PREFIX +:+ join_with ":" (component_text <$> parts).

(** Components as they may be declared. *)
Definition component_ok (kv : string * string) : Prop :=
  kv.1 ∈ FROZEN_KNOWN_KEYS ∧ kv.2 ≠ "" ∧ ":"%char ∉ list_ascii_of_string kv.2.

Lemma known_key_plain k : k ∈ FROZEN_KNOWN_KEYS → ":"%char ∉ list_ascii_of_string k ∧ "="%char ∉ list_ascii_of_string k.
Proof.
  assert (Forall (λ k, ":"%char ∉ list_ascii_of_string k ∧ "="%char ∉ list_ascii_of_string k) FROZEN_KNOWN_KEYS) as Hall by known_code.
  rewrite Forall_forall in Hall. apply Hall.
Qed.

Lemma chars_of_app s t c : c ∈ list_ascii_of_string (s +:+ t) ↔ c ∈ list_ascii_of_string s ∨ c ∈ list_ascii_of_string t.
Proof. induction s as [|d s IH]; simpl; set_solver. Qed.

Lemma component_plain kv : component_ok kv → ":"%char ∉ list_ascii_of_string (component_text kv).
Proof.
  intros (Hk&_&Hv). destruct (known_key_plain _ Hk) as [Hc _]. unfold component_text. rewrite !chars_of_app. simpl.
  intros [?|[[?|Hn]%elem_of_cons|?]]; [done|done|by apply elem_of_nil in Hn|done].
Qed.

Lemma components_spec parts m m' : frozen_components parts m = Some m' ↔
  ∃ kvs, parts = component_text <$> kvs ∧ Forall (λ kv, kv.1 ∈ FROZEN_KNOWN_KEYS ∧ kv.2 ≠ "") kvs ∧ NoDup kvs.*1 ∧
    (∀ k, k ∈ kvs.*1 → m !! k = None) ∧ m' = list_to_map kvs ∪ m.
Proof.
  revert m. induction parts as [|part parts IH]; intros m; cbn [frozen_components].
  { split.
    - intros [= <-]. exists []. split_and!; [done|done|by apply NoDup_nil|by intros k ?%elem_of_nil|simpl; by rewrite (left_id_L ∅ (∪))].
    - intros (kvs&Hl&_&_&_&->). symmetry in Hl. apply fmap_nil_inv in Hl as ->. simpl. by rewrite (left_id_L ∅ (∪)). }
  split.
  - destruct (partition "="%char part) as [[k v]|] eqn:Hp; [|done]. apply partition_spec in Hp as [-> Hk].
    case_bool_decide as Hknown; [|done]. destruct (String.eqb_spec v "") as [|Hv]; [done|].
    case_bool_decide as Hin; [done|]. cbn [negb orb]. intros (kvs&->&Hall&Hnd&Hfresh&->)%IH.
    exists ((k, v) :: kvs). split_and!; [done|by constructor| | |].
    + rewrite fmap_cons. apply NoDup_cons. split; [|done]. intros Hk'. specialize (Hfresh _ Hk'). simpl in Hfresh. by rewrite lookup_insert_eq in Hfresh.
    + rewrite fmap_cons. intros k' [->|Hk']%elem_of_cons; [by apply eq_None_not_Some|]. specialize (Hfresh _ Hk').
      destruct (decide (k' = k)) as [->|Hne]; [by rewrite lookup_insert_eq in Hfresh|by rewrite lookup_insert_ne in Hfresh].
    + simpl. rewrite <- insert_union_l, insert_union_r; [done|]. apply not_elem_of_list_to_map. intros Hk'. specialize (Hfresh _ Hk'). by rewrite lookup_insert_eq in Hfresh.
  - intros (kvs&Hl&Hall&Hnd&Hfresh&->). destruct kvs as [|[k v] kvs]; [done|]. injection Hl as -> ->.
    apply Forall_cons in Hall as [[Hk Hv] Hall]. simpl in Hk, Hv. apply NoDup_cons in Hnd as [Hnk Hnd].
    assert (partition "="%char (component_text (k, v)) = Some (k, v)) as ->.
    { apply partition_spec. split; [done|]. by apply known_key_plain. }
    rewrite bool_decide_true by done. rewrite (proj2 (String.eqb_neq v "")) by done.
    rewrite bool_decide_false by (rewrite (Hfresh k) by (by left); by intros []). cbn [negb orb].
    apply IH. exists kvs. split_and!; [done..| |].
    + intros k' Hk'. rewrite lookup_insert_ne by (intros ->; done). apply Hfresh. by right.
    + simpl. rewrite <- insert_union_l, insert_union_r; [done|]. by apply not_elem_of_list_to_map.
Qed.

(** A frozen baseline is read as it was composed: a text is accepted with the
    components [m] exactly when it is the prefix and a colon-separated list of
    known keys, each once, with values that are not empty and have no colon, the
    required keys among them, and [m] maps each key to its value. *)
Lemma frozen_identity_parts declared m :
  parse_frozen_baseline_id declared = Some m ↔
  ∃ parts, declared = frozen_text parts ∧ Forall component_ok parts ∧ NoDup parts.*1 ∧
    (∀ k, k ∈ FROZEN_REQUIRED_KEYS → k ∈ parts.*1) ∧ m = list_to_map parts.
Proof.
  assert (∀ kvs : list (string * string), (forallb (λ k, bool_decide (is_Some ((list_to_map kvs : gmap string string) !! k))) FROZEN_REQUIRED_KEYS = true) ↔
    ∀ k, k ∈ FROZEN_REQUIRED_KEYS → k ∈ kvs.*1) as Hreq.
  { intros kvs. rewrite forallb_forall. setoid_rewrite <- list_elem_of_In. setoid_rewrite bool_decide_eq_true.
    apply forall_proper. intros k. split; intros Hk Hin; specialize (Hk Hin).
    - destruct (decide (k ∈ kvs.*1)) as [|Hn]; [done|]. apply not_elem_of_list_to_map in Hn. rewrite Hn in Hk. by destruct Hk.
    - apply not_eq_None_Some. by intros ?%not_elem_of_list_to_map. }
  unfold parse_frozen_baseline_id. split.
  - intros (payload&Hp%after_prefix_spec&Hrest)%bind_Some. destruct (String.eqb_spec payload "") as [|Hne]; [done|].
    apply bind_Some in Hrest as (m'&Hm&Hrest). destruct (forallb _ _) eqn:Hr; [|done]. injection Hrest as ->.
    apply components_spec in Hm as (kvs&Hl&Hall&Hnd&_&->). rewrite (right_id_L ∅ (∪)) in Hr |- *.
    destruct (split_on_pieces ":"%char payload) as (Hpieces&Hjoin&_). exists kvs. split_and!; [| |done|by apply Hreq|done].
    + unfold frozen_text. by rewrite Hp, <- Hl, Hjoin.
    + rewrite Hl, Forall_fmap in Hpieces. apply Forall_forall. intros kv Hkv. rewrite Forall_forall in Hall, Hpieces.
      destruct (Hall kv Hkv) as [Hk Hv]. split_and!; [done..|]. specialize (Hpieces kv Hkv). simpl in Hpieces.
      unfold component_text in Hpieces. rewrite !chars_of_app in Hpieces. tauto.
  - intros (kvs&->&Hall&Hnd&Hkeys&->).
    assert (kvs ≠ []) as Hne. { intros ->. specialize (Hkeys "rule" ltac:(by left)). by apply elem_of_nil in Hkeys. }
    apply bind_Some. exists (join_with ":" (component_text <$> kvs)). split; [by apply after_prefix_spec|].
    assert (split_on ":"%char (join_with ":" (component_text <$> kvs)) = component_text <$> kvs) as Hsplit.
    { apply split_join_with; [by destruct kvs|]. apply Forall_fmap. eapply Forall_impl; [exact Hall|]. apply component_plain. }
    destruct (String.eqb_spec (join_with ":" (component_text <$> kvs)) "") as [Hempty|_].
    { rewrite Hempty in Hsplit. destruct kvs as [|[k v] kvs]; [done|]. injection Hsplit as Hkv _. by destruct k. }
    rewrite Hsplit. apply bind_Some. exists (list_to_map kvs). split.
    + apply components_spec. exists kvs. split_and!; [done| |done|done|by rewrite (right_id_L ∅ (∪))].
      eapply Forall_impl; [exact Hall|]. by intros kv (?&?&_).
    + by rewrite (proj2 (Hreq kvs) Hkeys).
Qed.

(** C31: A policy is served only by the algorithm it names: the canonical identity of
    the strategy, or, for the mean of tokens, a frozen baseline whose rule is that
    strategy's and whose model and tokenizer are this daemon's. *)
Theorem policy_names_the_algorithm declared strategy model :
  accepted_by_strategy declared strategy model = true ↔
  policy_id_of strategy = Some declared ∨
  (strategy = SCORING_STRATEGY_MEAN_TOKEN ∧ ∃ parts, declared = frozen_text parts ∧ Forall component_ok parts ∧ NoDup parts.*1 ∧
    ("rule", MEAN_TOKEN_POLICY_ID) ∈ parts ∧ ("model", model) ∈ parts ∧ ("tokenizer", model) ∈ parts).
Proof.
  unfold accepted_by_strategy. split.
  - destruct (policy_id_of strategy) as [accepted|] eqn:Hp; [|done]. destruct (String.eqb_spec declared accepted) as [->|_]; [by left|].
    destruct (String.eqb_spec strategy SCORING_STRATEGY_MEAN_TOKEN) as [->|]; [|done]. cbn [negb].
    destruct (parse_frozen_baseline_id declared) as [m|] eqn:Hm; [|done]. rewrite !andb_true_iff, !bool_decide_eq_true.
    intros [[Hrule Hmodel] Htok]. right. split; [done|]. apply frozen_identity_parts in Hm as (parts&->&Hall&Hnd&_&->).
    exists parts. split_and!; [done..| | |]; by apply elem_of_list_to_map_2.
  - intros [->|(->&parts&->&Hall&Hnd&Hrule&Hmodel&Htok)]; [by rewrite String.eqb_refl|]. cbn [policy_id_of].
    rewrite String.eqb_refl. cbn [negb].
    assert (parse_frozen_baseline_id (frozen_text parts) = Some (list_to_map parts)) as ->.
    { apply frozen_identity_parts. exists parts. split_and!; [done..| |done].
      intros k [->|[->|[->|?%elem_of_nil]%elem_of_cons]%elem_of_cons]%elem_of_cons; [..|done];
        [exact (list_elem_of_fmap_2 fst _ _ Hrule)|exact (list_elem_of_fmap_2 fst _ _ Hmodel)|exact (list_elem_of_fmap_2 fst _ _ Htok)]. }
    rewrite !bool_decide_true by (by apply elem_of_list_to_map_1). by repeat case_match.
Qed.

(** ** Attribution and scores *)

Lemma boundary_spec tk tail ids ks k : boundary tk tail ids ks = Some k →
  ∃ before after, ks = before ++ k :: after ∧ tk_decode tk (take k ids) = tail ∧
    ∀ j, j ∈ before → tk_decode tk (take j ids) ≠ tail.
Proof.
  induction ks as [|j ks IH]; [done|]. simpl. destruct (String.eqb_spec (tk_decode tk (take j ids)) tail) as [Heq|Hne].
  - intros [= <-]. exists [], ks. split_and!; [done|done|by intros j' ?%elem_of_nil].
  - intros (before&after&->&Hk&Hall)%IH. exists (j :: before), after. split_and!; [done|done|].
    intros j' [->|Hj]%elem_of_cons; [done|by apply Hall].
Qed.

(** What a plan proves: the target tokens decode to the candidate, the tokens
    before them to the tail, and no shorter prefix does. *)
Record attributed (tk : tokenizer) (tail candidate : string) (p : token_plan) : Prop := {
  at_ids : pl_ids p = tk_encode tk (tail +:+ candidate);
  at_whole : tk_decode tk (pl_ids p) = tail +:+ candidate;
  at_target : tk_decode tk (drop (pl_start p) (pl_ids p)) = candidate;
  at_tail : tail = "" ∧ pl_start p = 0%nat ∨ tail ≠ "" ∧ (0 < pl_start p)%nat ∧ tk_decode tk (take (pl_start p) (pl_ids p)) = tail ∧
            ∀ j, (0 < j < pl_start p)%nat → tk_decode tk (take j (pl_ids p)) ≠ tail;
  at_count : (pl_start p + pl_count p = length (pl_ids p))%nat ∧ (0 < pl_count p)%nat }.

Lemma plan_attributed tk tail candidate p : candidate_scoring_plan tk tail candidate = Ok p → attributed tk tail candidate p.
Proof.
  unfold candidate_scoring_plan. set (ids := tk_encode tk (tail +:+ candidate)).
  destruct (String.eqb_spec candidate ""); [done|]. case_bool_decide as Hne; [done|].
  destruct (String.eqb_spec (tk_decode tk ids) (tail +:+ candidate)) as [Hw|]; [|done]. cbn [negb].
  assert (0 < length ids)%nat as Hlen by (destruct ids; [done|simpl; lia]).
  destruct (String.eqb_spec tail "") as [->|Htail].
  - destruct (String.eqb_spec (tk_decode tk ids) candidate) as [Hc|]; [|done]. cbn [negb]. intros [= <-].
    split; simpl; [done|done|done|by left|lia].
  - destruct (boundary _ _ _ _) as [k|] eqn:Hb; [|done]. destruct (Nat.eqb_spec k (length ids)) as [|Hk]; [done|].
    destruct (String.eqb_spec (tk_decode tk (drop k ids)) candidate) as [Hc|]; [|done]. cbn [negb]. intros [= <-].
    apply boundary_spec in Hb as (before&after&Hseq&Hdec&Hmin).
    assert (k ∈ seq 1 (length ids)) as Hin by (rewrite Hseq; apply elem_of_app; right; by left). apply elem_of_seq in Hin.
    split; simpl; [done|done|done| |lia]. right. split_and!; [done|lia|done|].
    intros j Hj. apply Hmin. assert (j ∈ seq 1 (length ids)) as Hjin by (apply elem_of_seq; lia).
    assert (StronglySorted lt (seq 1 (length ids))) as Hsort.
    { generalize 1%nat, (length ids). clear. intros s n. revert s. induction n as [|n IH]; intros s; [constructor|].
      simpl. constructor; [apply IH|]. apply Forall_forall. intros x Hx%elem_of_seq. lia. }
    rewrite Hseq in Hjin, Hsort. apply elem_of_app in Hjin as [?|Hjin]; [done|exfalso].
    apply StronglySorted_app in Hsort as (_&_&Hsort). apply elem_of_cons in Hjin as [->|Hjin]; [lia|].
    apply StronglySorted_inv in Hsort as [_ Hsort]. rewrite Forall_forall in Hsort. specialize (Hsort j Hjin). lia.
Qed.

Lemma add_logps_spec logp positions total s : add_logps logp positions total = Ok s ↔
  ∃ xs, Forall2 (λ i x, logp i = Ok x ∧ is_finite x = true) positions xs ∧ s = foldl fadd total xs.
Proof.
  revert total. induction positions as [|i l IH]; intros total; simpl.
  - split; [intros [= <-]; by exists []|]. by intros (xs&->%Forall2_nil_inv_l&->).
  - split.
    + intros (x&Hx&Hr)%bind_Ok. destruct (is_finite x) eqn:Hf; [|done]. apply IH in Hr as (xs&Hall&->).
      exists (x :: xs). split; [by constructor|done].
    + intros (xs&Hall&->). inversion Hall as [|? x ? xs' [Hx Hf] Hrest]; subst. rewrite Hx. cbn [mbind result_bind]. rewrite Hf.
      apply IH. by exists xs'.
Qed.

(** The score of a candidate: the mean of the log probabilities of its tokens. *)
Definition mean_of (prefix : option (Z → float)) (lp : nat → Z → float) (p : token_plan) (s : float) : Prop :=
  is_finite s = true ∧ ∃ xs, length xs = pl_count p ∧ s = fdiv (foldl fadd fzero xs) (float_of_Z (Z.of_nat (pl_count p))) ∧
    ∀ j x, xs !! j = Some x → is_finite x = true ∧ ∃ token, pl_ids p !! (pl_start p + j)%nat = Some token ∧
      match (pl_start p + j)%nat, prefix with
      | O, Some f => x = f token
      | O, None => False
      | S before, _ => x = lp before token
      end.

Lemma mean_score_spec prefix lp p s : mean_score prefix lp p = Ok s → mean_of prefix lp p s.
Proof.
  unfold mean_score. destruct (pl_count p =? 0)%nat; [done|]. intros (total&Ht&Hs)%bind_Ok. apply add_logps_spec in Ht as (xs&Hall&->).
  destruct (is_finite (fdiv _ _)) eqn:Hf; [|done]. injection Hs as <-. split; [done|]. exists xs. split_and!; [|done|].
  - by rewrite <- (Forall2_length _ _ _ Hall), length_seq.
  - intros j x Hx. destruct (Forall2_lookup_r _ _ _ _ _ Hall Hx) as (i&[-> _]%lookup_seq&Hi&Hfx). split; [done|].
    unfold target_logp in Hi. destruct (pl_ids p !! (pl_start p + j)%nat) as [token|]; [|done]. exists token. split; [done|].
    destruct (pl_start p + j)%nat; [destruct prefix|]; [by injection Hi as <-|done|by injection Hi as <-].
Qed.

Lemma target_logp_in_range prefix lp ids i : (i < length ids)%nat → (i = 0%nat → prefix ≠ None) → ∃ x, target_logp prefix lp ids i = Ok x.
Proof.
  intros Hi H0. unfold target_logp. destruct (lookup_lt_is_Some_2 ids i Hi) as [token ->].
  destruct i; [destruct prefix; [by eexists|by destruct (H0 eq_refl)]|by eexists].
Qed.

Lemma mean_score_guarded prefix lp p tk tail c : attributed tk tail c p → (tail = "" → prefix ≠ None) →
  mean_score prefix lp p ≠ Err TokenAttributionError.
Proof.
  intros Hp Hprefix. destruct (at_count _ _ _ _ Hp) as [Hlen Hpos]. unfold mean_score.
  destruct (Nat.eqb_spec (pl_count p) 0); [lia|].
  assert (∀ total positions, (∀ i, i ∈ positions → (pl_start p <= i < length (pl_ids p))%nat) →
    add_logps (target_logp prefix lp (pl_ids p)) positions total ≠ Err TokenAttributionError) as Hadd.
  { intros total positions. revert total. induction positions as [|i l IH]; intros total Hall; [done|]. simpl.
    destruct (target_logp_in_range prefix lp (pl_ids p) i) as [x ->].
    - apply Hall. by left.
    - intros ->. apply Hprefix. specialize (Hall 0%nat ltac:(by left)). destruct (at_tail _ _ _ _ Hp) as [[? _]|(_&?&_)]; [done|lia].
    - cbn [mbind result_bind]. destruct (is_finite x); [|done]. apply IH. intros j Hj. apply Hall. by right. }
  specialize (Hadd fzero (seq (pl_start p) (pl_count p))). destruct (add_logps _ _ _) as [total|e]; cbn [mbind result_bind].
  - by destruct (is_finite _).
  - intros [= ->]. apply Hadd; [|done]. intros i Hi%elem_of_seq. lia.
Qed.

(** What [model_score] computes for the mean of tokens, in the order it does. *)
Lemma score_mean_eq tk fw window context candidates : candidates ≠ [] →
  ∃ prefix_ids, (anchor_of tk ≠ None → (split_tail (window_context context window)).2 = "" → prefix_ids ≠ []) ∧
  model_score tk fw None SCORING_STRATEGY_MEAN_TOKEN window context candidates =
    match anchor_of tk with
    | None => Err TokenAttributionError
    | Some _ =>
        plans ← mapM (candidate_scoring_plan tk (split_tail (window_context context window)).2) candidates;
        padded ← mapM (padded_row (pad_of tk) (foldr max 0%nat (length <$> (pl_ids <$> plans)))) (pl_ids <$> plans);
        mean_token_scores (if bool_decide (prefix_ids = []) then None else Some (fw_prefix fw prefix_ids))
          (fw_suffix fw prefix_ids padded) plans
    end.
Proof.
  intros Hne. unfold model_score. cbn [mbind result_bind]. rewrite bool_decide_false by done.
  destruct (split_tail (window_context context window)) as [prefix_text tail]. simpl snd.
  rewrite String.eqb_refl. destruct (anchor_of tk) as [a|]; [|by exists []]. cbn [mbind result_bind].
  eexists. split; [|reflexivity]. intros _ ->. rewrite String.eqb_refl, andb_true_r. by case_bool_decide.
Qed.

Lemma mapM_lookup {E A C} (f : A → result E C) l k i a : mapM f l = Ok k → l !! i = Some a → ∃ c, k !! i = Some c ∧ f a = Ok c.
Proof. rewrite mapM_Forall2. intros Hall Hi. by apply (Forall2_lookup_l _ _ _ _ _ Hall Hi). Qed.

Lemma mapM_first_error {E A C} (f : A → result E C) l e : mapM f l = Err e → ∃ a, a ∈ l ∧ f a = Err e.
Proof.
  induction l as [|a l IH]; [done|]. simpl. destruct (f a) as [c|e'] eqn:Ha; cbn [mbind result_bind].
  - destruct (mapM f l) as [k|e'] eqn:Hl; cbn [mbind result_bind]; [done|]. intros [= ->]. destruct (IH eq_refl) as (x&?&?).
    exists x. split; [by right|done].
  - intros [= ->]. exists a. split; [by left|done].
Qed.

(** A score is the mean log probability of exactly the tokens of its candidate:
    one finite score per candidate, over tokens that decode to the candidate and to
    nothing else, each conditioned on the tokens before it; padding is never
    read. *)
Theorem scores_cover_their_candidates tk fw window context candidates scores :
  model_score tk fw None SCORING_STRATEGY_MEAN_TOKEN window context candidates = Ok scores →
  length scores = length candidates ∧
  ∃ prefix_ids rows, ∀ i c s, candidates !! i = Some c → scores !! i = Some s →
    ∃ p, attributed tk (split_tail (window_context context window)).2 c p ∧
      mean_of (if bool_decide (prefix_ids = []) then None else Some (fw_prefix fw prefix_ids)) (fw_suffix fw prefix_ids rows i) p s.
Proof.
  destruct (decide (candidates = [])) as [->|Hne].
  { unfold model_score. cbn [mbind result_bind]. rewrite bool_decide_true by done. intros [= <-]. split; [done|]. by exists [], []. }
  destruct (score_mean_eq tk fw window context candidates Hne) as (prefix_ids&_&->). destruct (anchor_of tk); [|done].
  intros (plans&Hplans&Hs)%bind_Ok. apply bind_Ok in Hs as (rows&_&Hs). unfold mean_token_scores in Hs.
  pose proof (Forall2_length _ _ _ (proj1 (mapM_Forall2 _ _ _) Hplans)) as Hl1.
  pose proof (Forall2_length _ _ _ (proj1 (mapM_Forall2 _ _ _) Hs)) as Hl2. rewrite length_imap in Hl2. split; [congruence|].
  exists prefix_ids, rows. intros i c s Hc Hi. destruct (mapM_lookup _ _ _ _ _ Hplans Hc) as (p&Hp&Hplan).
  exists p. split; [by apply plan_attributed|].
  assert (imap pair plans !! i = Some (i, p)) as Himap by (rewrite list_lookup_imap, Hp; done).
  destruct (mapM_lookup _ _ _ _ _ Hs Himap) as (s'&Hs'&Hscore). assert (s' = s) as -> by congruence. by apply mean_score_spec.
Qed.

(** Nothing but the tokenizer makes attribution fail: the mean of tokens refuses
    a request for its tokens only when the tokenizer has no anchor or some
    candidate's boundary cannot be proven; the guards of the reduction never
    trigger. *)
Theorem attribution_fails_only_in_the_plan tk fw window context candidates :
  model_score tk fw None SCORING_STRATEGY_MEAN_TOKEN window context candidates = Err TokenAttributionError →
  anchor_of tk = None ∨
  ∃ c, c ∈ candidates ∧ candidate_scoring_plan tk (split_tail (window_context context window)).2 c = Err TokenAttributionError.
Proof.
  destruct (decide (candidates = [])) as [->|Hne]; [done|].
  destruct (score_mean_eq tk fw window context candidates Hne) as (prefix_ids&Hprefix&->).
  destruct (anchor_of tk) as [a|]; [|by left]. specialize (Hprefix ltac:(done)). set (tail := (split_tail _).2) in *.
  destruct (mapM (candidate_scoring_plan tk tail) candidates) as [plans|e] eqn:Hplans; cbn [mbind result_bind].
  - destruct (mapM _ (pl_ids <$> plans)) as [rows|e] eqn:Hrows; cbn [mbind result_bind].
    + intros Herr. exfalso. unfold mean_token_scores in Herr. apply mapM_first_error in Herr as ([i p]&Hin&Herr).
      apply list_elem_of_lookup in Hin as [j Hj]. rewrite list_lookup_imap in Hj. apply fmap_Some in Hj as (p'&Hp&[= -> ->]).
      apply mapM_Forall2 in Hplans. destruct (Forall2_lookup_r _ _ _ _ _ Hplans Hp) as (c&_&Hc).
      eapply mean_score_guarded; [by apply plan_attributed| |exact Herr]. intros Htail. by rewrite bool_decide_false by auto.
    + intros [= ->]. apply mapM_first_error in Hrows as (row&_&Hrow). unfold padded_row in Hrow.
      destruct (_ =? _)%nat; [done|]. by destruct (pad_of tk).
  - intros [= ->]. right. by apply mapM_first_error in Hplans.
Qed.

(** ** Framing *)

Lemma unframe_text framed text : unframe framed = ReadText text ↔
  framed = text +:+ String LF "" ∧ LF ∉ list_ascii_of_string text ∧ decodes text = true.
Proof.
  unfold unframe. destruct (String.eqb_spec framed "") as [->|Hne].
  { split; [done|]. intros [Heq _]. by destruct text. }
  destruct (split_on_pieces LF framed) as (Hall&Hjoin&_). split.
  - destruct (split_on LF framed) as [|w [|[|] [|]]]; try done. destruct (decodes w) eqn:Hd; [|done]. intros [= <-].
    apply Forall_cons in Hall as [Hw _]. split_and!; [|done|done]. rewrite <- Hjoin. done.
  - intros (->&Hlf&Hd). rewrite split_on_app by done. simpl. by rewrite Hd.
Qed.

Lemma recv_loop_chunks chunks rest received : Forall (λ s, s ≠ "") chunks →
  recv_loop ((Chunk <$> chunks) ++ Chunk "" :: rest) received =
  if (String.length received <=? MAX_REQUEST_BYTES)%nat then
    if (MAX_REQUEST_BYTES <? String.length (received +:+ concat_str chunks))%nat then ReadError else unframe (received +:+ concat_str chunks)
  else recv_loop ((Chunk <$> chunks) ++ Chunk "" :: rest) received.
Proof.
  intros Hall. revert received. induction Hall as [|s chunks Hs Hall IH]; intros received; destruct (Nat.leb_spec (String.length received) MAX_REQUEST_BYTES) as [Hle|]; try done.
  - simpl. rewrite str_app_nil. by rewrite (proj2 (Nat.ltb_ge _ _) Hle).
  - cbn [fmap list_fmap app recv_loop]. rewrite (proj2 (String.eqb_neq s "") Hs).
    assert (String.length (received +:+ concat_str (s :: chunks)) = String.length received + String.length s + String.length (concat_str chunks))%nat as Hlen.
    { simpl. rewrite !str_length_app. lia. }
    destruct (Nat.ltb_spec MAX_REQUEST_BYTES (String.length received + String.length s)) as [Hlt|Hge].
    + rewrite (proj2 (Nat.ltb_lt _ _)); [done|lia].
    + rewrite IH. rewrite str_length_app, (proj2 (Nat.leb_le _ _) Hge). simpl concat_str. by rewrite str_app_assoc.
Qed.

(** The framing does not depend on how the bytes arrive: whatever the chunks, a
    connection that is closed in time is read as the concatenation would be, and
    refused exactly when it is longer than a request may be. *)
Theorem framing_ignores_chunks chunks rest : Forall (λ s, s ≠ "") chunks →
  read_request ((Chunk <$> chunks) ++ Chunk "" :: rest) =
    (if (MAX_REQUEST_BYTES <? String.length (concat_str chunks))%nat then ReadError else unframe (concat_str chunks)) ∧
  ∀ text, read_request ((Chunk <$> chunks) ++ Chunk "" :: rest) = ReadText text ↔
    concat_str chunks = text +:+ String LF "" ∧ LF ∉ list_ascii_of_string text ∧ decodes text = true ∧
    (String.length text < MAX_REQUEST_BYTES)%nat.
Proof.
  intros Hall. assert (read_request ((Chunk <$> chunks) ++ Chunk "" :: rest) =
    (if (MAX_REQUEST_BYTES <? String.length (concat_str chunks))%nat then ReadError else unframe (concat_str chunks))) as Heq.
  { unfold read_request. by rewrite recv_loop_chunks. }
  split; [done|]. intros text. rewrite Heq.
  destruct (Nat.ltb_spec MAX_REQUEST_BYTES (String.length (concat_str chunks))) as [Hlt|Hge].
  - split; [done|]. intros (Hc&_&_&Hlen). rewrite Hc, str_length_app in Hlt. simpl in Hlt. lia.
  - rewrite unframe_text. split; [intros (Hc&?&?)|by intros (?&?&?&_)]. split_and!; [done..|].
    rewrite Hc, str_length_app in Hge. simpl in Hge. lia.
Qed.
