(* ===== verification/ServerDemo.v ===== *)
(** * A small scoring server

    A tokenizer of single bytes, a model with constant log probabilities, the
    evidence service of [EvidenceDemo] and a serving coordinator: the witnesses of
    [ServerTheorems], and what the server does not promise. *)

From Stdlib Require Import SpecFloat Ascii String.
From stdpp Require Import base list strings gmap sorting relations.
From S2P Require Import Prelude Bytes Float64 PyJson Facts TextMatch Oracle OracleTheorems Derived Build Coordinator Delta DeltaDemo OracleDemo BuildDemo Evidence EvidenceTheorems EvidenceDemo Adapter Server ServerTheorems.
Open Scope Z_scope.

(** ** The model *)

Definition byte_tokenizer : tokenizer :=
  Tokenizer (λ s, Z.of_N ∘ N_of_ascii <$> list_ascii_of_string s)
    (λ l, string_of_list_ascii (ascii_of_N ∘ Z.to_N <$> l)) (Some 0) None.
Definition flat_model : forward := Forward (λ _ _, float_of_Z (-1)) (λ _ _ _ _ _, float_of_Z (-3)).
Definition demo_score (context : string) (candidates : list string) : result score_exn json :=
  l ← model_score byte_tokenizer flat_model None SCORING_STRATEGY_MEAN_TOKEN CONTEXT_WINDOW context candidates; Ok (JList (JFloat <$> l)).

Definition two_scores : list float := [float_of_Z (-3); float_of_Z (-3)].
Example demo_scores : model_score byte_tokenizer flat_model None SCORING_STRATEGY_MEAN_TOKEN CONTEXT_WINDOW "before" ["you"; "me"] = Ok two_scores.
Proof. vm_compute. reflexivity. Qed.

Lemma scores_cover_witness : length two_scores = 2%nat ∧ ∃ p, attributed byte_tokenizer "fore" "you" p ∧ pl_start p = 4%nat.
Proof.
  destruct (scores_cover_their_candidates byte_tokenizer flat_model CONTEXT_WINDOW "before" ["you"; "me"] two_scores) as (Hl&prefix&rows&Hall).
  - vm_compute. reflexivity.
  - split; [exact Hl|]. destruct (Hall 0%nat "you" (float_of_Z (-3)) eq_refl eq_refl) as (p&Hp&_). exists p. split; [exact Hp|].
    destruct (at_tail _ _ _ _ Hp) as [[? _]|(_&Hpos&Ht&_)]; [discriminate|]. rewrite (at_ids _ _ _ _ Hp) in Ht.
    assert (∀ k : nat, (k <= 7)%nat → tk_decode byte_tokenizer (take k (tk_encode byte_tokenizer "foreyou")) = "fore" → k = 4%nat) as Hk.
    { intros k Hk. do 8 (destruct k as [|k]; [by vm_compute|]). lia. }
    apply Hk; [|exact Ht]. pose proof (proj1 (at_count _ _ _ _ Hp)) as Hc. rewrite (at_ids _ _ _ _ Hp) in Hc.
    change (length (tk_encode byte_tokenizer _)) with 7%nat in Hc. lia.
Defined.

(** A tokenizer that merges the last character of the tail with the candidate. *)
Definition merging_tokenizer : tokenizer :=
  Tokenizer (λ s, if String.eqb s "ab" then [1] else []) (λ l, if bool_decide (l = [1]) then "ab" else "") (Some 0) None.
Lemma attribution_witness : anchor_of merging_tokenizer = None ∨
  ∃ c, c ∈ ["b"] ∧ candidate_scoring_plan merging_tokenizer "a" c = Err TokenAttributionError.
Proof. apply (attribution_fails_only_in_the_plan merging_tokenizer flat_model CONTEXT_WINDOW "a" ["b"]). vm_compute. reflexivity. Defined.

(** ** Requests *)

Definition scoring_json : json :=
  JObj [("version", JInt 2); ("request_id", JStr "r1"); ("plan_identity", JStr "p1"); ("baseline_policy_id", JStr MEAN_TOKEN_POLICY_ID);
        ("context", JStr "before"); ("candidates", JList [JStr "you"; JStr "me"])].
Definition evidence_json (candidates trial : json) : json :=
  JObj [("version", JInt 2); ("kind", JStr EVIDENCE_KIND); ("request_id", JStr "r1"); ("plan_identity", JStr "p1");
        ("schema_id", JStr "luna_pinyin"); ("category", JStr "abc"); ("canonical_segment_input", JStr "ni hao");
        ("preceding_text", JStr "before"); ("candidates", candidates); ("config_identity", JStr (sv_identity demo_service));
        ("fact_high_water", demo_water); ("trial", trial)].
Definition pair_json : json := JList [JStr "text"; JStr "other"].
Definition huge_trial : json := JObj [("actionable", JBool true); ("base_scores", JList [JInt (2 ^ 1024); JInt 0])].

Definition health_json : json := JObj [("version", JInt 2); ("request_id", JStr "r1"); ("kind", JStr "health")].

(** The decoder knows the values of the examples. *)
Definition demo_known : list (string * json) :=
  [("scoring", scoring_json); ("evidence", evidence_json pair_json JNull); ("huge", evidence_json pair_json huge_trial);
   ("number", evidence_json (JInt 5) JNull); ("health", health_json)].
#[export] Instance demo_decoder : JsonDecoder :=
  {| raw_decode s := match List.find (λ kv, String.eqb kv.1 s) demo_known with Some kv => Ok (kv.2, String.length s) | None => Err NotJson end |}.

Definition demo_state : server_state fixture :=
  ServerState SCORING_STRATEGY_MEAN_TOKEN "/models/qwen" "" true CONTEXT_WINDOW demo_score (Some demo_service) true None "" None.
Definition no_file : adapter_file := AdapterFile false false None None.
Definition no_adapter : adapter_dir := AdapterDir (Some "/") false false no_file no_file ConfigUnreadable.
Definition serving_env : handler_env fixture (list float) := HandlerEnv (Some init_coord) (Some false) plane_m2 demo_env no_adapter.
(** An adapter directory whose weights cannot be read. *)
Definition unreadable_adapter : adapter_dir :=
  AdapterDir (Some "/adapter") true false (AdapterFile true false None (Some 5)) no_file ConfigUnreadable.
Definition adapter_state : server_state fixture :=
  ServerState SCORING_STRATEGY_MEAN_TOKEN "/models/qwen" "" true CONTEXT_WINDOW demo_score (Some demo_service) true None "/adapter" None.
Definition adapter_env : handler_env fixture (list float) :=
  HandlerEnv (Some init_coord) (Some false) plane_m2 demo_env unreadable_adapter.
Definition quiesced_env : handler_env fixture (list float) := HandlerEnv (Some (with_state Prepared init_coord)) (Some false) plane_m2 demo_env no_adapter.
Definition asks (data : string) : connection := Connection [Chunk data; Chunk (String LF ""); Chunk ""] SendOk true.

Definition scored : reply := ScoreReply "r1" "p1" (JFloat <$> two_scores).
Example a_scoring_connection : serve_scoring_connection demo_state serving_env (asks "scoring") =
  [EBegin true; EScore; ESink; ESend scored true; EComplete].
Proof. vm_compute. reflexivity. Qed.
Example a_quiesced_connection : serve_scoring_connection demo_state quiesced_env (asks "scoring") =
  [EBegin false; ESend (ErrorReply "maintenance_in_progress" "maintenance" true (Some ("r1", "p1"))) true].
Proof. vm_compute. reflexivity. Qed.

(** ** The theorems on it *)

Definition serving_sys : csys := CSys (with_requests 1 init_coord) (<[1%nat := TServe]> (λ _, TIdle)) ∅ ∅.
Definition preparing_sys : csys :=
  CSys (default init_coord (prepare_enter "op-1" 0 (y_c serving_sys))) (<[0%nat := PWait]> (y_t serving_sys)) ∅ ∅.

(** Maintenance begins while the request is being scored. *)
Lemma demo_follows : follows 1 [EBegin true] demo_coord preparing_sys.
Proof.
  eapply follows_begin; [reflexivity|reflexivity|]. eapply (follows_other _ _ serving_sys preparing_sys); [|reflexivity|apply follows_nil].
  apply (coord_thread 0 _ _ ∅ ∅ PWait _ ∅ ∅). eapply s_prepare. reflexivity.
Qed.

Lemma no_work_witness : m_state (y_c preparing_sys) ≠ Prepared.
Proof.
  apply (no_work_while_prepared demo_state serving_env (asks "scoring") 1 demo_coord preparing_sys [EBegin true] EScore
    [ESink; ESend scored true; EComplete]).
  - exists demo_coord. split; [apply demo_coord_init|apply rtc_refl].
  - reflexivity.
  - by eexists.
  - vm_compute. reflexivity.
  - reflexivity.
  - exact demo_follows.
Defined.

Lemma lease_witness : ∃ pre, serve_scoring_connection demo_state serving_env (asks "scoring") = pre ++ [EComplete] ∧ EBegin true ∈ pre.
Proof.
  destruct (lease_completed_after_reply demo_state serving_env (asks "scoring")) as [_ Hlast]; [by eexists|].
  exists [EBegin true; EScore; ESink; ESend scored true]. split; [vm_compute; reflexivity|].
  destruct (Hlast [EBegin true; EScore; ESink; ESend scored true] []) as (_&Hin&_); [vm_compute; reflexivity|exact Hin].
Defined.

Lemma answers_witness : answers demo_state serving_env "scoring" scored.
Proof. apply (results_answer_their_request demo_state serving_env "scoring" [EBegin true; EScore; ESink]). vm_compute. reflexivity. Defined.

(** A trial score that no float can hold, and a health report of an adapter whose
    weights cannot be read. *)
Lemma handler_raises_witness :
  handle_request demo_state serving_env "huge" = ([], Err HandlerException) ∧
  handle_request adapter_state adapter_env "health" = ([], Err HandlerException) ∧
  trial_of (evidence_json pair_json huge_trial) 2 = Err TrialRaises ∧ adapter_unreadable unreadable_adapter.
Proof.
  assert (handle_request adapter_state adapter_env "health" = ([], Err HandlerException)) as Hhealth
    by (vm_compute; reflexivity).
  split; [vm_compute; reflexivity|]. split; [exact Hhealth|]. split; [vm_compute; reflexivity|].
  destruct (handler_raises_only adapter_state adapter_env "health" [] HandlerException) as [_ [Hd|[(m&_&_&_&_&Hu)|(v&rq&Hd&Hrq&_)]]].
  - discriminate.
  - exact Hhealth.
  - discriminate Hd.
  - exact Hu.
  - exfalso. assert (v = health_json) as -> by (vm_compute in Hd; injection Hd as <-; reflexivity).
    vm_compute in Hrq. discriminate Hrq.
Defined.

Lemma framing_witness : read_request [Chunk "ab"; Chunk (String LF ""); Chunk ""; RecvTimeout] = ReadText "ab".
Proof.
  apply (framing_ignores_chunks ["ab"; String LF ""] [RecvTimeout]); [repeat constructor; discriminate|].
  split_and!; [reflexivity| |reflexivity|]; [apply (bool_decide_unpack _); vm_compute; reflexivity|].
  apply Nat.ltb_lt. vm_compute. reflexivity.
Defined.

(** ** What the server does not promise *)

(** A request whose trial cannot be checked gets a transport error instead of
    [invalid_request], and no trace. *)
Example huge_is_a_transport_error : serve_scoring_connection demo_state serving_env (asks "huge") = [ESend (transport_error false) true].
Proof. vm_compute. reflexivity. Qed.

(** A health request of a daemon whose adapter cannot be read gets a transport
    error instead of a report. *)
Example health_is_a_transport_error :
  serve_scoring_connection adapter_state adapter_env (asks "health") = [ESend (transport_error false) true].
Proof. vm_compute. reflexivity. Qed.

(** A malformed request whose candidates are a number leaves no trace. *)
Example number_leaves_no_trace : serve_scoring_connection demo_state serving_env (asks "number") =
  [ESend (ErrorReply "invalid_request" "validate" false None) true].
Proof. vm_compute. reflexivity. Qed.

(** A publish between the comparison of identities and the gate: the answer names
    the identity that was compared, with evidence of another representation. *)
Definition other_fixture : fixture := Fixture "other" (fx_query demo_fixture) (fx_event demo_fixture) north east.
Definition switched_snapshot : snapshot fixture (list float) :=
  Snapshot (sn_epoch plane_snapshot) "g1" "other" 2 (sn_consumed plane_snapshot) (sn_events plane_snapshot)
    (sn_source plane_snapshot) (sn_vectors plane_snapshot) 1 other_fixture.
Definition switching_env : handler_env fixture (list float) :=
  HandlerEnv (Some init_coord) (Some false) plane_m2 (ServeEnv true (Ok (Serve switched_snapshot)) (λ _, empty_rows) (at_rest demo_db1)) no_adapter.
Example identity_race :
  (match (handle_request demo_state switching_env "evidence").2 with
   | Ok (EvidenceReply _ _ config _ _) => Some config
   | _ => None
   end) = Some (sv_identity demo_service) ∧
  compose_config_identity (sn_repr switched_snapshot) (sv_params demo_service) (sv_gamma demo_service) None None ≠ Ok (sv_identity demo_service).
Proof. split; [vm_compute; reflexivity|]. vm_compute. discriminate. Qed.

(** A frozen baseline of this daemon's model. *)
Example frozen_is_accepted :
  accepted_by_strategy "frozen-baseline-v1:rule=mean-token-lm-v1:model=qwen:tokenizer=qwen:alpha=0.5" SCORING_STRATEGY_MEAN_TOKEN
    (model_identity demo_state) = true ∧
  accepted_by_strategy "frozen-baseline-v1:rule=mean-token-lm-v1:model=qwen:tokenizer=gpt" SCORING_STRATEGY_MEAN_TOKEN
    (model_identity demo_state) = false.
Proof. vm_compute. done. Qed.
