(* ===== verification/Control.v ===== *)
(** * The maintenance control socket: [src/daemon/control.py]

    One connection carries one maintenance lease: the server reads lines, hands
    [prepare], [lease] and [reopen] to the coordinator, remembers the operation it
    holds the lease of, and reports the lease lost when the connection ends while
    it still does.  A connection is a function of the lines it receives and of
    what the coordinator answers; it returns what it did, in order.  The client
    is over a channel that takes a line and gives one back.  [drives] runs a
    connection among the threads of [Coordinator].  The text of JSON is a
    parameter. *)

From Stdlib Require Import Ascii String.
From stdpp Require Import base list strings gmap.
From S2P Require Import Prelude PyJson OpRecord OpStore RecordingGap MaintLock TextMatch Coordinator Server.
Open Scope Z_scope.

(** [json.loads] on a decoded line and [json.dumps]. *)
Class JsonLines := { json_loads : string → result decode_exn json; json_dumps : json → string }.

Definition CONTROL_VERSION : Z := 1.

(** [str.isalnum] of one character; in ASCII, the letters and digits. *)
Class CharClass := { isalnum : string → bool }.

Section identifiers.
Context `{CharClass}.

Definition operation_id_char (c : string) : bool := isalnum c || String.eqb c "-" || String.eqb c "_".
Definition _valid_operation_id (v : json) : bool :=
  match v with
  | JStr s => let l := chars s in (1 <=? length l)%nat && (length l <=? 64)%nat && forallb operation_id_char l
  | _ => false
  end.
End identifiers.

(** ** The socket's path *)

Section path.
Variable uid : Z.

(** [before]: the parent when it exists; [made]: what a [mkdir] leaves, [None] when
    it fails. *)
Definition _verify_parent (before made : option fnode) : result string unit :=
  match (match before with Some n => Some n | None => made end) with
  | None => Err "control_root_unavailable"
  | Some n =>
      if bool_decide (n_type n = FLnk) || negb (n_openable n) then Err "control_root_unavailable"
      else if unsafe_dir uid n then Err "control_root_unsafe"
      else Ok tt
  end.

(** What [lstat] says of an entry where the socket goes. *)
Record stale_entry := Stale { se_socket : bool; se_uid : Z; se_mode : Z }.

(** Whether something was unlinked. *)
Definition _remove_stale_socket (o : option stale_entry) : result string bool :=
  match o with
  | None => Ok false
  | Some e =>
      if negb (se_socket e) || negb (se_uid e =? uid) || negb (se_mode e =? 384) then Err "control_socket_unsafe"
      else Ok true
  end.

Definition validate_control_path (before made : option fnode) (o : option stale_entry) : result string bool :=
  match _verify_parent before made with Err e => Err e | Ok _ => _remove_stale_socket o end.
End path.

(** ** Watching for the end of a connection *)

Inductive poll := PollStopped | PollNothing | PollData | PollEof | PollFails.

(** Whether the lease is reported lost. *)
Fixpoint _watch_connection_eof (polls : list poll) : bool :=
  match polls with
  | [] | PollStopped :: _ => false
  | PollNothing :: l | PollData :: l => _watch_connection_eof l
  | PollEof :: _ | PollFails :: _ => true
  end.

(** ** Lines *)

(** [readline] until the end of the stream: each line with its newline, the last
    one perhaps without. *)
Fixpoint readlines (s : string) : list string :=
  match s with
  | EmptyString => []
  | String c s' =>
      if Ascii.eqb c LF then String c "" :: readlines s'
      else match readlines s' with [] => [String c ""] | l :: ls => String c l :: ls end
  end.

(** When the stream fails, the line that was not complete is lost. *)
Definition ends_line (l : string) : bool :=
  match List.rev (list_ascii_of_string l) with c :: _ => Ascii.eqb c LF | [] => false end.
Definition received (bytes : string) (fails : bool) : list string :=
  if fails then List.filter ends_line (readlines bytes) else readlines bytes.

(** ** The server's side of a connection *)

(** A call of the coordinator, a line sent, the lease reported lost, and the
    connection closed. *)
Inductive control_event :=
| CoPrepare (op : string) (expect_unreadable ok : bool)
| CoLease (op : string) (ok : bool)
| CoReopen (op : string) (ok : bool)
| CoSend (p : gap_object) (sent : bool)
| CoLost (op : string)
| CoClose.

Inductive control_call := CallPrepare (op : string) (expect_unreadable : bool) | CallLease (op : string) | CallReopen (op : string).

Definition response_ok (r : gap_object) : bool := truthy (obj_get_or_null "ok" r).
(** [{"version": CONTROL_VERSION, **response}] *)
Definition versioned (r : gap_object) : gap_object :=
  fold_left (λ m kv, obj_set kv.1 kv.2 m) r [("version", JInt CONTROL_VERSION)].
Definition invalid_request : gap_object := [("ok", JBool false); ("code", JStr "invalid_request")].

Section server.
Context `{JsonLines} `{CharClass}.

Definition request_of_line (line : string) : result decode_exn json :=
  if decodes line then json_loads line else Err NotJson.

(** The operation a request names, and its pairs. *)
Definition control_request (v : json) : option (string * gap_object) :=
  match v with
  | JObj m =>
      if py_eq_int (obj_get_or_null "version" m) CONTROL_VERSION && _valid_operation_id (obj_get_or_null "operation_id" m)
      then match obj_get_or_null "operation_id" m with JStr op => Some (op, m) | _ => None end
      else None
  | _ => None
  end.

(** What a request asks of the coordinator. *)
Definition call_of (op : string) (m : gap_object) : option control_call :=
  match obj_get_or_null "action" m with
  | JStr a =>
      if String.eqb a "prepare" then Some (CallPrepare op (truthy (obj_get_or_null "expect_unreadable" m)))
      else if String.eqb a "lease" then Some (CallLease op)
      else if String.eqb a "reopen" then Some (CallReopen op)
      else None
  | _ => None
  end.

(** The call as an event, and the operation whose lease is held after it. *)
Definition call_event (c : control_call) (ok : bool) : control_event :=
  match c with
  | CallPrepare op eu => CoPrepare op eu ok
  | CallLease op => CoLease op ok
  | CallReopen op => CoReopen op ok
  end.
Definition owned_after (own : option string) (c : control_call) (ok : bool) : option string :=
  match c with
  | CallPrepare op _ => if ok then Some op else own
  | CallLease _ => own
  | CallReopen _ => if ok then None else own
  end.

(** [ask n]: what the coordinator answers to the call of line [n]; [sends n]: its
    answer could be written. *)
Variables (ask : nat → control_call → gap_object) (sends : nat → bool).

(** One line: the calls it makes, the operation held, and the answer; [None]: an
    exception the loop lets through. *)
Definition serve_line (n : nat) (own : option string) (line : string) : option (list control_event * option string * gap_object) :=
  match request_of_line line with
  | Err TooDeep => None
  | Err NotJson => Some ([], own, invalid_request)
  | Ok v =>
      match control_request v with
      | None => Some ([], own, invalid_request)
      | Some (op, m) =>
          match call_of op m with
          | None => Some ([], own, invalid_request)
          | Some c => let r := ask n c in Some ([call_event c (response_ok r)], owned_after own c (response_ok r), r)
          end
      end
  end.

Fixpoint control_loop (n : nat) (own : option string) (lines : list string) : list control_event * option string :=
  match lines with
  | [] => ([], own)
  | line :: lines =>
      match serve_line n own line with
      | None => ([], own)
      | Some (evs, own, r) =>
          if sends n
          then let '(l, own) := control_loop (S n) own lines in (evs ++ CoSend (versioned r) true :: l, own)
          else (evs ++ [CoSend (versioned r) false], own)
      end
  end.

(** [peer]: the user behind the connection, [None] when it cannot be told. *)
Definition _serve_connection (peer : option Z) (uid : Z) (bytes : string) (fails : bool) : list control_event :=
  let '(evs, own) := if bool_decide (peer = Some uid) then control_loop 0 None (received bytes fails) else ([], None) in
  evs ++ match own with Some op => [CoLost op] | None => [] end ++ [CoClose].
End server.

(** [run_control_server] after the path was validated: every accepted connection
    gets a thread, until one arrives after [stop] was set.  How many are served,
    and whether the socket's entry is unlinked. *)
Fixpoint accept_loop (stopped : list bool) : nat :=
  match stopped with [] | true :: _ => 0%nat | false :: l => S (accept_loop l) end.
Definition run_control_server (uid : Z) (before made : option fnode) (o : option stale_entry) (stopped : list bool) (exists_after : bool)
    : result string (nat * bool) :=
  match validate_control_path uid before made o with
  | Err e => Err e
  | Ok _ => Ok (accept_loop stopped, exists_after)
  end.

(** ** The client *)

Section client.
Context `{JsonLines} {W : Type}.

(** The open connection: send a line, read one back.  [None]: an [OSError] or
    [ValueError] of either; the empty line: the end of the stream. *)
Variables (connected : W → bool) (exchange : string → W → option string * W).

Definition request_payload (action op : string) (extra : gap_object) : gap_object :=
  fold_left (λ m kv, obj_set kv.1 kv.2 m) extra [("version", JInt CONTROL_VERSION); ("action", JStr action); ("operation_id", JStr op)].
Definition send_text (p : gap_object) : string := json_dumps (JObj p) +:+ String LF "".

Definition valid_response (v : json) : option gap_object :=
  match v with
  | JObj m => if py_eq_int (obj_get_or_null "version" m) CONTROL_VERSION && is_bool (obj_get_or_null "ok" m) then Some m else None
  | _ => None
  end.

(** [Err (Some code)]: [MaintenanceError code]; [Err None]: any other exception. *)
Definition _request (action op : string) (extra : gap_object) (s : W) : result (option string) gap_object * W :=
  if negb (connected s) then (Err (Some "control_unavailable"), s)
  else
  match exchange (send_text (request_payload action op extra)) s with
  | (None, s) | (Some EmptyString, s) => (Err (Some "control_unavailable"), s)
  | (Some line, s) =>
      match (if decodes line then json_loads line else Err NotJson) with
      | Err TooDeep => (Err None, s)
      | Err NotJson => (Err (Some "control_protocol_invalid"), s)
      | Ok v => match valid_response v with Some m => (Ok m, s) | None => (Err (Some "control_protocol_invalid"), s) end
      end
  end.

Definition client_prepare (op : string) (expect_unreadable : bool) (s : W) : result (option string) gap_object * W :=
  _request "prepare" op (if expect_unreadable then [("expect_unreadable", JBool true)] else []) s.
Definition client_reopen (op : string) (s : W) : result (option string) gap_object * W := _request "reopen" op [] s.

(** The code of the error is whatever the answer carries. *)
Definition client_assert_prepared (op : string) (s : W) : result (option json) gap_object * W :=
  match _request "lease" op [] s with
  | (Err None, s) => (Err None, s)
  | (Err (Some code), s) => (Err (Some (JStr code)), s)
  | (Ok m, s) =>
      if negb (response_ok m) || negb (match obj_get_or_null "state" m with JStr t => String.eqb t "prepared" | _ => false end)
      then (Err (Some (default (JStr "control_unavailable") (obj_get "code" m))), s)
      else (Ok m, s)
  end.
End client.
