(* ===== verification/ControlTheorems.v ===== *)
(** * Theorems on the control socket

    [drives] interleaves the events of one connection with the steps of all
    other threads of the coordinator: a connection that has ended strands no
    lease, and a confirmed lease means a quiet daemon.  Every line is answered,
    once; what the client writes is what the server understands; what the client
    returns is an answer of the protocol. *)

From Stdlib Require Import Ascii String.
From stdpp Require Import base list strings gmap.
From S2P Require Import Prelude Bytes PyJson OpRecord OpStore RecordingGap MaintLock TextMatch Coordinator Server Control.
Open Scope Z_scope.

(** ** A connection among the threads of the daemon *)

(** A step of a thread other than [i]. *)
Inductive other_step (i : nat) : relation csys :=
| other_thread j c T L U p' c' L' U' : j ≠ i → thread_step j (T j) c L U p' c' L' U' →
    other_step i (CSys c T L U) (CSys c' (<[j:=p']> T) L' U').

(** The step that answers [ok]: the block that publishes [prepared], the end of a
    recovery that went through. *)
Definition answers_ok (p : tpc) (c : coord) (p' : tpc) : bool :=
  match p, p' with
  | PPublish x, _ => bool_decide (is_Some (prepare_publish x c))
  | RNoDb, TIdle | RPublish _ _, TIdle | XRebuild _, TIdle => true
  | _, _ => false
  end.

(** Thread [i] runs a call of the coordinator to its end; the flag is its answer. *)
Inductive within (i : nat) : bool → csys → csys → Prop :=
| within_done x : y_t x i = TIdle → within i false x x
| within_other ok x y z : other_step i x y → within i ok y z → within i ok x z
| within_own ok c T L U p' c' L' U' z : T i ≠ TIdle → thread_step i (T i) c L U p' c' L' U' →
    within i ok (CSys c' (<[i:=p']> T) L' U') z → within i (answers_ok (T i) c p' || ok) (CSys c T L U) z.

(** [lease_lost] with nothing to do. *)
Definition lost_nothing (op : string) (i : nat) (c : coord) : Prop :=
  m_operation c = Some op → m_lease c = Some i → m_state c ≠ Preparing ∧ m_state c ≠ Prepared.

(** The events of a connection, served by thread [i], whose number is its lease. *)
Inductive drives (i : nat) : list control_event → csys → csys → Prop :=
| drives_nil x : drives i [] x x
| drives_other evs x y z : other_step i x y → drives i evs y z → drives i evs x z
| drives_prepare evs op eu ok c c' T L U y z : T i = TIdle → prepare_enter op i c = Some c' →
    within i ok (CSys c' (<[i:=PWait]> T) L U) y → drives i evs y z → drives i (CoPrepare op eu ok :: evs) (CSys c T L U) z
| drives_refused evs op eu x z : prepare_enter op i (y_c x) = None → drives i evs x z → drives i (CoPrepare op eu false :: evs) x z
| drives_lease evs op x z : drives i evs x z → drives i (CoLease op (assert_prepared op i (y_c x)) :: evs) x z
| drives_reopen evs op ok c T L U y z : T i = TIdle → assert_prepared op i c = true →
    within i ok (CSys c (<[i:=RStart]> T) L U) y → drives i evs y z → drives i (CoReopen op ok :: evs) (CSys c T L U) z
| drives_no_reopen evs op x z : assert_prepared op i (y_c x) = false → drives i evs x z → drives i (CoReopen op false :: evs) x z
| drives_lost evs op ok c T L U y z : T i = TIdle → assert_prepared op i c = true →
    within i ok (CSys c (<[i:=RStart]> T) L U) y → drives i evs y z → drives i (CoLost op :: evs) (CSys c T L U) z
| drives_lost_preparing evs op c T L U z : T i = TIdle → m_operation c = Some op → m_lease c = Some i → m_state c = Preparing →
    drives i evs (CSys (block (Some "control_lease_lost") c) (<[i:=TIdle]> T) L U) z → drives i (CoLost op :: evs) (CSys c T L U) z
| drives_lost_nothing evs op x z : lost_nothing op i (y_c x) → drives i evs x z → drives i (CoLost op :: evs) x z
| drives_event evs e x z : match e with CoSend _ _ | CoClose => True | _ => False end → drives i evs x z → drives i (e :: evs) x z.

(** ** The lease of a connection *)

Lemma other_is_step i x y : other_step i x y → coord_step x y ∧ y_t y i = y_t x i.
Proof. intros [j c T L U p' c' L' U' Hj Hs]. split; [by apply coord_thread|]. simpl. by rewrite insert_at_ne. Qed.

Lemma within_steps i ok x y : within i ok x y → rtc coord_step x y ∧ y_t y i = TIdle.
Proof.
  induction 1 as [x Hx|ok x y z Ho _ [IH Hz]|ok c T L U p' c' L' U' z _ Hs _ [IH Hz]]; [by split; [apply rtc_refl|]|..].
  - apply other_is_step in Ho as [Ho _]. split; [by eapply rtc_l|done].
  - split; [|done]. eapply rtc_l; [by apply coord_thread|done].
Qed.

(** While an operation is being prepared, a thread is in [prepare] and has not
    reached its end, and the operation and lease are its own. *)
Definition preparing_owned (y : csys) : Prop :=
  m_state (y_c y) = Preparing → ∃ i, m_lease (y_c y) = Some i ∧ in_prepare (y_t y i) = true ∧ y_t y i ≠ PEnd.

(** The daemon waits for the holder of lease [i]. *)
Definition stray (i : nat) (y : csys) : Prop :=
  (m_state (y_c y) = Preparing ∨ m_state (y_c y) = Prepared) ∧ m_lease (y_c y) = Some i.

Lemma preparing_owned_step x y : coord_inv x → preparing_owned x → coord_step x y → preparing_owned y.
Proof.
  unfold preparing_owned. intros Hinv Hown Hstep. revert Hinv Hstep Hown.
  step_cases; unfold prepare_interrupted in *; simpl in *; intros Hown Hst; simplify_eq.
  all: clear Hop Hrq Hal Hse Hpp Hpd Hre Hid Htg Hca Hli Hho Hdi Hus Hrl.
  all: try (exists i; rewrite insert_at; by split_and!).
  all: destruct (Hown eq_refl) as (k&Hk&Hin&Hne).
  all: try (exists k; destruct (decide (i = k)) as [<-|Hik];
    [rewrite insert_at; rewrite Hp in Hin, Hne; first [discriminate Hin|by split_and!]|by rewrite insert_at_ne]).
  all: exfalso; destruct ccl; [by specialize (Hcl eq_refl)|]; simpl in *; bool_to_prop; by auto.
Qed.

(** A step that leaves thread [i] where it is does not make the daemon wait for
    it, and keeps the operation it waits for. *)
Lemma untouched_stray i x y : coord_inv x → coord_step x y → y_t y i = y_t x i → stray i y →
  stray i x ∧ m_operation (y_c y) = m_operation (y_c x).
Proof.
  unfold stray. intros Hinv Hstep. revert Hinv Hstep. rename i into k.
  step_cases; intros Hsame [Hst Hl]; simplify_eq/=; try (destruct Hst; discriminate); try (by split; [split; auto|]).
  all: clear Hop Hrq Hal Hse Hpd Hre Hid Htg Hca Hli Hho Hdi Hus Hrl.
  all: rewrite insert_at in Hsame; congruence.
Qed.

Definition prepares (p : tpc) : bool := in_prepare p || match p with TIdle => true | _ => false end.

(** A preparation that is interrupted has been blocked. *)
Lemma interrupted_not_stray i y : coord_inv y → m_state (y_c y) ≠ Prepared → prepare_interrupted (y_c y) = true → ¬ stray i y.
Proof.
  unfold prepare_interrupted, stray. intros Hinv Hne [Hi|Hi]%orb_prop [[Hs|Hs] _]; try congruence.
  - by bool_to_prop.
  - apply (ci_closed y Hinv) in Hi. congruence.
Qed.

(** A step of [prepare] itself. *)
Lemma prepare_own_step i c T L U p' c' L' U' :
  coord_inv (CSys c T L U) → thread_step i (T i) c L U p' c' L' U' → in_prepare (T i) = true →
  prepares p' = true ∧ m_operation c' = m_operation c ∧
  (stray i (CSys c' (<[i:=p']> T) L' U') → stray i (CSys c T L U)) ∧
  (p' = PEnd → answers_ok (T i) c p' = false → ¬ stray i (CSys c' (<[i:=p']> T) L' U')) ∧ (p' = TIdle → T i = PEnd).
Proof.
  intros Hinv Hs Hpr. assert (T i ≠ PEnd → m_state c ≠ Prepared) as Hne.
  { intros Hne Hst. by apply (ci_prepared _ Hinv Hst) in Hpr. }
  pose proof (interrupted_not_stray i _ Hinv) as Hint. pose proof (ci_preparing _ Hinv) as Hpp. simpl in *.
  specialize (λ H, Hpp H i (orb_true_intro _ _ (or_introl Hpr))). unfold stray in *.
  remember (T i) as p eqn:Hp. destruct Hs; try discriminate Hpr; simpl.
  all: try (split_and!; [done|done|by auto|done|done]).
  all: try (by destruct c; simpl; split_and!; auto).
  - by destruct raises, c; simpl; split_and!; auto.
  - by destruct (prepare_identity db eu read); split_and!; auto.
  - assert (m_state c ≠ Prepared) as Hnp by auto. unfold prepare_publish. destruct (m_closed c) eqn:Hcl; simpl.
    + apply (ci_closed _ Hinv) in Hcl. simpl in Hcl. rewrite Hcl. by split_and!; intuition congruence.
    + case_bool_decide as Hst; simpl; [by split_and!; intuition congruence|]. split_and!; [done|by destruct c|by destruct c; intros [_ Hl]; split; [left|]|done|done].
  - destruct c; simpl. split_and!; intuition congruence.
Qed.

Definition recovers (p : tpc) : bool :=
  in_recover p || match p with XRebuild _ | XHand _ _ | XDiscard _ _ _ | XBlock _ | TIdle => true | _ => false end.

(** A step of [_recover] itself. *)
Lemma recover_own_step i c T L U p' c' L' U' :
  thread_step i (T i) c L U p' c' L' U' → recovers (T i) = true → T i ≠ TIdle →
  recovers p' = true ∧ (in_recover (T i) = false ∨ in_recover p' = false → stray i (CSys c' (<[i:=p']> T) L' U') →
    in_recover (T i) = false ∧ in_recover p' = false ∧ stray i (CSys c T L U)).
Proof.
  unfold stray. simpl. remember (T i) as p eqn:Hp. intros Hs Hr Hne. destruct Hs; try discriminate Hr; try done; simpl.
  all: try (split; [done|by intros [?|?] ?; split_and!]).
  all: unfold recover_pristine, recover_publish, after_block in *; destruct c; simpl in *; repeat case_match;
    simplify_eq/=; try (intuition congruence).
  all: split; [done|]; intros _ [[E | E] _]; destruct h; discriminate E.
Qed.

(** What holds between the calls of a connection on thread [i]. *)
Record settled (i : nat) (y : csys) : Prop := {
  se_inv : coord_inv y;
  se_preparing : preparing_owned y }.

Lemma settled_step i x y : settled i x → coord_step x y → settled i y.
Proof. intros [Hi Hp] Hs. split; [by eapply coord_inv_step|by eapply preparing_owned_step]. Qed.

Lemma settled_other i x y : settled i x → other_step i x y → settled i y.
Proof. intros Hse [Ho _]%other_is_step. by eapply settled_step. Qed.

Lemma settled_steps i x y : settled i x → rtc coord_step x y → settled i y.
Proof. intros Hx Hr. eapply (rtc_preserves _ (settled i)); [|exact Hx|exact Hr]. intros a b Ha Hs. by eapply settled_step. Qed.

Lemma stray_other i x y : settled i x → other_step i x y → stray i y → stray i x ∧ m_operation (y_c y) = m_operation (y_c x).
Proof. intros Hse Ho. destruct (other_is_step _ _ _ Ho) as [Hs Hsame]. eapply untouched_stray; [apply (se_inv i x Hse)|done..]. Qed.

(** [prepare] of [op]: when it is over the daemon waits for this connection only
    for [op], and only when the answer was [ok]. *)
Lemma within_prepare i op b ok x z : within i ok x z → settled i x → prepares (y_t x i) = true →
  (stray i x → m_operation (y_c x) = Some op) → (b = false → y_t x i = PEnd ∨ y_t x i = TIdle → ¬ stray i x) →
  (stray i z → m_operation (y_c z) = Some op) ∧ (b || ok = false → ¬ stray i z).
Proof.
  intros Hw. revert b. induction Hw as [x Hx|ok x y z Ho _ IH|ok c T L U p' c' L' U' z Hne Hs _ IH]; intros b Hse Hpr Hop Hb.
  - split; [done|]. rewrite orb_false_r. intros Hf. by apply Hb; [|right].
  - destruct (other_is_step _ _ _ Ho) as [_ Hsame]. apply (IH b).
    + by eapply settled_other.
    + by rewrite Hsame.
    + intros Hst. apply (stray_other i x y) in Hst as [Hst ->]; [by apply Hop|done..].
    + rewrite Hsame. intros Hf He Hst. apply (stray_other i x y) in Hst as [Hst _]; [by apply Hb|done..].
  - simpl in *. assert (in_prepare (T i) = true) as Hin by (by destruct (T i)).
    destruct (prepare_own_step _ _ _ _ _ _ _ _ _ (se_inv _ _ Hse) Hs Hin) as (Hpr'&Hop'&Hst'&Hend&Hidle).
    rewrite orb_assoc. apply IH; simpl.
    + eapply settled_step; [exact Hse|by apply coord_thread].
    + by rewrite insert_at.
    + rewrite Hop'. auto.
    + rewrite insert_at. intros [Hbf Ha]%orb_false_iff [He|He]; [by apply Hend|].
      intros Hst. apply (Hb Hbf); [left; by apply Hidle|by apply Hst'].
Qed.

(** A recovery: when it is over the daemon does not wait for this connection. *)
Lemma within_recover i ok x z : within i ok x z → settled i x → recovers (y_t x i) = true →
  (in_recover (y_t x i) = false → ¬ stray i x) → ¬ stray i z.
Proof.
  induction 1 as [x Hx|ok x y z Ho _ IH|ok c T L U p' c' L' U' z Hne Hs _ IH]; intros Hse Hr Hst.
  - apply Hst. by rewrite Hx.
  - destruct (other_is_step _ _ _ Ho) as [_ Hsame]. apply IH.
    + by eapply settled_other.
    + by rewrite Hsame.
    + rewrite Hsame. intros Hf Hy. apply (stray_other i x y) in Hy as [Hy _]; [by apply Hst|done..].
  - simpl in *. destruct (recover_own_step _ _ _ _ _ _ _ _ _ Hs Hr Hne) as [Hr' Hown]. apply IH; simpl.
    + eapply settled_step; [exact Hse|by apply coord_thread].
    + by rewrite insert_at.
    + rewrite insert_at. intros Hf Hy. destruct (Hown (or_intror Hf) Hy) as (H1&_&H2). by apply (Hst H1).
Qed.

(** The operation whose lease the events leave held. *)
Fixpoint owned (own : option string) (evs : list control_event) : option string :=
  match evs with
  | [] => own
  | e :: evs =>
      owned (match e with
             | CoPrepare op _ ok => if ok then Some op else own
             | CoReopen _ ok => if ok then None else own
             | CoLost _ => None
             | _ => own
             end) evs
  end.

Lemma recovery_over i ok c T L U y : settled i (CSys c T L U) → T i = TIdle → (∃ op, assert_prepared op i c = true) →
  within i ok (CSys c (<[i:=RStart]> T) L U) y → settled i y ∧ y_t y i = TIdle ∧ ¬ stray i y.
Proof.
  intros Hse Hi [op Ha] Hw. assert (settled i (CSys c (<[i:=RStart]> T) L U)) as Hse'.
  { eapply settled_step; [exact Hse|]. apply coord_thread. rewrite Hi. by eapply s_recover. }
  destruct (within_steps _ _ _ _ Hw) as [Hsteps Hy]. split_and!; [by eapply settled_steps|done|].
  eapply within_recover; [exact Hw|done|simpl; by rewrite insert_at..].
Qed.

Ltac go_on :=
  let pre := fresh in let op := fresh in let post := fresh in
  intros pre op post ->;
  match goal with Hlost : ∀ pre op post, ?e :: _ = _ → _ |- _ => apply (Hlost (e :: pre) op post eq_refl) end.

Lemma drives_owned i evs x y own : drives i evs x y → settled i x → y_t x i = TIdle →
  (stray i x → m_operation (y_c x) = own ∧ own ≠ None) → (∀ pre op post, evs = pre ++ CoLost op :: post → owned own pre = Some op) →
  settled i y ∧ y_t y i = TIdle ∧ (stray i y → m_operation (y_c y) = owned own evs ∧ owned own evs ≠ None).
Proof.
  intros Hd. revert own.
  induction Hd as [x|evs x y z Ho _ IH|evs op eu ok c c' T L U y z Hi He Hw _ IH|evs op eu x z He _ IH|evs op x z _ IH
    |evs op ok c T L U y z Hi Ha Hw _ IH|evs op x z Ha _ IH|evs op ok c T L U y z Hi Ha Hw _ IH|evs op c T L U z Hi Hop Hl Hst _ IH
    |evs op x z Hn _ IH|evs e x z He _ IH]; intros own Hse Hidle Hown Hlost.
  - by split_and!.
  - destruct (other_is_step _ _ _ Ho) as [_ Hsame]. apply IH; [by eapply settled_other|by rewrite Hsame| |done].
    intros Hst. apply (stray_other i x y) in Hst as [Hst ->]; [by apply Hown|done..].
  - assert (settled i (CSys c' (<[i:=PWait]> T) L U)) as Hse'.
    { eapply settled_step; [exact Hse|]. apply coord_thread. rewrite Hi. by eapply s_prepare. }
    destruct (within_prepare i op false ok _ _ Hw Hse') as [Hop Hno]; [simpl; by rewrite insert_at| |simpl; rewrite insert_at; by intros _ [?|?]|].
    { intros _. unfold prepare_enter in He. simpl. case_match; [done|]. injection He as <-. by destruct c. }
    destruct (within_steps _ _ _ _ Hw) as [Hsteps Hy]. apply (IH (if ok then Some op else own)); [by eapply settled_steps|done| |go_on].
    intros Hst. destruct ok; [by split; [apply Hop|]|by apply Hno in Hst].
  - apply (IH own); [done..|go_on].
  - apply (IH own); [done..|go_on].
  - destruct (recovery_over i ok c T L U y) as (Hse'&Hy&Hno); [by eauto..|].
    apply (IH (if ok then None else own)); [done|done|done|go_on].
  - apply (IH own); [done..|go_on].
  - destruct (recovery_over i ok c T L U y) as (Hse'&Hy&Hno); [by eauto..|]. apply (IH None); [done|done|done|go_on].
  - destruct (se_preparing _ _ Hse Hst) as (k&Hk&Hin&_). simpl in Hk, Hin. assert (k = i) as -> by congruence. by rewrite Hi in Hin.
  - apply (IH None); [done|done| |go_on]. intros Hst. destruct (Hown Hst) as [Hop _].
    pose proof (Hlost [] op evs eq_refl) as He. simpl in He. rewrite He in Hop.
    destruct Hst as [Hst Hl]. destruct (Hn Hop Hl). by destruct Hst.
  - destruct e; try done; (apply (IH own); [done..|go_on]).
Qed.

(** ** Properties *)

Section server_facts.
Context `{JsonLines} `{CharClass}.
Variables (ask : nat → control_call → gap_object) (sends : nat → bool).

Definition not_lost (e : control_event) : bool := match e with CoLost _ => false | _ => true end.

Lemma owned_app own a b : owned own (a ++ b) = owned (owned own a) b.
Proof. revert own. induction a as [|e a IH]; intros own; [done|]. simpl. apply IH. Qed.

Lemma serve_line_owned n own line evs own' r : serve_line ask n own line = Some (evs, own', r) →
  own' = owned own evs ∧ forallb not_lost evs = true.
Proof. unfold serve_line. intros Hs. repeat case_match; simplify_eq/=; try done. by destruct c. Qed.

Lemma control_loop_owned n own lines evs own' : control_loop ask sends n own lines = (evs, own') →
  own' = owned own evs ∧ forallb not_lost evs = true.
Proof.
  revert n own evs own'. induction lines as [|line lines IH]; intros n own evs own'; simpl; [by intros [= <- <-]|].
  destruct (serve_line ask n own line) as [[[l o] r]|] eqn:Hl; [|by intros [= <- <-]].
  apply serve_line_owned in Hl as [-> Hl]. destruct (sends n).
  - destruct (control_loop ask sends (S n) (owned own l) lines) as [l' o'] eqn:Hrec. intros [= <- <-].
    apply IH in Hrec as [-> Hrec]. rewrite owned_app, forallb_app. simpl. by rewrite Hl, Hrec.
  - intros [= <- <-]. rewrite owned_app, forallb_app. simpl. by rewrite Hl.
Qed.

Lemma connection_shape peer uid bytes fails : ∃ evs, forallb not_lost evs = true ∧
  _serve_connection ask sends peer uid bytes fails = evs ++ match owned None evs with Some op => [CoLost op] | None => [] end ++ [CoClose].
Proof.
  unfold _serve_connection. case_bool_decide; [|by exists []].
  destruct (control_loop ask sends 0 None (received bytes fails)) as [evs own] eqn:Hl.
  apply control_loop_owned in Hl as [-> Hl]. by exists evs.
Qed.

Lemma lost_is_last evs own pre op post : forallb not_lost evs = true →
  evs ++ match own with Some op => [CoLost op] | None => [] end ++ [CoClose] = pre ++ CoLost op :: post →
  pre = evs ∧ own = Some op ∧ post = [CoClose].
Proof.
  revert pre. induction evs as [|e evs IH]; intros pre Hl Heq.
  - destruct own as [op'|]; simpl in Heq.
    + destruct pre as [|e1 [|e2 [|e3 pre]]]; simplify_eq/=; done.
    + destruct pre as [|e1 [|e2 pre]]; simplify_eq/=.
  - simpl in Hl. apply andb_true_iff in Hl as [He Hl]. destruct pre as [|e1 pre]; simpl in Heq.
    + injection Heq as -> _. done.
    + injection Heq as <- Heq. destruct (IH pre Hl Heq) as (->&->&->). done.
Qed.

(** A lease is held by a connection: a [prepare] that was accepted, with no
    accepted [prepare] or [reopen] since. *)
Definition moves_lease (e : control_event) : bool := match e with CoPrepare _ _ ok | CoReopen _ ok => ok | _ => false end.

Lemma owned_is_last evs op : forallb not_lost evs = true → owned None evs = Some op ↔
  ∃ pre eu post, evs = pre ++ CoPrepare op eu true :: post ∧ forallb (λ e, negb (moves_lease e)) post = true.
Proof.
  induction evs as [|e evs IH] using rev_ind; intros Hl.
  - split; [done|]. by intros ([]&?&?&?&?).
  - rewrite forallb_app in Hl. apply andb_true_iff in Hl as [Hl He]. rewrite owned_app.
    assert (moves_lease e = false → owned None evs = Some op ↔
      ∃ pre eu post, evs ++ [e] = pre ++ CoPrepare op eu true :: post ∧ forallb (λ e, negb (moves_lease e)) post = true) as Hkeep.
    { intros Hm. rewrite (IH Hl). split.
      - intros (pre&eu&post&->&Hp). exists pre, eu, (post ++ [e]). rewrite <- app_assoc, forallb_app. simpl. by rewrite Hp, Hm.
      - intros (pre&eu&post&Heq&Hp). destruct post as [|e' post _] using rev_ind.
        + apply app_inj_tail in Heq as [_ ->]. done.
        + rewrite app_comm_cons, app_assoc in Heq. apply app_inj_tail in Heq as [-> ->].
          rewrite forallb_app in Hp. apply andb_true_iff in Hp as [Hp _]. by exists pre, eu, post. }
    destruct (moves_lease e) eqn:Hm; [clear Hkeep|by destruct e; simpl in *; try discriminate; subst; apply Hkeep].
    assert (∀ pre eu post, evs ++ [e] = pre ++ CoPrepare op eu true :: post → forallb (λ e, negb (moves_lease e)) post = true →
      e = CoPrepare op eu true) as Hlast.
    { intros pre eu post Heq Hp. destruct post as [|e' post _] using rev_ind; [by apply app_inj_tail in Heq as [_ ->]|].
      rewrite app_comm_cons, app_assoc in Heq. apply app_inj_tail in Heq as [_ ->].
      rewrite forallb_app in Hp. apply andb_true_iff in Hp as [_ Hp]. simpl in Hp. by rewrite Hm in Hp. }
    destruct e as [op' eu ok|?|? ok|?|?|]; try done; simpl in Hm; subst ok; simpl.
    + split; [intros [= ->]; by exists evs, eu, []|]. intros (pre&eu'&post&Heq&Hp). by injection (Hlast _ _ _ Heq Hp) as -> ->.
    + split; [done|]. intros (pre&eu'&post&Heq&Hp). by specialize (Hlast _ _ _ Heq Hp).
Qed.
End server_facts.

Lemma preparing_owned_reachable y : reachable coord_init coord_step y → preparing_owned y.
Proof.
  apply reachable_invariant.
  - intros z (_&_&Hz) Hst. exfalso. destruct Hz as [[Hz _]|(db&opened&read&Hz)]; [by rewrite Hz in Hst|].
    apply (f_equal fst) in Hz. simpl in Hz. rewrite <- Hz in Hst. revert Hst. unfold initialize_fact_epoch.
    by repeat case_match.
  - intros a b Ha Hp Hs. eapply preparing_owned_step; [by apply coord_inv_reachable|done..].
Qed.

(** C24: A closed connection strands no maintenance: when a connection is over,
    whatever its peer sent, whatever failed and however the threads of the daemon
    interleave, the coordinator neither prepares nor stays prepared for it. *)
Theorem closed_connection_strands_no_lease `{JsonLines} `{CharClass} ask sends peer uid bytes fails i x y :
  reachable coord_init coord_step x → y_t x i = TIdle → m_lease (y_c x) ≠ Some i →
  drives i (_serve_connection ask sends peer uid bytes fails) x y →
  y_t y i = TIdle ∧ ¬ ((m_state (y_c y) = Preparing ∨ m_state (y_c y) = Prepared) ∧ m_lease (y_c y) = Some i).
Proof.
  intros Hx Hi Hl Hd. destruct (connection_shape ask sends peer uid bytes fails) as (evs&Hnl&Heq). rewrite Heq in Hd.
  destruct (drives_owned _ _ _ _ None Hd) as (_&Hidle&Hst).
  - split; [by apply coord_inv_reachable|by apply preparing_owned_reachable].
  - done.
  - by intros [_ ?].
  - intros pre op post Hp. by apply (lost_is_last _ _ _ _ _ Hnl) in Hp as (->&?&_).
  - split; [done|]. intros Hs. apply Hst in Hs as [_ Hne]. apply Hne. rewrite owned_app. by destruct (owned None evs).
Qed.

(** The lost lease is the one held: [lease_lost] is called at most once, as the
    last call, and exactly when a [prepare] was accepted and no [prepare] or
    [reopen] was since, with the operation of that [prepare]; a foreign peer only
    has its connection closed. *)
Theorem lost_lease_is_the_held_one `{JsonLines} `{CharClass} ask sends peer uid bytes fails :
  (∃ evs, forallb not_lost evs = true ∧
     ((∃ op, _serve_connection ask sends peer uid bytes fails = evs ++ [CoLost op; CoClose] ∧
        ∃ pre eu post, evs = pre ++ CoPrepare op eu true :: post ∧ forallb (λ e, negb (moves_lease e)) post = true) ∨
      (_serve_connection ask sends peer uid bytes fails = evs ++ [CoClose] ∧
        ∀ op pre eu post, evs = pre ++ CoPrepare op eu true :: post → forallb (λ e, negb (moves_lease e)) post = false))) ∧
  (peer ≠ Some uid → _serve_connection ask sends peer uid bytes fails = [CoClose]).
Proof.
  split.
  - destruct (connection_shape ask sends peer uid bytes fails) as (evs&Hnl&->). exists evs. split; [done|].
    pose proof (λ op, owned_is_last evs op Hnl) as Hown. destruct (owned None evs) as [op|].
    + left. exists op. split; [done|]. by apply Hown.
    + right. split; [done|]. intros op pre eu post Heq. apply not_true_iff_false. intros Hp.
      enough (None = Some op) by done. apply Hown. by exists pre, eu, post.
  - intros Hne. unfold _serve_connection. by rewrite bool_decide_false.
Qed.
(** ** A confirmed lease *)

(** No request, no fact handle, no builder, and none on its way. *)
Record quiet_for (i : nat) (y : csys) : Prop := {
  qu_state : m_state (y_c y) = CoordBlocked ∨ (m_state (y_c y) = Prepared ∧ m_lease (y_c y) = Some i);
  qu_requests : m_requests (y_c y) = 0%nat;
  qu_opening : m_opening (y_c y) = 0%nat;
  qu_handles : m_handles (y_c y) = ∅;
  qu_builders : m_builders (y_c y) = ∅;
  qu_live : y_live y = ∅;
  qu_recover : ∀ j, in_recover (y_t y j) = false }.

(** A step that opens and registers nothing. *)
Lemma quiet_frame i j x c' p' L' U' : quiet_for i x →
  m_state c' = CoordBlocked ∨ (m_state c' = m_state (y_c x) ∧ m_lease c' = m_lease (y_c x)) →
  m_requests c' = m_requests (y_c x) → m_opening c' = m_opening (y_c x) →
  m_handles c' ⊆ m_handles (y_c x) → m_builders c' ⊆ m_builders (y_c x) → L' ⊆ y_live x → in_recover p' = false →
  quiet_for i (CSys c' (<[j:=p']> (y_t x)) L' U').
Proof.
  intros [Hst Hrq Hop Hha Hbu Hli Hre] Hst' Hr Ho Hh Hb Hl Hp. split; simpl; try congruence.
  - destruct Hst' as [?|[-> ->]]; auto.
  - set_solver.
  - set_solver.
  - set_solver.
  - intros k. by at_thread.
Qed.

Lemma quiet_other i x y : settled i x → quiet_for i x → other_step i x y → quiet_for i y.
Proof.
  intros [Hinv Hpo] [Hst Hrq Hop Hha Hbu Hli Hre] Ho. destruct Ho as [j c T L U p' c' L' U' Hne Hs]. simpl in *.
  pose proof (Hre j) as Hrj. pose proof (ci_opening _ Hinv) as Hct. pose proof (ci_requests _ Hinv) as Hcr. simpl in Hct, Hcr.
  rewrite Hop in Hct. rewrite Hrq in Hcr. apply (counts_zero _ _ j) in Hct, Hcr.
  assert (m_state c = Prepared → in_prepare (T j) = true → T j = PEnd) as Hpe.
  { intros Hp. by apply (ci_prepared _ Hinv Hp). }
  assert (refuses c = true) as Hrf.
  { unfold refuses. apply orb_true_iff. right. apply bool_decide_eq_true. by destruct Hst as [-> | [-> _]]. }
  assert (∀ t r, complete_publish t r c = (CompleteRefused, c)) as Hcomp.
  { intros t r. unfold complete_publish. by destruct (m_closed c), Hst as [-> | [-> _]]. }
  assert (∀ x, m_state c ≠ Prepared → prepare_publish x c = None) as Hpub.
  { intros x Hx. destruct Hst as [Hst|[? _]]; [|done]. unfold prepare_publish. rewrite Hst. by destruct (m_closed c). }
  assert (∀ op, assert_prepared op j c = false) as Hass.
  { intros op. unfold assert_prepared. destruct Hst as [-> | [_ ->]]; [done|].
    rewrite (bool_decide_false (Some i = Some j)) by congruence. by rewrite andb_false_r. }
  remember (T j) as p eqn:Hp. destruct Hs; try discriminate Hrj; try discriminate Hct; try discriminate Hcr.
  all: try (exfalso; match goal with H : _ = Some _ |- _ =>
    unfold begin_request, open_begin, register_builder, prepare_enter in H; rewrite Hrf in H; discriminate H end).
  all: try (exfalso; match goal with H : assert_prepared _ _ _ = true |- _ => by rewrite Hass in H end).
  all: rewrite ?Hcomp, ?Hpub by (intros Hx; by apply Hpe in Hx).
  all: apply (quiet_frame i j (CSys c T L U)); [by split|..]; simpl; try (by destruct c; simpl; auto);
    try apply subseteq_difference_l; try (by repeat case_match).
  all: try (destruct c; simpl; by apply subseteq_difference_l).
  all: unfold close_enter in *; destruct c; simpl in *; repeat case_match; simplify_eq/=; auto.
  all: by destruct code.
Qed.

Lemma drives_nothing i x y : drives i [] x y → rtc (other_step i) x y.
Proof.
  intros Hd. remember [] as l eqn:Hl. induction Hd as [x|l x y z Ho Hd IH| | | | | | | | |]; try discriminate Hl; [apply rtc_refl|].
  eapply rtc_l; [exact Ho|by apply IH].
Qed.

(** The end of a run whose last event is the confirmation of a lease. *)
Lemma drives_confirmed i evs op x y : drives i (evs ++ [CoLease op true]) x y → y_t x i = TIdle →
  ∃ z, rtc coord_step x z ∧ y_t z i = TIdle ∧ assert_prepared op i (y_c z) = true ∧ rtc (other_step i) z y.
Proof.
  intros Hd. remember (evs ++ [CoLease op true]) as l eqn:Hl. revert evs Hl.
  induction Hd as [x|l x y z Ho Hd IH|l op' eu ok c c' T L U y z Hi He Hw Hd IH|l op' eu x z He Hd IH|l op' x z Hd IH
    |l op' ok c T L U y z Hi Ha Hw Hd IH|l op' x z Ha Hd IH|l op' ok c T L U y z Hi Ha Hw Hd IH|l op' c T L U z Hi Hop Hl' Hst Hd IH
    |l op' x z Hn Hd IH|l e x z He Hd IH]; intros evs Hl Hidle.
  - by destruct evs.
  - destruct (other_is_step _ _ _ Ho) as [Hs Hsame]. destruct (IH evs Hl) as (w&Hw&Hrest); [by rewrite Hsame|].
    exists w. split; [by eapply rtc_l|done].
  - destruct evs as [|e evs]; simpl in Hl; [discriminate Hl|injection Hl as <- Hl].
    destruct (within_steps _ _ _ _ Hw) as [Hsteps Hy]. destruct (IH evs Hl Hy) as (w&Hr&Hrest). exists w. split; [|done].
    etrans; [eapply rtc_l; [|exact Hsteps]|exact Hr]. apply coord_thread. rewrite Hi. by eapply s_prepare.
  - destruct evs as [|e evs]; simpl in Hl; [discriminate Hl|injection Hl as <- Hl]. by apply (IH evs).
  - destruct evs as [|e evs]; simpl in Hl.
    + injection Hl as -> Ha ->. exists x. split_and!; [apply rtc_refl|done|done|by apply drives_nothing].
    + injection Hl as <- Hl. by apply (IH evs).
  - destruct evs as [|e evs]; simpl in Hl; [discriminate Hl|injection Hl as <- Hl].
    destruct (within_steps _ _ _ _ Hw) as [Hsteps Hy]. destruct (IH evs Hl Hy) as (w&Hr&Hrest). exists w. split; [|done].
    etrans; [eapply rtc_l; [|exact Hsteps]|exact Hr]. apply coord_thread. rewrite Hi. by eapply s_recover.
  - destruct evs as [|e evs]; simpl in Hl; [discriminate Hl|injection Hl as <- Hl]. by apply (IH evs).
  - destruct evs as [|e evs]; simpl in Hl; [discriminate Hl|injection Hl as <- Hl].
    destruct (within_steps _ _ _ _ Hw) as [Hsteps Hy]. destruct (IH evs Hl Hy) as (w&Hr&Hrest). exists w. split; [|done].
    etrans; [eapply rtc_l; [|exact Hsteps]|exact Hr]. apply coord_thread. rewrite Hi. by eapply s_recover.
  - destruct evs as [|e evs]; simpl in Hl; [discriminate Hl|injection Hl as <- Hl].
    destruct (IH evs Hl) as (w&Hr&Hrest); [simpl; apply insert_at|]. exists w. split; [|done]. eapply rtc_l; [|exact Hr].
    apply coord_thread. rewrite Hi. by eapply s_lost_preparing.
  - destruct evs as [|e evs]; simpl in Hl; [discriminate Hl|injection Hl as <- Hl]. by apply (IH evs).
  - destruct evs as [|e' evs]; simpl in Hl; [by destruct e; simplify_eq|injection Hl as <- Hl]. by apply (IH evs).
Qed.

(** C25: A confirmed lease keeps the daemon quiet: from the moment the answer to
    [lease] says [prepared] until the connection's next call or its end, no scoring
    request is in progress, no fact handle is registered, opening or holding the
    shared lease, and no builder is registered, whatever the other connections,
    the clients and the shutdown do. *)
Theorem confirmed_lease_keeps_quiet i evs op x y :
  reachable coord_init coord_step x → y_t x i = TIdle → drives i (evs ++ [CoLease op true]) x y →
  m_requests (y_c y) = 0%nat ∧ m_opening (y_c y) = 0%nat ∧ m_handles (y_c y) = ∅ ∧ m_builders (y_c y) = ∅ ∧
  y_live y = ∅ ∧ (∀ j, serves (y_t y j) = false) ∧ (m_state (y_c y) = Prepared ∨ m_state (y_c y) = CoordBlocked).
Proof.
  intros Hx Hi Hd. destruct (drives_confirmed _ _ _ _ _ Hd Hi) as (z&Hxz&Hz&Ha&Hzy).
  assert (reachable coord_init coord_step z) as Hrz.
  { destruct Hx as (x0&?&?). exists x0. split; [done|]. by etrans. }
  assert (settled i z) as Hse by (split; [by apply coord_inv_reachable|by apply preparing_owned_reachable]).
  assert (quiet_for i z) as Hq.
  { destruct (prepared_owner z op i (se_inv _ _ Hse) Ha Hz) as [Hst Hno].
    destruct (prepared_quiet z op i (se_inv _ _ Hse) Ha Hz) as (?&?&?&?&?&_). split; try done.
    - right. split; [done|]. unfold assert_prepared in Ha. by bool_to_prop.
    - intros j. by destruct (Hno j). }
  assert (settled i y ∧ quiet_for i y) as [Hsy [Hst Hrq ? ? ? ? _]].
  { eapply (rtc_preserves _ (λ w, settled i w ∧ quiet_for i w)); [|by split|exact Hzy].
    intros a b [Has Haq] Hs. split; [by eapply settled_other|by eapply quiet_other]. }
  split_and!; try done.
  - intros j. pose proof (ci_requests _ (se_inv _ _ Hsy)) as Hc. rewrite Hrq in Hc. by apply counts_zero.
  - destruct Hst as [?|[? _]]; auto.
Qed.

(** ** Both sides of the socket *)

Section both.
Context `{JsonLines} `{CharClass}.

Definition lf : ascii := LF.

Lemma readlines_app a s : lf ∉ list_ascii_of_string a → readlines (a +:+ String lf s) = (a +:+ String lf "") :: readlines s.
Proof.
  induction a as [|c a IH]; [by simpl|]. intros Hn. change (String c a +:+ String lf s) with (String c (a +:+ String lf s)).
  simpl in Hn. apply not_elem_of_cons in Hn as [Hc Hn]. cbn [readlines]. rewrite (IH Hn).
  destruct (Ascii.eqb_spec c LF) as [->|]; [by destruct Hc|]. done.
Qed.

(** The request a client sends for a call. *)
Definition call_payload (c : control_call) : gap_object :=
  match c with
  | CallPrepare op eu => request_payload "prepare" op (if eu then [("expect_unreadable", JBool true)] else [])
  | CallLease op => request_payload "lease" op []
  | CallReopen op => request_payload "reopen" op []
  end.
Definition call_operation (c : control_call) : string :=
  match c with CallPrepare op _ | CallLease op | CallReopen op => op end.

(** What the parameters promise about one payload: [loads] reads back what [dumps]
    wrote and a newline, which is ASCII on one line. *)
Definition one_line (p : gap_object) : Prop :=
  lf ∉ list_ascii_of_string (json_dumps (JObj p)) ∧ decodes (send_text p) = true ∧ json_loads (send_text p) = Ok (JObj p).

Lemma call_is_understood c : one_line (call_payload c) → _valid_operation_id (JStr (call_operation c)) = true →
  ∃ m, request_of_line (send_text (call_payload c)) = Ok (JObj m) ∧ control_request (JObj m) = Some (call_operation c, m) ∧
    call_of (call_operation c) m = Some c.
Proof.
  intros (_&Hd&Hl) Hop. exists (call_payload c). unfold request_of_line. rewrite Hd, Hl. split; [done|].
  unfold control_request. destruct c as [op []|op|op]; cbn -[_valid_operation_id] in *; by rewrite Hop.
Qed.

(** C37: What the client asks is what the coordinator is asked: a connection that
    carries the requests of the client makes exactly the calls the client asked
    for, in their order, each followed by one line that holds the coordinator's
    answer. *)
Theorem client_requests_are_served ask (calls : list control_call) :
  Forall (λ c, one_line (call_payload c) ∧ _valid_operation_id (JStr (call_operation c)) = true) calls →
  (control_loop ask (λ _, true) 0 None (received (foldr append "" ((λ c, send_text (call_payload c)) <$> calls)) false)).1 =
  concat (imap (λ k c, [call_event c (response_ok (ask k c)); CoSend (versioned (ask k c)) true]) calls).
Proof.
  intros Hall. unfold received.
  assert (readlines (foldr append "" ((λ c, send_text (call_payload c)) <$> calls)) = (λ c, send_text (call_payload c)) <$> calls) as ->.
  { induction Hall as [|c calls [(Hlf&_&_) _] _ IH]; [done|]. cbn [fmap list_fmap foldr]. unfold send_text at 1.
    rewrite <- str_app_assoc. change (String LF "" +:+ ?s) with (String lf s). rewrite readlines_app by done. by f_equal. }
  revert ask. generalize (None : option string) as own.
  cut (∀ n own ask, (control_loop ask (λ _, true) n own ((λ c, send_text (call_payload c)) <$> calls)).1 =
    concat (imap (λ k c, [call_event c (response_ok (ask (n + k)%nat c)); CoSend (versioned (ask (n + k)%nat c)) true]) calls)).
  { intros Hcut own ask. apply (Hcut 0%nat). }
  induction Hall as [|c calls [Hline Hop] _ IH]; intros n own ask; [done|].
  destruct (call_is_understood c Hline Hop) as (m&Hp&Hr&Hc). cbn [fmap list_fmap control_loop].
  unfold serve_line. rewrite Hp, Hr, Hc. specialize (IH (S n)).
  destruct (control_loop ask (λ _, true) (S n) _ _) as [l o] eqn:Hloop. simpl. rewrite Nat.add_0_r. f_equal. f_equal.
  specialize (IH (owned_after own c (response_ok (ask n c))) ask). rewrite Hloop in IH. simpl in IH. rewrite IH.
  f_equal. apply imap_ext. intros k x _. simpl. by rewrite Nat.add_succ_r.
Qed.

(** The answers a client accepts. *)
Lemma valid_response_is v m : valid_response v = Some m →
  v = JObj m ∧ py_eq_int (obj_get_or_null "version" m) CONTROL_VERSION = true ∧ ∃ b, obj_get_or_null "ok" m = JBool b.
Proof.
  destruct v; try done. simpl. destruct (_ && _) eqn:Hv; [|done]. intros [= ->]. apply andb_true_iff in Hv as [Hv Hb].
  split_and!; [done|done|]. destruct (obj_get_or_null "ok" m); try done. by eexists.
Qed.

(** The client reports only what the daemon answered: it returns an answer
    exactly when one line came back that is a JSON object of this protocol's version
    with a boolean [ok], and otherwise raises one of two codes, but for a line that
    nests too deep; a lease counts as live only on [ok] and [prepared]. *)
Theorem client_reports_answers {W} connected (exchange : string → W → option string * W) action op extra s :
  (∀ m s', _request connected exchange action op extra s = (Ok m, s') ↔
     connected s = true ∧ ∃ line, exchange (send_text (request_payload action op extra)) s = (Some line, s') ∧ line ≠ "" ∧
       decodes line = true ∧ json_loads line = Ok (JObj m) ∧ valid_response (JObj m) = Some m) ∧
  (∀ e s', _request connected exchange action op extra s = (Err e, s') →
     e = Some "control_unavailable" ∨ e = Some "control_protocol_invalid" ∨
     (e = None ∧ ∃ line, exchange (send_text (request_payload action op extra)) s = (Some line, s') ∧ json_loads line = Err TooDeep)) ∧
  (∀ m s', client_assert_prepared connected exchange op s = (Ok m, s') →
     response_ok m = true ∧ obj_get_or_null "state" m = JStr "prepared").
Proof.
  split_and!.
  - intros m s'. unfold _request. destruct (connected s); cbn [negb]; [|by split; [|intros [? _]]].
    destruct (exchange _ s) as [[[|ch line]|] s1]; [by split; [|intros (_&?&[= <- <-]&?&_)]| |by split; [|intros (_&?&?&_)]].
    destruct (decodes (String ch line)) eqn:Hd; [|by split; [|intros (_&?&[= <- <-]&_&?&_); congruence]].
    destruct (json_loads (String ch line)) as [v|[]] eqn:Hl.
    + destruct (valid_response v) as [m'|] eqn:Hv; split.
      * intros [= -> ->]. split; [done|]. exists (String ch line). pose proof (valid_response_is _ _ Hv) as (->&_). by split_and!.
      * intros (_&line'&[= <- <-]&_&_&Hj&Hv'). rewrite Hl in Hj. injection Hj as ->. congruence.
      * done.
      * intros (_&line'&[= <- <-]&_&_&Hj&Hv'). rewrite Hl in Hj. injection Hj as ->. congruence.
    + split; [done|]. intros (_&line'&[= <- <-]&_&_&Hj&_). congruence.
    + split; [done|]. intros (_&line'&[= <- <-]&_&_&Hj&_). congruence.
  - intros e s'. unfold _request. destruct (connected s); cbn [negb]; [|by intros [= <- _]; left].
    destruct (exchange _ s) as [[[|ch line]|] s1]; [by intros [= <- _]; left| |by intros [= <- _]; left].
    destruct (decodes (String ch line)); [|by intros [= <- _]; right; left].
    destruct (json_loads (String ch line)) as [v|[]] eqn:Hl; [|by intros [= <- _]; right; left|].
    + destruct (valid_response v); [done|]. by intros [= <- _]; right; left.
    + intros [= <- <-]. right. right. split; [done|]. by exists (String ch line).
  - intros m s'. unfold client_assert_prepared.
    destruct (_request connected exchange "lease" op [] s) as [[m'|[]] s1]; [|done..].
    destruct (response_ok m') eqn:Ho; simpl; [|done]. destruct (obj_get_or_null "state" m') eqn:Hst; try done.
    destruct (String.eqb_spec s0 "prepared") as [->|]; [|done]. intros [= -> _]. done.
Qed.
End both.
