(* ===== verification/ControlDemo.v ===== *)
(** * Runs of the control socket

    A client that prepares, asks for its lease and leaves: the daemon recovers.
    The theorems are applied to this connection. *)

From Stdlib Require Import Ascii String.
From stdpp Require Import base list strings gmap.
From S2P Require Import Prelude Bytes PyJson OpRecord OpStore RecordingGap MaintLock TextMatch Coordinator Server Control ControlTheorems.
Open Scope Z_scope.

(** ASCII letters and digits; the JSON text of the lines of the example. *)
#[export] Instance demo_class : CharClass :=
  {| isalnum s := match list_ascii_of_string s with
                  | [c] => let n := nat_of_ascii c in ((48 <=? n) && (n <=? 57) || (65 <=? n) && (n <=? 90) || (97 <=? n) && (n <=? 122))%nat
                  | _ => false
                  end |}.
Definition demo_calls : list control_call := [CallPrepare "op-1" false; CallLease "op-1"].
#[local] Instance demo_python : PyStdlib := {| sha256_hex s := s; iso_tz_aware _ := true; float_repr _ := "0.0" |}.
Definition demo_line (v : json) : string := dumps v +:+ String LF "".
#[export] Instance demo_lines : JsonLines :=
  {| json_dumps := dumps;
     json_loads s := match List.find (λ c, String.eqb (demo_line (JObj (call_payload c))) s) demo_calls with
                     | Some c => Ok (JObj (call_payload c)) | None => Err NotJson end |}.

Definition demo_bytes : string := foldr append "" ((λ c, send_text (call_payload c)) <$> demo_calls).
Definition demo_yes : gap_object := [("ok", JBool true); ("state", JStr "prepared")].
Definition demo_ask (n : nat) (c : control_call) : gap_object := demo_yes.
Definition demo_reply : control_event := CoSend (versioned demo_yes) true.

Example a_client_leaves : _serve_connection demo_ask (λ _, true) (Some 501) 501 demo_bytes false =
  [CoPrepare "op-1" false true; demo_reply; CoLease "op-1" true; demo_reply; CoLost "op-1"; CoClose].
Proof. vm_compute. reflexivity. Qed.
Example another_user : _serve_connection demo_ask (λ _, true) (Some 502) 501 demo_bytes false = [CoClose].
Proof. vm_compute. reflexivity. Qed.
Example the_answer_is_not_read : _serve_connection demo_ask (λ n, (n =? 0)%nat) (Some 501) 501 demo_bytes false =
  [CoPrepare "op-1" false true; demo_reply; CoLease "op-1" true; CoSend (versioned demo_yes) false; CoLost "op-1"; CoClose].
Proof. vm_compute. reflexivity. Qed.

Lemma client_requests_witness : (control_loop demo_ask (λ _, true) 0 None (received demo_bytes false)).1 =
  [CoPrepare "op-1" false true; demo_reply; CoLease "op-1" true; demo_reply].
Proof.
  refine (client_requests_are_served demo_ask demo_calls _).
  repeat (apply Forall_cons_2; [split; [split_and!; [apply (bool_decide_eq_true_1 _); vm_compute; reflexivity|vm_compute; reflexivity..]|vm_compute; reflexivity]|]).
  apply Forall_nil_2.
Defined.

(** ** Among the threads of the daemon *)

Lemma within_run i p ok ok' c T L U p' c' L' U' z : T i = p → p ≠ TIdle → thread_step i p c L U p' c' L' U' →
  within i ok (CSys c' (<[i:=p']> T) L' U') z → ok' = answers_ok p c p' || ok → within i ok' (CSys c T L U) z.
Proof. intros <- Hne Hs Hw ->. by eapply within_own. Qed.

Tactic Notation "go" uconstr(rule) :=
  eapply within_run; [reflexivity|discriminate|eapply rule; (reflexivity || done)| |reflexivity].

(** The daemon of the example has no fact store. *)
Lemma demo_within_prepare : ∃ y, within 0 true (CSys (default init_coord (prepare_enter "op-1" 0 init_coord)) (<[0%nat:=PWait]> (λ _, TIdle)) ∅ ∅) y ∧
  assert_prepared "op-1" 0 (y_c y) = true ∧ y_t y 0%nat = TIdle ∧ m_prepared_epoch (y_c y) = None ∧ m_closed (y_c y) = false.
Proof.
  eexists. split.
  - go s_wait_over. go s_build_done. go s_hand_done. go s_wait2_over. go (s_ident 0 _ _ _ false false None). go s_publish. go s_prepare_end.
    apply within_done. reflexivity.
  - split_and!; reflexivity.
Qed.

Lemma drives_lease_ok i op evs x z : assert_prepared op i (y_c x) = true → drives i evs x z → drives i (CoLease op true :: evs) x z.
Proof. intros Ha Hd. pose proof (drives_lease i evs op x z Hd) as Hl. by rewrite Ha in Hl. Qed.

Lemma demo_starts : prepare_enter "op-1" 0 init_coord = Some (default init_coord (prepare_enter "op-1" 0 init_coord)).
Proof. reflexivity. Qed.

Lemma demo_drives_lease : ∃ y, drives 0 ([CoPrepare "op-1" false true; demo_reply] ++ [CoLease "op-1" true]) demo_coord y.
Proof.
  destruct demo_within_prepare as (y&Hw&Ha&_). exists y. simpl. eapply drives_prepare; [reflexivity|exact demo_starts|exact Hw|].
  apply drives_event; [done|]. apply drives_lease_ok; [exact Ha|apply drives_nil].
Qed.

Lemma confirmed_lease_witness : ∃ y, drives 0 ([CoPrepare "op-1" false true; demo_reply] ++ [CoLease "op-1" true]) demo_coord y ∧
  m_handles (y_c y) = ∅ ∧ y_live y = ∅.
Proof.
  destruct demo_drives_lease as [y Hd]. exists y. split; [exact Hd|].
  destruct (confirmed_lease_keeps_quiet 0 [CoPrepare "op-1" false true; demo_reply] "op-1" demo_coord y) as (_&_&Hh&_&Hl&_).
  - exists demo_coord. split; [apply demo_coord_init|apply rtc_refl].
  - reflexivity.
  - exact Hd.
  - split; assumption.
Defined.

(** Without a store the recovery after the lost lease goes back to serving. *)
Lemma demo_within_recover c T L U : T 0%nat = TIdle → m_prepared_epoch c = None → m_closed c = false →
  ∃ y, within 0 true (CSys c (<[0%nat:=RStart]> T) L U) y.
Proof.
  intros Hi Hp Hc. eexists.
  eapply within_run; [apply insert_at|discriminate|apply s_recover_nodb| |].
  2:{ simpl. symmetry. reflexivity. }
  eapply (within_run _ _ false); [apply insert_at|discriminate| | |].
  - apply s_nodb_pristine; [exact Hp|]. unfold recover_pristine. rewrite Hc. reflexivity.
  - apply within_done. apply insert_at.
  - reflexivity.
Qed.

Lemma demo_drives : ∃ y, drives 0 (_serve_connection demo_ask (λ _, true) (Some 501) 501 demo_bytes false) demo_coord y.
Proof.
  rewrite a_client_leaves. destruct demo_within_prepare as ([c T L U]&Hw&Ha&Hi&Hp&Hc).
  destruct (demo_within_recover c T L U Hi Hp Hc) as [z Hz]. exists z.
  eapply drives_prepare; [reflexivity|exact demo_starts|exact Hw|]. apply drives_event; [done|].
  apply drives_lease_ok; [exact Ha|]. apply drives_event; [done|]. eapply drives_lost; [exact Hi|exact Ha|exact Hz|].
  apply drives_event; [done|]. apply drives_nil.
Qed.

Lemma closed_connection_witness : ∃ y, drives 0 (_serve_connection demo_ask (λ _, true) (Some 501) 501 demo_bytes false) demo_coord y ∧
  ¬ ((m_state (y_c y) = Preparing ∨ m_state (y_c y) = Prepared) ∧ m_lease (y_c y) = Some 0%nat).
Proof.
  destruct demo_drives as [y Hd]. exists y. split; [exact Hd|].
  refine (proj2 (closed_connection_strands_no_lease demo_ask (λ _, true) (Some 501) 501 demo_bytes false 0 demo_coord y _ _ _ Hd)).
  - exists demo_coord. split; [apply demo_coord_init|apply rtc_refl].
  - reflexivity.
  - discriminate.
Defined.
